(** * Layout and composition engine of pubplot/proplot: a shallow embedding

    The development follows [src/pubplot/base.py] (classes [EmptyPanel],
    [Figure] and [BaseAxes]) and [src/proplot/axes/geo.py] (the gridliner
    patch [_add_gridline_label]).

    Conventions.
    - Python objects with identity (axes) live in a heap, a list indexed by
      references; [is] is equality of references.
    - Positions and sizes are idealised as rationals ([Q]); the longitude
      wrap of [geo.py] is computed on doubles.
    - A raised exception is the [Raise] branch of [Result]. *)

From Stdlib Require Import ZArith QArith Qround Qminmax Lia Lqa Ascii String.
From Stdlib Require Import Sorted Permutation Qfield.
From Stdlib Require Import Qpower Qabs.
From stdpp Require Import base option list strings pretty gmap.

Local Open Scope nat_scope.

(** ** Exceptions and the result monad *)

Inductive Exception : Type :=
| ValueError (msg : string)
| TypeError (msg : string)
| IndexError (msg : string)
| NotImplementedError (msg : string)
| AttributeError (msg : string)
| RecursionError
| DanglingReference.

Inductive Result (A : Type) : Type :=
| Ok (a : A)
| Raise (e : Exception).
Arguments Ok {A} a.
Arguments Raise {A} e.

Definition bind {A B : Type} (m : Result A) (k : A -> Result B) : Result B :=
  match m with
  | Ok a => k a
  | Raise e => Raise e
  end.

Declare Scope result_scope.
Delimit Scope result_scope with result.
Notation "'do' x <- m ; k" := (bind m (fun x => k))
  (at level 10, x name, m at level 100, k at level 200) : result_scope.
Notation "'do' ' p <- m ; k" := (bind m (fun x => match x with p => k end))
  (at level 10, p pattern, m at level 100, k at level 200) : result_scope.
Local Open Scope result_scope.

Definition is_ok {A : Type} (m : Result A) : bool :=
  match m with Ok _ => true | Raise _ => false end.

(** ** [proplot/axes/geo.py]: longitude label normalisation *)

Module Geo.

(** Python's [%] on numbers with a positive right operand: the result
    takes the sign of the divisor, [x % m = x - m * floor (x / m)]. *)
Definition pymod (x m : Q) : Q :=
  (x - m * inject_Z (Qfloor (x / m)))%Q.

(** *** Doubles

    The label values are doubles. A finite double is kept as the
    rational number it stands for; [0.0] and [-0.0] are one value. *)
Inductive float : Type :=
| Finite (q : Q)
| Infinity (negative : bool)
| NaN.

Definition two_to (e : Z) : Q := (2 ^ e)%Q.

(** The integer part of the binary logarithm of a positive number. *)
Definition ilog2 (q : Q) : Z :=
  let d := (Z.log2 (Qnum q) - Z.log2 (Zpos (Qden q)))%Z in
  if Qle_bool (two_to d) q then d else (d - 1)%Z.

(** The exponent of the last place of the doubles next to [q]: 53
    significant bits, and [2 ^ -1074] the smallest step. *)
Definition exponent (q : Q) : Z := Z.max (ilog2 (Qabs q) - 52) (-1074).

(** The nearest integer, the even one of two that are equally near. *)
Definition rne (x : Q) : Z :=
  let f := Qfloor x in
  match (x - inject_Z f ?= 1 # 2)%Q with
  | Lt => f
  | Gt => (f + 1)%Z
  | Eq => if Z.even f then f else (f + 1)%Z
  end.

Definition round (q : Q) : Q :=
  if Qeq_bool q 0 then 0%Q
  else (inject_Z (rne (q / two_to (exponent q))) * two_to (exponent q))%Q.

(** The double an exact result is rounded to: to nearest, ties to even,
    and to an infinity from [2 ^ 1024] on. *)
Definition fl (q : Q) : float :=
  let r := round q in
  if Qle_bool (two_to 1024) (Qabs r) then Infinity (negb (Qle_bool 0 r)) else Finite r.

Definition fadd (x y : float) : float :=
  match x, y with
  | NaN, _ | _, NaN => NaN
  | Infinity s, Infinity t => if Bool.eqb s t then Infinity s else NaN
  | Infinity s, Finite _ | Finite _, Infinity s => Infinity s
  | Finite a, Finite b => fl (a + b)
  end.

Definition fneg (x : float) : float :=
  match x with
  | Finite a => Finite (- a)
  | Infinity s => Infinity (negb s)
  | NaN => NaN
  end.

Definition fsub (x y : float) : float := fadd x (fneg y).

(** Rounding towards zero. *)
Definition trunc (x : Q) : Z := if Qle_bool 0 x then Qfloor x else Qceiling x.

(** C's [fmod]: the remainder has the sign of [x] and is exact. *)
Definition fmod (x y : float) : float :=
  match x, y with
  | NaN, _ | _, NaN => NaN
  | Infinity _, _ => NaN
  | Finite a, Infinity _ => Finite a
  | Finite a, Finite b =>
      if Qeq_bool b 0 then NaN else Finite (a - b * inject_Z (trunc (a / b)))%Q
  end.

Definition nonzero (x : float) : bool :=
  match x with
  | Finite a => negb (Qeq_bool a 0)
  | _ => true
  end.

Definition negative (x : float) : bool :=
  match x with
  | Finite a => negb (Qle_bool 0 a)
  | Infinity s => s
  | NaN => false
  end.

(** [%] on doubles, as the interpreter and [numpy] compute it for a
    divisor other than zero: [fmod], then the divisor is added to a
    remainder of the other sign, and a zero remainder takes the sign of
    the divisor. *)
Definition float_rem (vx wx : float) : float :=
  let rem := fmod vx wx in
  if nonzero rem then
    if negb (Bool.eqb (negative wx) (negative rem)) then fadd rem wx else rem
  else Finite 0.

(** The value handed on to the gridliner's own [_add_gridline_label]:
    [(value + 180) % 360 - 180] for the axis [x]. *)
Definition _add_gridline_label (value : float) (axis : string) : float :=
  if String.eqb axis "x" then
    fsub (float_rem (fadd value (Finite 180)) (Finite 360)) (Finite 180)
  else value.

End Geo.

(** ** [pubplot/base.py]: the object model *)

(** [name in names] on a tuple or list of strings. *)
Definition mem (name : string) (l : list string) : bool :=
  existsb (String.eqb name) l.

(** *** [EmptyPanel] *)

Module EmptyPanelClass.

(** Names bound by the class statement of [EmptyPanel]: the two methods
    it defines, its docstring, and what [type] adds to a class that
    derives from [object] without [__slots__]. *)
Definition class_namespace : list string :=
  ["__bool__"; "__getattr__"; "__doc__"; "__module__"; "__dict__";
   "__weakref__"].

(** Names every instance inherits from [object]. *)
Definition object_namespace : list string :=
  ["__class__"; "__delattr__"; "__dir__"; "__eq__"; "__format__";
   "__ge__"; "__getattribute__"; "__gt__"; "__hash__"; "__init__";
   "__init_subclass__"; "__le__"; "__lt__"; "__ne__"; "__new__";
   "__reduce__"; "__reduce_ex__"; "__repr__"; "__setattr__";
   "__sizeof__"; "__str__"; "__subclasshook__"].

(** [object.__getattribute__] on an instance whose own dictionary is
    empty: the lookup succeeds exactly on the names of the class and of
    [object]. *)
Definition __getattribute__ (attr : string) : bool :=
  mem attr class_namespace || mem attr object_namespace.

(** [EmptyPanel.__getattr__]. *)
Definition __getattr__ (attr : string) : Result string :=
  Raise (NotImplementedError "Panel does not exist.").

(** [panel.attr]: [__getattr__] runs only when [__getattribute__] fails.
    A successful lookup returns the name of the attribute found. *)
Definition getattr (attr : string) : Result string :=
  if __getattribute__ attr then Ok attr else __getattr__ attr.

(** [EmptyPanel.__bool__]. *)
Definition __bool__ : bool := false.

End EmptyPanelClass.

(** *** Axes objects *)

(** Object identity: the index of the object in the heap. *)
Abbreviation ref := nat (only parsing).

(** What a panel attribute can hold: an [EmptyPanel()], [None] (written by
    [panel_factory] for a side that was not requested), or an axes. *)
Inductive PanelSlot : Type :=
| PEmpty
| PNone
| PAxes (r : ref).

(** Truth value of a panel attribute: [EmptyPanel.__bool__] gives [False],
    [None] is false, an axes object (no [__bool__], no [__len__]) is true. *)
Definition truthy (p : PanelSlot) : bool :=
  match p with
  | PEmpty => EmptyPanelClass.__bool__
  | PNone => false
  | PAxes _ => true
  end.

Inductive Transform : Type :=
| TransDefault
| TransFigureX   (* blended (transFigure, identity) *)
| TransFigureY.  (* blended (identity, transFigure) *)

Record Label : Type := mkLabel {
  text : string;
  visible : bool;
  position : Q * Q;
  transform : Transform
}.

Definition set_text (s : string) (l : Label) : Label :=
  mkLabel s (visible l) (position l) (transform l).
Definition set_visible (b : bool) (l : Label) : Label :=
  mkLabel (text l) b (position l) (transform l).
Definition set_position (p : Q * Q) (l : Label) : Label :=
  mkLabel (text l) (visible l) p (transform l).
Definition set_transform (t : Transform) (l : Label) : Label :=
  mkLabel (text l) (visible l) (position l) t.

(** [ax.get_position()], a bounding box in figure fractions. *)
Record Bbox : Type := mkBbox {
  xmin : Q; xmax : Q; ymin : Q; ymax : Q
}.

(** The class of an axes, as far as the [isinstance] tests of the source
    see it: an axes that is not a [BaseAxes], a [BaseAxes] that is not a
    [PanelAxes], or a [PanelAxes]. *)
Inductive AxesKind : Type :=
| ForeignAxes
| MainAxes
| PanelAxes.

(** One direction (x or y) of an axes: the axis label, the tick labels, and
    the [_sharex]/[_spanx]/[_spanx_group] attributes (resp. y). *)
Record AxisState : Type := mkAxis {
  label : Label;
  ticklabels_visible : bool;
  share : option ref;
  span : option ref;
  span_group : list ref
}.

Definition set_label (f : Label -> Label) (s : AxisState) : AxisState :=
  mkAxis (f (label s)) (ticklabels_visible s) (share s) (span s) (span_group s).
Definition set_ticklabels_visible (b : bool) (s : AxisState) : AxisState :=
  mkAxis (label s) b (share s) (span s) (span_group s).
Definition set_share (r : option ref) (s : AxisState) : AxisState :=
  mkAxis (label s) (ticklabels_visible s) r (span s) (span_group s).
Definition set_span (r : option ref) (g : list ref) (s : AxisState) : AxisState :=
  mkAxis (label s) (ticklabels_visible s) (share s) r g.

Record Axes : Type := mkAxes {
  kind : AxesKind;
  rows : nat * nat;
  cols : nat * nat;
  bbox : Bbox;
  panelparent : option ref;
  panelside : option string;
  leftpanel : PanelSlot;
  rightpanel : PanelSlot;
  bottompanel : PanelSlot;
  toppanel : PanelSlot;
  xaxis : AxisState;
  yaxis : AxisState;
  title : Label;
  _title_inside : bool;
  rowlabel : Label;
  collabel : Label
}.

Definition set_panels (l r b t : PanelSlot) (a : Axes) : Axes :=
  mkAxes (kind a) (rows a) (cols a) (bbox a) (panelparent a) (panelside a)
         l r b t (xaxis a) (yaxis a) (title a) (_title_inside a)
         (rowlabel a) (collabel a).
Definition set_xaxis (f : AxisState -> AxisState) (a : Axes) : Axes :=
  mkAxes (kind a) (rows a) (cols a) (bbox a) (panelparent a) (panelside a)
         (leftpanel a) (rightpanel a) (bottompanel a) (toppanel a)
         (f (xaxis a)) (yaxis a) (title a) (_title_inside a)
         (rowlabel a) (collabel a).
Definition set_yaxis (f : AxisState -> AxisState) (a : Axes) : Axes :=
  mkAxes (kind a) (rows a) (cols a) (bbox a) (panelparent a) (panelside a)
         (leftpanel a) (rightpanel a) (bottompanel a) (toppanel a)
         (xaxis a) (f (yaxis a)) (title a) (_title_inside a)
         (rowlabel a) (collabel a).
Definition set_rowlabel (f : Label -> Label) (a : Axes) : Axes :=
  mkAxes (kind a) (rows a) (cols a) (bbox a) (panelparent a) (panelside a)
         (leftpanel a) (rightpanel a) (bottompanel a) (toppanel a)
         (xaxis a) (yaxis a) (title a) (_title_inside a)
         (f (rowlabel a)) (collabel a).
Definition set_collabel (f : Label -> Label) (a : Axes) : Axes :=
  mkAxes (kind a) (rows a) (cols a) (bbox a) (panelparent a) (panelside a)
         (leftpanel a) (rightpanel a) (bottompanel a) (toppanel a)
         (xaxis a) (yaxis a) (title a) (_title_inside a)
         (rowlabel a) (f (collabel a)).

(** The attributes of the source, under their names. *)
Definition _sharex (a : Axes) : option ref := share (xaxis a).
Definition _sharey (a : Axes) : option ref := share (yaxis a).
Definition _spanx (a : Axes) : option ref := span (xaxis a).
Definition _spany (a : Axes) : option ref := span (yaxis a).
Definition _spanx_group (a : Axes) : list ref := span_group (xaxis a).
Definition _spany_group (a : Axes) : list ref := span_group (yaxis a).

(** The four panel attributes in the order left, right, bottom, top. *)
Definition panels_of (a : Axes) : list PanelSlot :=
  [leftpanel a; rightpanel a; bottompanel a; toppanel a].

(** *** Share groups

    [_shared_x_axes] and [_shared_y_axes] are matplotlib [Grouper]s, shared
    by all axes. A grouper is observed through the partition it keeps, so
    it is modelled by a function to class representatives: [join a b]
    merges the class of [b] into the class of [a]. *)

Definition Grouper : Type := ref -> ref.

Definition grouper_init : Grouper := fun x => x.

Definition join (a b : ref) (g : Grouper) : Grouper :=
  fun x => if g x =? g b then g a else g x.

Definition joined (g : Grouper) (a b : ref) : bool := g a =? g b.

(** *** The figure *)

(** The keys of [_subplots_kw] that the figure reads and writes (inches). *)
Record SubplotsKw : Type := mkKw {
  kw_left : Q; kw_right : Q; kw_bottom : Q; kw_top : Q;
  kw_lspace : Q; kw_rspace : Q; kw_bspace : Q;
  kw_lwidth : Q; kw_rwidth : Q
}.

(** The outer margins of the top-level gridspec (figure fractions). *)
Record GridSpec : Type := mkGridSpec {
  gs_left : Q; gs_right : Q; gs_bottom : Q; gs_top : Q
}.

Record Figure : Type := mkFigure {
  _rcreset : bool;
  _smart_pad : Q;
  _smart_tight : bool;
  _smart_tight_init : bool;
  _gridspec : option GridSpec;
  _subplots_kw : option SubplotsKw;
  width : Q;
  height : Q;
  fig_leftpanel : PanelSlot;
  fig_bottompanel : PanelSlot;
  fig_rightpanel : PanelSlot;
  fig_toppanel : PanelSlot;
  axes : list ref;
  _suptitle : option (Q * Q);
  size_inches : Q * Q
}.

(** Calls that leave the modelled state: the renderer, the gridspec, the
    configuration and the parent class. *)
Inductive Event : Type :=
| EvGetTightBbox
| EvGridspecUpdate (gs : GridSpec)
| EvSetSizeInches (size : Q * Q)
| EvRcReset
| EvSuperDraw.

Record World : Type := mkWorld {
  heap : list Axes;
  fig : Figure;
  _shared_x_axes : Grouper;
  _shared_y_axes : Grouper;
  log : list Event
}.

Definition set_heap (h : list Axes) (w : World) : World :=
  mkWorld h (fig w) (_shared_x_axes w) (_shared_y_axes w) (log w).
Definition set_fig (f : Figure) (w : World) : World :=
  mkWorld (heap w) f (_shared_x_axes w) (_shared_y_axes w) (log w).
Definition set_shared_x (g : Grouper) (w : World) : World :=
  mkWorld (heap w) (fig w) g (_shared_y_axes w) (log w).
Definition set_shared_y (g : Grouper) (w : World) : World :=
  mkWorld (heap w) (fig w) (_shared_x_axes w) g (log w).
Definition emit (e : Event) (w : World) : World :=
  mkWorld (heap w) (fig w) (_shared_x_axes w) (_shared_y_axes w) (log w ++ [e]).

(** Dereference. Python references never dangle; [DanglingReference] only
    marks worlds that are not heaps of a Python program. *)
Definition get (w : World) (r : ref) : Result Axes :=
  match heap w !! r with
  | Some a => Ok a
  | None => Raise DanglingReference
  end.

(** In-place mutation of the object behind [r]. *)
Definition modify (r : ref) (f : Axes -> Axes) (w : World) : World :=
  set_heap (alter f r (heap w)) w.

(** The arguments [panel_factory] hands to
    [FlexibleGridSpecFromSubplotSpec]. *)
Record NestedGrid : Type := mkNestedGrid {
  nrows : nat;
  ncols : nat;
  subplot_spec : Bbox;
  wspace : Q;
  hspace : Q;
  width_ratios : list Q;
  height_ratios : list Q
}.

(** What lies outside [src/]: the renderer's measurement, the gridspec
    solver of [gridspec.py] (margins from [_subplots_kw], the position of a
    cell of a nested grid), the configuration [rc], the text geometry of
    matplotlib, and [utils.fill]. *)
Record Env : Type := mkEnv {
  get_tightbbox : World -> Bbox;
  _gridspec_kwargs : SubplotsKw -> Result ((Q * Q) * GridSpec);
  rc_init : bool;
  rc_titlepad : Q;
  title_size : Axes -> Q;
  title_linespacing : Axes -> Q;
  ylabel_x_in_axes : Axes -> Q;
  cell_bbox : NestedGrid -> nat -> nat -> Bbox;
  fill : option Q -> Q -> Q
}.

(** *** Span groups: [_spanx_setup], [_spany_setup] *)

Definition Qltb (x y : Q) : bool := negb (Qle_bool y x).

(** [min] and [max] over a generator: the first element starts the
    running value, a later one replaces it only when strictly smaller
    (greater); the empty sequence raises [ValueError]. *)
Definition py_min (l : list Q) : Result Q :=
  match l with
  | [] => Raise (ValueError "min() arg is an empty sequence")
  | x :: l' => Ok (fold_left (fun m y => if Qltb y m then y else m) l' x)
  end.

Definition py_max (l : list Q) : Result Q :=
  match l with
  | [] => Raise (ValueError "max() arg is an empty sequence")
  | x :: l' => Ok (fold_left (fun m y => if Qltb m y then y else m) l' x)
  end.

(** [f(ax) for ax in group], in order. *)
Fixpoint for_each_get {A : Type} (w : World) (f : Axes -> A) (group : list ref)
  : Result (list A) :=
  match group with
  | [] => Ok []
  | r :: rest =>
      do a <- get w r;
      do tl <- for_each_get w f rest;
      Ok (f a :: tl)
  end.

Definition _spanx_setup (self : ref) (group : list ref) (w : World) : Result World :=
  do _ <- get w self;
  let w := modify self (set_xaxis (set_label (set_transform TransFigureX))) w in
  do xmins <- for_each_get w (fun ax => xmin (bbox ax)) group;
  do xmin <- py_min xmins;
  do xmaxs <- for_each_get w (fun ax => xmax (bbox ax)) group;
  do xmax <- py_max xmaxs;
  let w := modify self
             (set_xaxis (set_label (set_position (((xmin + xmax) / 2)%Q, 0%Q)))) w in
  Ok (fold_left
        (fun w ax =>
           let w := modify ax (set_xaxis (set_span (Some self) group)) w in
           if negb (ax =? self)
           then modify ax (set_xaxis (set_label (set_visible false))) w
           else modify ax (set_xaxis (set_label (set_visible true))) w)
        group w).

Definition _spany_setup (self : ref) (group : list ref) (w : World) : Result World :=
  do _ <- get w self;
  let w := modify self (set_yaxis (set_label (set_transform TransFigureY))) w in
  do ymins <- for_each_get w (fun ax => ymin (bbox ax)) group;
  do ymin <- py_min ymins;
  do ymaxs <- for_each_get w (fun ax => ymax (bbox ax)) group;
  do ymax <- py_max ymaxs;
  let w := modify self
             (set_yaxis (set_label (set_position (0%Q, ((ymin + ymax) / 2)%Q)))) w in
  Ok (fold_left
        (fun w ax =>
           let w := modify ax (set_yaxis (set_span (Some self) group)) w in
           if negb (ax =? self)
           then modify ax (set_yaxis (set_label (set_visible true))) w
           else w)
        group w).

(** *** Share groups: [_sharex_setup], [_sharey_setup]

    The methods call themselves on the panels. [fuel] bounds the depth of
    the nested calls, as the interpreter's recursion limit does; running
    out of it is [RecursionError]. *)

Fixpoint _sharex_setup (fuel : nat) (self : ref) (sharex : option ref) (w : World)
  : Result World :=
  match sharex with
  | None => Ok w
  | Some sx =>
      if self =? sx then Ok w else
      match fuel with
      | 0 => Raise RecursionError
      | S fuel =>
          (* vertical panels share their x axis with each other *)
          do a <- get w self; do b <- get w sx;
          do w <- match leftpanel a, leftpanel b with
                  | PAxes p, PAxes q => _sharex_setup fuel p (Some q) w
                  | _, _ => Ok w
                  end;
          do a <- get w self; do b <- get w sx;
          do w <- match rightpanel a, rightpanel b with
                  | PAxes p, PAxes q => _sharex_setup fuel p (Some q) w
                  | _, _ => Ok w
                  end;
          (* horizontal panels share their x axis with sharex *)
          do a <- get w self;
          do w <- match bottompanel a with
                  | PAxes p =>
                      if negb (sx =? p) then _sharex_setup fuel p (Some sx) w
                      else Ok w
                  | _ => Ok w
                  end;
          do a <- get w self;
          do w <- match toppanel a with
                  | PAxes p =>
                      if negb (sx =? p) then _sharex_setup fuel p (Some sx) w
                      else Ok w
                  | _ => Ok w
                  end;
          (* builtin features, then hide tick labels and axis label *)
          let w := modify self (set_xaxis (set_share (Some sx))) w in
          let w := set_shared_x (join self sx (_shared_x_axes w)) w in
          let w := modify self (set_xaxis (set_ticklabels_visible false)) w in
          Ok (modify self (set_xaxis (set_label (set_visible false))) w)
      end
  end.

Fixpoint _sharey_setup (fuel : nat) (self : ref) (sharey : option ref) (w : World)
  : Result World :=
  match sharey with
  | None => Ok w
  | Some sy =>
      if self =? sy then Ok w else
      match fuel with
      | 0 => Raise RecursionError
      | S fuel =>
          (* horizontal panels share their y axis with each other *)
          do a <- get w self; do b <- get w sy;
          do w <- match bottompanel a, bottompanel b with
                  | PAxes p, PAxes q => _sharey_setup fuel p (Some q) w
                  | _, _ => Ok w
                  end;
          do a <- get w self; do b <- get w sy;
          do w <- match toppanel a, toppanel b with
                  | PAxes p, PAxes q => _sharey_setup fuel p (Some q) w
                  | _, _ => Ok w
                  end;
          (* vertical panels share their y axis with sharey *)
          do a <- get w self;
          do w <- match leftpanel a with
                  | PAxes p => _sharey_setup fuel p (Some sy) w
                  | _ => Ok w
                  end;
          do a <- get w self;
          do w <- match rightpanel a with
                  | PAxes p => _sharey_setup fuel p (Some sy) w
                  | _ => Ok w
                  end;
          let w := modify self (set_yaxis (set_share (Some sy))) w in
          let w := set_shared_y (join self sy (_shared_y_axes w)) w in
          let w := modify self (set_yaxis (set_ticklabels_visible false)) w in
          Ok (modify self (set_yaxis (set_label (set_visible false))) w)
      end
  end.

(** [_panel_setup]. The comprehension
    [[ax.bottompanel for ax in group if ax.bottompanel is not None]]
    keeps [EmptyPanel] objects; [_spanx_setup] then fails on the first of
    them, through [EmptyPanel.__getattr__]. *)
Fixpoint panel_group (slots : list PanelSlot) : Result (list ref) :=
  match slots with
  | [] => Ok []
  | PNone :: rest => panel_group rest
  | PEmpty :: _ => do _ <- EmptyPanelClass.__getattr__ "get_position"; Ok []
  | PAxes p :: rest => do tl <- panel_group rest; Ok (p :: tl)
  end.

Definition _panel_setup (fuel : nat) (self : ref) (w : World) : Result World :=
  (* first fix the sharex/sharey settings *)
  do a <- get w self;
  do w <- match bottompanel a with
          | PAxes p => _sharex_setup fuel self (Some p) w
          | _ => Ok w
          end;
  do a <- get w self;
  do w <- match leftpanel a with
          | PAxes p => _sharey_setup fuel self (Some p) w
          | _ => Ok w
          end;
  do a <- get w self;
  let bottom := match bottompanel a with PAxes p => p | _ => self end in
  let left := match leftpanel a with PAxes p => p | _ => self end in
  do w <- match toppanel a with
          | PAxes p => _sharex_setup fuel p (Some bottom) w
          | _ => Ok w
          end;
  do a <- get w self;
  do w <- match rightpanel a with
          | PAxes p => _sharex_setup fuel p (Some left) w
          | _ => Ok w
          end;
  (* next fix the spanx/spany settings *)
  do a <- get w self;
  do w <- match bottompanel a, _spanx_group a with
          | PAxes p, _ :: _ =>
              do slots <- for_each_get w bottompanel (_spanx_group a);
              do group <- panel_group slots;
              _spanx_setup p group w
          | _, _ => Ok w
          end;
  do a <- get w self;
  match leftpanel a, _spany_group a with
  | PAxes p, _ :: _ =>
      do slots <- for_each_get w leftpanel (_spany_group a);
      do group <- panel_group slots;
      _spany_setup p group w
  | _, _ => Ok w
  end.

(** *** Construction: [Figure.__init__], [BaseAxes.__init__] *)

Definition Figure__init__ (figsize : Q * Q) (gridspec : option GridSpec)
    (subplots_kw : option SubplotsKw) (rcreset tight : bool) (pad : Q) : Figure :=
  {| _rcreset := rcreset;
     _smart_pad := pad;
     _smart_tight := tight;
     _smart_tight_init := true;
     _gridspec := gridspec;
     _subplots_kw := subplots_kw;
     width := fst figsize;
     height := snd figsize;
     fig_leftpanel := PEmpty;
     fig_bottompanel := PEmpty;
     fig_rightpanel := PEmpty;
     fig_toppanel := PEmpty;
     axes := [];
     _suptitle := None;
     size_inches := figsize |}.

Definition dquote : string := String (ascii_of_nat 34) EmptyString.

Definition fresh_label (pos : Q * Q) : Label :=
  mkLabel EmptyString true pos TransDefault.

Definition fresh_axis (pos : Q * Q) : AxisState :=
  mkAxis (fresh_label pos) true None None [].

(** [panelside not in (None, 'left', 'right', 'bottom', 'top')]. *)
Definition valid_panelside (side : option string) : bool :=
  match side with
  | None => true
  | Some s => mem s ["left"; "right"; "bottom"; "top"]
  end.

(** The object as [BaseAxes.__init__] leaves it before any share or span
    set-up: labels empty and visible, the four panels [EmptyPanel()]. *)
Definition new_axes (k : AxesKind) (row col : nat) (pos : Bbox)
    (parent : option ref) (side : option string) : Axes :=
  {| kind := k;
     rows := (row, row);
     cols := (col, col);
     bbox := pos;
     panelparent := parent;
     panelside := side;
     leftpanel := PEmpty;
     rightpanel := PEmpty;
     bottompanel := PEmpty;
     toppanel := PEmpty;
     xaxis := fresh_axis (1 # 2, 0)%Q;
     yaxis := fresh_axis (0, 1 # 2)%Q;
     title := fresh_label (1 # 2, 1)%Q;
     _title_inside := false;
     rowlabel := fresh_label (0, 1 # 2)%Q;
     collabel := fresh_label (1 # 2, 1)%Q |}.

(** [BaseAxes.__init__], for the axes at grid cell [(row, col)] whose
    position is [pos]. The new object is the next free reference. *)
Definition BaseAxes__init__ (fuel : nat) (k : AxesKind) (row col : nat) (pos : Bbox)
    (sharex sharey : option ref) (spanx_group spany_group : list ref)
    (parent : option ref) (side : option string) (w : World)
  : Result (World * ref) :=
  let self := length (heap w) in
  if negb (valid_panelside side) then
    Raise (ValueError ("Invalid panel side " +:+ dquote +:+ default EmptyString side
                         +:+ dquote +:+ "."))
  else
    let w := set_heap (heap w ++ [new_axes k row col pos parent side]) w in
    do w <- match sharex with
            | Some _ => _sharex_setup fuel self sharex w
            | None => Ok w
            end;
    do w <- match sharey with
            | Some _ => _sharey_setup fuel self sharey w
            | None => Ok w
            end;
    do w <- match spanx_group with
            | _ :: _ => _spanx_setup self spanx_group w
            | [] => Ok w
            end;
    do w <- match spany_group with
            | _ :: _ => _spany_setup self spany_group w
            | [] => Ok w
            end;
    Ok (w, self).

Definition set_axes (l : list ref) (f : Figure) : Figure :=
  mkFigure (_rcreset f) (_smart_pad f) (_smart_tight f) (_smart_tight_init f)
           (_gridspec f) (_subplots_kw f) (width f) (height f)
           (fig_leftpanel f) (fig_bottompanel f) (fig_rightpanel f) (fig_toppanel f)
           l (_suptitle f) (size_inches f).

(** [Figure.add_subplot(gs[r, c], **kwargs)]: the axes class named by the
    projection is instantiated and appended to [figure.axes].
    [PanelAxes.__init__] first insists on a side. *)
Definition add_subplot (env : Env) (fuel : nat) (k : AxesKind) (gs : NestedGrid)
    (r c : nat) (side : option string) (parent : option ref) (w : World)
  : Result (World * ref) :=
  do _ <- match k, side with
          | PanelAxes, None => Raise (ValueError "Must specify side.")
          | _, _ => Ok tt
          end;
  do '(w, ax) <- BaseAxes__init__ fuel k r c (cell_bbox env gs r c)
                   None None [] [] parent side w;
  Ok (set_fig (set_axes (axes (fig w) ++ [ax]) (fig w)) w, ax).

(** *** [Figure.panel_factory] *)

Definition char_in (c : ascii) (s : string) : bool :=
  existsb (Ascii.eqb c) (list_ascii_of_string s).

(** [str.lower] on one ASCII character. *)
Definition lower (c : ascii) : ascii :=
  let n := nat_of_ascii c in
  if (65 <=? n) && (n <=? 90) then ascii_of_nat (n + 32) else c.

(** [translate.get(whichpanels, whichpanels)] with
    [translate = {'bottom':'b', 'top':'t', 'right':'r', 'left':'l'}]. *)
Definition translate_word (whichpanels : option string) : option string :=
  match whichpanels with
  | None => None
  | Some s =>
      if String.eqb s "bottom" then Some "b"
      else if String.eqb s "top" then Some "t"
      else if String.eqb s "right" then Some "r"
      else if String.eqb s "left" then Some "l"
      else Some s
  end%string.

(** [whichpanels or 'r']: [None] and the empty string are false. *)
Definition or_r (whichpanels : option string) : string :=
  match whichpanels with
  | None => "r"
  | Some EmptyString => "r"
  | Some s => s
  end%string.

(** [{'b':'bottom', 't':'top', 'l':'left', 'r':'right'}.get(side, None)]. *)
Definition translate_side (side : option ascii) : option string :=
  match side with
  | None => None
  | Some c =>
      if Ascii.eqb c "b" then Some "bottom"%string
      else if Ascii.eqb c "t" then Some "top"%string
      else if Ascii.eqb c "l" then Some "left"%string
      else if Ascii.eqb c "r" then Some "right"%string
      else None
  end%char.

(** [[l for l in sides if not l or l in whichpanels]]. *)
Definition keep_sides (sides : list (option ascii)) (whichpanels : string)
  : list (option ascii) :=
  List.filter (fun l => match l with
                        | None => true
                        | Some c => char_in c whichpanels
                        end) sides.

Definition count_in (chars whichpanels : string) : nat :=
  length (List.filter (fun i => char_in i chars) (list_ascii_of_string whichpanels)).

Definition int (b : bool) : nat := if b then 1 else 0.

Definition pos_eqb (p q : nat * nat) : bool :=
  (fst p =? fst q) && (snd p =? snd q).

(** [empty_pos]: the positions of the corners whose two letters both occur
    in [whichpanels], in the order [tl], [tr], [bl], [br] of the dict. *)
Definition empty_positions (whichpanels : string) (main_pos : nat * nat)
  : list (nat * nat) :=
  let corners :=
    [ (("t", "l"), (0, 0));
      (("t", "r"), (0, snd main_pos + 1));
      (("b", "l"), (fst main_pos + 1, 0));
      (("b", "r"), (fst main_pos + 1, snd main_pos + 1)) ]%char in
  map snd
      (List.filter (fun '((c0, c1), _) => char_in c0 whichpanels && char_in c1 whichpanels)
                   corners).

Definition enumerate {A : Type} (l : list A) : list (nat * A) :=
  combine (seq 0 (length l)) l.

(** The iterations of the nested loops over [enumerate(sides_tb)] and
    [enumerate(sides_lr)], in the order they run. *)
Definition grid_cells (sides_tb sides_lr : list (option ascii))
  : list ((nat * nat) * (option ascii * option ascii)) :=
  flat_map (fun '(r, side_tb) =>
              map (fun '(c, side_lr) => ((r, c), (side_tb, side_lr)))
                  (enumerate sides_lr))
           (enumerate sides_tb).

(** [[total - panel*(n-1)]*n], the guard on its first entry, then the
    panel entries overwritten. *)
Definition panel_ratios (what : string) (total panel : Q) (n main : nat)
  : Result (list Q) :=
  let ratios := repeat (total - panel * inject_Z (Z.of_nat (n - 1)))%Q n in
  match ratios with
  | first :: _ =>
      if Qltb first 0 then
        Raise (ValueError ("Panel " +:+ what +:+ " is too large."))
      else
        Ok (map (fun '(i, x) => if negb (i =? main) then panel else x)
                (enumerate ratios))
  | [] => Raise (IndexError "list index out of range")
  end.

(** The dict [panels]: the latest binding of a key is found first. *)
Definition panels_get (side : string) (panels : list (option string * ref)) : PanelSlot :=
  match List.find (fun '(k, _) => match k with
                                   | Some s => String.eqb s side
                                   | None => false
                                   end) panels with
  | Some (_, ax) => PAxes ax
  | None => PNone
  end.

Fixpoint draw_panels (env : Env) (fuel : nat) (gs : NestedGrid) (axmain : ref)
    (empty_pos : list (nat * nat)) (main_pos : nat * nat)
    (cells : list ((nat * nat) * (option ascii * option ascii)))
    (panels : list (option string * ref)) (w : World)
  : Result (World * list (option string * ref)) :=
  match cells with
  | [] => Ok (w, panels)
  | (rc, (side_tb, side_lr)) :: rest =>
      if existsb (pos_eqb rc) empty_pos || pos_eqb rc main_pos then
        draw_panels env fuel gs axmain empty_pos main_pos rest panels w
      else
        let side := translate_side (match side_tb with
                                    | Some s => Some s
                                    | None => side_lr
                                    end) in
        do '(w, ax) <- add_subplot env fuel PanelAxes gs (fst rc) (snd rc)
                         side (Some axmain) w;
        draw_panels env fuel gs axmain empty_pos main_pos rest
                    ((side, ax) :: panels) w
  end.

Definition panel_factory (env : Env) (fuel : nat) (subspec : Bbox)
    (whichpanels : option string) (hspace wspace hwidth wwidth : option Q)
    (sharex sharey : option ref) (w : World)
  : Result (World * ref) :=
  let width := width (fig w) in
  let height := height (fig w) in
  let whichpanels := translate_word whichpanels in
  let whichpanels := or_r whichpanels in
  let hspace := fill env hspace (13 # 100) in
  let wspace := fill env wspace (13 # 100) in
  let hwidth := fill env hwidth (3 # 10) in
  let wwidth := fill env wwidth (3 # 10) in
  if existsb (fun s => negb (char_in (lower s) "lrbt"))
             (list_ascii_of_string whichpanels)
  then Raise (ValueError
                ("Whichpanels argument can contain characters l (left), r (right), b (bottom), or t (top), instead got "
                   +:+ dquote +:+ whichpanels +:+ dquote +:+ "."))
  else
    (* rows/columns and indices *)
    let nrows := 1 + count_in "bt" whichpanels in
    let ncols := 1 + count_in "lr" whichpanels in
    let sides_lr := keep_sides [Some "l"; None; Some "r"]%char whichpanels in
    let sides_tb := keep_sides [Some "t"; None; Some "b"]%char whichpanels in
    (* empty positions and main axes position *)
    let main_pos := (int (char_in "t" whichpanels), int (char_in "l" whichpanels)) in
    let empty_pos := empty_positions whichpanels main_pos in
    (* wspace/hspace in inches *)
    let height := ((ymax subspec - ymin subspec) * height
                   - hspace * inject_Z (Z.of_nat (nrows - 1)))%Q in
    let hspace := (hspace / (height / inject_Z (Z.of_nat nrows)))%Q in
    let width := ((xmax subspec - xmin subspec) * width
                  - wspace * inject_Z (Z.of_nat (ncols - 1)))%Q in
    let wspace := (wspace / (width / inject_Z (Z.of_nat ncols)))%Q in
    (* hratios/wratios *)
    do wwidth_ratios <- panel_ratios "wwidth" width wwidth ncols (snd main_pos);
    do hwidth_ratios <- panel_ratios "hwidth" height hwidth nrows (fst main_pos);
    (* subplotspec, then the axes *)
    let gs := {| nrows := nrows; ncols := ncols; subplot_spec := subspec;
                 wspace := wspace; hspace := hspace;
                 width_ratios := wwidth_ratios;
                 height_ratios := hwidth_ratios |} in
    do '(w, axmain) <- add_subplot env fuel MainAxes gs (fst main_pos) (snd main_pos)
                         None None w;
    do '(w, panels) <- draw_panels env fuel gs axmain empty_pos main_pos
                         (grid_cells sides_tb sides_lr) [] w;
    (* attributes, then axes sharing *)
    let w := modify axmain
               (fun a => set_panels (leftpanel a) (rightpanel a)
                                    (panels_get "bottom" panels) (toppanel a) a) w in
    let w := modify axmain
               (fun a => set_panels (leftpanel a) (rightpanel a)
                                    (bottompanel a) (panels_get "top" panels) a) w in
    let w := modify axmain
               (fun a => set_panels (panels_get "left" panels) (rightpanel a)
                                    (bottompanel a) (toppanel a) a) w in
    let w := modify axmain
               (fun a => set_panels (leftpanel a) (panels_get "right" panels)
                                    (bottompanel a) (toppanel a) a) w in
    do w <- _sharex_setup fuel axmain sharex w;
    do w <- _sharey_setup fuel axmain sharey w;
    Ok (w, axmain).

(** *** Row and column labels: [Figure._rowlabels], [Figure._collabels] *)

(** The [labels] argument: one string, or a list of strings. *)
Inductive Labels : Type :=
| LabelStr (s : string)
| LabelList (l : list string).

Definition nonempty (s : string) : bool :=
  match s with
  | EmptyString => false
  | String _ _ => true
  end.

Definition is_BaseAxes (ax : Axes) : bool :=
  match kind ax with ForeignAxes => false | _ => true end.

Definition is_PanelAxes (ax : Axes) : bool :=
  match kind ax with PanelAxes => true | _ => false end.

(** [for ax in self.axes: if test(ax): axs.append(ax)]. *)
Fixpoint select_axes (w : World) (test : Axes -> bool) (l : list ref)
  : Result (list ref) :=
  match l with
  | [] => Ok []
  | r :: rest =>
      do ax <- get w r;
      do tl <- select_axes w test rest;
      Ok (if test ax then r :: tl else tl)
  end.

(** [(k1, ax1) < (k2, ax2)] on tuples: the keys decide when they differ;
    equal keys on the same object give [False]; equal keys on two axes
    compare the axes, which do not define an order. *)
Definition pair_lt (x y : nat * ref) : Result bool :=
  if negb (fst x =? fst y) then Ok (fst x <? fst y)
  else if snd x =? snd y then Ok false
  else Raise (TypeError "'<' not supported between instances of 'Axes' and 'Axes'").

Fixpoint insert_pair (x : nat * ref) (l : list (nat * ref))
  : Result (list (nat * ref)) :=
  match l with
  | [] => Ok [x]
  | y :: rest =>
      do lt <- pair_lt x y;
      if lt then Ok (x :: y :: rest)
      else do tl <- insert_pair x rest; Ok (y :: tl)
  end.

(** [sorted(zip(keys, axs))], as a stable insertion sort. *)
Fixpoint py_sorted (l : list (nat * ref)) : Result (list (nat * ref)) :=
  match l with
  | [] => Ok []
  | x :: rest => do tl <- py_sorted rest; insert_pair x tl
  end.

Fixpoint for_each {A : Type} (body : A -> World -> Result World) (l : list A)
    (w : World) : Result World :=
  match l with
  | [] => Ok w
  | x :: rest => do w <- body x w; for_each body rest w
  end.

Definition broadcast (labels : Labels) (n : nat) : list string :=
  match labels with
  | LabelStr s => repeat s n
  | LabelList l => l
  end.

Definition _rowlabels (env : Env) (labels : Labels) (w : World) : Result World :=
  do axs <- select_axes w
              (fun ax => is_BaseAxes ax && negb (is_PanelAxes ax) && (fst (cols ax) =? 0))
              (axes (fig w));
  let labels := broadcast labels (length axs) in
  if negb (length labels =? length axs) then
    Raise (ValueError ("Got " +:+ pretty (length labels) +:+ " labels, but there are "
                         +:+ pretty (length axs) +:+ " rows."))
  else
    do keys <- for_each_get w (fun ax => fst (rows ax)) axs;
    do sorted <- py_sorted (combine keys axs);
    let axs := map snd sorted in
    for_each
      (fun '(ax, label) w =>
         do a <- get w ax;
         if nonempty label && negb (nonempty (text (rowlabel a))) then
           let x := ylabel_x_in_axes env a in
           let w := modify ax (set_rowlabel (set_visible true)) w in
           Ok (modify ax (set_rowlabel
                            (fun l => set_position (x, 1 # 2)%Q (set_text label l))) w)
         else Ok w)
      (combine axs labels) w.

Definition _collabels (env : Env) (labels : Labels) (w : World) : Result World :=
  do axs <- select_axes w
              (fun ax => is_BaseAxes ax && negb (is_PanelAxes ax) && (fst (rows ax) =? 0))
              (axes (fig w));
  let labels := broadcast labels (length axs) in
  if negb (length labels =? length axs) then
    Raise (ValueError ("Got " +:+ pretty (length labels) +:+ " labels, but there are "
                         +:+ pretty (length axs) +:+ " columns."))
  else
    do keys <- for_each_get w (fun ax => fst (cols ax)) axs;
    do sorted <- py_sorted (combine keys axs);
    let axs := map snd sorted in
    for_each
      (fun '(ax, label) w =>
         do a <- get w ax;
         if nonempty label && negb (nonempty (text (collabel a))) then
           Ok (modify ax (set_collabel (set_text label)) w)
         else Ok w)
      (combine axs labels) w.

(** *** Drawing: [_suptitle_setup], [smart_tight_layout], [draw] *)

Definition set_suptitle (p : Q * Q) (f : Figure) : Figure :=
  mkFigure (_rcreset f) (_smart_pad f) (_smart_tight f) (_smart_tight_init f)
           (_gridspec f) (_subplots_kw f) (width f) (height f)
           (fig_leftpanel f) (fig_bottompanel f) (fig_rightpanel f) (fig_toppanel f)
           (axes f) (Some p) (size_inches f).

(** The writes of [smart_tight_layout] to the figure. *)
Definition set_tight (kw : SubplotsKw) (gs : GridSpec) (size : Q * Q) (f : Figure)
  : Figure :=
  mkFigure (_rcreset f) (_smart_pad f) (_smart_tight f) false
           (Some gs) (Some kw) (width f) (height f)
           (fig_leftpanel f) (fig_bottompanel f) (fig_rightpanel f) (fig_toppanel f)
           (axes f) (_suptitle f) size.

Definition _suptitle_setup (env : Env) (offset : bool) (w : World) : Result World :=
  let f := fig w in
  do ax0 <- match axes f with
            | [] => Raise (IndexError "list index out of range")
            | r :: _ => get w r
            end;
  let title_height := (title_size env ax0 / 72)%Q in
  let line_spacing := title_linespacing env ax0 in
  do gs <- match _gridspec f with
           | Some gs => Ok gs
           | None => Raise (AttributeError "'NoneType' object has no attribute 'top'")
           end;
  let base := (rc_titlepad env / 72 + gs_top gs * height f)%Q in
  do kw <- match _subplots_kw f with
           | Some kw => Ok kw
           | None => Raise (AttributeError "'NoneType' object has no attribute 'left'")
           end;
  let left := kw_left kw in
  let right := kw_right kw in
  let left := if truthy (fig_leftpanel f)
              then (left + (kw_lwidth kw + kw_lspace kw))%Q else left in
  let right := if truthy (fig_rightpanel f)
               then (right + (kw_rwidth kw + kw_rspace kw))%Q else right in
  let xpos := (left / width f + (1 # 2) * (width f - left - right) / width f)%Q in
  let offset := if offset then (line_spacing * title_height)%Q else 0%Q in
  let ypos := ((base + offset) / height f)%Q in
  Ok (set_fig (set_suptitle (xpos, ypos) f) w).

Definition smart_tight_layout (env : Env) (pad : option Q) (w : World) : Result World :=
  let f := fig w in
  let pad := match pad with None => _smart_pad f | Some p => p end in
  match _subplots_kw f, _gridspec f with
  | Some kw, Some _ =>
      (* the figure's own box against the box of all artists *)
      let ox := (0%Q, fst (size_inches f)) in
      let oy := (0%Q, snd (size_inches f)) in
      let bbox := get_tightbbox env w in
      let w := emit EvGetTightBbox w in
      let x1 := xmin bbox in
      let y1 := ymin bbox in
      let x2 := (snd ox - xmax bbox)%Q in
      let y2 := (snd oy - ymax bbox)%Q in
      (* new settings *)
      let lpanel := truthy (fig_leftpanel f) in
      let rpanel := truthy (fig_rightpanel f) in
      let bpanel := truthy (fig_bottompanel f) in
      let left := ((if lpanel then kw_lspace kw else kw_left kw) - x1 + pad)%Q in
      let right := ((if rpanel then kw_rspace kw else kw_right kw) - x2 + pad)%Q in
      let bottom := ((if bpanel then kw_bspace kw else kw_bottom kw) - y1 + pad)%Q in
      let top := (kw_top kw - y2 + pad)%Q in
      let kw := {| kw_left := if lpanel then kw_left kw else left;
                   kw_right := if rpanel then kw_right kw else right;
                   kw_bottom := if bpanel then kw_bottom kw else bottom;
                   kw_top := top;
                   kw_lspace := if lpanel then left else kw_lspace kw;
                   kw_rspace := if rpanel then right else kw_rspace kw;
                   kw_bspace := if bpanel then bottom else kw_bspace kw;
                   kw_lwidth := kw_lwidth kw;
                   kw_rwidth := kw_rwidth kw |} in
      do '(figsize, gridspec_kw) <- _gridspec_kwargs env kw;
      let w := emit (EvGridspecUpdate gridspec_kw) w in
      let w := emit (EvSetSizeInches figsize) w in
      Ok (set_fig (set_tight kw gridspec_kw figsize (fig w)) w)
  | _, _ =>
      Raise (ValueError
               "Initialize figure with 'subplots_kw' and 'gridspec' to draw tight grid.")
  end.

(** [for ax in self.axes: if test(ax): offset = True; break]. *)
Fixpoint any_axes (w : World) (test : Axes -> bool) (l : list ref) : Result bool :=
  match l with
  | [] => Ok false
  | r :: rest =>
      do ax <- get w r;
      if test ax then Ok true else any_axes w test rest
  end.

Definition draw (env : Env) (w : World) : Result World :=
  do offset <- any_axes w
                 (fun ax => is_BaseAxes ax && (fst (rows ax) =? 0)
                            && ((nonempty (text (title ax)) && negb (_title_inside ax))
                                || nonempty (text (collabel ax))))
                 (axes (fig w));
  do w <- _suptitle_setup env offset w;
  let w := if negb (rc_init env) && _rcreset (fig w) then emit EvRcReset w else w in
  do w <- (if _smart_tight_init (fig w) && _smart_tight (fig w)
           then smart_tight_layout env None w
           else Ok w);
  Ok (emit EvSuperDraw w).

(** The number of measurements of the rendered extent recorded so far:
    one per pass of the tight layout. *)
Definition passes (w : World) : nat :=
  length (List.filter (fun e => match e with EvGetTightBbox => true | _ => false end)
                      (log w)).

(** [n] calls of [draw] in a row. *)
Fixpoint draw_times (env : Env) (n : nat) (w : World) : Result World :=
  match n with
  | 0 => Ok w
  | S n => do w <- draw env w; draw_times env n w
  end.

(** ** [pubplot/base.py]: the wrappers of the plotting methods *)

(** *** Arrays

    A [numpy] array of one dimension is the list of its entries; an array
    of two dimensions is its shape and its entries by index. *)

Record Matrix : Type := mkMatrix {
  shape0 : nat;
  shape1 : nat;
  item : nat -> nat -> Q
}.

Inductive ndarray : Type :=
| Vec (v : list Q)
| Mat (m : Matrix).

Definition shape (a : ndarray) : list nat :=
  match a with
  | Vec v => [length v]
  | Mat m => [shape0 m; shape1 m]
  end.

(** [a.shape[i]]. *)
Definition shape_at (a : ndarray) (i : nat) : Result nat :=
  match shape a !! i with
  | Some n => Ok n
  | None => Raise (IndexError "tuple index out of range")
  end.

(** [a.shape[-1]]. *)
Definition shape_last (a : ndarray) : nat := List.last (shape a) 0.

(** [a.T]. *)
Definition transpose (a : ndarray) : ndarray :=
  match a with
  | Vec v => Vec v
  | Mat m => Mat (mkMatrix (shape1 m) (shape0 m) (fun i j => item m j i))
  end.

(** [np.arange(n)]. *)
Definition arange (n : nat) : ndarray :=
  Vec (map (fun i => inject_Z (Z.of_nat i)) (seq 0 n)).

(** [(a[1:] + a[:-1])/2]: the slices run along the first axis. *)
Definition midpoints (a : ndarray) : ndarray :=
  match a with
  | Vec v => Vec (zip_with (fun p q => (p + q) / 2)%Q (tail v) (removelast v))
  | Mat m => Mat (mkMatrix (shape0 m - 1) (shape1 m)
                           (fun i j => (item m (S i) j + item m i j) / 2)%Q)
  end.

(** *** [_parse_args] *)

Definition _parse_args (args : list ndarray)
  : Result (ndarray * ndarray * list ndarray) :=
  match args with
  | x :: y :: ((_ :: _) as Zs) =>
      (* len(args) > 2 *)
      Ok (x, y, Zs)
  | [] => Raise (IndexError "tuple index out of range")
  | first :: _ =>
      do n0 <- shape_at first 0;
      do n1 <- shape_at first 1;
      Ok (arange n0, arange n1, args)
  end.

(** *** [_check_centers], [_check_edges]

    [xlen] and [ylen] are read once, before the loop; [x] and [y] are
    replaced inside it. Whatever branch is taken for a field [Z], its
    second dimension is read: by a test, or by the message of the error. *)

Definition join_x (l : list nat) : string :=
  match l with
  | [] => EmptyString
  | n :: rest => fold_left (fun s k => s +:+ "x" +:+ pretty k) rest (pretty n)
  end.

Definition shape_error (x y : ndarray) (n0 n1 : nat) : Exception :=
  ValueError ("X (" +:+ join_x (shape x) +:+ ") and Y (" +:+ join_x (shape y)
                +:+ ") must correspond to nrows (" +:+ pretty n0
                +:+ ") and ncolumns (" +:+ pretty n1 +:+ ") of Z, or its borders.").

Fixpoint centers_loop (xlen ylen : nat) (Zs : list ndarray) (x y : ndarray)
  : Result (ndarray * ndarray) :=
  match Zs with
  | [] => Ok (x, y)
  | Zi :: rest =>
      do n0 <- shape_at Zi 0;
      do n1 <- shape_at Zi 1;
      if (Z.of_nat n0 =? Z.of_nat xlen - 1)%Z && (Z.of_nat n1 =? Z.of_nat ylen - 1)%Z then
        (* get centers, given edges *)
        centers_loop xlen ylen rest (midpoints x) (midpoints y)
      else if negb (n0 =? xlen) || negb (n1 =? ylen) then
        Raise (shape_error x y n0 n1)
      else centers_loop xlen ylen rest x y
  end.

Definition _check_centers {R : Type}
    (func : ndarray -> ndarray -> list ndarray -> Result R) (args : list ndarray)
  : Result R :=
  do '(x, y, Zs) <- _parse_args args;
  do xlen <- shape_at x 0;
  let ylen := shape_last y in
  do '(x, y) <- centers_loop xlen ylen Zs x y;
  func x y (map transpose Zs).

(** [utils.edges] is not part of the sources at hand: it is a parameter. *)
Fixpoint edges_loop (edges : ndarray -> ndarray) (xlen ylen : nat) (Zs : list ndarray)
    (x y : ndarray) : Result (ndarray * ndarray) :=
  match Zs with
  | [] => Ok (x, y)
  | Zi :: rest =>
      do n0 <- shape_at Zi 0;
      do n1 <- shape_at Zi 1;
      if (n0 =? xlen) && (n1 =? ylen) then
        edges_loop edges xlen ylen rest (edges x) (edges y)
      else if negb (Z.of_nat n0 =? Z.of_nat xlen - 1)%Z
              || negb (Z.of_nat n1 =? Z.of_nat ylen - 1)%Z then
        Raise (shape_error x y n0 n1)
      else edges_loop edges xlen ylen rest x y
  end.

Definition _check_edges {R : Type} (edges : ndarray -> ndarray)
    (func : ndarray -> ndarray -> list ndarray -> Result R) (args : list ndarray)
  : Result R :=
  do '(x, y, Zs) <- _parse_args args;
  do xlen <- shape_at x 0;
  let ylen := shape_last y in
  do '(x, y) <- edges_loop edges xlen ylen Zs x y;
  func x y (map transpose Zs).

(** *** [_gridfix_cartopy] *)

Inductive Crs : Type :=
| PlateCarree
| OtherCrs (name : string).

(** [Z[i,:].mean()]. *)
Definition row_mean (Z : Matrix) (i : nat) : Q :=
  (fold_right Qplus 0 (map (item Z i) (seq 0 (shape1 Z)))
   / inject_Z (Z.of_nat (shape1 Z)))%Q.

Definition _gridfix_cartopy {R : Type}
    (func : list Q -> list Q -> Matrix -> Crs -> Result R)
    (lon lat : list Q) (Z : Matrix) (transform : option Crs) : Result R :=
  let transform := default PlateCarree transform in
  (* 1) fix holes over poles *)
  if shape0 Z =? 0 then
    Raise (IndexError "index 0 is out of bounds for axis 0 with size 0")
  else
    let Z_south := row_mean Z 0 in
    let Z_north := row_mean Z (shape0 Z - 1) in
    let lat := ([-90] ++ lat ++ [90])%Q in
    let Z1 := mkMatrix (1 + shape0 Z + 1) (shape1 Z)
                (fun i j => if i =? 0 then Z_south
                            else if i =? shape0 Z + 1 then Z_north
                            else item Z (i - 1) j) in
    (* 2) fix seams at map boundary *)
    match lon with
    | [] => Raise (IndexError "index 0 is out of bounds for axis 0 with size 0")
    | lon0 :: _ =>
        let lon := lon ++ [(lon0 + 360)%Q] in
        let Z2 := mkMatrix (shape0 Z1) (shape1 Z1 + Nat.min 1 (shape1 Z1))
                    (fun i j => if j <? shape1 Z1 then item Z1 i j else item Z1 i 0) in
        func lon lat Z2 transform
    end.

(** ** [pubplot/base.py]: the ticks of [colorbar_factory] *)

(** [np.where(test(values))[0]]: the indices of the entries that pass. *)
Definition where_ {A : Type} (test : A -> bool) (values : list A) : list nat :=
  map fst (List.filter (fun p => test (snd p)) (enumerate values)).

(** [l[a:b]] for bounds that are not negative. *)
Definition slice {A : Type} (l : list A) (a b : nat) : list A :=
  firstn (b - a) (skipn a l).

(** [l[::step]] for a positive step: the entries at [0], [step],
    [2*step], ... *)
Definition stride {A : Type} (l : list A) (step : nat) : list A :=
  omap (fun i => l !! (i * step)) (seq 0 ((length l + step - 1) / step)).

(** The default major locator: the levels of the mappable, thinned.

    [[
    if clocator is None:
        clocator = getattr(mappable, 'levels', None)
        if clocator is not None:
            step = 1+len(clocator)//20
            clocator = clocator[::step]
    ]] *)
Definition default_clocator (clocator levels : option (list Q)) : option (list Q) :=
  match clocator with
  | Some c => Some c
  | None =>
      match levels with
      | None => None
      | Some clocator =>
          let step := 1 + length clocator / 20 in
          Some (stride clocator step)
      end
  end.

(** The ticks a locator proposes, cut to the range of the norm; the flag
    says that the first tick kept sits on [vmin] ([normfix]). [fmt] stands
    for the format [:.3g] of the message. *)
Definition ticks_in_range (fmt : Q -> string) (values : list Q) (vmin vmax : Q)
  : Result (list Q * bool) :=
  let values_min := where_ (fun v => Qle_bool vmin v) values in
  let values_max := where_ (fun v => Qle_bool v vmax) values in
  match values_min, List.last (map Some values_max) None with
  | lo :: _, Some hi =>
      let values := slice values lo (hi + 1) in
      match values with
      | [] => Raise (IndexError "index 0 is out of bounds for axis 0 with size 0")
      | first :: _ => Ok (values, Qeq_bool first vmin)
      end
  | _, _ =>
      Raise (ValueError ("No ticks are within the colorbar range " +:+ fmt vmin
                           +:+ " to " +:+ fmt vmax +:+ "."))
  end.

(** ** [proplot/axes/geo.py]: the sides to label *)

Module GeoAxes.

(** The [labels] argument: a string of sides, one value, or a list. *)
Inductive LabelSpec : Type :=
| SpecStr (s : string)
| SpecScalar (v : Z)
| SpecList (l : list Z).

(** [str(labels)] for a list of integers. *)
Definition repr (l : list Z) : string :=
  "[" +:+ match l with
          | [] => EmptyString
          | v :: rest => fold_left (fun s k => s +:+ ", " +:+ pretty k) rest (pretty v)
          end +:+ "]".

Definition _parse_labels (labels : option LabelSpec) (lon : bool)
  : Result (option (list Z)) :=
  match labels with
  | None => Ok None
  | Some labels =>
      let array :=
        match labels with
        | SpecStr s =>
            map (fun char => if char_in char s then 1%Z else 0%Z) ["l"; "r"; "b"; "t"]%char
        | SpecScalar v => [v]
        | SpecList l => l
        end in
      (* default is to label bottom or left *)
      let array := if length array =? 1 then array ++ [0%Z] else array in
      if length array =? 2 then
        Ok (Some (if lon then [0%Z; 0%Z] ++ array else array ++ [0%Z; 0%Z]))
      else if negb (length array =? 4) then
        Raise (ValueError ("Invalid " +:+ (if lon then "lon" else "lat")
                             +:+ "label spec: "
                             +:+ match labels with
                                 | SpecStr s => s
                                 | SpecScalar v => pretty v
                                 | SpecList l => repr l
                                 end +:+ "."))
      else Ok (Some array)
  end.

End GeoAxes.

(** ** Failures the classes above never meet *)

Inductive Fault : Type :=
| Builtin (e : Exception)
| ZeroDivisionError (msg : string)
| UnboundLocalError (msg : string).

Inductive Outcome (A : Type) : Type :=
| Done (a : A)
| Abort (f : Fault).
Arguments Done {A} a.
Arguments Abort {A} f.

(** ** [pubplot/base.py]: the order of the handles in [legend_factory]

    The block that re-orders the handles of an aligned legend, so that the
    column-major filling of matplotlib shows them row by row. [ncol], the
    number of columns, is a natural number here.

    [[
    newhandles = []
    ncol = lsettings['ncol'] # number of columns
    handlesplit = [handles[i*ncol:(i+1)*ncol] for i in range(len(handles)//ncol+1)]
    nrowsmax, nfinalrow = len(handlesplit), len(handlesplit[-1])
    nrows = [nrowsmax]*nfinalrow + [nrowsmax-1]*(lsettings['ncol']-nfinalrow)
    for col,nrow in enumerate(nrows): # iterate through cols
        newhandles.extend(handlesplit[row][col] for row in range(nrow))
    handles = newhandles
    ]] *)

(** [handlesplit[row][col]]. *)
Definition index2 {A : Type} (handlesplit : list (list A)) (row col : nat) : option A :=
  match handlesplit !! row with
  | Some r => r !! col
  | None => None
  end.

(** One round of [newhandles.extend(...)]. *)
Fixpoint extend_column {A : Type} (handlesplit : list (list A)) (col : nat)
    (rows : list nat) : option (list A) :=
  match rows with
  | [] => Some []
  | row :: rest =>
      match index2 handlesplit row col, extend_column handlesplit col rest with
      | Some h, Some tl => Some (h :: tl)
      | _, _ => None
      end
  end.

Fixpoint extend_columns {A : Type} (handlesplit : list (list A))
    (cols : list (nat * nat)) : option (list A) :=
  match cols with
  | [] => Some []
  | (col, nrow) :: rest =>
      match extend_column handlesplit col (seq 0 nrow), extend_columns handlesplit rest with
      | Some hs, Some tl => Some (hs ++ tl)
      | _, _ => None
      end
  end.

Definition rowmajor_handles {A : Type} (handles : list A) (ncol : nat)
  : Outcome (list A) :=
  if ncol =? 0 then Abort (ZeroDivisionError "integer division or modulo by zero")
  else
    (* split into rows *)
    let handlesplit :=
      map (fun i => slice handles (i * ncol) ((i + 1) * ncol))
          (seq 0 (length handles / ncol + 1)) in
    match List.last (map Some handlesplit) None with
    | None => Abort (Builtin (IndexError "list index out of range"))
    | Some final =>
        let nrowsmax := length handlesplit in
        let nfinalrow := length final in
        let nrows := repeat nrowsmax nfinalrow ++ repeat (nrowsmax - 1) (ncol - nfinalrow) in
        match extend_columns handlesplit (enumerate nrows) with
        | Some newhandles => Done newhandles
        | None => Abort (Builtin (IndexError "list index out of range"))
        end
    end.

(** ** [pubplot/base.py]: the position of a title, [BaseAxes._title_pos] *)

(** The [pos] argument: a string of some of [l c r] and [o i], or a pair
    of coordinates. *)
Inductive TitlePos : Type :=
| PosStr (s : string)
| PosXY (x y : Q).

(** The dictionary returned, without its constant entry
    ['transform': self.transAxes]. *)
Record TitleKw : Type := mkTitleKw {
  kw_position : Q * Q;
  kw_ha : string;
  kw_va : string
}.

Definition set_title_inside (b : bool) (a : Axes) : Axes :=
  mkAxes (kind a) (rows a) (cols a) (bbox a) (panelparent a) (panelside a)
         (leftpanel a) (rightpanel a) (bottompanel a) (toppanel a)
         (xaxis a) (yaxis a) (title a) b (rowlabel a) (collabel a).

(** [any(c in pos for c in chars)]. *)
Definition any_in (chars : list ascii) (pos : string) : bool :=
  existsb (fun c => char_in c pos) chars.

(** A truth value used as a number. *)
Definition Qint (b : bool) : Q := if b then 1%Q else 0%Q.

(** [self.height]: the height of the axes in inches. *)
Definition axes_height (w : World) (a : Axes) : Q :=
  ((ymax (bbox a) - ymin (bbox a)) * height (fig w))%Q.

(** The variables [x], [ha] and [y], [va] are bound in the branches of two
    chains of [if]/[elif] without [else]; a variable left unbound would
    fail the [return]. *)
Definition _title_pos (env : Env) (self : ref) (pos : option TitlePos) (w : World)
  : Outcome (World * TitleKw) :=
  match heap w !! self with
  | None => Abort (Builtin DanglingReference)
  | Some a =>
      let pad := (rc_titlepad env / 72 / axes_height w a)%Q in
      let ipad := (pad * (3 # 2))%Q in
      let pos := match pos with
                 | None => PosStr "oc"
                 | Some (PosStr EmptyString) => PosStr "oc"
                 | Some p => p
                 end in
      match pos with
      | PosXY x y => Done (w, mkTitleKw (x, y) "center" "center")
      | PosStr pos =>
          let pos := if negb (any_in ["l"; "c"; "r"]%char pos) then pos +:+ "c" else pos in
          let pos := if negb (any_in ["o"; "i"]%char pos) then pos +:+ "o" else pos in
          let x_ha :=
            if char_in "c" pos then Some ((1 # 2)%Q, "center")
            else if char_in "l" pos then Some ((0 + ipad * Qint (char_in "i" pos))%Q, "left")
            else if char_in "r" pos then Some ((1 - ipad * Qint (char_in "i" pos))%Q, "right")
            else None in
          let '(y_va, w) :=
            if char_in "o" pos then
              (Some ((1 + pad)%Q, "baseline"), modify self (set_title_inside false) w)
            else if char_in "i" pos then (Some ((1 - ipad)%Q, "top"), w)
            else (None, w) in
          let w := modify self (set_title_inside true) w in
          match x_ha, y_va with
          | Some (x, ha), Some (y, va) => Done (w, mkTitleKw (x, y) ha va)
          | _, _ =>
              Abort (UnboundLocalError "local variable referenced before assignment")
          end
      end
  end.

(** ** [pubplot/base.py]: keyword arguments, [BaseAxes.scatter] *)

(** The values that are passed around; [kwargs] is a dictionary from
    names to values. *)
Inductive PyVal : Type :=
| VNone
| VBool (b : bool)
| VNum (q : Q)
| VStr (s : string).

(** [if option in kwargs: kwargs[name] = kwargs.pop(option)]. *)
Definition pop_alias (name option : string) (kwargs : gmap string PyVal)
  : gmap string PyVal :=
  match kwargs !! option with
  | Some v => <[name := v]> (delete option kwargs)
  | None => kwargs
  end.

Definition aliases : list (string * list string) :=
  [ ("c", ["markercolor"; "color"]);
    ("s", ["markersize"; "size"]);
    ("linewidths", ["lw"; "linewidth"; "markeredgewidth"; "markeredgewidths"]);
    ("edgecolors", ["markeredgecolor"; "markeredgecolors"]) ]%string.

(** The arguments handed to [super().scatter]. *)
Definition scatter (args : list PyVal) (kwargs : gmap string PyVal)
  : Result (list PyVal * gmap string PyVal) :=
  if 4 <? length args then
    Raise (ValueError ("Function accepts up to 4 args, received "
                         +:+ pretty (length args) +:+ "."))
  else
    let '(args, kwargs) :=
      match args !! 3 with
      | Some v => (take 3 args ++ drop 4 args, <["c" := v]> kwargs)
      | None => (args, kwargs)
      end in
    let '(args, kwargs) :=
      match args !! 2 with
      | Some v => (take 2 args ++ drop 3 args, <["s" := v]> kwargs)
      | None => (args, kwargs)
      end in
    (* apply some aliases for keyword arguments *)
    let kwargs :=
      fold_left (fun kwargs '(name, options) =>
                   fold_left (fun kwargs option => pop_alias name option kwargs)
                             options kwargs)
                aliases kwargs in
    Ok (args, kwargs).

(** ** [pubplot/base.py]: twin axes, [XYAxes.twinx] and [XYAxes.twiny]

    [_make_twin_axes] is matplotlib's: it adds to the figure an axes of
    the class named by [projection], here the class of [self], on the
    subplot spec of [self], passing the keywords on. A [PanelAxes] built
    this way gets no [panelside]. Of the rows and columns [self] spans the
    first ones are carried over, which is what the methods here read. Of
    the statements that follow the call
    in [twinx] and [twiny] none touches the attributes modelled here (they
    move ticks and spines and hide the patch and one axis). *)
Definition _make_twin_axes (fuel : nat) (self : ref) (sharex sharey : option ref)
    (w : World) : Result (World * ref) :=
  do a <- get w self;
  do _ <- match kind a with
          | PanelAxes => Raise (ValueError "Must specify side.")
          | _ => Ok tt
          end;
  do '(w, ax) <- BaseAxes__init__ fuel (kind a) (fst (rows a)) (fst (cols a)) (bbox a)
                   sharex sharey [] [] None None w;
  Ok (set_fig (set_axes (axes (fig w) ++ [ax]) (fig w)) w, ax).

Definition twiny (fuel : nat) (self : ref) (w : World) : Result (World * ref) :=
  _make_twin_axes fuel self None (Some self) w.

Definition twinx (fuel : nat) (self : ref) (w : World) : Result (World * ref) :=
  _make_twin_axes fuel self (Some self) None w.

(** ** [pubplot/base.py]: [PanelAxes.colorbar]

    The panel is made invisible and an axes of matplotlib's own class is
    added for the colorbar: on the subplot spec of the panel, or, when the
    colorbar is shorter than the panel or one of a stack of [n], on the
    cell [i] of the middle strip of a grid laid into it.
    [FlexibleGridSpecFromSubplotSpec] is a class of [gridspec.py], which
    is not among the sources at hand: building the grid and taking one of
    its cells is the parameter [subgrid], which fails where they fail (a
    grid without rows, an index outside the grid). A ratio list that is
    not passed is [[]] here. The new axes has no [rows] and [cols]: the
    record holds 0 for them, and whoever reads them asks for a [BaseAxes]
    first. The visibility of spines, patch and panel is outside the
    attributes modelled. The method returns the axes with what
    [colorbar_factory] makes of it; here it returns the axes with the two
    keywords it sets for [colorbar_factory], [orientation] and
    [ticklocation]. *)
Definition side_in (side : option string) (l : list string) : bool :=
  match side with
  | Some s => mem s l
  | None => false
  end.

Definition side_is (side : option string) (s : string) : bool :=
  match side with
  | Some s' => String.eqb s' s
  | None => false
  end.

Definition colorbar_subspec (subgrid : NestedGrid -> nat -> nat -> Result Bbox)
    (side : option string) (subspec : Bbox) (i n : nat) (length : Q) : Result Bbox :=
  if negb (Qeq_bool length 1) || negb (n =? 1) then
    if side_in side ["bottom"; "top"] then
      subgrid (mkNestedGrid n 3 subspec 0 0
                 [((1 - length) / 2)%Q; length; ((1 - length) / 2)%Q] []) i 1
    else if side_in side ["left"; "right"] then
      subgrid (mkNestedGrid 3 n subspec 0 0 []
                 [((1 - length) / 2)%Q; length; ((1 - length) / 2)%Q]) 1 i
    else Ok subspec
  else Ok subspec.

Definition colorbar_keywords (side : option string) (i n : nat) : Outcome (string * string) :=
  if side_in side ["bottom"; "top"] then
    let '(outside, inside) := ("bottom", "top") in
    let '(outside, inside) :=
      if side_is side "top" then (inside, outside) else (outside, inside) in
    let ticklocation := if (Z.of_nat i =? Z.of_nat n - 1)%Z then outside else inside in
    Done ("horizontal", ticklocation)
  else if side_in side ["left"; "right"] then
    let '(outside, inside) := ("left", "right") in
    let '(outside, inside) :=
      if side_is side "right" then (inside, outside) else (outside, inside) in
    let ticklocation := if (Z.of_nat i =? Z.of_nat n - 1)%Z then outside else inside in
    Done ("vertical", ticklocation)
  else Abort (UnboundLocalError "local variable 'orientation' referenced before assignment").

Definition PanelAxes_colorbar (subgrid : NestedGrid -> nat -> nat -> Result Bbox)
    (self : ref) (i n : nat) (length : Q) (w : World)
  : Outcome (World * ref * (string * string)) :=
  match heap w !! self with
  | None => Abort (Builtin DanglingReference)
  | Some a =>
      let side := panelside a in
      let subspec := bbox a in
      if 2 <? n then
        Abort (Builtin (ValueError
          "I strongly advise against drawing more than 2 stacked colorbars."))
      else
        match colorbar_subspec subgrid side subspec i n length with
        | Raise e => Abort (Builtin e)
        | Ok subspec =>
            (* figure.add_subplot(subspec, projection=None) *)
            let ax := Datatypes.length (heap w) in
            let w := set_heap (heap w ++ [new_axes ForeignAxes 0 0 subspec None None]) w in
            let w := set_fig (set_axes (axes (fig w) ++ [ax]) (fig w)) w in
            match colorbar_keywords side i n with
            | Done kw => Done (w, ax, kw)
            | Abort f => Abort f
            end
        end
  end.

(** ** [pubplot/base.py]: attribute lookup on the axes classes

    Each class overrides [__getattribute__]: it asks its parent class for
    the attribute and wraps plotting methods on the way back. What is
    modelled is the object a lookup returns: the function found by the
    classes behind [BaseAxes] (matplotlib's, cartopy's), passed in as
    [found], under the decorators applied to it. Every decorator of the
    file uses [functools.wraps], so the name of the function shows through;
    [_m_call] keeps nothing but this name, which it looks up on the basemap
    object when called. *)

Definition _line_methods : list string := ["plot"; "scatter"].
Definition _edge_methods : list string := ["pcolor"; "pcolorpoly"; "pcolormesh"].
Definition _center_methods : list string :=
  ["contour"; "contourf"; "quiver"; "streamplot"; "barbs"].
Definition _cycle_methods : list string :=
  ["plot"; "scatter"; "bar"; "barh"; "hist"; "boxplot"; "errorbar"].
Definition _cmap_methods : list string :=
  ["cmapline"; "contour"; "contourf"; "pcolor"; "pcolormesh";
   "matshow"; "imshow"; "spy"; "hist2d"].

(** A message is kept as the text before and after its [{}]. *)
Definition _disabled_methods : list ((string * string) * list string) :=
  [ (("Unsupported plotting function ", "."),
     ["pie"; "table"; "hexbin"; "eventplot";
      "triplot"; "tricontour"; "tricontourf"; "tripcolor";
      "xcorr"; "acorr"; "psd"; "csd"; "magnitude_spectrum";
      "angle_spectrum"; "phase_spectrum"; "cohere"; "specgram"]);
    (("Redundant function ", " has been disabled."),
     ["plot_date"; "semilogx"; "semilogy"; "loglog"]);
    (("Redundant function ",
      " has been disabled. Just use projection='polar' instead."),
     ["polar"]) ].

Definition _map_disabled_methods : list string :=
  ["matshow"; "imshow"; "spy"; "bar"; "barh";
   "hist"; "hist2d"; "errorbar"; "boxplot"; "violinplot"; "step"; "stem";
   "hlines"; "vlines"; "axhline"; "axvline"; "axhspan"; "axvspan";
   "fill_between"; "fill_betweenx"; "fill"; "stackplot"].

Inductive Decorator : Type :=
| CheckCenters
| CheckEdges
| CycleFeatures
| CmapFeatures
| NoRecurse
| LinefixBasemap
| GridfixBasemap
| LinefixCartopy
| GridfixCartopy.

Inductive Callable : Type :=
| Attribute (name : string)
| BasemapCall (name : string)
| Wrapped (d : Decorator) (func : Callable).

Fixpoint __name__ (func : Callable) : string :=
  match func with
  | Attribute name => name
  | BasemapCall name => name
  | Wrapped _ func => __name__ func
  end.

(** [_m_call(self, func)]: [func] itself is never called. *)
Definition _m_call (func : Callable) : Callable := BasemapCall (__name__ func).

Fixpoint check_disabled (attr : string) (items : list ((string * string) * list string))
  : Result unit :=
  match items with
  | [] => Ok tt
  | (message, attrs) :: rest =>
      if mem attr attrs then
        Raise (NotImplementedError (fst message +:+ attr +:+ snd message))
      else check_disabled attr rest
  end.

Definition BaseAxes__getattribute__ (found : string -> Result Callable) (attr : string)
  : Result Callable :=
  do _ <- check_disabled attr _disabled_methods;
  let attr := if String.eqb attr "pcolorpoly" then "pcolor"%string else attr in
  do obj <- found attr;
  if mem attr _cmap_methods then Ok (Wrapped CmapFeatures obj)
  else if mem attr _cycle_methods then Ok (Wrapped CycleFeatures obj)
  else Ok obj.

Definition XYAxes__getattribute__ (found : string -> Result Callable) (attr : string)
  : Result Callable :=
  do obj <- BaseAxes__getattribute__ found attr;
  if mem attr _center_methods then Ok (Wrapped CheckCenters obj)
  else if mem attr _edge_methods then Ok (Wrapped CheckEdges obj)
  else Ok obj.

Definition MapAxes__getattribute__ (found : string -> Result Callable) (attr : string)
  : Result Callable :=
  if mem attr _map_disabled_methods then
    Raise (NotImplementedError
             ("Invalid plotting function " +:+ attr +:+ " for map projection axes."))
  else BaseAxes__getattribute__ found attr.

Definition BasemapAxes__getattribute__ (found : string -> Result Callable) (attr : string)
  : Result Callable :=
  let attr := if String.eqb attr "pcolorpoly" then "pcolor"%string else attr in
  do obj <- MapAxes__getattribute__ found attr;
  if mem attr _line_methods || mem attr _edge_methods || mem attr _center_methods then
    let obj := _m_call obj in
    let obj :=
      if mem attr _line_methods then
        Wrapped LinefixBasemap (Wrapped CycleFeatures obj)
      else if mem attr _edge_methods || mem attr _center_methods then
        let obj := Wrapped GridfixBasemap (Wrapped CmapFeatures obj) in
        if mem attr _edge_methods then Wrapped CheckEdges obj
        else Wrapped CheckCenters obj
      else obj in
    Ok (Wrapped NoRecurse obj)
  else Ok obj.

Definition CartopyAxes__getattribute__ (found : string -> Result Callable) (attr : string)
  : Result Callable :=
  do obj <- MapAxes__getattribute__ found attr;
  if mem attr _line_methods then Ok (Wrapped LinefixCartopy obj)
  else if mem attr _edge_methods || mem attr _center_methods then
    let obj := Wrapped GridfixCartopy obj in
    if mem attr _edge_methods then Ok (Wrapped CheckEdges obj)
    else Ok (Wrapped CheckCenters obj)
  else Ok obj.

(** The classes of the file, and the [__getattribute__] each of them
    inherits or defines. *)
Inductive AxesClass : Type :=
| ClsBaseAxes
| ClsXYAxes
| ClsPanelAxes
| ClsMapAxes
| ClsBasemapAxes
| ClsCartopyAxes
| ClsPolarAxes.

Definition getattribute (cls : AxesClass) : (string -> Result Callable) -> string -> Result Callable :=
  match cls with
  | ClsBaseAxes => BaseAxes__getattribute__
  | ClsXYAxes | ClsPanelAxes => XYAxes__getattribute__
  | ClsMapAxes | ClsPolarAxes => MapAxes__getattribute__
  | ClsBasemapAxes => BasemapAxes__getattribute__
  | ClsCartopyAxes => CartopyAxes__getattribute__
  end.

(** ** [proplot/axes/geo.py]: the default gridlines

    [arange] is the helper of [utils.py], which is not among the sources
    at hand: it is passed in. [latmax] and [lon0] are the values
    [_not_none] settles on, and [step] is a number other than zero. *)
Definition _get_latlines (arange : Q -> Q -> Q -> list Q) (step latmax : Q)
  : Result (list Q) :=
  if Qeq_bool (Geo.pymod latmax step) (Geo.pymod (- latmax)%Q step) then
    Ok (arange (- latmax)%Q latmax step)
  else
    let latlines := arange 0%Q latmax step in
    match last latlines with
    | None => Raise (IndexError "index -1 is out of bounds for axis 0 with size 0")
    | Some final =>
        let latlines :=
          if negb (Qeq_bool final latmax) then latlines ++ [latmax] else latlines in
        Ok (map Qopp (rev latlines) ++ drop 1 latlines)
    end.

Definition _get_lonlines (arange : Q -> Q -> Q -> list Q) (step lon0 : Q)
  : Result (list Q) :=
  let lonlines := arange (lon0 - 180)%Q (lon0 + 180)%Q step in
  match last lonlines with
  | None => Raise (IndexError "index -1 is out of bounds for axis 0 with size 0")
  | Some final =>
      if Qltb 0 (Geo.pymod final 360%Q) then
        (* the label appears on the right *)
        Ok (<[length lonlines - 1 := (final - (1 # 10000000000))%Q]> lonlines)
      else
        (* the location is shifted off the map edge *)
        Ok (<[length lonlines - 1 := (final + (1 # 10000000000))%Q]> lonlines)
  end.

(** ** Vocabulary of the statements *)

Definition erase (a : Axes) : Axes :=
  set_xaxis (fun _ => fresh_axis (0, 0)%Q) (set_yaxis (fun _ => fresh_axis (0, 0)%Q) a).

Definition frames (w : World) : list Axes := map erase (heap w).

Definition slots (w : World) : list (list PanelSlot) := map panels_of (heap w).

Definition slot_ok (n : nat) (p : PanelSlot) : bool :=
  match p with PAxes q => q <? n | _ => true end.

(** Every panel attribute that holds an axes holds one of the heap. *)
Definition closed (sl : list (list PanelSlot)) : bool :=
  forallb (forallb (slot_ok (length sl))) sl.

(** The chains of panels below [r] have fewer than [n] links. *)
Fixpoint panel_depth_le (sl : list (list PanelSlot)) (n : nat) (r : ref) : bool :=
  match n with
  | 0 => false
  | S n =>
      match sl !! r with
      | None => false
      | Some ps =>
          forallb (fun p => match p with
                            | PAxes q => panel_depth_le sl n q
                            | _ => true
                            end) ps
      end
  end.

Definition mono (g g' : Grouper) : Prop :=
  forall x y, joined g x y = true -> joined g' x y = true.

Definition same_frame (w w' : World) : Prop :=
  frames w' = frames w /\ fig w' = fig w /\ log w' = log w.

(** The part of the world a share set-up may change, seen through the
    grouper [grp] of its direction: classes only grow. *)
Definition frame_g (grp : World -> Grouper) (w w' : World) : Prop :=
  same_frame w w' /\ mono (grp w) (grp w').

(** What [self._sharex_setup(sx)] establishes, for [self] other than [sx]. *)
Definition sharex_links (w w' : World) (self sx : ref) : Prop :=
  joined (_shared_x_axes w') self sx = true /\
  forall a b, heap w !! self = Some a -> heap w !! sx = Some b ->
    (forall p, bottompanel a = PAxes p \/ toppanel a = PAxes p ->
               joined (_shared_x_axes w') p sx = true) /\
    (forall p q, leftpanel a = PAxes p -> leftpanel b = PAxes q ->
                 joined (_shared_x_axes w') p q = true) /\
    (forall p q, rightpanel a = PAxes p -> rightpanel b = PAxes q ->
                 joined (_shared_x_axes w') p q = true).

(** What [self._sharey_setup(sy)] establishes, for [self] other than [sy]. *)
Definition sharey_links (w w' : World) (self sy : ref) : Prop :=
  joined (_shared_y_axes w') self sy = true /\
  forall a b, heap w !! self = Some a -> heap w !! sy = Some b ->
    (forall p, leftpanel a = PAxes p \/ rightpanel a = PAxes p ->
               joined (_shared_y_axes w') p sy = true) /\
    (forall p q, bottompanel a = PAxes p -> bottompanel b = PAxes q ->
                 joined (_shared_y_axes w') p q = true) /\
    (forall p q, toppanel a = PAxes p -> toppanel b = PAxes q ->
                 joined (_shared_y_axes w') p q = true).

(** [lo] is the least (greatest) value of [sel] over the positions of the
    members of [group]. *)
Definition extent_min (w : World) (sel : Bbox -> Q) (group : list ref) (lo : Q) : Prop :=
  (exists r a, In r group /\ heap w !! r = Some a /\ sel (bbox a) = lo) /\
  (forall r a, In r group -> heap w !! r = Some a -> (lo <= sel (bbox a))%Q).

Definition extent_max (w : World) (sel : Bbox -> Q) (group : list ref) (hi : Q) : Prop :=
  (exists r a, In r group /\ heap w !! r = Some a /\ sel (bbox a) = hi) /\
  (forall r a, In r group -> heap w !! r = Some a -> (sel (bbox a) <= hi)%Q).

(** The effect of one successful [add_subplot]: a new object at the end of
    the heap, and its reference at the end of [figure.axes]. *)
Definition alloc (a : Axes) (w : World) : World :=
  set_fig (set_axes (axes (fig w) ++ [length (heap w)]) (fig w))
          (set_heap (heap w ++ [a]) w).

Definition alloc_all (objs : list Axes) (w : World) : World :=
  fold_left (fun w a => alloc a w) objs w.

(** The cells of the nested loops that get a panel, with its side. *)
Definition to_create (empty_pos : list (nat * nat)) (main_pos : nat * nat)
    (cells : list ((nat * nat) * (option ascii * option ascii)))
  : list ((nat * nat) * option string) :=
  map (fun cell => (fst cell,
                    translate_side (match fst (snd cell) with
                                    | Some s => Some s
                                    | None => snd (snd cell)
                                    end)))
      (List.filter (fun cell => negb (existsb (pos_eqb (fst cell)) empty_pos
                                      || pos_eqb (fst cell) main_pos)) cells).

Definition panel_object (env : Env) (gs : NestedGrid) (axmain : ref)
    (cell : (nat * nat) * option string) : Axes :=
  new_axes PanelAxes (fst (fst cell)) (snd (fst cell))
           (cell_bbox env gs (fst (fst cell)) (snd (fst cell)))
           (Some axmain) (snd cell).

Definition side_ok (cell : (nat * nat) * option string) : Prop :=
  valid_panelside (snd cell) = true /\ snd cell <> None.

(** The sides, by letter, in the order the grid is walked: row by row,
    left to right. *)
Definition side_table : list (ascii * string) :=
  [("t"%char, "top"); ("l"%char, "left"); ("r"%char, "right"); ("b"%char, "bottom")]%string.

(** The sides a (translated, defaulted) [whichpanels] string asks for. *)
Definition sides_of (s : string) : list (ascii * string) :=
  List.filter (fun side => char_in (fst side) s) side_table.

Definition main_pos_of (s : string) : nat * nat :=
  (int (char_in "t" s), int (char_in "l" s)).

(** Where the panel of a side sits in the nested grid. *)
Definition cell_of_side (main_pos : nat * nat) (letter : ascii) : nat * nat :=
  if Ascii.eqb letter "t" then (0, snd main_pos)
  else if Ascii.eqb letter "l" then (fst main_pos, 0)
  else if Ascii.eqb letter "r" then (fst main_pos, snd main_pos + 1)
  else (fst main_pos + 1, snd main_pos).

Definition plan_of (s : string) : list ((nat * nat) * option string) :=
  to_create (empty_positions s (main_pos_of s)) (main_pos_of s)
            (grid_cells (keep_sides [Some "t"; None; Some "b"]%char s)
                        (keep_sides [Some "l"; None; Some "r"]%char s)).

(** The world after the axes are created and the panel attributes of the
    main axes are assigned, before the share set-ups. *)
Definition built (env : Env) (gs : NestedGrid) (s : string) (w : World) : World :=
  let axmain := length (heap w) in
  let main_pos := main_pos_of s in
  let plan := plan_of s in
  let panels := rev (combine (map snd plan) (seq (S axmain) (length plan))) in
  let w := alloc (new_axes MainAxes (fst main_pos) (snd main_pos)
                           (cell_bbox env gs (fst main_pos) (snd main_pos)) None None) w in
  let w := alloc_all (map (panel_object env gs axmain) plan) w in
  let w := modify axmain
             (fun a => set_panels (leftpanel a) (rightpanel a)
                                  (panels_get "bottom" panels) (toppanel a) a) w in
  let w := modify axmain
             (fun a => set_panels (leftpanel a) (rightpanel a)
                                  (bottompanel a) (panels_get "top" panels) a) w in
  let w := modify axmain
             (fun a => set_panels (panels_get "left" panels) (rightpanel a)
                                  (bottompanel a) (toppanel a) a) w in
  modify axmain
    (fun a => set_panels (leftpanel a) (panels_get "right" panels)
                         (bottompanel a) (toppanel a) a) w.

(** What the figure shows of an axes: its class, the grid cell it starts
    in, and its side. *)
Definition describe (a : Axes) : AxesKind * (nat * nat) * option string :=
  (kind a, (fst (rows a), fst (cols a)), panelside a).

Definition described (w : World) : list (AxesKind * (nat * nat) * option string) :=
  map describe (heap w).

Definition main_slots (s : string) (axmain : ref) : list PanelSlot :=
  let plan := plan_of s in
  let panels := rev (combine (map snd plan) (seq (S axmain) (length plan))) in
  [panels_get "left" panels; panels_get "right" panels;
   panels_get "bottom" panels; panels_get "top" panels].

(** The new entries of the heap, as the figure shows them: the main axes,
    then one panel per requested side, in the order of [side_table]. *)
Definition created (s : string) : list (AxesKind * (nat * nat) * option string) :=
  (MainAxes, main_pos_of s, None)
    :: map (fun side => (PanelAxes, cell_of_side (main_pos_of s) (fst side), Some (snd side)))
           (sides_of s).

(** A grid position off the row and off the column of the main axes. *)
Definition is_corner (main_pos pos : nat * nat) : bool :=
  negb (fst pos =? fst main_pos) && negb (snd pos =? snd main_pos).

(** What the tight layout writes. *)
Definition tight_state (f : Figure) : option SubplotsKw * option GridSpec * (Q * Q) :=
  (_subplots_kw f, _gridspec f, size_inches f).

(** The solver of [gridspec.py] accepts every setting. *)
Definition solver_total (env : Env) : Prop :=
  forall kw, exists r, _gridspec_kwargs env kw = Ok r.

(** A figure that [draw] can handle: it has axes, its gridspec and its
    settings. *)
Definition drawable (w : World) : Prop :=
  axes (fig w) <> [] /\
  Forall (fun r => is_Some (heap w !! r)) (axes (fig w)) /\
  is_Some (_gridspec (fig w)) /\ is_Some (_subplots_kw (fig w)).

(** [test] holds of the live object behind [r]. *)
Definition holds (w : World) (test : Axes -> bool) (r : ref) : bool :=
  match heap w !! r with
  | Some a => test a
  | None => false
  end.

(** An attribute of the object behind [r]. *)
Definition attr_of {A : Type} (w : World) (f : Axes -> A) (d : A) (r : ref) : A :=
  match heap w !! r with
  | Some a => f a
  | None => d
  end.

(** The axes of the figure that pass [test], in the order of [figure.axes]. *)
Definition matched (w : World) (test : Axes -> bool) : list ref :=
  List.filter (holds w test) (axes (fig w)).

(** The text a label ends up with: the new one only when it is not empty
    and nothing was written before. *)
Definition new_text (lab old : string) : string :=
  if nonempty lab && negb (nonempty old) then lab else old.

Definition row_test (ax : Axes) : bool :=
  is_BaseAxes ax && negb (is_PanelAxes ax) && (fst (cols ax) =? 0).

Definition col_test (ax : Axes) : bool :=
  is_BaseAxes ax && negb (is_PanelAxes ax) && (fst (rows ax) =? 0).

Definition count_mismatch (got there : nat) (what : string) : Exception :=
  ValueError ("Got " +:+ pretty got +:+ " labels, but there are "
                +:+ pretty there +:+ " " +:+ what +:+ ".").

(** The common shape of [_rowlabels] and [_collabels]. *)
Definition assign_labels (test : Axes -> bool) (key : Axes -> nat) (what : string)
    (body : ref * string -> World -> Result World) (labels : Labels) (w : World)
  : Result World :=
  do axs <- select_axes w test (axes (fig w));
  let labels := broadcast labels (length axs) in
  if negb (length labels =? length axs) then
    Raise (count_mismatch (length labels) (length axs) what)
  else
    do keys <- for_each_get w key axs;
    do sorted <- py_sorted (combine keys axs);
    let axs := map snd sorted in
    for_each body (combine axs labels) w.

Definition row_body (env : Env) : ref * string -> World -> Result World :=
  fun '(ax, label) w =>
    do a <- get w ax;
    if nonempty label && negb (nonempty (text (rowlabel a))) then
      let x := ylabel_x_in_axes env a in
      let w := modify ax (set_rowlabel (set_visible true)) w in
      Ok (modify ax (set_rowlabel
                       (fun l => set_position (x, 1 # 2)%Q (set_text label l))) w)
    else Ok w.

Definition col_body : ref * string -> World -> Result World :=
  fun '(ax, label) w =>
    do a <- get w ax;
    if nonempty label && negb (nonempty (text (collabel a))) then
      Ok (modify ax (set_collabel (set_text label)) w)
    else Ok w.

Definition key_lt (x y : nat * ref) : Prop := fst x < fst y.

(** What a call that assigns labels does: it fails when the count is off,
    and otherwise walks the matched axes in the order of their keys. *)
Definition labels_outcome (w : World) (test : Axes -> bool) (key : Axes -> nat)
    (txt : Axes -> string) (what : string) (labels : Labels) (result : Result World)
  : Prop :=
  let axs := matched w test in
  let labs := broadcast labels (length axs) in
  if length labs =? length axs then
    exists w' sorted,
      result = Ok w' /\ Permutation sorted axs /\
      StronglySorted (fun r1 r2 => attr_of w key 0 r1 < attr_of w key 0 r2) sorted /\
      forall i ax lab, sorted !! i = Some ax -> labs !! i = Some lab ->
        exists a a', heap w !! ax = Some a /\ heap w' !! ax = Some a' /\
                     txt a' = new_text lab (txt a)
  else result = Raise (count_mismatch (length labs) (length axs) what).

(** The last four statements of [_sharex_setup]: [self] is linked to
    [sx]. *)
Definition link_x (w : World) (link : ref * ref) : World :=
  let self := fst link in
  let sx := snd link in
  let w := modify self (set_xaxis (set_share (Some sx))) w in
  let w := set_shared_x (join self sx (_shared_x_axes w)) w in
  let w := modify self (set_xaxis (set_ticklabels_visible false)) w in
  modify self (set_xaxis (set_label (set_visible false))) w.

Definition link_y (w : World) (link : ref * ref) : World :=
  let self := fst link in
  let sy := snd link in
  let w := modify self (set_yaxis (set_share (Some sy))) w in
  let w := set_shared_y (join self sy (_shared_y_axes w)) w in
  let w := modify self (set_yaxis (set_ticklabels_visible false)) w in
  modify self (set_yaxis (set_label (set_visible false))) w.

Definition links_of_pair (rec : ref -> ref -> list (ref * ref)) (ps qs : PanelSlot)
  : list (ref * ref) :=
  match ps, qs with
  | PAxes p, PAxes q => rec p q
  | _, _ => []
  end.

Definition links_of_single (rec : ref -> ref -> list (ref * ref)) (ps : PanelSlot)
    (target : ref) : list (ref * ref) :=
  match ps with
  | PAxes p => rec p target
  | _ => []
  end.

(** The links [self._sharex_setup(sx)] makes, in the order it makes them,
    read off the panel attributes [sl] of the heap. *)
Fixpoint sharex_links_made (fuel : nat) (sl : list (list PanelSlot)) (self sx : ref)
  : list (ref * ref) :=
  if self =? sx then [] else
  match fuel with
  | 0 => []
  | S n =>
      match sl !! self, sl !! sx with
      | Some [l; r; b; t], Some [l'; r'; _; _] =>
          links_of_pair (sharex_links_made n sl) l l'
          ++ links_of_pair (sharex_links_made n sl) r r'
          ++ links_of_single (sharex_links_made n sl) b sx
          ++ links_of_single (sharex_links_made n sl) t sx
          ++ [(self, sx)]
      | _, _ => []
      end
  end.

Fixpoint sharey_links_made (fuel : nat) (sl : list (list PanelSlot)) (self sy : ref)
  : list (ref * ref) :=
  if self =? sy then [] else
  match fuel with
  | 0 => []
  | S n =>
      match sl !! self, sl !! sy with
      | Some [l; r; b; t], Some [_; _; b'; t'] =>
          links_of_pair (sharey_links_made n sl) b b'
          ++ links_of_pair (sharey_links_made n sl) t t'
          ++ links_of_single (sharey_links_made n sl) l sy
          ++ links_of_single (sharey_links_made n sl) r sy
          ++ [(self, sy)]
      | _, _ => []
      end
  end.

(** What a link writes to the axes it starts from. *)
Definition linked_x (sx : ref) (a : Axes) : Axes :=
  set_xaxis (set_label (set_visible false))
    (set_xaxis (set_ticklabels_visible false) (set_xaxis (set_share (Some sx)) a)).

Definition linked_y (sy : ref) (a : Axes) : Axes :=
  set_yaxis (set_label (set_visible false))
    (set_yaxis (set_ticklabels_visible false) (set_yaxis (set_share (Some sy)) a)).

(** The target of the last link that starts from [r]. *)
Definition last_target (L : list (ref * ref)) (r : ref) : option ref :=
  fold_left (fun acc link => if fst link =? r then Some (snd link) else acc) L None.

(** The classes after the links of [L] are joined, one after the other. *)
Definition joins (L : list (ref * ref)) (g : Grouper) : Grouper :=
  fold_left (fun g link => join (fst link) (snd link) g) L g.

(** [getattr(ax, side + 'panel')]. *)
Definition panel_attr (side : string) (a : Axes) : option PanelSlot :=
  if String.eqb side "left" then Some (leftpanel a)
  else if String.eqb side "right" then Some (rightpanel a)
  else if String.eqb side "bottom" then Some (bottompanel a)
  else if String.eqb side "top" then Some (toppanel a)
  else None.

(** [slot or self]. *)
Definition or_self (slot : PanelSlot) (self : ref) : ref :=
  match slot with PAxes p => p | _ => self end.

(** The margin of the main block on the left (right): the outer margin,
    and the figure panel with its space when there is one. *)
Definition left_margin (f : Figure) (kw : SubplotsKw) : Q :=
  if truthy (fig_leftpanel f) then (kw_left kw + (kw_lwidth kw + kw_lspace kw))%Q
  else kw_left kw.

Definition right_margin (f : Figure) (kw : SubplotsKw) : Q :=
  if truthy (fig_rightpanel f) then (kw_right kw + (kw_rwidth kw + kw_rspace kw))%Q
  else kw_right kw.

(** The gaps between the box of all artists and the edge of the figure:
    left, right, bottom, top. *)
Definition gaps (env : Env) (w : World) : Q * Q * Q * Q :=
  let b := get_tightbbox env w in
  (xmin b, (fst (size_inches (fig w)) - xmax b)%Q,
   ymin b, (snd (size_inches (fig w)) - ymax b)%Q).

Definition tie_error : Exception :=
  TypeError "'<' not supported between instances of 'Axes' and 'Axes'".

(** A field given on the points of the coordinates. *)
Definition on_centers (xlen ylen : nat) (Zi : ndarray) : bool :=
  match shape Zi with
  | [n0; n1] => (n0 =? xlen) && (n1 =? ylen)
  | _ => false
  end.

(** A field given on the cells between the coordinates: one less along
    each axis. *)
Definition on_borders (xlen ylen : nat) (Zi : ndarray) : bool :=
  match shape Zi with
  | [n0; n1] => (S n0 =? xlen) && (S n1 =? ylen)
  | _ => false
  end.

Definition two_dimensional (Zi : ndarray) : Prop := exists m, Zi = Mat m.

(** The indices, counted from [k], of the entries that pass. *)
Definition where_from {A : Type} (k : nat) (test : A -> bool) (l : list A) : list nat :=
  map fst (List.filter (fun p => test (snd p)) (combine (seq k (length l)) l)).

Definition no_ticks_error (fmt : Q -> string) (vmin vmax : Q) : Exception :=
  ValueError ("No ticks are within the colorbar range " +:+ fmt vmin
                +:+ " to " +:+ fmt vmax +:+ ".").

Definition empty_array_error : Exception :=
  IndexError "index 0 is out of bounds for axis 0 with size 0".

(** The number of rows of column [col] when [n] handles are laid out row
    by row in [ncol] columns. *)
Definition rows_of_column (n ncol col : nat) : nat :=
  if col <? n mod ncol then n / ncol + 1 else n / ncol.

(** The positions of the handles, read column by column. *)
Definition column_major (n ncol : nat) : list nat :=
  flat_map (fun col => map (fun row => row * ncol + col) (seq 0 (rows_of_column n ncol col)))
           (seq 0 ncol).

(** The test of [draw] for pushing the figure title up: an axes of the
    top row with a title outside, or with a column label. *)
Definition pushes_suptitle (ax : Axes) : bool :=
  is_BaseAxes ax && (fst (rows ax) =? 0)
  && ((nonempty (text (title ax)) && negb (_title_inside ax))
      || nonempty (text (collabel ax))).

(** The aliases one by one, in the order they are tried. *)
Definition alias_pairs : list (string * string) :=
  flat_map (fun entry => map (pair (fst entry)) (snd entry)) aliases.

Definition normalise (pairs : list (string * string)) (kwargs : gmap string PyVal)
  : gmap string PyVal :=
  fold_left (fun kwargs p => pop_alias (fst p) (snd p) kwargs) pairs kwargs.

(** The first of the values that is there. *)
Definition first_of (l : list (option PyVal)) : option PyVal :=
  fold_right (fun o acc => match o with Some v => Some v | None => acc end) None l.

(** The object [_make_twin_axes] creates for [a], before it is linked. *)
Definition twin_of (a : Axes) : Axes :=
  new_axes (kind a) (fst (rows a)) (fst (cols a)) (bbox a) None None.

Definition append_axes (r : ref) (w : World) : World :=
  set_fig (set_axes (axes (fig w) ++ [r]) (fig w)) w.

(** What calling for labels gives when two matched axes tie. *)
Definition labels_error (labels : Labels) (n : nat) (what : string) : Exception :=
  if length (broadcast labels n) =? n then tie_error
  else count_mismatch (length (broadcast labels n)) n what.

(** The side across the main axes. *)
Definition opposite (side : string) : string :=
  if String.eqb side "left" then "right"
  else if String.eqb side "right" then "left"
  else if String.eqb side "bottom" then "top"
  else "bottom".

(** The grid [colorbar] lays into a panel at [box] for a colorbar of the
    given length in a stack of [n], and the cell of colorbar [i]. *)
Definition colorbar_grid (side : string) (box : Bbox) (n : nat) (len : Q) : NestedGrid :=
  let ratios := [((1 - len) / 2)%Q; len; ((1 - len) / 2)%Q] in
  if mem side ["bottom"; "top"] then mkNestedGrid n 3 box 0 0 ratios []
  else mkNestedGrid 3 n box 0 0 [] ratios.

Definition colorbar_cell (side : string) (i : nat) : nat * nat :=
  if mem side ["bottom"; "top"] then (i, 1) else (1, i).

(** [pcolorpoly] stands for [pcolor]. *)
Definition alias (attr : string) : string :=
  if String.eqb attr "pcolorpoly" then "pcolor"%string else attr.

Definition is_map (cls : AxesClass) : bool :=
  match cls with
  | ClsMapAxes | ClsPolarAxes | ClsBasemapAxes | ClsCartopyAxes => true
  | _ => false
  end.

(** The names a class refuses to look up. *)
Definition disabled_for (cls : AxesClass) (attr : string) : bool :=
  existsb (fun item => mem attr (snd item)) _disabled_methods
  || (is_map cls && mem attr _map_disabled_methods).

(** [func] under the decorators [ds], the first of them outermost. *)
Definition decorated (ds : list Decorator) (func : Callable) : Callable :=
  fold_right Wrapped func ds.

(** The decorators a class puts on the function found for [attr], the
    outermost first, and whether the function itself is replaced by the
    call of the basemap method of its name. *)
Definition decorators_of (cls : AxesClass) (attr : string) : list Decorator * bool :=
  let a := alias attr in
  let base := if mem a _cmap_methods then [CmapFeatures]
              else if mem a _cycle_methods then [CycleFeatures]
              else [] in
  let check := if mem attr _center_methods then [CheckCenters]
               else if mem attr _edge_methods then [CheckEdges]
               else [] in
  match cls with
  | ClsBaseAxes | ClsMapAxes | ClsPolarAxes => (base, false)
  | ClsXYAxes | ClsPanelAxes => (check ++ base, false)
  | ClsCartopyAxes =>
      if mem attr _line_methods then (LinefixCartopy :: base, false)
      else if mem attr _edge_methods then (CheckEdges :: GridfixCartopy :: base, false)
      else if mem attr _center_methods then (CheckCenters :: GridfixCartopy :: base, false)
      else (base, false)
  | ClsBasemapAxes =>
      if mem a _line_methods then
        ([NoRecurse; LinefixBasemap; CycleFeatures], true)
      else if mem a _edge_methods then
        ([NoRecurse; CheckEdges; GridfixBasemap; CmapFeatures], true)
      else if mem a _center_methods then
        ([NoRecurse; CheckCenters; GridfixBasemap; CmapFeatures], true)
      else (base, false)
  end.

(** The decorators on a function, the outermost first. *)
Fixpoint decorators (func : Callable) : list Decorator :=
  match func with
  | Wrapped d func => d :: decorators func
  | _ => []
  end.

(** The classes that check the shapes of the arguments of grid methods. *)
Definition checks_shapes (cls : AxesClass) : bool :=
  match cls with
  | ClsXYAxes | ClsPanelAxes | ClsBasemapAxes | ClsCartopyAxes => true
  | _ => false
  end.

(** The names that occur in the five tuples of wrapped methods. *)
Definition wrapped_names : list string :=
  _line_methods ++ _edge_methods ++ _center_methods ++ _cycle_methods ++ _cmap_methods.

(** The list [latlines] that the second branch of [_get_latlines] mirrors. *)
Definition northern (latlines : list Q) (latmax : Q) : list Q :=
  match last latlines with
  | Some final => if negb (Qeq_bool final latmax) then latlines ++ [latmax] else latlines
  | None => latlines
  end.

(** The largest double. *)
Definition max_double : Q := (inject_Z (2 ^ 53 - 1) * Geo.two_to 971)%Q.

(** The axes [r] and the panels below it, [n] levels down. *)
Fixpoint below (n : nat) (sl : list (list PanelSlot)) (r : ref) : list ref :=
  r :: match n with
       | 0 => []
       | S n =>
           match sl !! r with
           | Some ps => flat_map (fun p => match p with
                                           | PAxes q => below n sl q
                                           | _ => []
                                           end) ps
           | None => []
           end
       end.

(** ** Worlds to run the model on *)

Module Examples.

Definition gridspec0 : GridSpec := mkGridSpec (1 # 10) (9 # 10) (1 # 10) (9 # 10).

Definition subplots_kw0 : SubplotsKw :=
  mkKw (1 # 2) (1 # 2) (1 # 2) (1 # 2) (1 # 10) (1 # 10) (1 # 10) (3 # 10) (3 # 10).

(** A 6in by 4in figure with tight layout on. *)
Definition figure0 : Figure :=
  Figure__init__ (6, 4)%Q (Some gridspec0) (Some subplots_kw0) true true (1 # 10).

(** A renderer that finds the artists a quarter inch inside the figure
    on the left and bottom, flush on the right and top; a solver that
    keeps the size; [fill] as in [utils]. *)
Definition env0 : Env :=
  {| get_tightbbox := fun w =>
       mkBbox (1 # 4) (fst (size_inches (fig w))) (1 # 4) (snd (size_inches (fig w)));
     _gridspec_kwargs := fun kw =>
       Ok ((6, 4)%Q,
           mkGridSpec (kw_left kw / 6) (1 - kw_right kw / 6)
                      (kw_bottom kw / 4) (1 - kw_top kw / 4))%Q;
     rc_init := true;
     rc_titlepad := 6;
     title_size := fun _ => 12%Q;
     title_linespacing := fun _ => (12 # 10)%Q;
     ylabel_x_in_axes := fun _ => (- (1 # 10))%Q;
     cell_bbox := fun gs r c => subplot_spec gs;
     fill := fun x d => default d x |}.

(** A world whose figure holds the given axes, in this order. *)
Definition world_of (axs : list Axes) : World :=
  {| heap := axs;
     fig := set_axes (seq 0 (length axs)) figure0;
     _shared_x_axes := grouper_init;
     _shared_y_axes := grouper_init;
     log := [] |}.

Definition cell (row col : nat) (pos : Bbox) : Axes :=
  new_axes MainAxes row col pos None None.

(** Three axes side by side. *)
Definition three_in_a_row : World :=
  world_of [ cell 0 0 (mkBbox (1 # 10) (3 # 10) (1 # 10) (9 # 10));
             cell 0 1 (mkBbox (4 # 10) (6 # 10) (1 # 10) (9 # 10));
             cell 0 2 (mkBbox (7 # 10) (9 # 10) (1 # 10) (9 # 10)) ].

(** Three axes on top of each other, top row first. *)
Definition three_in_a_column : World :=
  world_of [ cell 0 0 (mkBbox (1 # 10) (9 # 10) (7 # 10) (9 # 10));
             cell 1 0 (mkBbox (1 # 10) (9 # 10) (4 # 10) (6 # 10));
             cell 2 0 (mkBbox (1 # 10) (9 # 10) (1 # 10) (3 # 10)) ].

(** Axes 0 without panels; axes 1 with a bottom panel, object 2. *)
Definition with_bottom_panel : World :=
  world_of [ cell 0 0 (mkBbox (1 # 10) (4 # 10) (1 # 10) (9 # 10));
             set_panels PEmpty PEmpty (PAxes 2) PEmpty
               (cell 0 1 (mkBbox (6 # 10) (9 # 10) (3 # 10) (9 # 10)));
             new_axes PanelAxes 1 0 (mkBbox (6 # 10) (9 # 10) (1 # 10) (2 # 10))
               (Some 1) (Some "bottom"%string) ].

(** Two composites: axes 0 with its left panel 1 and bottom panel 2,
    axes 3 with its left panel 4 and bottom panel 5. *)
Definition two_composites : World :=
  world_of [ set_panels (PAxes 1) PEmpty (PAxes 2) PEmpty
               (cell 0 1 (mkBbox (2 # 10) (4 # 10) (3 # 10) (9 # 10)));
             new_axes PanelAxes 0 0 (mkBbox (1 # 10) (15 # 100) (3 # 10) (9 # 10))
               (Some 0) (Some "left"%string);
             new_axes PanelAxes 1 1 (mkBbox (2 # 10) (4 # 10) (1 # 10) (2 # 10))
               (Some 0) (Some "bottom"%string);
             set_panels (PAxes 4) PEmpty (PAxes 5) PEmpty
               (cell 0 1 (mkBbox (7 # 10) (9 # 10) (3 # 10) (9 # 10)));
             new_axes PanelAxes 0 0 (mkBbox (6 # 10) (65 # 100) (3 # 10) (9 # 10))
               (Some 3) (Some "left"%string);
             new_axes PanelAxes 1 1 (mkBbox (7 # 10) (9 # 10) (1 # 10) (2 # 10))
               (Some 3) (Some "bottom"%string) ].

(** Two rows in the first column; the upper one already has a row
    label. The lower one comes first in [figure.axes]. *)
Definition labelled_rows : World :=
  world_of [ cell 1 0 (mkBbox (1 # 10) (9 # 10) (1 # 10) (4 # 10));
             set_rowlabel (set_text "old"%string)
               (cell 0 0 (mkBbox (1 # 10) (9 # 10) (6 # 10) (9 # 10))) ].

(** The three axes of a column, with their y labels switched off. *)
Definition three_in_a_column_hidden : World :=
  world_of (map (set_yaxis (set_label (set_visible false))) (heap three_in_a_column)).

(** The cell a panelled axes is carved from: the whole figure. *)
Definition unit_box : Bbox := mkBbox 0 1 0 1.

(** A figure without axes. *)
Definition empty_world : World := world_of [].

End Examples.

Import Examples.

(** A main axes, object 0, with panels on all four sides: left 1, right 2,
    bottom 3, top 4. *)
Definition four_panels : World :=
  world_of [ set_panels (PAxes 1) (PAxes 2) (PAxes 3) (PAxes 4)
               (cell 1 1 (mkBbox (3 # 10) (7 # 10) (3 # 10) (7 # 10)));
             new_axes PanelAxes 1 0 (mkBbox (1 # 10) (2 # 10) (3 # 10) (7 # 10))
               (Some 0) (Some "left"%string);
             new_axes PanelAxes 1 2 (mkBbox (8 # 10) (9 # 10) (3 # 10) (7 # 10))
               (Some 0) (Some "right"%string);
             new_axes PanelAxes 2 1 (mkBbox (3 # 10) (7 # 10) (1 # 10) (2 # 10))
               (Some 0) (Some "bottom"%string);
             new_axes PanelAxes 0 1 (mkBbox (3 # 10) (7 # 10) (8 # 10) (9 # 10))
               (Some 0) (Some "top"%string) ].

(** Two axes in the same grid cell, one over the other. *)
Definition overlaid : World :=
  world_of [ cell 0 0 (mkBbox (1 # 10) (9 # 10) (1 # 10) (9 # 10));
             cell 0 0 (mkBbox (1 # 10) (9 # 10) (1 # 10) (9 # 10)) ].

(** A grid that hands out the cells it has and fails on any other
    index. *)
Definition subgrid0 (gs : NestedGrid) (r c : nat) : Result Bbox :=
  if (r <? nrows gs) && (c <? ncols gs) then Ok (cell_bbox env0 gs r c)
  else Raise (IndexError "index out of range").

(** * Properties *)

(** ** Frames: what the share and span set-ups leave alone *)

Lemma erase_set_xaxis f a : erase (set_xaxis f a) = erase a.
Proof. reflexivity. Qed.

Lemma erase_set_yaxis f a : erase (set_yaxis f a) = erase a.
Proof. reflexivity. Qed.

Lemma panels_of_erase a : panels_of (erase a) = panels_of a.
Proof. reflexivity. Qed.

Lemma map_alter_invariant {A B : Type} (g : A -> B) (f : A -> A) (i : nat) (l : list A) :
  (forall a, g (f a) = g a) -> map g (alter f i l) = map g l.
Proof.
  intros Hf. revert i. induction l as [|a l IH]; intros [|i]; simpl; auto.
  - now rewrite Hf.
  - f_equal. apply IH.
Qed.

Lemma frames_modify r f w :
  (forall a, erase (f a) = erase a) -> frames (modify r f w) = frames w.
Proof. intros Hf. unfold frames, modify. simpl. now apply map_alter_invariant. Qed.

Lemma slots_frames w w' : frames w' = frames w -> slots w' = slots w.
Proof.
  unfold frames, slots. intros H.
  assert (E : forall h, map panels_of h = map panels_of (map erase h)).
  { intros h. rewrite map_map. apply map_ext. intros a. reflexivity. }
  rewrite (E (heap w')), (E (heap w)). now rewrite H.
Qed.

Lemma frames_length w w' : frames w' = frames w -> length (heap w') = length (heap w).
Proof.
  unfold frames. intros H. apply (f_equal (@length _)) in H.
  now rewrite !length_map in H.
Qed.

Lemma frames_lookup w w' r a :
  frames w' = frames w -> heap w !! r = Some a ->
  exists a', heap w' !! r = Some a' /\ erase a' = erase a.
Proof.
  unfold frames. intros H Ha.
  assert (Hl : map erase (heap w') !! r = Some (erase a)).
  { rewrite H. rewrite list_lookup_fmap. now rewrite Ha. }
  rewrite list_lookup_fmap in Hl.
  destruct (heap w' !! r) as [a'|]; simpl in Hl; [|discriminate].
  exists a'. split; [reflexivity|congruence].
Qed.

Lemma get_ok w r a : heap w !! r = Some a -> get w r = Ok a.
Proof. unfold get. now intros ->. Qed.

Lemma get_inv w r a : get w r = Ok a -> heap w !! r = Some a.
Proof. unfold get. destruct (heap w !! r); intros H; inversion H; auto. Qed.

Lemma heap_modify_eq r f w a :
  heap w !! r = Some a -> heap (modify r f w) !! r = Some (f a).
Proof. intros H. unfold modify. simpl. rewrite list_lookup_alter_eq. now rewrite H. Qed.

Lemma heap_modify_ne r r' f w :
  r <> r' -> heap (modify r f w) !! r' = heap w !! r'.
Proof. intros H. unfold modify. simpl. now apply list_lookup_alter_ne. Qed.

Lemma same_frame_refl w : same_frame w w.
Proof. now repeat split. Qed.

Lemma same_frame_trans w1 w2 w3 : same_frame w1 w2 -> same_frame w2 w3 -> same_frame w1 w3.
Proof. unfold same_frame. intros (?&?&?) (?&?&?). repeat split; congruence. Qed.

Lemma same_frame_modify r f w :
  (forall a, erase (f a) = erase a) -> same_frame w (modify r f w).
Proof. intros H. repeat split. now apply frames_modify. Qed.

Lemma mono_refl g : mono g g.
Proof. now intros x y. Qed.

Lemma mono_trans g1 g2 g3 : mono g1 g2 -> mono g2 g3 -> mono g1 g3.
Proof. unfold mono. auto. Qed.

Lemma joined_refl g x : joined g x x = true.
Proof. unfold joined. apply Nat.eqb_refl. Qed.

Lemma join_mono a b g : mono g (join a b g).
Proof.
  intros x y. unfold joined, join. rewrite !Nat.eqb_eq. intros E. now rewrite E.
Qed.

Lemma join_joined a b g : joined (join a b g) a b = true.
Proof.
  unfold joined, join. rewrite (Nat.eqb_refl (g b)).
  destruct (g a =? g b); apply Nat.eqb_refl.
Qed.

Lemma closed_slot w r a p :
  closed (slots w) = true -> heap w !! r = Some a -> In (PAxes p) (panels_of a) ->
  p < length (heap w).
Proof.
  unfold closed. rewrite forallb_forall. intros Hc Ha Hp.
  assert (Hin : In (panels_of a) (slots w)).
  { unfold slots. apply in_map. apply list_elem_of_In. eapply list_elem_of_lookup_2; eauto. }
  specialize (Hc _ Hin). rewrite forallb_forall in Hc. specialize (Hc _ Hp).
  simpl in Hc. apply Nat.ltb_lt in Hc. unfold slots in Hc. now rewrite length_map in Hc.
Qed.

Lemma depth_slot w n r a p :
  panel_depth_le (slots w) (S n) r = true -> heap w !! r = Some a ->
  In (PAxes p) (panels_of a) -> panel_depth_le (slots w) n p = true.
Proof.
  simpl. intros Hd Ha Hp.
  assert (E : slots w !! r = Some (panels_of a)).
  { unfold slots. rewrite list_lookup_fmap. now rewrite Ha. }
  rewrite E in Hd. rewrite forallb_forall in Hd. apply (Hd _ Hp).
Qed.

Lemma depth_valid w n r :
  panel_depth_le (slots w) n r = true -> exists a, heap w !! r = Some a.
Proof.
  destruct n; simpl; [discriminate|]. unfold slots. rewrite list_lookup_fmap.
  destruct (heap w !! r) as [a|]; simpl; [eauto|discriminate].
Qed.

Lemma frame_g_refl grp w : frame_g grp w w.
Proof. split; [apply same_frame_refl|apply mono_refl]. Qed.

Lemma frame_g_trans grp w1 w2 w3 :
  frame_g grp w1 w2 -> frame_g grp w2 w3 -> frame_g grp w1 w3.
Proof.
  intros [? ?] [? ?]. split; [eapply same_frame_trans|eapply mono_trans]; eauto.
Qed.

Lemma frame_g_slots grp w w' : frame_g grp w w' -> slots w' = slots w.
Proof. intros [[H _] _]. now apply slots_frames. Qed.

Lemma frame_g_length grp w w' : frame_g grp w w' -> length (heap w') = length (heap w).
Proof. intros [[H _] _]. now apply frames_length. Qed.

(** One nested call of a share set-up on a panel, for either direction:
    [rec] is the method at the remaining fuel, [grp] its grouper. *)
Section ShareStep.
Variable grp : World -> Grouper.
Variable rec : ref -> option ref -> World -> Result World.
Variable n : nat.
Hypothesis IH : forall self sx w,
  closed (slots w) = true -> sx < length (heap w) ->
  panel_depth_le (slots w) n self = true ->
  exists w', rec self (Some sx) w = Ok w' /\ frame_g grp w w' /\
             (self <> sx -> joined (grp w') self sx = true).

Lemma share_step_pair w ps qs :
  closed (slots w) = true ->
  (forall p, ps = PAxes p -> panel_depth_le (slots w) n p = true) ->
  (forall q, qs = PAxes q -> q < length (heap w)) ->
  exists w',
    match ps, qs with
    | PAxes p, PAxes q => rec p (Some q) w
    | _, _ => Ok w
    end = Ok w' /\ frame_g grp w w' /\
    (forall p q, ps = PAxes p -> qs = PAxes q -> joined (grp w') p q = true).
Proof.
  intros Hc Hp Hq.
  destruct ps as [| |p];
    try (exists w; split; [reflexivity|split; [apply frame_g_refl|discriminate]]).
  destruct qs as [| |q];
    try (exists w; split; [reflexivity|split; [apply frame_g_refl|discriminate]]).
  destruct (IH p q w Hc (Hq _ eq_refl) (Hp _ eq_refl)) as (w' & E & F & L).
  exists w'. split; [exact E|]. split; [exact F|].
  intros p' q' Ep Eq. inversion Ep; inversion Eq; subst.
  destruct (Nat.eq_dec p' q') as [->|Hne]; [apply joined_refl|auto].
Qed.

Lemma share_step_single w ps sx :
  closed (slots w) = true ->
  (forall p, ps = PAxes p -> panel_depth_le (slots w) n p = true) ->
  sx < length (heap w) ->
  exists w',
    match ps with
    | PAxes p => rec p (Some sx) w
    | _ => Ok w
    end = Ok w' /\ frame_g grp w w' /\
    (forall p, ps = PAxes p -> joined (grp w') p sx = true).
Proof.
  intros Hc Hp Hs.
  destruct ps as [| |p];
    try (exists w; split; [reflexivity|split; [apply frame_g_refl|discriminate]]).
  destruct (IH p sx w Hc Hs (Hp _ eq_refl)) as (w' & E' & F & L).
  exists w'. split; [exact E'|]. split; [exact F|].
  intros p' Ep. inversion Ep; subst.
  destruct (Nat.eq_dec p' sx) as [->|Hne]; [apply joined_refl|auto].
Qed.

Lemma share_step_single_guarded w ps sx :
  closed (slots w) = true ->
  (forall p, ps = PAxes p -> panel_depth_le (slots w) n p = true) ->
  sx < length (heap w) ->
  exists w',
    match ps with
    | PAxes p => if negb (sx =? p) then rec p (Some sx) w else Ok w
    | _ => Ok w
    end = Ok w' /\ frame_g grp w w' /\
    (forall p, ps = PAxes p -> joined (grp w') p sx = true).
Proof.
  intros Hc Hp Hs.
  destruct ps as [| |p];
    try (exists w; split; [reflexivity|split; [apply frame_g_refl|discriminate]]).
  destruct (sx =? p) eqn:E; simpl.
  - apply Nat.eqb_eq in E. subst. exists w. split; [reflexivity|].
    split; [apply frame_g_refl|]. intros p' Ep. inversion Ep; subst. apply joined_refl.
  - apply (share_step_single w (PAxes p) sx Hc Hp Hs).
Qed.
End ShareStep.

Lemma reread w w' r a :
  frames w' = frames w -> heap w !! r = Some a ->
  exists a', get w' r = Ok a' /\ heap w' !! r = Some a' /\ panels_of a' = panels_of a.
Proof.
  intros F Ha. destruct (frames_lookup _ _ _ _ F Ha) as (a' & Ha' & E).
  exists a'. split; [now apply get_ok|]. split; [exact Ha'|].
  rewrite <- (panels_of_erase a'), <- (panels_of_erase a). now rewrite E.
Qed.

Lemma panels_of_inv a a' :
  panels_of a' = panels_of a ->
  leftpanel a' = leftpanel a /\ rightpanel a' = rightpanel a /\
  bottompanel a' = bottompanel a /\ toppanel a' = toppanel a.
Proof. unfold panels_of. intros H. inversion H. auto. Qed.

Lemma sharex_final_frame self sx w :
  frame_g _shared_x_axes w
    (modify self (set_xaxis (set_label (set_visible false)))
       (modify self (set_xaxis (set_ticklabels_visible false))
          (set_shared_x (join self sx (_shared_x_axes (modify self (set_xaxis (set_share (Some sx))) w)))
             (modify self (set_xaxis (set_share (Some sx))) w)))).
Proof.
  split.
  - repeat split; simpl; try reflexivity.
    unfold frames. simpl. rewrite !map_alter_invariant; auto.
  - simpl. apply join_mono.
Qed.

Lemma sharex_total fuel : forall self sx w,
  closed (slots w) = true -> sx < length (heap w) ->
  panel_depth_le (slots w) fuel self = true ->
  exists w', _sharex_setup fuel self (Some sx) w = Ok w' /\ frame_g _shared_x_axes w w' /\
             (self <> sx -> sharex_links w w' self sx).
Proof.
  induction fuel as [|n IH]; intros self sx w Hc Hsx Hd; [discriminate|].
  cbn [_sharex_setup].
  destruct (self =? sx) eqn:Ese.
  { apply Nat.eqb_eq in Ese. exists w. split; [reflexivity|].
    split; [apply frame_g_refl|]. congruence. }
  apply Nat.eqb_neq in Ese.
  assert (IHw : forall self sx w,
    closed (slots w) = true -> sx < length (heap w) ->
    panel_depth_le (slots w) n self = true ->
    exists w', _sharex_setup n self (Some sx) w = Ok w' /\ frame_g _shared_x_axes w w' /\
               (self <> sx -> joined (_shared_x_axes w') self sx = true)).
  { intros s1 s2 w0 H1 H2 H3. destruct (IH s1 s2 w0 H1 H2 H3) as (w' & E & F & L).
    exists w'. split; [exact E|]. split; [exact F|]. intros Hne. now destruct (L Hne). }
  destruct (depth_valid _ _ _ Hd) as [a Ha].
  destruct (lookup_lt_is_Some_2 (heap w) sx Hsx) as [b Hb].
  assert (Hda : forall p, In (PAxes p) (panels_of a) -> panel_depth_le (slots w) n p = true)
    by (intros p; apply (depth_slot _ _ _ _ _ Hd Ha)).
  assert (Hcb : forall q, In (PAxes q) (panels_of b) -> q < length (heap w))
    by (intros q; apply (closed_slot _ _ _ _ Hc Hb)).
  (* left panels *)
  rewrite (get_ok _ _ _ Ha), (get_ok _ _ _ Hb). cbn [bind].
  destruct (share_step_pair _shared_x_axes (_sharex_setup n) n IHw w (leftpanel a) (leftpanel b) Hc) as (w1 & E1 & F1 & L1).
  { intros p Ep. apply Hda. rewrite <- Ep. simpl. auto. }
  { intros q Eq. apply Hcb. rewrite <- Eq. simpl. auto. }
  rewrite E1. cbn [bind].
  (* right panels *)
  destruct (reread w w1 self a (proj1 (proj1 F1)) Ha) as (a1 & Ga1 & Ha1 & Pa1).
  destruct (reread w w1 sx b (proj1 (proj1 F1)) Hb) as (b1 & Gb1 & Hb1 & Pb1).
  destruct (panels_of_inv _ _ Pa1) as (Al1 & Ar1 & Ab1 & At1).
  destruct (panels_of_inv _ _ Pb1) as (Bl1 & Br1 & Bb1 & Bt1).
  rewrite Ga1, Gb1. cbn [bind].
  assert (Hc1 : closed (slots w1) = true) by (rewrite (frame_g_slots _ _ _ F1); exact Hc).
  destruct (share_step_pair _shared_x_axes (_sharex_setup n) n IHw w1 (rightpanel a1) (rightpanel b1) Hc1) as (w2 & E2 & F2 & L2).
  { intros p Ep. rewrite (frame_g_slots _ _ _ F1). apply Hda. rewrite <- Ep, Ar1. simpl. auto. }
  { intros q Eq. rewrite (frame_g_length _ _ _ F1). apply Hcb. rewrite <- Eq, Br1. simpl. auto. }
  rewrite E2. cbn [bind].
  (* bottom panel *)
  pose proof (frame_g_trans _ _ _ _ F1 F2) as F02.
  destruct (reread w w2 self a (proj1 (proj1 F02)) Ha) as (a2 & Ga2 & Ha2 & Pa2).
  destruct (panels_of_inv _ _ Pa2) as (Al2 & Ar2 & Ab2 & At2).
  rewrite Ga2. cbn [bind].
  assert (Hc2 : closed (slots w2) = true) by (rewrite (frame_g_slots _ _ _ F02); exact Hc).
  destruct (share_step_single_guarded _shared_x_axes (_sharex_setup n) n IHw w2 (bottompanel a2) sx Hc2) as (w3 & E3 & F3 & L3).
  { intros p Ep. rewrite (frame_g_slots _ _ _ F02). apply Hda. rewrite <- Ep, Ab2. simpl. auto. }
  { now rewrite (frame_g_length _ _ _ F02). }
  rewrite E3. cbn [bind].
  (* top panel *)
  pose proof (frame_g_trans _ _ _ _ F02 F3) as F03.
  destruct (reread w w3 self a (proj1 (proj1 F03)) Ha) as (a3 & Ga3 & Ha3 & Pa3).
  destruct (panels_of_inv _ _ Pa3) as (Al3 & Ar3 & Ab3 & At3).
  rewrite Ga3. cbn [bind].
  assert (Hc3 : closed (slots w3) = true) by (rewrite (frame_g_slots _ _ _ F03); exact Hc).
  destruct (share_step_single_guarded _shared_x_axes (_sharex_setup n) n IHw w3 (toppanel a3) sx Hc3) as (w4 & E4 & F4 & L4).
  { intros p Ep. rewrite (frame_g_slots _ _ _ F03). apply Hda. rewrite <- Ep, At3. simpl. auto. }
  { now rewrite (frame_g_length _ _ _ F03). }
  rewrite E4. cbn [bind].
  (* the link itself *)
  pose proof (frame_g_trans _ _ _ _ F03 F4) as F04.
  pose proof (sharex_final_frame self sx w4) as F5.
  eexists. split; [reflexivity|]. split; [eapply frame_g_trans; eauto|].
  intros _. split; [cbn; apply join_joined|].
  intros a' b' Ha' Hb'. rewrite Ha in Ha'. rewrite Hb in Hb'.
  inversion Ha'; inversion Hb'; subst a' b'.
  repeat split.
  - intros p [Ep|Ep]; apply (proj2 F5).
    + apply (proj2 F4). apply L3. congruence.
    + apply L4. congruence.
  - intros p q Ep Eq. apply (proj2 F5), (proj2 F4), (proj2 F3), (proj2 F2).
    now apply L1.
  - intros p q Ep Eq. apply (proj2 F5), (proj2 F4), (proj2 F3).
    apply L2; congruence.
Qed.

Lemma sharey_final_frame self sx w :
  frame_g _shared_y_axes w
    (modify self (set_yaxis (set_label (set_visible false)))
       (modify self (set_yaxis (set_ticklabels_visible false))
          (set_shared_y (join self sx (_shared_y_axes (modify self (set_yaxis (set_share (Some sx))) w)))
             (modify self (set_yaxis (set_share (Some sx))) w)))).
Proof.
  split.
  - repeat split; simpl; try reflexivity.
    unfold frames. simpl. rewrite !map_alter_invariant; auto.
  - simpl. apply join_mono.
Qed.

Lemma sharey_total fuel : forall self sx w,
  closed (slots w) = true -> sx < length (heap w) ->
  panel_depth_le (slots w) fuel self = true ->
  exists w', _sharey_setup fuel self (Some sx) w = Ok w' /\ frame_g _shared_y_axes w w' /\
             (self <> sx -> sharey_links w w' self sx).
Proof.
  induction fuel as [|n IH]; intros self sx w Hc Hsx Hd; [discriminate|].
  cbn [_sharey_setup].
  destruct (self =? sx) eqn:Ese.
  { apply Nat.eqb_eq in Ese. exists w. split; [reflexivity|].
    split; [apply frame_g_refl|]. congruence. }
  apply Nat.eqb_neq in Ese.
  assert (IHw : forall self sx w,
    closed (slots w) = true -> sx < length (heap w) ->
    panel_depth_le (slots w) n self = true ->
    exists w', _sharey_setup n self (Some sx) w = Ok w' /\ frame_g _shared_y_axes w w' /\
               (self <> sx -> joined (_shared_y_axes w') self sx = true)).
  { intros s1 s2 w0 H1 H2 H3. destruct (IH s1 s2 w0 H1 H2 H3) as (w' & E & F & L).
    exists w'. split; [exact E|]. split; [exact F|]. intros Hne. now destruct (L Hne). }
  destruct (depth_valid _ _ _ Hd) as [a Ha].
  destruct (lookup_lt_is_Some_2 (heap w) sx Hsx) as [b Hb].
  assert (Hda : forall p, In (PAxes p) (panels_of a) -> panel_depth_le (slots w) n p = true)
    by (intros p; apply (depth_slot _ _ _ _ _ Hd Ha)).
  assert (Hcb : forall q, In (PAxes q) (panels_of b) -> q < length (heap w))
    by (intros q; apply (closed_slot _ _ _ _ Hc Hb)).
  (* bottom panels *)
  rewrite (get_ok _ _ _ Ha), (get_ok _ _ _ Hb). cbn [bind].
  destruct (share_step_pair _shared_y_axes (_sharey_setup n) n IHw w (bottompanel a) (bottompanel b) Hc) as (w1 & E1 & F1 & L1).
  { intros p Ep. apply Hda. rewrite <- Ep. simpl. auto. }
  { intros q Eq. apply Hcb. rewrite <- Eq. simpl. auto. }
  rewrite E1. cbn [bind].
  (* top panels *)
  destruct (reread w w1 self a (proj1 (proj1 F1)) Ha) as (a1 & Ga1 & Ha1 & Pa1).
  destruct (reread w w1 sx b (proj1 (proj1 F1)) Hb) as (b1 & Gb1 & Hb1 & Pb1).
  destruct (panels_of_inv _ _ Pa1) as (Al1 & Ar1 & Ab1 & At1).
  destruct (panels_of_inv _ _ Pb1) as (Bl1 & Br1 & Bb1 & Bt1).
  rewrite Ga1, Gb1. cbn [bind].
  assert (Hc1 : closed (slots w1) = true) by (rewrite (frame_g_slots _ _ _ F1); exact Hc).
  destruct (share_step_pair _shared_y_axes (_sharey_setup n) n IHw w1 (toppanel a1) (toppanel b1) Hc1) as (w2 & E2 & F2 & L2).
  { intros p Ep. rewrite (frame_g_slots _ _ _ F1). apply Hda. rewrite <- Ep, At1. simpl. auto. }
  { intros q Eq. rewrite (frame_g_length _ _ _ F1). apply Hcb. rewrite <- Eq, Bt1. simpl. auto. }
  rewrite E2. cbn [bind].
  (* left panel *)
  pose proof (frame_g_trans _ _ _ _ F1 F2) as F02.
  destruct (reread w w2 self a (proj1 (proj1 F02)) Ha) as (a2 & Ga2 & Ha2 & Pa2).
  destruct (panels_of_inv _ _ Pa2) as (Al2 & Ar2 & Ab2 & At2).
  rewrite Ga2. cbn [bind].
  assert (Hc2 : closed (slots w2) = true) by (rewrite (frame_g_slots _ _ _ F02); exact Hc).
  destruct (share_step_single _shared_y_axes (_sharey_setup n) n IHw w2 (leftpanel a2) sx Hc2) as (w3 & E3 & F3 & L3).
  { intros p Ep. rewrite (frame_g_slots _ _ _ F02). apply Hda. rewrite <- Ep, Al2. simpl. auto. }
  { now rewrite (frame_g_length _ _ _ F02). }
  rewrite E3. cbn [bind].
  (* right panel *)
  pose proof (frame_g_trans _ _ _ _ F02 F3) as F03.
  destruct (reread w w3 self a (proj1 (proj1 F03)) Ha) as (a3 & Ga3 & Ha3 & Pa3).
  destruct (panels_of_inv _ _ Pa3) as (Al3 & Ar3 & Ab3 & At3).
  rewrite Ga3. cbn [bind].
  assert (Hc3 : closed (slots w3) = true) by (rewrite (frame_g_slots _ _ _ F03); exact Hc).
  destruct (share_step_single _shared_y_axes (_sharey_setup n) n IHw w3 (rightpanel a3) sx Hc3) as (w4 & E4 & F4 & L4).
  { intros p Ep. rewrite (frame_g_slots _ _ _ F03). apply Hda. rewrite <- Ep, Ar3. simpl. auto. }
  { now rewrite (frame_g_length _ _ _ F03). }
  rewrite E4. cbn [bind].
  (* the link itself *)
  pose proof (frame_g_trans _ _ _ _ F03 F4) as F04.
  pose proof (sharey_final_frame self sx w4) as F5.
  eexists. split; [reflexivity|]. split; [eapply frame_g_trans; eauto|].
  intros _. split; [cbn; apply join_joined|].
  intros a' b' Ha' Hb'. rewrite Ha in Ha'. rewrite Hb in Hb'.
  inversion Ha'; inversion Hb'; subst a' b'.
  repeat split.
  - intros p [Ep|Ep]; apply (proj2 F5).
    + apply (proj2 F4). apply L3. congruence.
    + apply L4. congruence.
  - intros p q Ep Eq. apply (proj2 F5), (proj2 F4), (proj2 F3), (proj2 F2).
    now apply L1.
  - intros p q Ep Eq. apply (proj2 F5), (proj2 F4), (proj2 F3).
    apply L2; congruence.
Qed.

Lemma bind_ok {A B : Type} (m : Result A) (k : A -> Result B) (b : B) :
  bind m k = Ok b -> exists a, m = Ok a /\ k a = Ok b.
Proof. destruct m as [a|e]; simpl; [eauto|discriminate]. Qed.

Ltac bind_inv H :=
  let a := fresh "a" in
  let E := fresh "E" in
  apply bind_ok in H; destruct H as (a & E & H).

(** Whatever a share set-up returns, it changed nothing but the axis
    state of some axes and the classes of its grouper, which grew. *)
Section ShareFrame.
Variable grp : World -> Grouper.
Variable rec : ref -> option ref -> World -> Result World.
Hypothesis IH : forall self sx w w', rec self sx w = Ok w' -> frame_g grp w w'.

Lemma frame_step_pair w w' ps qs :
  match ps, qs with
  | PAxes p, PAxes q => rec p (Some q) w
  | _, _ => Ok w
  end = Ok w' -> frame_g grp w w'.
Proof.
  destruct ps as [| |p]; try (intros H; inversion H; apply frame_g_refl).
  destruct qs as [| |q]; try (intros H; inversion H; apply frame_g_refl).
  apply IH.
Qed.

Lemma frame_step_single w w' ps sx :
  match ps with
  | PAxes p => rec p (Some sx) w
  | _ => Ok w
  end = Ok w' -> frame_g grp w w'.
Proof.
  destruct ps as [| |p]; try (intros H; inversion H; apply frame_g_refl).
  apply IH.
Qed.

Lemma frame_step_single_guarded w w' ps sx :
  match ps with
  | PAxes p => if negb (sx =? p) then rec p (Some sx) w else Ok w
  | _ => Ok w
  end = Ok w' -> frame_g grp w w'.
Proof.
  destruct ps as [| |p]; try (intros H; inversion H; apply frame_g_refl).
  destruct (negb (sx =? p)); [apply IH|].
  intros H; inversion H; apply frame_g_refl.
Qed.
End ShareFrame.

Lemma sharex_frame fuel : forall self sharex w w',
  _sharex_setup fuel self sharex w = Ok w' -> frame_g _shared_x_axes w w'.
Proof.
  induction fuel as [|n IH]; intros self [sx|] w w' H; cbn [_sharex_setup] in H;
    try (inversion H; apply frame_g_refl);
    destruct (self =? sx); try (inversion H; apply frame_g_refl); try discriminate.
  bind_inv H. bind_inv H. bind_inv H. apply (frame_step_pair _shared_x_axes _ IH) in E1.
  bind_inv H. bind_inv H. bind_inv H. apply (frame_step_pair _shared_x_axes _ IH) in E4.
  bind_inv H. bind_inv H. apply (frame_step_single_guarded _shared_x_axes _ IH) in E6.
  bind_inv H. bind_inv H. apply (frame_step_single_guarded _shared_x_axes _ IH) in E8.
  inversion H; subst w'.
  repeat (eapply frame_g_trans; [eassumption|]).
  apply sharex_final_frame.
Qed.

Lemma sharey_frame fuel : forall self sharey w w',
  _sharey_setup fuel self sharey w = Ok w' -> frame_g _shared_y_axes w w'.
Proof.
  induction fuel as [|n IH]; intros self [sy|] w w' H; cbn [_sharey_setup] in H;
    try (inversion H; apply frame_g_refl);
    destruct (self =? sy); try (inversion H; apply frame_g_refl); try discriminate.
  bind_inv H. bind_inv H. bind_inv H. apply (frame_step_pair _shared_y_axes _ IH) in E1.
  bind_inv H. bind_inv H. bind_inv H. apply (frame_step_pair _shared_y_axes _ IH) in E4.
  bind_inv H. bind_inv H. apply (frame_step_single _shared_y_axes _ IH) in E6.
  bind_inv H. bind_inv H. apply (frame_step_single _shared_y_axes _ IH) in E8.
  inversion H; subst w'.
  repeat (eapply frame_g_trans; [eassumption|]).
  apply sharey_final_frame.
Qed.

(** ** Span groups *)

Lemma Qltb_true x y : Qltb x y = true <-> (x < y)%Q.
Proof.
  unfold Qltb. rewrite negb_true_iff, <- not_true_iff_false, Qle_bool_iff.
  split; [apply Qnot_le_lt|apply Qlt_not_le].
Qed.

Lemma Qltb_false x y : Qltb x y = false <-> (y <= x)%Q.
Proof.
  unfold Qltb. rewrite negb_false_iff, Qle_bool_iff. reflexivity.
Qed.

Lemma fold_min_spec l : forall x,
  let m := fold_left (fun m y => if Qltb y m then y else m) l x in
  In m (x :: l) /\ forall y, In y (x :: l) -> (m <= y)%Q.
Proof.
  induction l as [|z l IH]; intros x; cbn [fold_left].
  - split; [now left|]. intros y [<-|[]]. apply Qle_refl.
  - specialize (IH (if Qltb z x then z else x)). cbv zeta in IH.
    destruct IH as [Hin Hle]. split.
    + destruct Hin as [E|Hin]; [|right; now right].
      rewrite <- E. destruct (Qltb z x); [right|]; now left.
    + assert (Hacc : ((if Qltb z x then z else x) <= x /\ (if Qltb z x then z else x) <= z)%Q).
      { destruct (Qltb z x) eqn:E.
        - apply Qltb_true in E. split; [now apply Qlt_le_weak|apply Qle_refl].
        - apply Qltb_false in E. split; [apply Qle_refl|exact E]. }
      intros y [<-|[<-|Hy]].
      * eapply Qle_trans; [apply Hle; now left|apply Hacc].
      * eapply Qle_trans; [apply Hle; now left|apply Hacc].
      * apply Hle. now right.
Qed.

Lemma fold_max_spec l : forall x,
  let m := fold_left (fun m y => if Qltb m y then y else m) l x in
  In m (x :: l) /\ forall y, In y (x :: l) -> (y <= m)%Q.
Proof.
  induction l as [|z l IH]; intros x; cbn [fold_left].
  - split; [now left|]. intros y [<-|[]]. apply Qle_refl.
  - specialize (IH (if Qltb x z then z else x)). cbv zeta in IH.
    destruct IH as [Hin Hle]. split.
    + destruct Hin as [E|Hin]; [|right; now right].
      rewrite <- E. destruct (Qltb x z); [right|]; now left.
    + assert (Hacc : (x <= (if Qltb x z then z else x) /\ z <= (if Qltb x z then z else x))%Q).
      { destruct (Qltb x z) eqn:E.
        - apply Qltb_true in E. split; [now apply Qlt_le_weak|apply Qle_refl].
        - apply Qltb_false in E. split; [apply Qle_refl|exact E]. }
      intros y [<-|[<-|Hy]].
      * eapply Qle_trans; [apply Hacc|apply Hle; now left].
      * eapply Qle_trans; [apply Hacc|apply Hle; now left].
      * apply Hle. now right.
Qed.

Lemma py_min_spec l :
  l <> [] -> exists m, py_min l = Ok m /\ In m l /\ forall y, In y l -> (m <= y)%Q.
Proof.
  destruct l as [|x l]; [congruence|]. intros _. eexists. split; [reflexivity|].
  apply fold_min_spec.
Qed.

Lemma py_max_spec l :
  l <> [] -> exists m, py_max l = Ok m /\ In m l /\ forall y, In y l -> (y <= m)%Q.
Proof.
  destruct l as [|x l]; [congruence|]. intros _. eexists. split; [reflexivity|].
  apply fold_max_spec.
Qed.

(** Reading an attribute of every member of a group of live axes. *)
Lemma for_each_get_ok {A : Type} (w w0 : World) (f : Axes -> A) (g : Axes -> A) group :
  (forall r a, In r group -> heap w0 !! r = Some a ->
               exists a', heap w !! r = Some a' /\ f a' = g a) ->
  Forall (fun r => is_Some (heap w0 !! r)) group ->
  exists vals, for_each_get w f group = Ok vals /\
    length vals = length group /\
    (forall v, In v vals <-> exists r a, In r group /\ heap w0 !! r = Some a /\ g a = v).
Proof.
  induction group as [|r rest IH]; intros Hrd Hall.
  - exists []. simpl. repeat split; auto; try tauto. intros (r & a & [] & _).
  - inversion Hall as [|? ? [a Ha] Hrest]; subst.
    destruct IH as (vals & E & Hlen & Hin); [|exact Hrest|].
    { intros r' a' Hr'. apply Hrd. now right. }
    destruct (Hrd r a (or_introl eq_refl) Ha) as (a' & Ha' & Efa).
    exists (g a :: vals). cbn [for_each_get]. rewrite (get_ok _ _ _ Ha'). cbn [bind].
    rewrite E. cbn [bind]. rewrite Efa. split; [reflexivity|]. split; [simpl; congruence|].
    intros v. split.
    + intros [<-|Hv]; [exists r, a; repeat split; auto; now left|].
      apply Hin in Hv. destruct Hv as (r' & a'' & ? & ? & ?). exists r', a''.
      repeat split; auto. now right.
    + intros (r' & a'' & [<-|Hr'] & Ha'' & <-).
      * left. congruence.
      * right. apply Hin. eauto.
Qed.

Lemma map_lookup_inv {A B : Type} (g : A -> B) (h h' : list A) r a :
  map g h' = map g h -> h !! r = Some a ->
  exists a', h' !! r = Some a' /\ g a' = g a.
Proof.
  intros H Ha.
  assert (Hl : map g h' !! r = Some (g a)).
  { rewrite H. rewrite list_lookup_fmap. now rewrite Ha. }
  rewrite list_lookup_fmap in Hl.
  destruct (h' !! r) as [a'|]; simpl in Hl; [|discriminate].
  exists a'. split; [reflexivity|congruence].
Qed.

Lemma fold_modify_invariant {B : Type} (g : Axes -> B) (body : World -> ref -> World) group :
  (forall w ax, map g (heap (body w ax)) = map g (heap w)) ->
  forall w, map g (heap (fold_left body group w)) = map g (heap w).
Proof.
  intros Hb. induction group as [|r rest IH]; intros w; simpl; [reflexivity|].
  rewrite IH. apply Hb.
Qed.

Lemma modify_invariant {B : Type} (g : Axes -> B) r f w :
  (forall a, g (f a) = g a) -> map g (heap (modify r f w)) = map g (heap w).
Proof. intros H. unfold modify. simpl. now apply map_alter_invariant. Qed.

Lemma extent_of_vals w sel group (vals : list Q) :
  (forall v, In v vals <-> exists r a, In r group /\ heap w !! r = Some a /\ sel (bbox a) = v) ->
  forall lo, In lo vals -> (forall y, In y vals -> (lo <= y)%Q) -> extent_min w sel group lo.
Proof.
  intros Hv lo Hin Hle. split.
  - now apply Hv.
  - intros r a Hr Ha. apply Hle. apply Hv. eauto.
Qed.

Lemma extent_of_vals_max w sel group (vals : list Q) :
  (forall v, In v vals <-> exists r a, In r group /\ heap w !! r = Some a /\ sel (bbox a) = v) ->
  forall hi, In hi vals -> (forall y, In y vals -> (y <= hi)%Q) -> extent_max w sel group hi.
Proof.
  intros Hv hi Hin Hle. split.
  - now apply Hv.
  - intros r a Hr Ha. apply Hle. apply Hv. eauto.
Qed.

Lemma spanx_midpoint w self group :
  group <> [] -> is_Some (heap w !! self) ->
  Forall (fun r => is_Some (heap w !! r)) group ->
  exists w' lo hi a',
    _spanx_setup self group w = Ok w' /\
    extent_min w xmin group lo /\ extent_max w xmax group hi /\
    heap w' !! self = Some a' /\
    position (label (xaxis a')) = (((lo + hi) / 2)%Q, 0%Q) /\
    transform (label (xaxis a')) = TransFigureX.
Proof.
  intros Hne [a Ha] Hall. unfold _spanx_setup.
  rewrite (get_ok _ _ _ Ha). cbn [bind].
  set (w1 := modify self _ w).
  assert (Hrd : forall (sel : Bbox -> Q) r a0, In r group -> heap w !! r = Some a0 ->
            exists a', heap w1 !! r = Some a' /\ sel (bbox a') = sel (bbox a0)).
  { intros sel r a0 _ Ha0.
    destruct (map_lookup_inv bbox (heap w) (heap w1) r a0) as (a' & Ha' & E); auto.
    - apply modify_invariant. reflexivity.
    - exists a'. split; [exact Ha'|]. now rewrite E. }
  destruct (for_each_get_ok w1 w (fun ax => xmin (bbox ax)) (fun ax => xmin (bbox ax))
              group (Hrd xmin) Hall) as (mins & Emin & Lmin & Hmin).
  destruct (for_each_get_ok w1 w (fun ax => xmax (bbox ax)) (fun ax => xmax (bbox ax))
              group (Hrd xmax) Hall) as (maxs & Emax & Lmax & Hmax).
  rewrite Emin. cbn [bind].
  destruct (py_min_spec mins) as (lo & Elo & Hlo_in & Hlo).
  { destruct mins; [destruct group; simpl in Lmin; congruence|discriminate]. }
  rewrite Elo. cbn [bind]. rewrite Emax. cbn [bind].
  destruct (py_max_spec maxs) as (hi & Ehi & Hhi_in & Hhi).
  { destruct maxs; [destruct group; simpl in Lmax; congruence|discriminate]. }
  rewrite Ehi. cbn [bind].
  set (w2 := modify self _ w1).
  assert (Ha1 : heap w1 !! self = Some (set_xaxis (set_label (set_transform TransFigureX)) a))
    by (apply heap_modify_eq; exact Ha).
  pose proof (heap_modify_eq self
                (set_xaxis (set_label (set_position (((lo + hi) / 2)%Q, 0%Q)))) w1 _ Ha1) as Ha2.
  fold w2 in Ha2.
  match goal with |- context [fold_left ?body group w2] => set (loop := body) end.
  destruct (fun H => map_lookup_inv
              (fun a => (position (label (xaxis a)), transform (label (xaxis a))))
              (heap w2) (heap (fold_left loop group w2)) self _ H Ha2)
    as (a' & Ha' & Epos).
  { apply fold_modify_invariant. intros w0 ax. unfold loop.
    destruct (negb (ax =? self));
      rewrite modify_invariant by reflexivity; now rewrite modify_invariant. }
  exists (fold_left loop group w2), lo, hi, a'.
  split; [reflexivity|].
  split; [eapply extent_of_vals; eauto|].
  split; [eapply extent_of_vals_max; eauto|].
  split; [exact Ha'|]. inversion Epos as [[Ep Et]]. split; reflexivity.
Qed.

Lemma spany_midpoint w self group :
  group <> [] -> is_Some (heap w !! self) ->
  Forall (fun r => is_Some (heap w !! r)) group ->
  exists w' lo hi a',
    _spany_setup self group w = Ok w' /\
    extent_min w ymin group lo /\ extent_max w ymax group hi /\
    heap w' !! self = Some a' /\
    position (label (yaxis a')) = (0%Q, ((lo + hi) / 2)%Q) /\
    transform (label (yaxis a')) = TransFigureY.
Proof.
  intros Hne [a Ha] Hall. unfold _spany_setup.
  rewrite (get_ok _ _ _ Ha). cbn [bind].
  set (w1 := modify self _ w).
  assert (Hrd : forall (sel : Bbox -> Q) r a0, In r group -> heap w !! r = Some a0 ->
            exists a', heap w1 !! r = Some a' /\ sel (bbox a') = sel (bbox a0)).
  { intros sel r a0 _ Ha0.
    destruct (map_lookup_inv bbox (heap w) (heap w1) r a0) as (a' & Ha' & E); auto.
    - apply modify_invariant. reflexivity.
    - exists a'. split; [exact Ha'|]. now rewrite E. }
  destruct (for_each_get_ok w1 w (fun ax => ymin (bbox ax)) (fun ax => ymin (bbox ax))
              group (Hrd ymin) Hall) as (mins & Emin & Lmin & Hmin).
  destruct (for_each_get_ok w1 w (fun ax => ymax (bbox ax)) (fun ax => ymax (bbox ax))
              group (Hrd ymax) Hall) as (maxs & Emax & Lmax & Hmax).
  rewrite Emin. cbn [bind].
  destruct (py_min_spec mins) as (lo & Elo & Hlo_in & Hlo).
  { destruct mins; [destruct group; simpl in Lmin; congruence|discriminate]. }
  rewrite Elo. cbn [bind]. rewrite Emax. cbn [bind].
  destruct (py_max_spec maxs) as (hi & Ehi & Hhi_in & Hhi).
  { destruct maxs; [destruct group; simpl in Lmax; congruence|discriminate]. }
  rewrite Ehi. cbn [bind].
  set (w2 := modify self _ w1).
  assert (Ha1 : heap w1 !! self = Some (set_yaxis (set_label (set_transform TransFigureY)) a))
    by (apply heap_modify_eq; exact Ha).
  pose proof (heap_modify_eq self
                (set_yaxis (set_label (set_position (0%Q, ((lo + hi) / 2)%Q)))) w1 _ Ha1) as Ha2.
  fold w2 in Ha2.
  match goal with |- context [fold_left ?body group w2] => set (loop := body) end.
  destruct (fun H => map_lookup_inv
              (fun a => (position (label (yaxis a)), transform (label (yaxis a))))
              (heap w2) (heap (fold_left loop group w2)) self _ H Ha2)
    as (a' & Ha' & Epos).
  { apply fold_modify_invariant. intros w0 ax. unfold loop.
    destruct (negb (ax =? self));
      repeat (rewrite modify_invariant by reflexivity); reflexivity. }
  exists (fold_left loop group w2), lo, hi, a'.
  split; [reflexivity|].
  split; [eapply extent_of_vals; eauto|].
  split; [eapply extent_of_vals_max; eauto|].
  split; [exact Ha'|]. inversion Epos as [[Ep Et]]. split; reflexivity.
Qed.

Lemma length_heap_modify r f w : length (heap (modify r f w)) = length (heap w).
Proof. unfold modify. simpl. apply length_alter. Qed.

Lemma Ok_inj {A : Type} (a b : A) : Ok a = Ok b -> a = b.
Proof. congruence. Qed.

Lemma same_frame_fold (body : World -> ref -> World) group :
  (forall w ax, same_frame w (body w ax)) ->
  forall w, same_frame w (fold_left body group w).
Proof.
  intros Hb. induction group as [|r rest IH]; intros w; simpl; [apply same_frame_refl|].
  eapply same_frame_trans; [apply Hb|apply IH].
Qed.

Lemma same_frame_modify_r w0 w r f :
  same_frame w0 w -> (forall a, erase (f a) = erase a) -> same_frame w0 (modify r f w).
Proof. intros H Hf. eapply same_frame_trans; [exact H|now apply same_frame_modify]. Qed.

Lemma same_frame_fold_r w0 w (body : World -> ref -> World) group :
  same_frame w0 w -> (forall w ax, same_frame w (body w ax)) ->
  same_frame w0 (fold_left body group w).
Proof. intros H Hb. eapply same_frame_trans; [exact H|now apply same_frame_fold]. Qed.

Lemma spanx_frame self group w w' :
  _spanx_setup self group w = Ok w' -> same_frame w w'.
Proof.
  unfold _spanx_setup. intros H. repeat bind_inv H. apply Ok_inj in H. subst w'.
  apply same_frame_fold_r.
  - repeat (apply same_frame_modify_r; [|reflexivity]). apply same_frame_refl.
  - intros w0 ax. destruct (negb (ax =? self));
      repeat (apply same_frame_modify_r; [|reflexivity]); apply same_frame_refl.
Qed.

Lemma spany_frame self group w w' :
  _spany_setup self group w = Ok w' -> same_frame w w'.
Proof.
  unfold _spany_setup. intros H. repeat bind_inv H. apply Ok_inj in H. subst w'.
  apply same_frame_fold_r.
  - repeat (apply same_frame_modify_r; [|reflexivity]). apply same_frame_refl.
  - intros w0 ax. destruct (negb (ax =? self));
      repeat (apply same_frame_modify_r; [|reflexivity]); apply same_frame_refl.
Qed.

(** The x direction hides the label of every member but the owner. *)
Lemma spanx_loop_hides self group0 : forall group w,
  Forall (fun r => is_Some (heap w !! r)) group ->
  let w' := fold_left
              (fun w ax =>
                 let w := modify ax (set_xaxis (set_span (Some self) group0)) w in
                 if negb (ax =? self)
                 then modify ax (set_xaxis (set_label (set_visible false))) w
                 else modify ax (set_xaxis (set_label (set_visible true))) w)
              group w in
  length (heap w') = length (heap w) /\
  forall ax, In ax group -> ax <> self ->
    exists a', heap w' !! ax = Some a' /\ visible (label (xaxis a')) = false.
Proof.
  induction group as [|x rest IH] using rev_ind; intros w Hall; cbv zeta.
  - split; [reflexivity|]. intros ax [].
  - rewrite fold_left_app. cbn [fold_left].
    apply Forall_app in Hall. destruct Hall as [Hrest Hx].
    destruct (IH w Hrest) as [Hlen Hhid]. clear IH.
    set (w1 := fold_left _ rest w) in *.
    inversion Hx as [|? ? [ax0 Hx0] _]; subst.
    assert (Hx1 : is_Some (heap w1 !! x)).
    { apply lookup_lt_is_Some. rewrite Hlen. apply lookup_lt_is_Some. eauto. }
    destruct Hx1 as [a1 Ha1]. split.
    + destruct (negb (x =? self)); now rewrite !length_heap_modify.
    + intros ax Hin Hne. apply in_app_or in Hin.
      destruct (Nat.eq_dec ax x) as [->|Hax].
      * apply Nat.eqb_neq in Hne. rewrite Hne. cbn [negb].
        eexists. split; [|shelve].
        apply heap_modify_eq. apply heap_modify_eq. exact Ha1.
        Unshelve. reflexivity.
      * destruct Hin as [Hin|[E|[]]]; [|congruence].
        destruct (Hhid ax Hin Hne) as (a' & Ha' & Hv). exists a'. split; [|exact Hv].
        destruct (negb (x =? self)); rewrite !heap_modify_ne by congruence; exact Ha'.
Qed.

Lemma for_each_get_valid {A : Type} w (f : Axes -> A) group vals :
  for_each_get w f group = Ok vals -> Forall (fun r => is_Some (heap w !! r)) group.
Proof.
  revert vals. induction group as [|r rest IH]; intros vals H; [constructor|].
  cbn [for_each_get] in H. bind_inv H. bind_inv H. constructor; [|eauto].
  apply get_inv in E. eauto.
Qed.

Lemma spanx_hides_non_owners self group w w' :
  _spanx_setup self group w = Ok w' ->
  forall ax, In ax group -> ax <> self ->
    exists a', heap w' !! ax = Some a' /\ visible (label (xaxis a')) = false.
Proof.
  unfold _spanx_setup. intros H.
  bind_inv H. bind_inv H. bind_inv H. bind_inv H. bind_inv H.
  apply Ok_inj in H. subst w'.
  apply for_each_get_valid in E0.
  apply spanx_loop_hides.
  eapply Forall_impl; [exact E0|]. intros r Hr. simpl in Hr.
  apply lookup_lt_is_Some. rewrite length_heap_modify.
  now apply lookup_lt_is_Some.
Qed.

(** ** The panel factory *)

Lemma add_subplot_eq env fuel k gs r c side parent w :
  valid_panelside side = true ->
  (k = PanelAxes -> side <> None) ->
  add_subplot env fuel k gs r c side parent w
  = Ok (alloc (new_axes k r c (cell_bbox env gs r c) parent side) w, length (heap w)).
Proof.
  intros Hv Hs. unfold add_subplot.
  assert (E : match k, side with
              | PanelAxes, None => Raise (ValueError "Must specify side.")
              | _, _ => Ok tt
              end = Ok tt).
  { destruct k; try reflexivity. destruct side; [reflexivity|]. now destruct Hs. }
  rewrite E. cbn [bind]. unfold BaseAxes__init__. rewrite Hv. reflexivity.
Qed.

Lemma heap_alloc_all objs : forall w, heap (alloc_all objs w) = heap w ++ objs.
Proof.
  induction objs as [|a objs IH]; intros w; simpl; [now rewrite app_nil_r|].
  unfold alloc_all in IH. rewrite IH. simpl. now rewrite <- app_assoc.
Qed.

Lemma axes_alloc_all objs : forall w,
  axes (fig (alloc_all objs w)) = axes (fig w) ++ seq (length (heap w)) (length objs).
Proof.
  induction objs as [|a objs IH]; intros w; simpl; [now rewrite app_nil_r|].
  unfold alloc_all in IH. rewrite IH. simpl. rewrite length_app. simpl.
  rewrite <- app_assoc. simpl. now rewrite Nat.add_1_r.
Qed.

Lemma alloc_all_app objs1 objs2 w :
  alloc_all (objs1 ++ objs2) w = alloc_all objs2 (alloc_all objs1 w).
Proof. unfold alloc_all. apply fold_left_app. Qed.

Lemma draw_panels_eq env fuel gs axmain empty_pos main_pos : forall cells panels w,
  Forall side_ok (to_create empty_pos main_pos cells) ->
  let plan := to_create empty_pos main_pos cells in
  draw_panels env fuel gs axmain empty_pos main_pos cells panels w
  = Ok (alloc_all (map (panel_object env gs axmain) plan) w,
        rev (combine (map snd plan) (seq (length (heap w)) (length plan))) ++ panels).
Proof.
  induction cells as [|[rc [tb lr]] rest IH]; intros panels w Hok; cbv zeta.
  - reflexivity.
  - cbn [draw_panels]. unfold to_create in *. cbn [List.filter fst snd] in *.
    destruct (existsb (pos_eqb rc) empty_pos || pos_eqb rc main_pos) eqn:Eskip;
      cbn [negb map] in *.
    + apply IH. exact Hok.
    + inversion Hok as [|? ? [Hv Hs] Hrest]; subst. cbn [fst snd] in *.
      rewrite add_subplot_eq by auto. cbn [bind].
      rewrite IH by exact Hrest. cbv zeta. f_equal. f_equal.
      cbn [length seq combine rev map fst snd]. simpl heap. rewrite length_app. simpl length.
      rewrite Nat.add_1_r. rewrite <- app_assoc. reflexivity.
Qed.

Lemma plan_of_sides s :
  plan_of s = map (fun side => (cell_of_side (main_pos_of s) (fst side), Some (snd side)))
                  (sides_of s).
Proof.
  unfold plan_of, to_create, empty_positions, keep_sides, grid_cells, sides_of,
    side_table, main_pos_of, enumerate.
  cbn -[char_in].
  generalize (char_in "t" s) (char_in "b" s) (char_in "l" s) (char_in "r" s).
  intros [] [] [] []; reflexivity.
Qed.

Lemma plan_of_side_ok s : Forall side_ok (plan_of s).
Proof.
  rewrite plan_of_sides. apply Forall_map. unfold sides_of.
  apply List.Forall_forall. intros [c name] Hin. apply filter_In in Hin. destruct Hin as [Hin _].
  unfold side_table in Hin. simpl in Hin.
  split; [|discriminate].
  destruct Hin as [E|[E|[E|[E|[]]]]]; inversion E; reflexivity.
Qed.

Lemma panel_ratios_raise what total panel n main e :
  panel_ratios what total panel (S n) main = Raise e -> exists msg, e = ValueError msg.
Proof.
  unfold panel_ratios. cbn [repeat].
  destruct (Qltb _ 0); intros H; inversion H. eauto.
Qed.

Lemma panel_factory_run env fuel subspec wp hs ws hw ww sharex sharey w :
  let s := or_r (translate_word wp) in
  let axmain := length (heap w) in
  (exists msg, panel_factory env fuel subspec wp hs ws hw ww sharex sharey w
               = Raise (ValueError msg)) \/
  (exists gs,
     panel_factory env fuel subspec wp hs ws hw ww sharex sharey w
     = (do w <- _sharex_setup fuel axmain sharex (built env gs s w);
        do w <- _sharey_setup fuel axmain sharey w;
        Ok (w, axmain))).
Proof.
  cbv zeta. unfold panel_factory. cbv zeta.
  set (s := or_r (translate_word wp)).
  destruct (existsb _ (list_ascii_of_string s)); [left; eauto|].
  fold (main_pos_of s). cbn [fst snd].
  change (1 + ?n) with (S n).
  match goal with |- context [panel_ratios "wwidth" ?t ?p ?n ?m] =>
    destruct (panel_ratios "wwidth" t p n m) as [wr|e] eqn:Ew end.
  2:{ left. apply panel_ratios_raise in Ew. destruct Ew as [msg ->]. eauto. }
  cbn [bind].
  match goal with |- context [panel_ratios "hwidth" ?t ?p ?n ?m] =>
    destruct (panel_ratios "hwidth" t p n m) as [hr|e] eqn:Eh end.
  2:{ left. apply panel_ratios_raise in Eh. destruct Eh as [msg ->]. eauto. }
  cbn [bind]. right.
  match goal with |- context [add_subplot env fuel MainAxes ?g _ _ None None w] =>
    set (gs := g) end.
  exists gs.
  rewrite add_subplot_eq by (try reflexivity; discriminate). cbn [bind].
  fold (plan_of s).
  match goal with |- context [draw_panels env fuel gs ?m ?e ?mp ?cells [] ?w1] =>
    pose proof (draw_panels_eq env fuel gs m e mp cells [] w1) as Hd end.
  fold (plan_of s) in Hd. cbv zeta in Hd. rewrite Hd by apply plan_of_side_ok. clear Hd.
  cbn [bind]. rewrite app_nil_r.
  unfold built. cbv zeta.
  replace (length (heap (alloc (new_axes MainAxes (main_pos_of s).1 (main_pos_of s).2
             (cell_bbox env gs (main_pos_of s).1 (main_pos_of s).2) None None) w)))
    with (S (length (heap w))).
  2:{ simpl. rewrite length_app. simpl. lia. }
  reflexivity.
Qed.

Lemma described_frames w w' : frames w' = frames w -> described w' = described w.
Proof.
  unfold frames, described. intros H.
  assert (E : forall h, map describe h = map describe (map erase h)).
  { intros h. rewrite map_map. apply map_ext. intros a. reflexivity. }
  rewrite (E (heap w')), (E (heap w)). now rewrite H.
Qed.

Lemma heap_built env gs s w :
  exists main,
    heap (built env gs s w)
    = heap w ++ main :: map (panel_object env gs (length (heap w))) (plan_of s) /\
    describe main = (MainAxes, main_pos_of s, None) /\
    panels_of main = main_slots s (length (heap w)).
Proof.
  unfold built. cbv zeta.
  set (P := rev _).
  set (m0 := new_axes MainAxes _ _ _ None None).
  eexists. split.
  - unfold modify. cbn [heap set_heap]. rewrite heap_alloc_all. cbn [heap alloc set_fig set_heap].
    rewrite <- app_assoc. cbn [app].
    rewrite <- (Nat.add_0_r (length (heap w))).
    rewrite !alter_app_r. cbn [alter list_alter]. rewrite Nat.add_0_r. reflexivity.
  - split; reflexivity.
Qed.

Lemma fig_built env gs s w :
  axes (fig (built env gs s w))
  = axes (fig w) ++ seq (length (heap w)) (S (length (plan_of s))).
Proof.
  unfold built. cbv zeta. unfold modify. cbn [fig set_heap].
  rewrite axes_alloc_all. cbn [fig alloc set_fig set_heap axes set_axes heap].
  rewrite length_app, length_map. cbn [length seq].
  rewrite <- app_assoc. cbn [app]. now rewrite Nat.add_1_r.
Qed.

Lemma described_built env gs s w :
  described (built env gs s w)
  = described w ++ (MainAxes, main_pos_of s, None)
      :: map (fun cell => (PanelAxes, fst cell, snd cell)) (plan_of s).
Proof.
  unfold described. destruct (heap_built env gs s w) as (main & -> & Hm & _).
  rewrite map_app. cbn [map]. rewrite Hm, map_map. f_equal. f_equal.
  apply map_ext. intros [[r c] side]. reflexivity.
Qed.

Lemma slots_built env gs s w :
  slots (built env gs s w)
  = slots w ++ main_slots s (length (heap w))
      :: map (fun _ => [PEmpty; PEmpty; PEmpty; PEmpty]) (plan_of s).
Proof.
  unfold slots. destruct (heap_built env gs s w) as (main & -> & _ & Hp).
  rewrite map_app. cbn [map]. rewrite Hp, map_map. reflexivity.
Qed.

Lemma panels_get_range side (sides : list (option string)) a n q :
  panels_get side (rev (combine sides (seq a n))) = PAxes q -> a <= q < a + n.
Proof.
  unfold panels_get.
  destruct (find _ _) as [[k ax]|] eqn:E; [|discriminate].
  intros H. inversion H; subst. apply find_some in E. destruct E as [Hin _].
  apply in_rev in Hin. apply in_combine_r in Hin. apply in_seq in Hin. exact Hin.
Qed.

Lemma slot_ok_mono n m p : n <= m -> slot_ok n p = true -> slot_ok m p = true.
Proof.
  destruct p; simpl; auto. rewrite !Nat.ltb_lt. lia.
Qed.

Lemma main_slots_range s axmain q :
  In (PAxes q) (main_slots s axmain) -> S axmain <= q < S axmain + length (plan_of s).
Proof.
  unfold main_slots. cbv zeta. intros [H|[H|[H|[H|[]]]]];
    apply panels_get_range in H; exact H.
Qed.

Lemma closed_built env gs s w :
  closed (slots w) = true -> closed (slots (built env gs s w)) = true.
Proof.
  intros Hc. rewrite slots_built. unfold closed in *.
  rewrite length_app. cbn [length]. rewrite length_map.
  assert (Hl : length (slots w) = length (heap w)) by (unfold slots; apply length_map).
  rewrite forallb_app. apply andb_true_intro. split.
  - rewrite forallb_forall in *. intros ps Hps. specialize (Hc ps Hps).
    rewrite forallb_forall in *. intros p Hp.
    eapply slot_ok_mono; [|apply Hc; exact Hp]. lia.
  - cbn [forallb]. apply andb_true_intro. split.
    + rewrite forallb_forall. intros [| |q] Hq; try reflexivity.
      apply main_slots_range in Hq. simpl. apply Nat.ltb_lt. lia.
    + rewrite forallb_forall. intros ps Hps. apply in_map_iff in Hps.
      destruct Hps as (? & <- & _). reflexivity.
Qed.

Lemma depth_built env gs s w :
  panel_depth_le (slots (built env gs s w)) 2 (length (heap w)) = true.
Proof.
  rewrite slots_built.
  assert (Hl : length (slots w) = length (heap w)) by (unfold slots; apply length_map).
  cbn [panel_depth_le].
  rewrite lookup_app_r by lia. rewrite Hl, Nat.sub_diag.
  change ((?x :: ?l) !! 0) with (Some x).
  rewrite forallb_forall. intros [| |q] Hq; try reflexivity.
  apply main_slots_range in Hq.
  rewrite lookup_app_r by lia. rewrite Hl.
  replace (q - length (heap w)) with (S (q - S (length (heap w)))) by lia.
  rewrite lookup_cons_ne_0 by lia. cbn [Nat.pred]. rewrite list_lookup_fmap.
  destruct (plan_of s !! (q - S (length (heap w)))) eqn:E; [reflexivity|].
  apply lookup_ge_None in E. lia.
Qed.

Lemma depth_mono sl n : forall m r,
  n <= m -> panel_depth_le sl n r = true -> panel_depth_le sl m r = true.
Proof.
  induction n as [|n IH]; intros m r Hle H; [discriminate|].
  destruct m as [|m]; [lia|]. cbn [panel_depth_le] in *.
  destruct (sl !! r) as [ps|]; [|discriminate].
  rewrite forallb_forall in *. intros p Hp. specialize (H p Hp).
  destruct p; auto. apply IH; [lia|exact H].
Qed.

Lemma length_built env gs s w : length (heap w) < length (heap (built env gs s w)).
Proof.
  destruct (heap_built env gs s w) as (main & -> & _). rewrite length_app. simpl. lia.
Qed.

Lemma panel_factory_created env fuel subspec wp hs ws hw ww sharex sharey w w' axmain :
  panel_factory env fuel subspec wp hs ws hw ww sharex sharey w = Ok (w', axmain) ->
  let s := or_r (translate_word wp) in
  axmain = length (heap w) /\
  axes (fig w') = axes (fig w) ++ seq (length (heap w)) (length (created s)) /\
  described w' = described w ++ created s.
Proof.
  intros H. cbv zeta.
  destruct (panel_factory_run env fuel subspec wp hs ws hw ww sharex sharey w)
    as [[msg E]|[gs E]]; rewrite E in H; [discriminate|]. clear E.
  bind_inv H. bind_inv H. apply Ok_inj in H. inversion H; subst; clear H.
  apply sharex_frame in E. apply sharey_frame in E0.
  destruct E as [(Fx & Gx & _) _]. destruct E0 as [(Fy & Gy & _) _].
  split; [reflexivity|]. split.
  - rewrite Gy, Gx, fig_built. unfold created. cbn [length].
    now rewrite plan_of_sides, !length_map.
  - rewrite (described_frames _ _ Fy), (described_frames _ _ Fx), described_built.
    unfold created. rewrite plan_of_sides, map_map. reflexivity.
Qed.

Lemma panel_factory_returns env fuel subspec wp hs ws hw ww sharex sharey w :
  closed (slots w) = true ->
  (forall sx, sharex = Some sx -> sx < length (heap w)) ->
  (forall sy, sharey = Some sy -> sy < length (heap w)) ->
  2 <= fuel ->
  (exists msg, panel_factory env fuel subspec wp hs ws hw ww sharex sharey w
               = Raise (ValueError msg)) \/
  (exists w' axmain, panel_factory env fuel subspec wp hs ws hw ww sharex sharey w
                     = Ok (w', axmain)).
Proof.
  intros Hc Hsx Hsy Hfuel.
  destruct (panel_factory_run env fuel subspec wp hs ws hw ww sharex sharey w)
    as [[msg E]|[gs E]]; [left; eauto|right]. rewrite E. clear E.
  set (s := or_r (translate_word wp)).
  pose proof (closed_built env gs s w Hc) as Hcb.
  pose proof (depth_mono _ _ fuel _ Hfuel (depth_built env gs s w)) as Hdb.
  pose proof (length_built env gs s w) as Hlb.
  assert (Ex : exists w1, _sharex_setup fuel (length (heap w)) sharex (built env gs s w) = Ok w1
                          /\ frame_g _shared_x_axes (built env gs s w) w1).
  { destruct sharex as [sx|].
    - destruct (sharex_total fuel (length (heap w)) sx (built env gs s w) Hcb)
        as (w1 & E1 & F1 & _); eauto.
      specialize (Hsx sx eq_refl). lia.
    - exists (built env gs s w). split; [now destruct fuel|apply frame_g_refl]. }
  destruct Ex as (w1 & E1 & F1). rewrite E1. cbn [bind].
  assert (Ey : exists w2, _sharey_setup fuel (length (heap w)) sharey w1 = Ok w2).
  { destruct sharey as [sy|].
    - destruct (sharey_total fuel (length (heap w)) sy w1) as (w2 & E2 & _); eauto.
      + now rewrite (frame_g_slots _ _ _ F1).
      + rewrite (frame_g_length _ _ _ F1). specialize (Hsy sy eq_refl). lia.
      + now rewrite (frame_g_slots _ _ _ F1).
    - exists w1. now destruct fuel. }
  destruct Ey as (w2 & E2). rewrite E2. cbn [bind]. eauto.
Qed.

Lemma created_not_corner s :
  Forall (fun d => is_corner (main_pos_of s) (snd (fst d)) = false) (created s).
Proof.
  unfold created, sides_of, side_table, main_pos_of, is_corner, cell_of_side.
  cbn -[char_in].
  generalize (char_in "t" s) (char_in "b" s) (char_in "l" s) (char_in "r" s).
  intros [] [] [] []; cbn; repeat constructor.
Qed.

(** C1, as amended. Panel factory cell allocation: on a heap whose panel
    attributes hold live axes, with live share targets and room for two
    nested calls, [panel_factory] either rejects the request with
    [ValueError] (a letter outside [lrbt], or panels too large for the
    cell) or returns, and then it has added exactly [1 + |S|] axes to the
    heap and, in the same order, to [figure.axes], where [S] is the set of
    sides named by the request after an empty or missing request has been
    replaced by [{right}]; none of the new axes sits at a corner, a grid
    position off both the row and the column of the main axes. *)
Theorem panel_factory_cell_allocation
    env fuel subspec wp hs ws hw ww sharex sharey w :
  closed (slots w) = true ->
  (forall sx, sharex = Some sx -> sx < length (heap w)) ->
  (forall sy, sharey = Some sy -> sy < length (heap w)) ->
  2 <= fuel ->
  let s := or_r (translate_word wp) in
  (exists msg, panel_factory env fuel subspec wp hs ws hw ww sharex sharey w
               = Raise (ValueError msg)) \/
  (exists w' axmain news,
     panel_factory env fuel subspec wp hs ws hw ww sharex sharey w = Ok (w', axmain) /\
     described w' = described w ++ news /\
     axes (fig w') = axes (fig w) ++ seq (length (heap w)) (length news) /\
     length news = 1 + length (sides_of s) /\
     Forall (fun d => is_corner (main_pos_of s) (snd (fst d)) = false) news).
Proof.
  intros Hc Hsx Hsy Hfuel s.
  destruct (panel_factory_returns env fuel subspec wp hs ws hw ww sharex sharey w
              Hc Hsx Hsy Hfuel) as [E|(w' & axmain & E)]; [left; exact E|right].
  destruct (panel_factory_created _ _ _ _ _ _ _ _ _ _ _ _ _ E) as (_ & Hax & Hd).
  exists w', axmain, (created (or_r (translate_word wp))).
  split; [exact E|]. split; [exact Hd|]. split; [exact Hax|].
  split; [unfold created; cbn [length]; now rewrite length_map|].
  apply created_not_corner.
Qed.

Lemma panel_factory_cell_allocation_witness :
  closed (slots with_bottom_panel) = true /\
  (forall sx, Some 1 = Some sx -> sx < length (heap with_bottom_panel)) /\
  (forall sy, @None nat = Some sy -> sy < length (heap with_bottom_panel)) /\
  2 <= 2 /\
  ((exists msg, panel_factory env0 2 unit_box (Some "lb"%string) None None None None
                  (Some 1) None with_bottom_panel = Raise (ValueError msg)) \/
   (exists w' axmain news,
     panel_factory env0 2 unit_box (Some "lb"%string) None None None None
       (Some 1) None with_bottom_panel = Ok (w', axmain) /\
     described w' = described with_bottom_panel ++ news /\
     axes (fig w') = axes (fig with_bottom_panel)
                       ++ seq (length (heap with_bottom_panel)) (length news) /\
     length news = 1 + length (sides_of "lb") /\
     Forall (fun d => is_corner (main_pos_of "lb") (snd (fst d)) = false) news)).
Proof.
  assert (H1 : closed (slots with_bottom_panel) = true) by reflexivity.
  assert (H2 : forall sx, Some 1 = Some sx -> sx < length (heap with_bottom_panel)).
  { intros sx E. inversion E. simpl. lia. }
  assert (H3 : forall sy, @None nat = Some sy -> sy < length (heap with_bottom_panel)).
  { intros sy E. discriminate E. }
  assert (H4 : 2 <= 2) by lia.
  split; [exact H1|]. split; [exact H2|]. split; [exact H3|]. split; [exact H4|].
  exact (panel_factory_cell_allocation env0 2 unit_box (Some "lb"%string) None None None None
           (Some 1) None with_bottom_panel H1 H2 H3 H4).
Defined.

(** An empty request is not served by a lone main axes: the figure gets
    two axes, the main one and a right panel. *)
Lemma panel_factory_empty_request :
  exists w' axmain,
    panel_factory env0 2 unit_box (Some EmptyString) None None None None None None
      empty_world = Ok (w', axmain) /\
    sides_of EmptyString = [] /\
    length (axes (fig w')) <> 1 + length (sides_of EmptyString) /\
    map panelside (heap w') = [None; Some "right"%string].
Proof.
  eexists. eexists. split; [vm_compute; reflexivity|].
  split; [reflexivity|]. split; [vm_compute; lia|reflexivity].
Qed.

(** C8, as amended. Panel creation order: under the same conditions, a
    call of [panel_factory] that is not rejected creates the main axes
    first and then the requested panels in the order the grid is walked,
    row by row and left to right: top, left, right, bottom. The new
    references enter [figure.axes] in this order. *)
Theorem panel_factory_creation_order
    env fuel subspec wp hs ws hw ww sharex sharey w :
  closed (slots w) = true ->
  (forall sx, sharex = Some sx -> sx < length (heap w)) ->
  (forall sy, sharey = Some sy -> sy < length (heap w)) ->
  2 <= fuel ->
  let s := or_r (translate_word wp) in
  (exists msg, panel_factory env fuel subspec wp hs ws hw ww sharex sharey w
               = Raise (ValueError msg)) \/
  (exists w' axmain,
     panel_factory env fuel subspec wp hs ws hw ww sharex sharey w = Ok (w', axmain) /\
     axmain = length (heap w) /\
     axes (fig w') = axes (fig w) ++ axmain :: seq (S axmain) (length (sides_of s)) /\
     described w' = described w
       ++ (MainAxes, main_pos_of s, None)
       :: map (fun side => (PanelAxes, cell_of_side (main_pos_of s) (fst side),
                            Some (snd side)))
              (List.filter (fun side => char_in (fst side) s)
                 [("t"%char, "top"); ("l"%char, "left");
                  ("r"%char, "right"); ("b"%char, "bottom")]%string)).
Proof.
  intros Hc Hsx Hsy Hfuel s.
  destruct (panel_factory_returns env fuel subspec wp hs ws hw ww sharex sharey w
              Hc Hsx Hsy Hfuel) as [E|(w' & axmain & E)]; [left; exact E|right].
  destruct (panel_factory_created _ _ _ _ _ _ _ _ _ _ _ _ _ E) as (Hm & Hax & Hd).
  exists w', axmain. split; [exact E|]. split; [exact Hm|]. split.
  - rewrite Hax, Hm. unfold created. cbn [length seq]. now rewrite length_map.
  - exact Hd.
Qed.

Lemma panel_factory_creation_order_witness :
  closed (slots three_in_a_row) = true /\
  (forall sx, Some 0 = Some sx -> sx < length (heap three_in_a_row)) /\
  (forall sy, Some 2 = Some sy -> sy < length (heap three_in_a_row)) /\
  2 <= 3 /\
  ((exists msg, panel_factory env0 3 unit_box (Some "rtb"%string) None None None None
                  (Some 0) (Some 2) three_in_a_row = Raise (ValueError msg)) \/
   (exists w' axmain,
     panel_factory env0 3 unit_box (Some "rtb"%string) None None None None
       (Some 0) (Some 2) three_in_a_row = Ok (w', axmain) /\
     axmain = length (heap three_in_a_row) /\
     axes (fig w') = axes (fig three_in_a_row)
                       ++ axmain :: seq (S axmain) (length (sides_of "rtb")) /\
     described w' = described three_in_a_row
       ++ (MainAxes, main_pos_of "rtb", None)
       :: map (fun side => (PanelAxes, cell_of_side (main_pos_of "rtb") (fst side),
                            Some (snd side)))
              (List.filter (fun side => char_in (fst side) "rtb")
                 [("t"%char, "top"); ("l"%char, "left");
                  ("r"%char, "right"); ("b"%char, "bottom")]%string))).
Proof.
  assert (H1 : closed (slots three_in_a_row) = true) by reflexivity.
  assert (H2 : forall sx, Some 0 = Some sx -> sx < length (heap three_in_a_row)).
  { intros sx E. inversion E. simpl. lia. }
  assert (H3 : forall sy, Some 2 = Some sy -> sy < length (heap three_in_a_row)).
  { intros sy E. inversion E. simpl. lia. }
  assert (H4 : 2 <= 3) by lia.
  split; [exact H1|]. split; [exact H2|]. split; [exact H3|]. split; [exact H4|].
  exact (panel_factory_creation_order env0 3 unit_box (Some "rtb"%string) None None None None
           (Some 0) (Some 2) three_in_a_row H1 H2 H3 H4).
Defined.

(** With left and top requested, the top panel is created before the
    left one. *)
Lemma panel_factory_top_before_left :
  exists w' axmain,
    panel_factory env0 2 unit_box (Some "lt"%string) None None None None None None
      empty_world = Ok (w', axmain) /\
    axes (fig w') = [0; 1; 2] /\
    map panelside (heap w') = [None; Some "top"%string; Some "left"%string].
Proof.
  eexists. eexists. split; [vm_compute; reflexivity|]. split; reflexivity.
Qed.

(** C2. Span label midpoint: for every non-empty group of live axes,
    [_spanx_setup] (respectively [_spany_setup]) returns and leaves the x
    (respectively y) axis label of the owner [self], in figure
    coordinates, at the midpoint [(lo + hi) / 2] of the combined extent:
    [lo] is the least position minimum and [hi] the greatest position
    maximum over the members. *)
Theorem span_label_midpoint w self group :
  group <> [] -> is_Some (heap w !! self) ->
  Forall (fun r => is_Some (heap w !! r)) group ->
  (exists w' lo hi a',
     _spanx_setup self group w = Ok w' /\
     extent_min w xmin group lo /\ extent_max w xmax group hi /\
     heap w' !! self = Some a' /\
     position (label (xaxis a')) = (((lo + hi) / 2)%Q, 0%Q) /\
     transform (label (xaxis a')) = TransFigureX) /\
  (exists w' lo hi a',
     _spany_setup self group w = Ok w' /\
     extent_min w ymin group lo /\ extent_max w ymax group hi /\
     heap w' !! self = Some a' /\
     position (label (yaxis a')) = (0%Q, ((lo + hi) / 2)%Q) /\
     transform (label (yaxis a')) = TransFigureY).
Proof.
  intros Hne Hs Hall. split.
  - now apply spanx_midpoint.
  - now apply spany_midpoint.
Qed.

Lemma span_label_midpoint_witness :
  [0; 1; 2] <> [] /\ is_Some (heap three_in_a_row !! 1) /\
  Forall (fun r => is_Some (heap three_in_a_row !! r)) [0; 1; 2] /\
  ((exists w' lo hi a',
     _spanx_setup 1 [0; 1; 2] three_in_a_row = Ok w' /\
     extent_min three_in_a_row xmin [0; 1; 2] lo /\
     extent_max three_in_a_row xmax [0; 1; 2] hi /\
     heap w' !! 1 = Some a' /\
     position (label (xaxis a')) = (((lo + hi) / 2)%Q, 0%Q) /\
     transform (label (xaxis a')) = TransFigureX) /\
   (exists w' lo hi a',
     _spany_setup 1 [0; 1; 2] three_in_a_row = Ok w' /\
     extent_min three_in_a_row ymin [0; 1; 2] lo /\
     extent_max three_in_a_row ymax [0; 1; 2] hi /\
     heap w' !! 1 = Some a' /\
     position (label (yaxis a')) = (0%Q, ((lo + hi) / 2)%Q) /\
     transform (label (yaxis a')) = TransFigureY)).
Proof.
  assert (H1 : [0; 1; 2] <> []) by discriminate.
  assert (H2 : is_Some (heap three_in_a_row !! 1)) by (eexists; reflexivity).
  assert (H3 : Forall (fun r => is_Some (heap three_in_a_row !! r)) [0; 1; 2])
    by (repeat constructor; eexists; reflexivity).
  split; [exact H1|]. split; [exact H2|]. split; [exact H3|].
  exact (span_label_midpoint three_in_a_row 1 [0; 1; 2] H1 H2 H3).
Defined.

(** Scenario C of the specification, run. *)
Example scenario_c_label_position :
  exists w' a',
    _spanx_setup 1 [0; 1; 2] three_in_a_row = Ok w' /\ heap w' !! 1 = Some a' /\
    (fst (position (label (xaxis a'))) == 1 # 2)%Q /\
    map (fun a => visible (label (xaxis a))) (heap w') = [false; true; false].
Proof.
  eexists. eexists. split; [vm_compute; reflexivity|]. split; [reflexivity|].
  split; [vm_compute; reflexivity|reflexivity].
Qed.

(** C4. Span non-owner labels hidden: the claim holds of [_spanx_setup]
    and fails of [_spany_setup]. Run on three axes in a column with owner
    1, the y set-up leaves the y labels of members 0 and 2 visible; when
    all three labels start hidden it switches those of 0 and 2 on and
    leaves the owner's hidden. *)
Theorem spany_setup_shows_non_owner_labels :
  (exists w',
     _spany_setup 1 [0; 1; 2] three_in_a_column = Ok w' /\
     map (fun a => visible (label (yaxis a))) (heap w') = [true; true; true]) /\
  (exists w',
     _spany_setup 1 [0; 1; 2] three_in_a_column_hidden = Ok w' /\
     map (fun a => visible (label (yaxis a))) (heap three_in_a_column_hidden)
       = [false; false; false] /\
     map (fun a => visible (label (yaxis a))) (heap w') = [true; false; true]).
Proof.
  split.
  - eexists. split; [vm_compute; reflexivity|reflexivity].
  - eexists. split; [vm_compute; reflexivity|]. split; reflexivity.
Qed.

(** It is [_panel_setup] on the target that ties its bottom panel to it. *)
Example panel_setup_links_own_bottom_panel :
  exists w', _panel_setup 2 1 with_bottom_panel = Ok w' /\
             joined (_shared_x_axes w') 1 2 = true.
Proof. eexists. split; [vm_compute; reflexivity|reflexivity]. Qed.

(** C5, as amended. Self-link: sharing an axes with itself, on x or on y,
    raises nothing; the call returns at once and leaves the world as it
    was. *)
Theorem self_link_is_a_no_op fuel a w :
  _sharex_setup fuel a (Some a) w = Ok w /\ _sharey_setup fuel a (Some a) w = Ok w.
Proof.
  split; destruct fuel; simpl; now rewrite Nat.eqb_refl.
Qed.

Lemma self_link_raises_nothing :
  (forall e, _sharex_setup 1 0 (Some 0) three_in_a_row <> Raise e) /\
  (forall e, _sharey_setup 1 0 (Some 0) three_in_a_row <> Raise e).
Proof. split; intros e; discriminate. Qed.

(** C10, as amended. Empty-panel sentinel: a new figure and every axes
    whose construction succeeds hold an [EmptyPanel] in each of the four
    panel attributes; an [EmptyPanel] is false; and reading an attribute
    that ordinary lookup does not find on it (anything but the names of
    the class and of [object]) raises [NotImplementedError] with the
    message [Panel does not exist.] *)
Theorem empty_panel_sentinel
    figsize gridspec subplots_kw rcreset tight pad
    fuel k row col pos sharex sharey spanx_group spany_group parent side w w' self attr :
  BaseAxes__init__ fuel k row col pos sharex sharey spanx_group spany_group parent side w
    = Ok (w', self) ->
  EmptyPanelClass.__getattribute__ attr = false ->
  (let f := Figure__init__ figsize gridspec subplots_kw rcreset tight pad in
   [fig_leftpanel f; fig_rightpanel f; fig_bottompanel f; fig_toppanel f]
   = [PEmpty; PEmpty; PEmpty; PEmpty]) /\
  (exists a, heap w' !! self = Some a /\
             panels_of a = [PEmpty; PEmpty; PEmpty; PEmpty]) /\
  truthy PEmpty = false /\
  EmptyPanelClass.getattr attr = Raise (NotImplementedError "Panel does not exist.").
Proof.
  intros H Hattr. split; [reflexivity|]. split; [|split; [reflexivity|]].
  - unfold BaseAxes__init__ in H.
    destruct (negb (valid_panelside side)); [discriminate|].
    bind_inv H. bind_inv H. bind_inv H. bind_inv H. apply Ok_inj in H.
    inversion H; subst; clear H.
    set (w0 := set_heap _ w) in *.
    assert (F1 : frames a = frames w0).
    { destruct sharex; [apply sharex_frame in E; apply E|apply Ok_inj in E; now subst]. }
    assert (F2 : frames a0 = frames a).
    { destruct sharey; [apply sharey_frame in E0; apply E0|apply Ok_inj in E0; now subst]. }
    assert (F3 : frames a1 = frames a0).
    { destruct spanx_group; [apply Ok_inj in E1; now subst|apply spanx_frame in E1; apply E1]. }
    assert (F4 : frames w' = frames a1).
    { destruct spany_group; [apply Ok_inj in E2; now subst|apply spany_frame in E2; apply E2]. }
    assert (F : frames w' = frames w0) by congruence.
    destruct (reread w0 w' (length (heap w)) (new_axes k row col pos parent side) F)
      as (a' & _ & Ha' & Hp).
    { unfold w0. simpl. rewrite lookup_app_r by lia. now rewrite Nat.sub_diag. }
    exists a'. split; [exact Ha'|]. rewrite Hp. reflexivity.
  - unfold EmptyPanelClass.getattr. now rewrite Hattr.
Qed.

Lemma empty_panel_sentinel_witness :
  exists w',
    BaseAxes__init__ 1 MainAxes 0 3 (mkBbox 0 1 0 1) (Some 0) None [0; 1; 2] [] None None
      three_in_a_row = Ok (w', 3) /\
    EmptyPanelClass.__getattribute__ "colorbar" = false /\
    (let f := Figure__init__ (6, 4)%Q None None true true (1 # 10) in
     [fig_leftpanel f; fig_rightpanel f; fig_bottompanel f; fig_toppanel f]
     = [PEmpty; PEmpty; PEmpty; PEmpty]) /\
    (exists a, heap w' !! 3 = Some a /\
               panels_of a = [PEmpty; PEmpty; PEmpty; PEmpty]) /\
    truthy PEmpty = false /\
    EmptyPanelClass.getattr "colorbar" = Raise (NotImplementedError "Panel does not exist.").
Proof.
  assert (H1 : exists w',
            BaseAxes__init__ 1 MainAxes 0 3 (mkBbox 0 1 0 1) (Some 0) None [0; 1; 2] []
              None None three_in_a_row = Ok (w', 3))
    by (vm_compute; eexists; reflexivity).
  destruct H1 as [w' H1].
  assert (H2 : EmptyPanelClass.__getattribute__ "colorbar" = false) by reflexivity.
  exists w'. split; [exact H1|]. split; [exact H2|].
  exact (empty_panel_sentinel (6, 4)%Q None None true true (1 # 10)
           1 MainAxes 0 3 (mkBbox 0 1 0 1) (Some 0) None [0; 1; 2] [] None None
           three_in_a_row w' 3 "colorbar" H1 H2).
Defined.

(** [__bool__] is an attribute that ordinary lookup finds. *)
Lemma empty_panel_has_attributes :
  EmptyPanelClass.getattr "__bool__" = Ok "__bool__"%string /\
  ~ (forall attr, EmptyPanelClass.getattr attr
                  = Raise (NotImplementedError "Panel does not exist.")).
Proof.
  split; [reflexivity|]. intros H. specialize (H "__bool__"%string). discriminate H.
Qed.

(** ** Drawing *)

Lemma passes_emit e w :
  passes (emit e w)
  = passes w + match e with EvGetTightBbox => 1 | _ => 0 end.
Proof.
  unfold passes, emit. cbn [log]. rewrite List.filter_app, length_app.
  destruct e; reflexivity.
Qed.

Lemma any_axes_total w test l :
  Forall (fun r => is_Some (heap w !! r)) l -> exists b, any_axes w test l = Ok b.
Proof.
  induction 1 as [|r l [a Ha] _ IH]; [now exists false|].
  cbn [any_axes]. rewrite (get_ok _ _ _ Ha). cbn [bind].
  destruct (test a); [now exists true|exact IH].
Qed.

Lemma suptitle_setup_spec env offset w :
  drawable w ->
  exists p, _suptitle_setup env offset w = Ok (set_fig (set_suptitle p (fig w)) w).
Proof.
  intros (Hne & Hall & [gs Hgs] & [kw Hkw]). unfold _suptitle_setup. cbv zeta.
  destruct (axes (fig w)) as [|r l]; [congruence|].
  inversion Hall as [|? ? [a Ha] _]; subst.
  rewrite (get_ok _ _ _ Ha), Hgs, Hkw. cbn [bind]. eauto.
Qed.

Lemma smart_tight_layout_spec env w :
  solver_total env -> drawable w ->
  exists kw gs size,
    smart_tight_layout env None w
    = Ok (set_fig (set_tight kw gs size (fig w))
            (emit (EvSetSizeInches size) (emit (EvGridspecUpdate gs) (emit EvGetTightBbox w)))).
Proof.
  intros Hsolve (_ & _ & [gs Hgs] & [kw Hkw]). unfold smart_tight_layout. cbv zeta.
  rewrite Hkw, Hgs.
  match goal with |- context [_gridspec_kwargs env ?k] =>
    destruct (Hsolve k) as [[size gs'] E]; rewrite E end.
  cbn [bind]. eauto.
Qed.

Lemma draw_spec env w :
  solver_total env -> drawable w ->
  exists w1,
    draw env w = Ok w1 /\ drawable w1 /\
    _smart_tight (fig w1) = _smart_tight (fig w) /\
    if _smart_tight_init (fig w) && _smart_tight (fig w)
    then passes w1 = S (passes w) /\ _smart_tight_init (fig w1) = false
    else passes w1 = passes w /\
         _smart_tight_init (fig w1) = _smart_tight_init (fig w) /\
         tight_state (fig w1) = tight_state (fig w).
Proof.
  intros Hsolve Hd. unfold draw.
  destruct (any_axes_total w
              (fun ax => is_BaseAxes ax && (fst (rows ax) =? 0)
                         && ((nonempty (text (title ax)) && negb (_title_inside ax))
                             || nonempty (text (collabel ax))))
              (axes (fig w)) (proj1 (proj2 Hd))) as [offset Eo].
  rewrite Eo. cbn [bind].
  destruct (suptitle_setup_spec env offset w Hd) as [p Es]. rewrite Es. cbn [bind].
  set (w0 := set_fig _ w).
  set (wr := if negb (rc_init env) && _rcreset (fig w0) then emit EvRcReset w0 else w0).
  assert (Hwr : heap wr = heap w /\ fig wr = fig w0 /\ passes wr = passes w).
  { unfold wr. destruct (negb (rc_init env) && _rcreset (fig w0)).
    - repeat split. rewrite passes_emit. unfold passes. simpl. lia.
    - repeat split. }
  destruct Hwr as (Hh & Hf & Hp).
  assert (Hdr : drawable wr).
  { destruct Hd as (H1 & H2 & H3 & H4). unfold drawable. rewrite Hh, Hf. simpl.
    repeat split; assumption. }
  rewrite Hf.
  change (_smart_tight_init (fig w0)) with (_smart_tight_init (fig w)).
  change (_smart_tight (fig w0)) with (_smart_tight (fig w)).
  destruct (_smart_tight_init (fig w) && _smart_tight (fig w)) eqn:Et.
  - destruct (smart_tight_layout_spec env wr Hsolve Hdr) as (kw & gs & size & E).
    rewrite E. cbn [bind]. eexists. split; [reflexivity|].
    split; [|split].
    + destruct Hdr as (H1 & H2 & _ & _). unfold drawable. simpl.
      repeat split; eauto.
    + simpl. now rewrite Hf.
    + rewrite !passes_emit.
      assert (Hpe : forall f v, passes (set_fig f v) = passes v) by reflexivity.
      rewrite Hpe, !passes_emit. split; [lia|reflexivity].
  - cbn [bind]. eexists. split; [reflexivity|]. split; [|split].
    + destruct Hdr as (H1 & H2 & H3 & H4). unfold drawable. simpl.
      repeat split; assumption.
    + simpl. now rewrite Hf.
    + rewrite passes_emit. split; [lia|]. simpl. rewrite Hf. split; reflexivity.
Qed.

Lemma draw_times_settled env n : forall w,
  solver_total env -> drawable w -> _smart_tight_init (fig w) = false ->
  exists wn, draw_times env n w = Ok wn /\ passes wn = passes w /\
             tight_state (fig wn) = tight_state (fig w).
Proof.
  induction n as [|n IH]; intros w Hsolve Hd Hinit; [now exists w|].
  cbn [draw_times].
  destruct (draw_spec env w Hsolve Hd) as (w1 & E & Hd1 & Ht & H).
  rewrite Hinit in H. cbn [andb] in H. destruct H as (Hp & Hi & Hs).
  rewrite E. cbn [bind].
  destruct (IH w1 Hsolve Hd1) as (wn & En & Hpn & Hsn); [congruence|].
  exists wn. split; [exact En|]. split; congruence.
Qed.




(** ** Longitude labels *)

Lemma pymod_bounds (x m : Q) :
  (0 < m)%Q -> (0 <= Geo.pymod x m /\ Geo.pymod x m < m)%Q.
Proof.
  intros Hm. unfold Geo.pymod.
  pose proof (Qfloor_le (x / m)) as Hlo.
  pose proof (Qlt_floor (x / m)) as Hhi.
  assert (Hx : (x == m * (x / m))%Q).
  { rewrite Qmult_div_r; [reflexivity|]. intros E. rewrite E in Hm. inversion Hm. }
  rewrite inject_Z_plus in Hhi. simpl inject_Z in Hhi at 2.
  set (y := (x / m)%Q) in *. set (f := inject_Z (Qfloor y)) in *.
  split.
  - assert (m * f <= m * y)%Q by (apply Qmult_le_l; auto). lra.
  - assert (m * y < m * (f + 1))%Q by (apply Qmult_lt_l; auto). lra.
Qed.

(** ** Row and column labels *)

Lemma rowlabels_shape env labels w :
  _rowlabels env labels w
  = assign_labels row_test (fun ax => fst (rows ax)) "rows" (row_body env) labels w.
Proof. reflexivity. Qed.

Lemma collabels_shape env labels w :
  _collabels env labels w
  = assign_labels col_test (fun ax => fst (cols ax)) "columns" col_body labels w.
Proof. reflexivity. Qed.

Lemma select_axes_eq w test l :
  Forall (fun r => is_Some (heap w !! r)) l ->
  select_axes w test l = Ok (List.filter (holds w test) l).
Proof.
  induction 1 as [|r l [a Ha] _ IH]; [reflexivity|].
  cbn [select_axes List.filter]. rewrite (get_ok _ _ _ Ha), IH. cbn [bind].
  assert (Hh : holds w test r = test a) by (unfold holds; now rewrite Ha).
  now rewrite Hh.
Qed.

Lemma for_each_get_eq {A : Type} w (f : Axes -> A) (d : A) l :
  Forall (fun r => is_Some (heap w !! r)) l ->
  for_each_get w f l = Ok (map (attr_of w f d) l).
Proof.
  induction 1 as [|r l [a Ha] _ IH]; [reflexivity|].
  cbn [for_each_get map]. rewrite (get_ok _ _ _ Ha), IH. cbn [bind].
  assert (Hh : attr_of w f d r = f a) by (unfold attr_of; now rewrite Ha).
  now rewrite Hh.
Qed.

Lemma insert_pair_spec x : forall l,
  ~ In (fst x) (map fst l) -> StronglySorted key_lt l ->
  exists l', insert_pair x l = Ok l' /\ Permutation l' (x :: l) /\ StronglySorted key_lt l'.
Proof.
  induction l as [|y l IH]; intros Hnin Hs.
  - exists [x]. repeat split; auto. repeat constructor.
  - cbn [insert_pair]. unfold pair_lt.
    assert (Hxy : fst x <> fst y) by (intros E; apply Hnin; left; auto).
    apply Nat.eqb_neq in Hxy. rewrite Hxy. cbn [negb bind]. apply Nat.eqb_neq in Hxy.
    inversion Hs as [|? ? Hs' Hall]; subst.
    destruct (fst x <? fst y) eqn:Elt.
    + apply Nat.ltb_lt in Elt. exists (x :: y :: l). repeat split; auto.
      constructor; [exact Hs|]. constructor; [exact Elt|].
      eapply Forall_impl; [exact Hall|]. intros z Hz. simpl in Hz. unfold key_lt in *. lia.
    + apply Nat.ltb_ge in Elt.
      destruct (IH (fun H => Hnin (or_intror H)) Hs') as (l' & E & Hp & Hs'').
      rewrite E. cbn [bind]. exists (y :: l'). split; [reflexivity|]. split.
      * rewrite Hp. apply perm_swap.
      * constructor; [exact Hs''|].
        rewrite Hp. constructor; [unfold key_lt; lia|exact Hall].
Qed.

Lemma py_sorted_spec : forall l,
  List.NoDup (map fst l) ->
  exists l', py_sorted l = Ok l' /\ Permutation l' l /\ StronglySorted key_lt l'.
Proof.
  induction l as [|x l IH]; intros Hnd.
  - exists []. repeat split; auto. constructor.
  - cbn [map] in Hnd. apply List.NoDup_cons_iff in Hnd. destruct Hnd as [Hnin Hnd].
    destruct (IH Hnd) as (l1 & E1 & Hp1 & Hs1).
    cbn [py_sorted]. rewrite E1. cbn [bind].
    destruct (insert_pair_spec x l1) as (l' & E & Hp & Hs); auto.
    { intros Hin. apply Hnin.
      eapply Permutation_in; [apply Permutation_map; exact Hp1|exact Hin]. }
    exists l'. split; [exact E|]. split; [|exact Hs].
    rewrite Hp. now constructor.
Qed.

Section LabelLoop.
Variable body : ref * string -> World -> Result World.
Variable txt : Axes -> string.
Hypothesis Hbody : forall ax lab w a,
  heap w !! ax = Some a ->
  exists w', body (ax, lab) w = Ok w' /\
    (forall r, r <> ax -> heap w' !! r = heap w !! r) /\
    exists a', heap w' !! ax = Some a' /\ txt a' = new_text lab (txt a).

Lemma for_each_labels : forall pairs w,
  List.NoDup (map fst pairs) ->
  Forall (fun r => is_Some (heap w !! r)) (map fst pairs) ->
  exists w', for_each body pairs w = Ok w' /\
    (forall r, ~ In r (map fst pairs) -> heap w' !! r = heap w !! r) /\
    (forall ax lab, In (ax, lab) pairs ->
       exists a a', heap w !! ax = Some a /\ heap w' !! ax = Some a' /\
                    txt a' = new_text lab (txt a)).
Proof.
  induction pairs as [|[ax lab] rest IH]; intros w Hnd Hall.
  - exists w. split; [reflexivity|]. split; [reflexivity|]. intros ? ? [].
  - cbn [map fst] in *. apply List.NoDup_cons_iff in Hnd. destruct Hnd as [Hnin Hnd].
    inversion Hall as [|? ? [a Ha] Hrest]; subst.
    destruct (Hbody ax lab w a Ha) as (w1 & E1 & Hother & a1 & Ha1 & Ht1).
    cbn [for_each]. rewrite E1. cbn [bind].
    destruct (IH w1 Hnd) as (w' & E & Hout & Hin).
    { rewrite List.Forall_forall in *. intros r Hr.
      rewrite Hother; [now apply Hrest|]. intros ->. now apply Hnin. }
    exists w'. split; [exact E|]. split.
    + intros r Hr. rewrite Hout by (intros H; apply Hr; now right).
      apply Hother. intros ->. apply Hr. now left.
    + intros ax' lab' [Epair|Hin'].
      * inversion Epair; subst. exists a, a1. split; [exact Ha|].
        split; [|exact Ht1]. now rewrite Hout.
      * destruct (Hin ax' lab' Hin') as (a0 & a' & H0 & H' & Ht).
        exists a0, a'. split; [|split; assumption].
        rewrite <- H0. symmetry. apply Hother. intros ->.
        apply Hnin. apply in_map_iff. exists (ax, lab'). auto.
Qed.
End LabelLoop.

Lemma combine_map_fst {A B : Type} (l1 : list A) : forall (l2 : list B),
  length l1 = length l2 -> map fst (combine l1 l2) = l1.
Proof.
  induction l1 as [|x l1 IH]; intros [|y l2] H; simpl in *; try congruence.
  f_equal. apply IH. congruence.
Qed.

Lemma combine_lookup_in {A B : Type} (l1 : list A) : forall (l2 : list B) i a b,
  l1 !! i = Some a -> l2 !! i = Some b -> In (a, b) (combine l1 l2).
Proof.
  induction l1 as [|x l1 IH]; intros [|y l2] [|i] a b H1 H2; simpl in *; try discriminate.
  - inversion H1; inversion H2; subst. now left.
  - right. eapply IH; eauto.
Qed.

Lemma combine_keys (k : ref -> nat) (l : list ref) :
  combine (map k l) l = map (fun r => (k r, r)) l.
Proof. induction l as [|r l IH]; simpl; [reflexivity|now rewrite IH]. Qed.

Lemma sorted_refs (k : ref -> nat) (l : list (nat * ref)) :
  Forall (fun p => fst p = k (snd p)) l -> StronglySorted key_lt l ->
  StronglySorted (fun r1 r2 => k r1 < k r2) (map snd l).
Proof.
  induction 2 as [|p l Hs IH Hall]; [constructor|].
  inversion H as [|? ? Hp Hl]; subst. cbn [map]. constructor; [now apply IH|].
  apply Forall_map. rewrite List.Forall_forall in *. intros q Hq.
  specialize (Hall q Hq). specialize (Hl q Hq). unfold key_lt in Hall. simpl. lia.
Qed.

Lemma NoDup_of_keys (k : ref -> nat) (l : list ref) :
  List.NoDup (map k l) -> List.NoDup l.
Proof. apply List.NoDup_map_inv. Qed.

Lemma assign_labels_spec test key what body txt labels w :
  (forall ax lab w a,
     heap w !! ax = Some a ->
     exists w', body (ax, lab) w = Ok w' /\
       (forall r, r <> ax -> heap w' !! r = heap w !! r) /\
       exists a', heap w' !! ax = Some a' /\ txt a' = new_text lab (txt a)) ->
  Forall (fun r => is_Some (heap w !! r)) (axes (fig w)) ->
  List.NoDup (map (attr_of w key 0) (matched w test)) ->
  labels_outcome w test key txt what labels (assign_labels test key what body labels w).
Proof.
  intros Hbody Hall Hnd. unfold labels_outcome, assign_labels. cbv zeta.
  rewrite (select_axes_eq w test _ Hall). cbn [bind]. fold (matched w test).
  set (axs := matched w test) in *.
  destruct (length (broadcast labels (length axs)) =? length axs) eqn:El; cbn [negb];
    [|reflexivity].
  apply Nat.eqb_eq in El.
  assert (Hvalid : Forall (fun r => is_Some (heap w !! r)) axs).
  { rewrite List.Forall_forall in *. intros r Hr. apply Hall.
    unfold axs, matched in Hr. apply filter_In in Hr. tauto. }
  rewrite (for_each_get_eq w key 0 axs Hvalid). cbn [bind].
  rewrite combine_keys.
  destruct (py_sorted_spec (map (fun r => (attr_of w key 0 r, r)) axs))
    as (l' & Es & Hperm & Hsorted).
  { now rewrite map_map. }
  rewrite Es. cbn [bind].
  assert (Hp : Permutation (map snd l') axs).
  { rewrite Hperm, map_map. cbn [snd]. now rewrite map_id. }
  assert (Hkeys : Forall (fun p => fst p = attr_of w key 0 (snd p)) l').
  { rewrite List.Forall_forall. intros p Hin.
    eapply Permutation_in in Hin; [|exact Hperm].
    apply in_map_iff in Hin. destruct Hin as (r & <- & _). reflexivity. }
  assert (Hlen : length (map snd l') = length (broadcast labels (length axs))).
  { rewrite El. now apply Permutation_length. }
  destruct (for_each_labels body txt Hbody
              (combine (map snd l') (broadcast labels (length axs))) w)
    as (w' & E & _ & Hin).
  { rewrite combine_map_fst by exact Hlen.
    eapply Permutation_NoDup; [symmetry; exact Hp|].
    eapply NoDup_of_keys; exact Hnd. }
  { rewrite combine_map_fst by exact Hlen.
    rewrite List.Forall_forall in *. intros r Hr. apply Hvalid.
    eapply Permutation_in; [exact Hp|exact Hr]. }
  exists w', (map snd l'). split; [exact E|]. split; [exact Hp|].
  split; [now apply sorted_refs|].
  intros i ax lab Hi Hl. apply Hin. eapply combine_lookup_in; eauto.
Qed.

Lemma row_body_spec env ax lab w a :
  heap w !! ax = Some a ->
  exists w', row_body env (ax, lab) w = Ok w' /\
    (forall r, r <> ax -> heap w' !! r = heap w !! r) /\
    exists a', heap w' !! ax = Some a' /\
               text (rowlabel a') = new_text lab (text (rowlabel a)).
Proof.
  intros Ha. unfold row_body, new_text. rewrite (get_ok _ _ _ Ha). cbn [bind].
  destruct (nonempty lab && negb (nonempty (text (rowlabel a)))).
  - eexists. split; [reflexivity|]. split.
    + intros r Hr. now rewrite !heap_modify_ne by congruence.
    + eexists. split; [apply heap_modify_eq, heap_modify_eq, Ha|reflexivity].
  - exists w. split; [reflexivity|]. split; [reflexivity|]. eauto.
Qed.

Lemma col_body_spec ax lab w a :
  heap w !! ax = Some a ->
  exists w', col_body (ax, lab) w = Ok w' /\
    (forall r, r <> ax -> heap w' !! r = heap w !! r) /\
    exists a', heap w' !! ax = Some a' /\
               text (collabel a') = new_text lab (text (collabel a)).
Proof.
  intros Ha. unfold col_body, new_text. rewrite (get_ok _ _ _ Ha). cbn [bind].
  destruct (nonempty lab && negb (nonempty (text (collabel a)))).
  - eexists. split; [reflexivity|]. split.
    + intros r Hr. now rewrite !heap_modify_ne by congruence.
    + eexists. split; [apply heap_modify_eq, Ha|reflexivity].
  - exists w. split; [reflexivity|]. split; [reflexivity|]. eauto.
Qed.

(** C6, as amended. Row/column label count check: the matched axes are
    the axes of the figure that are [BaseAxes] but not [PanelAxes] and
    start in column 0 (respectively row 0). If the labels, a list, differ
    in number from the matched axes, the call fails with the
    count-mismatch [ValueError]; a single string is repeated for every
    matched axes and never mismatches. Otherwise, when the matched axes
    start in pairwise different rows (respectively columns), the call
    returns, pairs the axes sorted by that coordinate with the labels,
    and writes a label only where it is not empty and the axes has no
    label text yet; every other matched axes keeps its text. *)
Theorem row_and_column_label_assignment env labels w :
  Forall (fun r => is_Some (heap w !! r)) (axes (fig w)) ->
  List.NoDup (map (attr_of w (fun ax => fst (rows ax)) 0) (matched w row_test)) ->
  List.NoDup (map (attr_of w (fun ax => fst (cols ax)) 0) (matched w col_test)) ->
  labels_outcome w row_test (fun ax => fst (rows ax)) (fun ax => text (rowlabel ax))
    "rows" labels (_rowlabels env labels w) /\
  labels_outcome w col_test (fun ax => fst (cols ax)) (fun ax => text (collabel ax))
    "columns" labels (_collabels env labels w).
Proof.
  intros Hall Hrows Hcols. split.
  - rewrite rowlabels_shape. apply assign_labels_spec; auto.
    intros ax lab w0 a. apply row_body_spec.
  - rewrite collabels_shape. apply assign_labels_spec; auto.
    intros ax lab w0 a. apply col_body_spec.
Qed.

Lemma row_and_column_label_assignment_witness :
  Forall (fun r => is_Some (heap labelled_rows !! r)) (axes (fig labelled_rows)) /\
  List.NoDup (map (attr_of labelled_rows (fun ax => fst (rows ax)) 0)
                (matched labelled_rows row_test)) /\
  List.NoDup (map (attr_of labelled_rows (fun ax => fst (cols ax)) 0)
                (matched labelled_rows col_test)) /\
  labels_outcome labelled_rows row_test (fun ax => fst (rows ax))
    (fun ax => text (rowlabel ax)) "rows" (LabelList ["a"; "b"]%string)
    (_rowlabels env0 (LabelList ["a"; "b"]%string) labelled_rows) /\
  labels_outcome labelled_rows col_test (fun ax => fst (cols ax))
    (fun ax => text (collabel ax)) "columns" (LabelList ["a"; "b"]%string)
    (_collabels env0 (LabelList ["a"; "b"]%string) labelled_rows).
Proof.
  assert (H1 : Forall (fun r => is_Some (heap labelled_rows !! r)) (axes (fig labelled_rows)))
    by (repeat constructor; eexists; reflexivity).
  assert (H2 : List.NoDup (map (attr_of labelled_rows (fun ax => fst (rows ax)) 0)
                             (matched labelled_rows row_test))).
  { vm_compute. repeat constructor; simpl; intuition lia. }
  assert (H3 : List.NoDup (map (attr_of labelled_rows (fun ax => fst (cols ax)) 0)
                             (matched labelled_rows col_test))).
  { vm_compute. repeat constructor; simpl; intuition lia. }
  split; [exact H1|]. split; [exact H2|]. split; [exact H3|].
  exact (row_and_column_label_assignment env0 (LabelList ["a"; "b"]%string)
           labelled_rows H1 H2 H3).
Defined.

(** A row that already has a label keeps it. *)
Lemma row_label_already_set_is_kept :
  exists w' a',
    _rowlabels env0 (LabelList ["upper"; "lower"]%string) labelled_rows = Ok w' /\
    heap w' !! 1 = Some a' /\
    text (rowlabel a') = "old"%string /\ text (rowlabel a') <> "upper"%string /\
    map (fun a => text (rowlabel a)) (heap w') = ["lower"; "old"]%string.
Proof.
  eexists. eexists. split; [vm_compute; reflexivity|]. split; [reflexivity|].
  split; [reflexivity|]. split; [discriminate|reflexivity].
Qed.

(** Too few labels, given as a list. *)
Example row_label_count_mismatch :
  _rowlabels env0 (LabelList ["only"]%string) labelled_rows
  = Raise (ValueError "Got 1 labels, but there are 2 rows.").
Proof. vm_compute. reflexivity. Qed.

(** ** Share set-ups as sequences of links *)

Lemma frames_link_x w link : frames (link_x w link) = frames w.
Proof.
  unfold link_x, frames. cbv zeta. simpl. rewrite !map_alter_invariant; auto.
Qed.

Lemma frames_link_y w link : frames (link_y w link) = frames w.
Proof.
  unfold link_y, frames. cbv zeta. simpl. rewrite !map_alter_invariant; auto.
Qed.

Lemma frames_fold_links (link : World -> ref * ref -> World) L :
  (forall w l, frames (link w l) = frames w) ->
  forall w, frames (fold_left link L w) = frames w.
Proof.
  intros H. induction L as [|l L IH]; intros w; simpl; [reflexivity|].
  now rewrite IH, H.
Qed.

Lemma slots_lookup w r a : heap w !! r = Some a -> slots w !! r = Some (panels_of a).
Proof. intros H. unfold slots. rewrite list_lookup_fmap. now rewrite H. Qed.

Section LinkStep.
Variable rec : ref -> option ref -> World -> Result World.
Variable made : ref -> ref -> list (ref * ref).
Variable link : World -> ref * ref -> World.
Variable n : nat.
Variable sl : list (list PanelSlot).
Hypothesis IH : forall self sx w,
  slots w = sl -> closed sl = true -> sx < length (heap w) ->
  panel_depth_le sl n self = true ->
  rec self (Some sx) w = Ok (fold_left link (made self sx) w).

Lemma trace_step_pair w ps qs :
  slots w = sl -> closed sl = true ->
  (forall p, ps = PAxes p -> panel_depth_le sl n p = true) ->
  (forall q, qs = PAxes q -> q < length (heap w)) ->
  match ps, qs with
  | PAxes p, PAxes q => rec p (Some q) w
  | _, _ => Ok w
  end = Ok (fold_left link (links_of_pair made ps qs) w).
Proof.
  intros Hs Hc Hp Hq. destruct ps as [| |p]; try reflexivity.
  destruct qs as [| |q]; try reflexivity. simpl. apply IH; auto.
Qed.

Lemma trace_step_single w ps sx :
  slots w = sl -> closed sl = true ->
  (forall p, ps = PAxes p -> panel_depth_le sl n p = true) ->
  sx < length (heap w) ->
  match ps with
  | PAxes p => rec p (Some sx) w
  | _ => Ok w
  end = Ok (fold_left link (links_of_single made ps sx) w).
Proof.
  intros Hs Hc Hp Hq. destruct ps as [| |p]; try reflexivity. simpl. apply IH; auto.
Qed.
End LinkStep.

Lemma sharex_links_made_self fuel sl a : sharex_links_made fuel sl a a = [].
Proof. destruct fuel; simpl; now rewrite Nat.eqb_refl. Qed.

Lemma sharey_links_made_self fuel sl a : sharey_links_made fuel sl a a = [].
Proof. destruct fuel; simpl; now rewrite Nat.eqb_refl. Qed.

Lemma sharex_trace fuel : forall self sx w,
  closed (slots w) = true -> sx < length (heap w) ->
  panel_depth_le (slots w) fuel self = true ->
  _sharex_setup fuel self (Some sx) w
  = Ok (fold_left link_x (sharex_links_made fuel (slots w) self sx) w).
Proof.
  induction fuel as [|n IH]; intros self sx w Hc Hsx Hd; [discriminate|].
  cbn [_sharex_setup sharex_links_made].
  destruct (self =? sx) eqn:Ese; [reflexivity|].
  set (sl := slots w) in *.
  assert (IHs : forall self sx w0,
    slots w0 = sl -> closed sl = true -> sx < length (heap w0) ->
    panel_depth_le sl n self = true ->
    _sharex_setup n self (Some sx) w0
    = Ok (fold_left link_x (sharex_links_made n sl self sx) w0)).
  { intros s1 s2 w0 E H1 H2 H3. rewrite <- E. apply IH; try rewrite E; auto. }
  destruct (depth_valid _ _ _ Hd) as [a Ha].
  destruct (lookup_lt_is_Some_2 (heap w) sx Hsx) as [b Hb].
  assert (Hda : forall p, In (PAxes p) (panels_of a) -> panel_depth_le sl n p = true)
    by (intros p; apply (depth_slot _ _ _ _ _ Hd Ha)).
  assert (Hcb : forall q, In (PAxes q) (panels_of b) -> q < length (heap w))
    by (intros q; apply (closed_slot _ _ _ _ Hc Hb)).
  assert (Hframe : forall L w0, frames w0 = frames w ->
            frames (fold_left link_x L w0) = frames w).
  { intros L w0 E. rewrite frames_fold_links; auto using frames_link_x. }
  unfold sl at 1 2. rewrite (slots_lookup _ _ _ Ha), (slots_lookup _ _ _ Hb).
  unfold panels_of at 1 2.
  rewrite (get_ok _ _ _ Ha), (get_ok _ _ _ Hb). cbn [bind].
  (* left panels *)
  rewrite (trace_step_pair (_sharex_setup n) (sharex_links_made n sl) link_x n sl IHs
             w (leftpanel a) (leftpanel b) eq_refl Hc).
  2:{ intros p Ep. apply Hda. rewrite <- Ep. simpl. auto. }
  2:{ intros q Eq. apply Hcb. rewrite <- Eq. simpl. auto. }
  cbn [bind]. set (w1 := fold_left link_x _ w).
  assert (F1 : frames w1 = frames w) by (apply Hframe; reflexivity).
  (* right panels *)
  destruct (reread w w1 self a F1 Ha) as (a1 & Ga1 & Ha1 & Pa1).
  destruct (reread w w1 sx b F1 Hb) as (b1 & Gb1 & Hb1 & Pb1).
  destruct (panels_of_inv _ _ Pa1) as (Al1 & Ar1 & Ab1 & At1).
  destruct (panels_of_inv _ _ Pb1) as (Bl1 & Br1 & Bb1 & Bt1).
  rewrite Ga1, Gb1. cbn [bind].
  rewrite (trace_step_pair (_sharex_setup n) (sharex_links_made n sl) link_x n sl IHs
             w1 (rightpanel a1) (rightpanel b1) (slots_frames _ _ F1) Hc).
  2:{ intros p Ep. apply Hda. rewrite <- Ep, Ar1. simpl. auto. }
  2:{ intros q Eq. rewrite (frames_length _ _ F1). apply Hcb. rewrite <- Eq, Br1.
      simpl. auto. }
  cbn [bind]. set (w2 := fold_left link_x _ w1).
  assert (F2 : frames w2 = frames w) by (apply Hframe; exact F1).
  (* bottom panel *)
  destruct (reread w w2 self a F2 Ha) as (a2 & Ga2 & Ha2 & Pa2).
  destruct (panels_of_inv _ _ Pa2) as (Al2 & Ar2 & Ab2 & At2).
  rewrite Ga2. cbn [bind].
  assert (E3 : match bottompanel a2 with
               | PAxes p => if negb (sx =? p) then _sharex_setup n p (Some sx) w2 else Ok w2
               | _ => Ok w2
               end = Ok (fold_left link_x
                           (links_of_single (sharex_links_made n sl) (bottompanel a2) sx) w2)).
  { destruct (bottompanel a2) as [| |p] eqn:Ep; try reflexivity.
    destruct (sx =? p) eqn:Esp; cbn [negb].
    - apply Nat.eqb_eq in Esp. subst p. simpl. now rewrite sharex_links_made_self.
    - simpl. apply IHs;
        [now apply slots_frames|exact Hc|now rewrite (frames_length _ _ F2)|].
      apply Hda. unfold panels_of. rewrite <- Ab2. simpl. auto. }
  rewrite E3. cbn [bind]. set (w3 := fold_left link_x _ w2).
  assert (F3 : frames w3 = frames w) by (apply Hframe; exact F2).
  (* top panel *)
  destruct (reread w w3 self a F3 Ha) as (a3 & Ga3 & Ha3 & Pa3).
  destruct (panels_of_inv _ _ Pa3) as (Al3 & Ar3 & Ab3 & At3).
  rewrite Ga3. cbn [bind].
  assert (E4 : match toppanel a3 with
               | PAxes p => if negb (sx =? p) then _sharex_setup n p (Some sx) w3 else Ok w3
               | _ => Ok w3
               end = Ok (fold_left link_x
                           (links_of_single (sharex_links_made n sl) (toppanel a3) sx) w3)).
  { destruct (toppanel a3) as [| |p] eqn:Ep; try reflexivity.
    destruct (sx =? p) eqn:Esp; cbn [negb].
    - apply Nat.eqb_eq in Esp. subst p. simpl. now rewrite sharex_links_made_self.
    - simpl. apply IHs;
        [now apply slots_frames|exact Hc|now rewrite (frames_length _ _ F3)|].
      apply Hda. unfold panels_of. rewrite <- At3. simpl. auto. }
  rewrite E4. cbn [bind]. f_equal.
  subst w3 w2 w1. rewrite Ar1, Br1, Ab2, At3.
  rewrite !fold_left_app. reflexivity.
Qed.

Lemma sharey_trace fuel : forall self sx w,
  closed (slots w) = true -> sx < length (heap w) ->
  panel_depth_le (slots w) fuel self = true ->
  _sharey_setup fuel self (Some sx) w
  = Ok (fold_left link_y (sharey_links_made fuel (slots w) self sx) w).
Proof.
  induction fuel as [|n IH]; intros self sx w Hc Hsx Hd; [discriminate|].
  cbn [_sharey_setup sharey_links_made].
  destruct (self =? sx) eqn:Ese; [reflexivity|].
  set (sl := slots w) in *.
  assert (IHs : forall self sx w0,
    slots w0 = sl -> closed sl = true -> sx < length (heap w0) ->
    panel_depth_le sl n self = true ->
    _sharey_setup n self (Some sx) w0
    = Ok (fold_left link_y (sharey_links_made n sl self sx) w0)).
  { intros s1 s2 w0 E H1 H2 H3. rewrite <- E. apply IH; try rewrite E; auto. }
  destruct (depth_valid _ _ _ Hd) as [a Ha].
  destruct (lookup_lt_is_Some_2 (heap w) sx Hsx) as [b Hb].
  assert (Hda : forall p, In (PAxes p) (panels_of a) -> panel_depth_le sl n p = true)
    by (intros p; apply (depth_slot _ _ _ _ _ Hd Ha)).
  assert (Hcb : forall q, In (PAxes q) (panels_of b) -> q < length (heap w))
    by (intros q; apply (closed_slot _ _ _ _ Hc Hb)).
  assert (Hframe : forall L w0, frames w0 = frames w ->
            frames (fold_left link_y L w0) = frames w).
  { intros L w0 E. rewrite frames_fold_links; auto using frames_link_y. }
  unfold sl at 1 2. rewrite (slots_lookup _ _ _ Ha), (slots_lookup _ _ _ Hb).
  unfold panels_of at 1 2.
  rewrite (get_ok _ _ _ Ha), (get_ok _ _ _ Hb). cbn [bind].
  (* bottom panels *)
  rewrite (trace_step_pair (_sharey_setup n) (sharey_links_made n sl) link_y n sl IHs
             w (bottompanel a) (bottompanel b) eq_refl Hc).
  2:{ intros p Ep. apply Hda. rewrite <- Ep. simpl. auto. }
  2:{ intros q Eq. apply Hcb. rewrite <- Eq. simpl. auto. }
  cbn [bind]. set (w1 := fold_left link_y _ w).
  assert (F1 : frames w1 = frames w) by (apply Hframe; reflexivity).
  (* top panels *)
  destruct (reread w w1 self a F1 Ha) as (a1 & Ga1 & Ha1 & Pa1).
  destruct (reread w w1 sx b F1 Hb) as (b1 & Gb1 & Hb1 & Pb1).
  destruct (panels_of_inv _ _ Pa1) as (Al1 & Ar1 & Ab1 & At1).
  destruct (panels_of_inv _ _ Pb1) as (Bl1 & Br1 & Bb1 & Bt1).
  rewrite Ga1, Gb1. cbn [bind].
  rewrite (trace_step_pair (_sharey_setup n) (sharey_links_made n sl) link_y n sl IHs
             w1 (toppanel a1) (toppanel b1) (slots_frames _ _ F1) Hc).
  2:{ intros p Ep. apply Hda. rewrite <- Ep, At1. simpl. auto. }
  2:{ intros q Eq. rewrite (frames_length _ _ F1). apply Hcb. rewrite <- Eq, Bt1.
      simpl. auto. }
  cbn [bind]. set (w2 := fold_left link_y _ w1).
  assert (F2 : frames w2 = frames w) by (apply Hframe; exact F1).
  (* left panel *)
  destruct (reread w w2 self a F2 Ha) as (a2 & Ga2 & Ha2 & Pa2).
  destruct (panels_of_inv _ _ Pa2) as (Al2 & Ar2 & Ab2 & At2).
  rewrite Ga2. cbn [bind].
  assert (E3 : match leftpanel a2 with
               | PAxes p => _sharey_setup n p (Some sx) w2
               | _ => Ok w2
               end = Ok (fold_left link_y
                           (links_of_single (sharey_links_made n sl) (leftpanel a2) sx) w2)).
  { apply (trace_step_single (_sharey_setup n) (sharey_links_made n sl) link_y n sl IHs);
      [now apply slots_frames|exact Hc| |now rewrite (frames_length _ _ F2)].
    intros p Ep. apply Hda. unfold panels_of. rewrite <- Al2, Ep. simpl. auto. }
  rewrite E3. cbn [bind]. set (w3 := fold_left link_y _ w2).
  assert (F3 : frames w3 = frames w) by (apply Hframe; exact F2).
  (* right panel *)
  destruct (reread w w3 self a F3 Ha) as (a3 & Ga3 & Ha3 & Pa3).
  destruct (panels_of_inv _ _ Pa3) as (Al3 & Ar3 & Ab3 & At3).
  rewrite Ga3. cbn [bind].
  assert (E4 : match rightpanel a3 with
               | PAxes p => _sharey_setup n p (Some sx) w3
               | _ => Ok w3
               end = Ok (fold_left link_y
                           (links_of_single (sharey_links_made n sl) (rightpanel a3) sx) w3)).
  { apply (trace_step_single (_sharey_setup n) (sharey_links_made n sl) link_y n sl IHs);
      [now apply slots_frames|exact Hc| |now rewrite (frames_length _ _ F3)].
    intros p Ep. apply Hda. unfold panels_of. rewrite <- Ar3, Ep. simpl. auto. }
  rewrite E4. cbn [bind]. f_equal.
  subst w3 w2 w1. rewrite At1, Bt1, Al2, Ar3.
  rewrite !fold_left_app. reflexivity.
Qed.

Lemma last_target_snoc L a b r :
  last_target (L ++ [(a, b)]) r = if a =? r then Some b else last_target L r.
Proof. unfold last_target. now rewrite fold_left_app. Qed.

Lemma joins_snoc L a b g : joins (L ++ [(a, b)]) g = join a b (joins L g).
Proof. unfold joins. now rewrite fold_left_app. Qed.

Section FoldLinks.
Variable link : World -> ref * ref -> World.
Variable linked : ref -> Axes -> Axes.
Variable grp : World -> Grouper.
Hypothesis heap_link : forall w a b, heap (link w (a, b)) = alter (linked b) a (heap w).
Hypothesis grp_link : forall w a b, grp (link w (a, b)) = join a b (grp w).
Hypothesis fig_link : forall w l, fig (link w l) = fig w.
Hypothesis log_link : forall w l, log (link w l) = log w.
Hypothesis linked_absorbs : forall b b' o, linked b (linked b' o) = linked b o.

Lemma heap_fold_links L : forall w r,
  heap (fold_left link L w) !! r
  = match last_target L r with
    | Some b => linked b <$> heap w !! r
    | None => heap w !! r
    end.
Proof.
  induction L as [|[a b] L IH] using rev_ind; intros w r; [reflexivity|].
  rewrite fold_left_app. cbn [fold_left]. rewrite heap_link, last_target_snoc.
  destruct (a =? r) eqn:E.
  - apply Nat.eqb_eq in E. subst r. rewrite list_lookup_alter_eq, IH.
    destruct (last_target L a); [|reflexivity].
    destruct (heap w !! a); [|reflexivity]. simpl. now rewrite linked_absorbs.
  - apply Nat.eqb_neq in E. rewrite list_lookup_alter_ne by exact E. apply IH.
Qed.

Lemma grp_fold_links L : forall w, grp (fold_left link L w) = joins L (grp w).
Proof.
  induction L as [|[a b] L IH] using rev_ind; intros w; [reflexivity|].
  rewrite fold_left_app. cbn [fold_left]. now rewrite grp_link, IH, joins_snoc.
Qed.

Lemma fig_fold_links L : forall w, fig (fold_left link L w) = fig w.
Proof.
  induction L as [|l L IH]; intros w; [reflexivity|]. cbn [fold_left].
  now rewrite IH, fig_link.
Qed.

Lemma log_fold_links L : forall w, log (fold_left link L w) = log w.
Proof.
  induction L as [|l L IH]; intros w; [reflexivity|]. cbn [fold_left].
  now rewrite IH, log_link.
Qed.

(** Making the same links again leaves the heap as it is. *)
Lemma heap_fold_links_twice L w :
  heap (fold_left link L (fold_left link L w)) = heap (fold_left link L w).
Proof.
  apply list_eq. intros r. rewrite heap_fold_links.
  destruct (last_target L r) as [b|] eqn:E; [|reflexivity].
  rewrite heap_fold_links, E.
  destruct (heap w !! r); [|reflexivity]. simpl. now rewrite linked_absorbs.
Qed.
End FoldLinks.

Lemma join_absorb a b (g : Grouper) x : g a = g b -> join a b g x = g x.
Proof.
  intros E. unfold join. destruct (g x =? g b) eqn:Ex; [|reflexivity].
  apply Nat.eqb_eq in Ex. congruence.
Qed.

Lemma join_ext a b (g g' : Grouper) :
  (forall x, g' x = g x) -> forall x, join a b g' x = join a b g x.
Proof. intros E x. unfold join. now rewrite !E. Qed.

Lemma join_keeps a b (g : Grouper) x y : g x = g y -> join a b g x = join a b g y.
Proof. intros E. unfold join. now rewrite E. Qed.

Lemma join_links a b (g : Grouper) : join a b g a = join a b g b.
Proof.
  unfold join. rewrite Nat.eqb_refl. now destruct (g a =? g b).
Qed.

Lemma joins_keeps L : forall (g : Grouper) x y, g x = g y -> joins L g x = joins L g y.
Proof.
  induction L as [|[a b] L IH]; intros g x y E; [exact E|].
  unfold joins in *. cbn [fold_left fst snd]. apply IH. now apply join_keeps.
Qed.

Lemma joins_links L : forall (g : Grouper) a b, In (a, b) L -> joins L g a = joins L g b.
Proof.
  induction L as [|[a' b'] L IH]; intros g a b Hin; [destruct Hin|].
  unfold joins in *. cbn [fold_left fst snd]. destruct Hin as [E|Hin].
  - inversion E; subst. apply (joins_keeps L). apply join_links.
  - now apply IH.
Qed.

Lemma joins_absorb L : forall (g : Grouper),
  (forall a b, In (a, b) L -> g a = g b) -> forall x, joins L g x = g x.
Proof.
  induction L as [|[a b] L IH]; intros g H x; [reflexivity|].
  unfold joins in *. cbn [fold_left fst snd].
  rewrite IH.
  - apply join_absorb. apply H. now left.
  - intros a' b' Hin. apply join_keeps. apply H. now right.
Qed.

Lemma joins_twice L (g : Grouper) x : joins L (joins L g) x = joins L g x.
Proof. apply joins_absorb. intros a b Hin. now apply joins_links. Qed.

Lemma alter_twice {A : Type} (f g : A -> A) (l : list A) : forall i,
  alter f i (alter g i l) = alter (fun x => f (g x)) i l.
Proof.
  induction l as [|x l IH]; intros [|i]; simpl; auto. f_equal. apply IH.
Qed.

Lemma heap_link_x w a b : heap (link_x w (a, b)) = alter (linked_x b) a (heap w).
Proof.
  unfold link_x, modify, linked_x. cbn [heap set_heap set_shared_x fst snd].
  now rewrite !alter_twice.
Qed.

Lemma heap_link_y w a b : heap (link_y w (a, b)) = alter (linked_y b) a (heap w).
Proof.
  unfold link_y, modify, linked_y. cbn [heap set_heap set_shared_y fst snd].
  now rewrite !alter_twice.
Qed.

Lemma panels_of_four a : exists l r b t, panels_of a = [l; r; b; t].
Proof. unfold panels_of. eauto. Qed.

Lemma sharex_links_made_last n w a b :
  a <> b -> is_Some (heap w !! a) -> is_Some (heap w !! b) ->
  exists L, sharex_links_made (S n) (slots w) a b = L ++ [(a, b)].
Proof.
  intros Hne [oa Ha] [ob Hb]. cbn [sharex_links_made].
  apply Nat.eqb_neq in Hne. rewrite Hne.
  rewrite (slots_lookup _ _ _ Ha), (slots_lookup _ _ _ Hb). unfold panels_of.
  eexists. rewrite !app_assoc. reflexivity.
Qed.

Lemma sharey_links_made_last n w a b :
  a <> b -> is_Some (heap w !! a) -> is_Some (heap w !! b) ->
  exists L, sharey_links_made (S n) (slots w) a b = L ++ [(a, b)].
Proof.
  intros Hne [oa Ha] [ob Hb]. cbn [sharey_links_made].
  apply Nat.eqb_neq in Hne. rewrite Hne.
  rewrite (slots_lookup _ _ _ Ha), (slots_lookup _ _ _ Hb). unfold panels_of.
  eexists. rewrite !app_assoc. reflexivity.
Qed.

Lemma linked_x_absorbs b b' o : linked_x b (linked_x b' o) = linked_x b o.
Proof. reflexivity. Qed.

Lemma linked_y_absorbs b b' o : linked_y b (linked_y b' o) = linked_y b o.
Proof. reflexivity. Qed.

Lemma depth_positive sl fuel r : panel_depth_le sl fuel r = true -> exists n, fuel = S n.
Proof. destruct fuel; [discriminate|eauto]. Qed.

(** X1. What a share set-up leaves on the axes it is called on. On a heap
    whose panel attributes hold live axes, with a live target other than
    the axes itself and room for the nested calls, [a._sharex_setup(b)]
    returns; afterwards [a._sharex] is [b], the x tick labels and the x
    label of [a] are hidden, the text of the label is kept, and the y axis
    of [a] is as it was. [_sharey_setup] does the same with x and y
    exchanged. *)
Theorem share_setup_marks_the_sharing_axes fuel a b w oa :
  closed (slots w) = true -> b < length (heap w) ->
  panel_depth_le (slots w) fuel a = true -> a <> b ->
  heap w !! a = Some oa ->
  (exists w' oa',
     _sharex_setup fuel a (Some b) w = Ok w' /\ heap w' !! a = Some oa' /\
     _sharex oa' = Some b /\
     ticklabels_visible (xaxis oa') = false /\ visible (label (xaxis oa')) = false /\
     text (label (xaxis oa')) = text (label (xaxis oa)) /\
     yaxis oa' = yaxis oa) /\
  (exists w' oa',
     _sharey_setup fuel a (Some b) w = Ok w' /\ heap w' !! a = Some oa' /\
     _sharey oa' = Some b /\
     ticklabels_visible (yaxis oa') = false /\ visible (label (yaxis oa')) = false /\
     text (label (yaxis oa')) = text (label (yaxis oa)) /\
     xaxis oa' = xaxis oa).
Proof.
  intros Hc Hb Hd Hne Ha.
  destruct (depth_positive _ _ _ Hd) as [n ->].
  pose proof (lookup_lt_is_Some_2 (heap w) b Hb) as Hb'.
  split.
  - rewrite (sharex_trace (S n) a b w Hc Hb Hd).
    destruct (sharex_links_made_last n w a b Hne (mk_is_Some _ _ Ha) Hb') as [L ->].
    eexists. eexists. split; [reflexivity|].
    rewrite (heap_fold_links link_x linked_x heap_link_x linked_x_absorbs).
    rewrite last_target_snoc, Nat.eqb_refl, Ha. cbn [fmap option_fmap option_map].
    split; [reflexivity|]. repeat split.
  - rewrite (sharey_trace (S n) a b w Hc Hb Hd).
    destruct (sharey_links_made_last n w a b Hne (mk_is_Some _ _ Ha) Hb') as [L ->].
    eexists. eexists. split; [reflexivity|].
    rewrite (heap_fold_links link_y linked_y heap_link_y linked_y_absorbs).
    rewrite last_target_snoc, Nat.eqb_refl, Ha. cbn [fmap option_fmap option_map].
    split; [reflexivity|]. repeat split.
Qed.

Lemma share_setup_marks_the_sharing_axes_witness :
  closed (slots two_composites) = true /\ 3 < length (heap two_composites) /\
  panel_depth_le (slots two_composites) 2 0 = true /\ 0 <> 3 /\
  (exists oa, heap two_composites !! 0 = Some oa /\
  (exists w' oa',
     _sharex_setup 2 0 (Some 3) two_composites = Ok w' /\ heap w' !! 0 = Some oa' /\
     _sharex oa' = Some 3 /\
     ticklabels_visible (xaxis oa') = false /\ visible (label (xaxis oa')) = false /\
     text (label (xaxis oa')) = text (label (xaxis oa)) /\
     yaxis oa' = yaxis oa) /\
  (exists w' oa',
     _sharey_setup 2 0 (Some 3) two_composites = Ok w' /\ heap w' !! 0 = Some oa' /\
     _sharey oa' = Some 3 /\
     ticklabels_visible (yaxis oa') = false /\ visible (label (yaxis oa')) = false /\
     text (label (yaxis oa')) = text (label (yaxis oa)) /\
     xaxis oa' = xaxis oa)).
Proof.
  assert (H1 : closed (slots two_composites) = true) by reflexivity.
  assert (H2 : 3 < length (heap two_composites)) by (simpl; lia).
  assert (H3 : panel_depth_le (slots two_composites) 2 0 = true) by reflexivity.
  assert (H4 : 0 <> 3) by lia.
  split; [exact H1|]. split; [exact H2|]. split; [exact H3|]. split; [exact H4|].
  eexists. split; [reflexivity|].
  exact (share_setup_marks_the_sharing_axes 2 0 3 two_composites _ H1 H2 H3 H4 eq_refl).
Defined.

Lemma fig_link_x w l : fig (link_x w l) = fig w.
Proof. reflexivity. Qed.
Lemma log_link_x w l : log (link_x w l) = log w.
Proof. reflexivity. Qed.
Lemma grp_link_x w a b : _shared_x_axes (link_x w (a, b)) = join a b (_shared_x_axes w).
Proof. reflexivity. Qed.
Lemma fig_link_y w l : fig (link_y w l) = fig w.
Proof. reflexivity. Qed.
Lemma log_link_y w l : log (link_y w l) = log w.
Proof. reflexivity. Qed.
Lemma grp_link_y w a b : _shared_y_axes (link_y w (a, b)) = join a b (_shared_y_axes w).
Proof. reflexivity. Qed.

(** X2. Linking again what is linked changes nothing: under the same
    conditions a second call of the same share set-up returns, and leaves
    every axes, the figure and the record of events equal and the classes
    of the grouper the same. *)
Theorem share_relink_changes_nothing fuel a b w :
  closed (slots w) = true -> b < length (heap w) ->
  panel_depth_le (slots w) fuel a = true ->
  (exists w1 w2,
     _sharex_setup fuel a (Some b) w = Ok w1 /\
     _sharex_setup fuel a (Some b) w1 = Ok w2 /\
     heap w2 = heap w1 /\ fig w2 = fig w1 /\ log w2 = log w1 /\
     forall x y, joined (_shared_x_axes w2) x y = joined (_shared_x_axes w1) x y) /\
  (exists w1 w2,
     _sharey_setup fuel a (Some b) w = Ok w1 /\
     _sharey_setup fuel a (Some b) w1 = Ok w2 /\
     heap w2 = heap w1 /\ fig w2 = fig w1 /\ log w2 = log w1 /\
     forall x y, joined (_shared_y_axes w2) x y = joined (_shared_y_axes w1) x y).
Proof.
  intros Hc Hb Hd. split.
  - pose proof (sharex_trace fuel a b w Hc Hb Hd) as E1.
    set (L := sharex_links_made fuel (slots w) a b) in *.
    set (w1 := fold_left link_x L w) in *.
    assert (F1 : frames w1 = frames w)
      by (apply frames_fold_links; auto using frames_link_x).
    pose proof (sharex_trace fuel a b w1) as E2.
    rewrite (slots_frames _ _ F1), (frames_length _ _ F1) in E2.
    specialize (E2 Hc Hb Hd). fold L in E2.
    exists w1, (fold_left link_x L w1).
    split; [exact E1|]. split; [exact E2|].
    split; [apply (heap_fold_links_twice link_x linked_x heap_link_x linked_x_absorbs)|].
    split; [apply (fig_fold_links link_x fig_link_x)|].
    split; [apply (log_fold_links link_x log_link_x)|].
    intros x y. unfold joined, w1.
    rewrite !(grp_fold_links link_x _shared_x_axes grp_link_x).
    now rewrite !joins_twice.
  - pose proof (sharey_trace fuel a b w Hc Hb Hd) as E1.
    set (L := sharey_links_made fuel (slots w) a b) in *.
    set (w1 := fold_left link_y L w) in *.
    assert (F1 : frames w1 = frames w)
      by (apply frames_fold_links; auto using frames_link_y).
    pose proof (sharey_trace fuel a b w1) as E2.
    rewrite (slots_frames _ _ F1), (frames_length _ _ F1) in E2.
    specialize (E2 Hc Hb Hd). fold L in E2.
    exists w1, (fold_left link_y L w1).
    split; [exact E1|]. split; [exact E2|].
    split; [apply (heap_fold_links_twice link_y linked_y heap_link_y linked_y_absorbs)|].
    split; [apply (fig_fold_links link_y fig_link_y)|].
    split; [apply (log_fold_links link_y log_link_y)|].
    intros x y. unfold joined, w1.
    rewrite !(grp_fold_links link_y _shared_y_axes grp_link_y).
    now rewrite !joins_twice.
Qed.

Lemma share_relink_changes_nothing_witness :
  closed (slots two_composites) = true /\ 3 < length (heap two_composites) /\
  panel_depth_le (slots two_composites) 2 0 = true /\
  ((exists w1 w2,
     _sharex_setup 2 0 (Some 3) two_composites = Ok w1 /\
     _sharex_setup 2 0 (Some 3) w1 = Ok w2 /\
     heap w2 = heap w1 /\ fig w2 = fig w1 /\ log w2 = log w1 /\
     forall x y, joined (_shared_x_axes w2) x y = joined (_shared_x_axes w1) x y) /\
   (exists w1 w2,
     _sharey_setup 2 0 (Some 3) two_composites = Ok w1 /\
     _sharey_setup 2 0 (Some 3) w1 = Ok w2 /\
     heap w2 = heap w1 /\ fig w2 = fig w1 /\ log w2 = log w1 /\
     forall x y, joined (_shared_y_axes w2) x y = joined (_shared_y_axes w1) x y)).
Proof.
  assert (H1 : closed (slots two_composites) = true) by reflexivity.
  assert (H2 : 3 < length (heap two_composites)) by (simpl; lia).
  assert (H3 : panel_depth_le (slots two_composites) 2 0 = true) by reflexivity.
  split; [exact H1|]. split; [exact H2|]. split; [exact H3|].
  exact (share_relink_changes_nothing 2 0 3 two_composites H1 H2 H3).
Defined.

Lemma joined_trans g x y z :
  joined g x y = true -> joined g y z = true -> joined g x z = true.
Proof. unfold joined. rewrite !Nat.eqb_eq. congruence. Qed.

(** X3. Sharing composes: after [a._sharex_setup(b)] and then
    [b._sharex_setup(c)], with [a], [b] and [b], [c] different, both calls
    return and [a] and [c] are in one class of the shared-x grouper; the
    same for y. *)
Theorem share_links_are_transitive fuel a b c w :
  closed (slots w) = true -> b < length (heap w) -> c < length (heap w) ->
  panel_depth_le (slots w) fuel a = true -> panel_depth_le (slots w) fuel b = true ->
  a <> b -> b <> c ->
  (exists w1 w2,
     _sharex_setup fuel a (Some b) w = Ok w1 /\ _sharex_setup fuel b (Some c) w1 = Ok w2 /\
     joined (_shared_x_axes w2) a c = true) /\
  (exists w1 w2,
     _sharey_setup fuel a (Some b) w = Ok w1 /\ _sharey_setup fuel b (Some c) w1 = Ok w2 /\
     joined (_shared_y_axes w2) a c = true).
Proof.
  intros Hc Hb Hcv Hda Hdb Hab Hbc. split.
  - destruct (sharex_total fuel a b w Hc Hb Hda) as (w1 & E1 & F1 & L1).
    destruct (sharex_total fuel b c w1) as (w2 & E2 & F2 & L2).
    { now rewrite (frame_g_slots _ _ _ F1). }
    { now rewrite (frame_g_length _ _ _ F1). }
    { now rewrite (frame_g_slots _ _ _ F1). }
    exists w1, w2. split; [exact E1|]. split; [exact E2|].
    eapply joined_trans; [apply (proj2 F2), (proj1 (L1 Hab))|apply (proj1 (L2 Hbc))].
  - destruct (sharey_total fuel a b w Hc Hb Hda) as (w1 & E1 & F1 & L1).
    destruct (sharey_total fuel b c w1) as (w2 & E2 & F2 & L2).
    { now rewrite (frame_g_slots _ _ _ F1). }
    { now rewrite (frame_g_length _ _ _ F1). }
    { now rewrite (frame_g_slots _ _ _ F1). }
    exists w1, w2. split; [exact E1|]. split; [exact E2|].
    eapply joined_trans; [apply (proj2 F2), (proj1 (L1 Hab))|apply (proj1 (L2 Hbc))].
Qed.

Lemma share_links_are_transitive_witness :
  closed (slots three_in_a_row) = true /\ 1 < length (heap three_in_a_row) /\
  2 < length (heap three_in_a_row) /\
  panel_depth_le (slots three_in_a_row) 1 0 = true /\
  panel_depth_le (slots three_in_a_row) 1 1 = true /\ 0 <> 1 /\ 1 <> 2 /\
  ((exists w1 w2,
     _sharex_setup 1 0 (Some 1) three_in_a_row = Ok w1 /\
     _sharex_setup 1 1 (Some 2) w1 = Ok w2 /\
     joined (_shared_x_axes w2) 0 2 = true) /\
   (exists w1 w2,
     _sharey_setup 1 0 (Some 1) three_in_a_row = Ok w1 /\
     _sharey_setup 1 1 (Some 2) w1 = Ok w2 /\
     joined (_shared_y_axes w2) 0 2 = true)).
Proof.
  assert (H1 : closed (slots three_in_a_row) = true) by reflexivity.
  assert (H2 : 1 < length (heap three_in_a_row)) by (simpl; lia).
  assert (H3 : 2 < length (heap three_in_a_row)) by (simpl; lia).
  assert (H4 : panel_depth_le (slots three_in_a_row) 1 0 = true) by reflexivity.
  assert (H5 : panel_depth_le (slots three_in_a_row) 1 1 = true) by reflexivity.
  assert (H6 : 0 <> 1) by lia.
  assert (H7 : 1 <> 2) by lia.
  split; [exact H1|]. split; [exact H2|]. split; [exact H3|]. split; [exact H4|].
  split; [exact H5|]. split; [exact H6|]. split; [exact H7|].
  exact (share_links_are_transitive 1 0 1 2 three_in_a_row H1 H2 H3 H4 H5 H6 H7).
Defined.

(** A loop whose body writes to the axes it visits, and to no other. *)
Lemma fold_body_lookup (body : World -> ref -> World) (P : ref -> Axes -> Prop) :
  (forall w ax, length (heap (body w ax)) = length (heap w)) ->
  (forall w ax r, r <> ax -> heap (body w ax) !! r = heap w !! r) ->
  (forall w ax a, heap w !! ax = Some a ->
     exists a', heap (body w ax) !! ax = Some a' /\ P ax a') ->
  forall group w,
    Forall (fun r => is_Some (heap w !! r)) group ->
    length (heap (fold_left body group w)) = length (heap w) /\
    (forall r, ~ In r group -> heap (fold_left body group w) !! r = heap w !! r) /\
    (forall r, In r group -> exists a, heap (fold_left body group w) !! r = Some a /\ P r a).
Proof.
  intros Hlen Hne Heq.
  induction group as [|x rest IH] using rev_ind; intros w Hall.
  - split; [reflexivity|]. split; [reflexivity|]. intros r [].
  - rewrite fold_left_app. cbn [fold_left].
    apply Forall_app in Hall. destruct Hall as [Hrest Hx].
    destruct (IH w Hrest) as (Hl & Hout & Hin). clear IH.
    set (w1 := fold_left body rest w) in *.
    inversion Hx as [|? ? Hx0 _]; subst.
    assert (Hx1 : is_Some (heap w1 !! x)).
    { apply lookup_lt_is_Some. rewrite Hl. now apply lookup_lt_is_Some. }
    destruct Hx1 as [a1 Ha1].
    split; [now rewrite Hlen|]. split.
    + intros r Hr. rewrite Hne.
      * apply Hout. intros H. apply Hr. apply in_or_app. now left.
      * intros ->. apply Hr. apply in_or_app. right. now left.
    + intros r Hr. destruct (Nat.eq_dec r x) as [->|Hrx].
      * now apply (Heq w1 x a1).
      * rewrite Hne by exact Hrx. apply Hin.
        apply in_app_or in Hr. destruct Hr as [Hr|[E|[]]]; [exact Hr|congruence].
Qed.

Lemma for_each_get_total {A : Type} w (f : Axes -> A) group :
  Forall (fun r => is_Some (heap w !! r)) group ->
  exists vals, for_each_get w f group = Ok vals /\ length vals = length group.
Proof.
  intros Hall.
  destruct (for_each_get_ok w w f f group) as (vals & E & L & _); eauto.
Qed.

Lemma spanx_run w self group :
  group <> [] -> is_Some (heap w !! self) ->
  Forall (fun r => is_Some (heap w !! r)) group ->
  exists w1,
    (forall r, r <> self -> heap w1 !! r = heap w !! r) /\
    length (heap w1) = length (heap w) /\
    _spanx_setup self group w
    = Ok (fold_left
            (fun w ax =>
               let w := modify ax (set_xaxis (set_span (Some self) group)) w in
               if negb (ax =? self)
               then modify ax (set_xaxis (set_label (set_visible false))) w
               else modify ax (set_xaxis (set_label (set_visible true))) w)
            group w1).
Proof.
  intros Hne [a Ha] Hall. unfold _spanx_setup.
  rewrite (get_ok _ _ _ Ha). cbn [bind].
  set (w0 := modify self _ w).
  assert (Hall0 : Forall (fun r => is_Some (heap w0 !! r)) group).
  { eapply Forall_impl; [exact Hall|]. intros r Hr. simpl in Hr.
    apply lookup_lt_is_Some. unfold w0. rewrite length_heap_modify.
    now apply lookup_lt_is_Some. }
  destruct (for_each_get_total w0 (fun ax => xmin (bbox ax)) group Hall0) as [mins Emin].
  destruct (for_each_get_total w0 (fun ax => xmax (bbox ax)) group Hall0) as [maxs Emax].
  rewrite (proj1 Emin). cbn [bind].
  destruct group as [|g0 group']; [congruence|].
  destruct mins as [|m0 mins']; [destruct Emin as [_ E]; discriminate|].
  cbn [py_min bind]. rewrite (proj1 Emax). cbn [bind].
  destruct maxs as [|M0 maxs']; [destruct Emax as [_ E]; discriminate|].
  cbn [py_max bind].
  eexists. split; [|split; [|reflexivity]].
  - intros r Hr. unfold w0. now rewrite !heap_modify_ne by congruence.
  - unfold w0. now rewrite !length_heap_modify.
Qed.

Lemma spany_run w self group :
  group <> [] -> is_Some (heap w !! self) ->
  Forall (fun r => is_Some (heap w !! r)) group ->
  exists w1,
    (forall r, r <> self -> heap w1 !! r = heap w !! r) /\
    length (heap w1) = length (heap w) /\
    _spany_setup self group w
    = Ok (fold_left
            (fun w ax =>
               let w := modify ax (set_yaxis (set_span (Some self) group)) w in
               if negb (ax =? self)
               then modify ax (set_yaxis (set_label (set_visible true))) w
               else w)
            group w1).
Proof.
  intros Hne [a Ha] Hall. unfold _spany_setup.
  rewrite (get_ok _ _ _ Ha). cbn [bind].
  set (w0 := modify self _ w).
  assert (Hall0 : Forall (fun r => is_Some (heap w0 !! r)) group).
  { eapply Forall_impl; [exact Hall|]. intros r Hr. simpl in Hr.
    apply lookup_lt_is_Some. unfold w0. rewrite length_heap_modify.
    now apply lookup_lt_is_Some. }
  destruct (for_each_get_total w0 (fun ax => ymin (bbox ax)) group Hall0) as [mins Emin].
  destruct (for_each_get_total w0 (fun ax => ymax (bbox ax)) group Hall0) as [maxs Emax].
  rewrite (proj1 Emin). cbn [bind].
  destruct group as [|g0 group']; [congruence|].
  destruct mins as [|m0 mins']; [destruct Emin as [_ E]; discriminate|].
  cbn [py_min bind]. rewrite (proj1 Emax). cbn [bind].
  destruct maxs as [|M0 maxs']; [destruct Emax as [_ E]; discriminate|].
  cbn [py_max bind].
  eexists. split; [|split; [|reflexivity]].
  - intros r Hr. unfold w0. now rewrite !heap_modify_ne by congruence.
  - unfold w0. now rewrite !length_heap_modify.
Qed.

(** X4. What a span set-up records: every member of the group gets the
    owner as [_spanx] ([_spany]) and the whole group as [_spanx_group]
    ([_spany_group]); in the x direction the label of a member is visible
    exactly when the member is the owner; an axes that is neither a member
    nor the owner is left as it was. The set-up returns whenever the group
    is not empty and its members and the owner are live. *)
Theorem span_setup_records_membership w self group :
  group <> [] -> is_Some (heap w !! self) ->
  Forall (fun r => is_Some (heap w !! r)) group ->
  (exists w', _spanx_setup self group w = Ok w' /\
     (forall r, In r group ->
        exists a, heap w' !! r = Some a /\ _spanx a = Some self /\ _spanx_group a = group /\
                  visible (label (xaxis a)) = (r =? self)) /\
     (forall r, ~ In r group -> r <> self -> heap w' !! r = heap w !! r)) /\
  (exists w', _spany_setup self group w = Ok w' /\
     (forall r, In r group ->
        exists a, heap w' !! r = Some a /\ _spany a = Some self /\ _spany_group a = group) /\
     (forall r, ~ In r group -> r <> self -> heap w' !! r = heap w !! r)).
Proof.
  intros Hne Hs Hall. split.
  - destruct (spanx_run w self group Hne Hs Hall) as (w1 & Hout & Hlen & ->).
    eexists. split; [reflexivity|].
    match goal with |- context [fold_left ?b group w1] => set (body := b) end.
    destruct (fold_body_lookup body
                (fun r a => _spanx a = Some self /\ _spanx_group a = group /\
                            visible (label (xaxis a)) = (r =? self)))
      with (group := group) (w := w1) as (_ & Ho & Hi).
    + intros w0 ax. unfold body. destruct (negb (ax =? self)); now rewrite !length_heap_modify.
    + intros w0 ax r Hr. unfold body.
      destruct (negb (ax =? self)); now rewrite !heap_modify_ne by congruence.
    + intros w0 ax a Ha. unfold body. destruct (ax =? self); cbn [negb].
      * eexists. split; [apply heap_modify_eq, heap_modify_eq, Ha|]. repeat split.
      * eexists. split; [apply heap_modify_eq, heap_modify_eq, Ha|]. repeat split.
    + eapply Forall_impl; [exact Hall|]. intros r Hr. simpl in Hr.
      apply lookup_lt_is_Some. rewrite Hlen. now apply lookup_lt_is_Some.
    + split; [exact Hi|]. intros r Hr Hrs. rewrite (Ho r Hr). now apply Hout.
  - destruct (spany_run w self group Hne Hs Hall) as (w1 & Hout & Hlen & ->).
    eexists. split; [reflexivity|].
    match goal with |- context [fold_left ?b group w1] => set (body := b) end.
    destruct (fold_body_lookup body
                (fun r a => _spany a = Some self /\ _spany_group a = group))
      with (group := group) (w := w1) as (_ & Ho & Hi).
    + intros w0 ax. unfold body. destruct (negb (ax =? self)); now rewrite !length_heap_modify.
    + intros w0 ax r Hr. unfold body.
      destruct (negb (ax =? self)); now rewrite !heap_modify_ne by congruence.
    + intros w0 ax a Ha. unfold body. destruct (ax =? self); cbn [negb].
      * eexists. split; [apply heap_modify_eq, Ha|]. repeat split.
      * eexists. split; [apply heap_modify_eq, heap_modify_eq, Ha|]. repeat split.
    + eapply Forall_impl; [exact Hall|]. intros r Hr. simpl in Hr.
      apply lookup_lt_is_Some. rewrite Hlen. now apply lookup_lt_is_Some.
    + split; [exact Hi|]. intros r Hr Hrs. rewrite (Ho r Hr). now apply Hout.
Qed.

Lemma span_setup_records_membership_witness :
  [0; 1] <> [] /\ is_Some (heap three_in_a_row !! 0) /\
  Forall (fun r => is_Some (heap three_in_a_row !! r)) [0; 1] /\
  (exists w', _spanx_setup 0 [0; 1] three_in_a_row = Ok w' /\
     (forall r, In r [0; 1] ->
        exists a, heap w' !! r = Some a /\ _spanx a = Some 0 /\ _spanx_group a = [0; 1] /\
                  visible (label (xaxis a)) = (r =? 0)) /\
     (forall r, ~ In r [0; 1] -> r <> 0 -> heap w' !! r = heap three_in_a_row !! r)) /\
  (exists w', _spany_setup 0 [0; 1] three_in_a_row = Ok w' /\
     (forall r, In r [0; 1] ->
        exists a, heap w' !! r = Some a /\ _spany a = Some 0 /\ _spany_group a = [0; 1]) /\
     (forall r, ~ In r [0; 1] -> r <> 0 -> heap w' !! r = heap three_in_a_row !! r)).
Proof.
  assert (H1 : [0; 1] <> ([] : list nat)) by discriminate.
  assert (H2 : is_Some (heap three_in_a_row !! 0)) by (eexists; reflexivity).
  assert (H3 : Forall (fun r => is_Some (heap three_in_a_row !! r)) [0; 1])
    by (repeat constructor; eexists; reflexivity).
  split; [exact H1|]. split; [exact H2|]. split; [exact H3|].
  exact (span_setup_records_membership three_in_a_row 0 [0; 1] H1 H2 H3).
Defined.

Lemma panel_attr_erase side a a' : erase a' = erase a -> panel_attr side a' = panel_attr side a.
Proof.
  intros E. unfold panel_attr.
  change (leftpanel a') with (leftpanel (erase a')).
  change (rightpanel a') with (rightpanel (erase a')).
  change (bottompanel a') with (bottompanel (erase a')).
  change (toppanel a') with (toppanel (erase a')).
  now rewrite E.
Qed.

Lemma main_slots_requested s axmain i side :
  sides_of s !! i = Some side ->
  exists l r b t, main_slots s axmain = [l; r; b; t] /\
    (if String.eqb (snd side) "left" then Some l
     else if String.eqb (snd side) "right" then Some r
     else if String.eqb (snd side) "bottom" then Some b
     else if String.eqb (snd side) "top" then Some t
     else None) = Some (PAxes (S axmain + i)).
Proof.
  unfold main_slots. rewrite plan_of_sides. unfold sides_of, side_table.
  cbn -[char_in].
  generalize (char_in "t" s) (char_in "b" s) (char_in "l" s) (char_in "r" s).
  intros [] [] [] []; cbn; intros H;
    destruct i as [|[|[|[|i]]]]; cbn in H; inversion H; subst; cbn;
    do 4 eexists; (split; [reflexivity|]); cbn; repeat f_equal; lia.
Qed.

Lemma main_slots_unrequested s axmain side :
  In side side_table -> char_in (fst side) s = false ->
  exists l r b t, main_slots s axmain = [l; r; b; t] /\
    (if String.eqb (snd side) "left" then Some l
     else if String.eqb (snd side) "right" then Some r
     else if String.eqb (snd side) "bottom" then Some b
     else if String.eqb (snd side) "top" then Some t
     else None) = Some PNone.
Proof.
  unfold main_slots. rewrite plan_of_sides. unfold sides_of, side_table.
  intros Hin. cbn in Hin.
  destruct Hin as [<-|[<-|[<-|[<-|[]]]]]; cbn -[char_in]; intros Hc; rewrite ?Hc;
    generalize (char_in "t" s) (char_in "b" s) (char_in "l" s) (char_in "r" s);
    intros [] [] [] []; cbn; do 4 eexists; (split; [reflexivity|]); reflexivity.
Qed.

(** X5. The panel attributes after [panel_factory]: the main axes has, for
    the i-th requested side (in the order top, left, right, bottom), the
    i-th axes created after it as its panel of that side, a [PanelAxes]
    carrying that side as [panelside], the main axes as [panelparent] and
    four [EmptyPanel] panels of its own; the panel attribute of a side that
    was not requested is [None]. *)
Theorem panel_factory_panel_attributes
    env fuel subspec wp hs ws hw ww sharex sharey w w' axmain :
  panel_factory env fuel subspec wp hs ws hw ww sharex sharey w = Ok (w', axmain) ->
  let s := or_r (translate_word wp) in
  exists main,
    heap w' !! axmain = Some main /\ kind main = MainAxes /\ panelparent main = None /\
    (forall i side, sides_of s !! i = Some side ->
       panel_attr (snd side) main = Some (PAxes (S axmain + i)) /\
       exists panel,
         heap w' !! (S axmain + i) = Some panel /\ kind panel = PanelAxes /\
         panelside panel = Some (snd side) /\ panelparent panel = Some axmain /\
         panels_of panel = [PEmpty; PEmpty; PEmpty; PEmpty]) /\
    (forall side, In side side_table -> char_in (fst side) s = false ->
       panel_attr (snd side) main = Some PNone).
Proof.
  intros H. cbv zeta.
  destruct (panel_factory_run env fuel subspec wp hs ws hw ww sharex sharey w)
    as [[msg E]|[gs E]]; rewrite E in H; [discriminate|]. clear E.
  bind_inv H. bind_inv H. apply Ok_inj in H. inversion H; subst; clear H.
  apply sharex_frame in E. apply sharey_frame in E0.
  destruct E as [(Fx & _) _]. destruct E0 as [(Fy & _) _].
  set (s := or_r (translate_word wp)) in *.
  assert (F : frames w' = frames (built env gs s w)) by congruence.
  destruct (heap_built env gs s w) as (main & Hh & Hd & Hp).
  assert (Hm : heap (built env gs s w) !! length (heap w) = Some main).
  { rewrite Hh. rewrite lookup_app_r by lia. now rewrite Nat.sub_diag. }
  destruct (frames_lookup _ _ _ _ F Hm) as (main' & Hm' & Em).
  exists main'. split; [exact Hm'|].
  assert (Hk : kind main = MainAxes) by (unfold describe in Hd; congruence).
  assert (Hpp : panelparent main = None).
  { clear - Hh. unfold built in Hh. cbv zeta in Hh. unfold modify in Hh.
    cbn [heap set_heap] in Hh. rewrite heap_alloc_all in Hh.
    cbn [heap alloc set_fig set_heap] in Hh. rewrite <- app_assoc in Hh. cbn [app] in Hh.
    rewrite <- (Nat.add_0_r (length (heap w))) in Hh.
    rewrite !alter_app_r in Hh. cbn [alter list_alter] in Hh.
    apply app_inv_head in Hh. inversion Hh. reflexivity. }
  split; [change (kind main') with (kind (erase main')); now rewrite Em|].
  split; [change (panelparent main') with (panelparent (erase main')); now rewrite Em|].
  split.
  - intros i side Hi. split.
    + rewrite (panel_attr_erase _ _ _ Em).
      destruct (main_slots_requested s (length (heap w)) i side Hi)
        as (l & r & b & t & Es & Ea).
      rewrite <- Hp in Es. unfold panels_of in Es. inversion Es; subst. exact Ea.
    + assert (Hpl : heap (built env gs s w) !! (S (length (heap w)) + i)
                    = Some (panel_object env gs (length (heap w))
                              (cell_of_side (main_pos_of s) (fst side), Some (snd side)))).
      { rewrite Hh. rewrite lookup_app_r by lia.
        replace (S (length (heap w)) + i - length (heap w)) with (S i) by lia.
        rewrite lookup_cons_ne_0 by lia. cbn [Nat.pred].
        rewrite plan_of_sides, map_map, list_lookup_fmap, Hi. reflexivity. }
      destruct (frames_lookup _ _ _ _ F Hpl) as (panel & Hpn & Ep).
      exists panel. split; [exact Hpn|].
      change (kind panel) with (kind (erase panel)).
      change (panelside panel) with (panelside (erase panel)).
      change (panelparent panel) with (panelparent (erase panel)).
      rewrite <- (panels_of_erase panel). rewrite Ep. repeat split.
  - intros side Hin Hc.
    rewrite (panel_attr_erase _ _ _ Em).
    destruct (main_slots_unrequested s (length (heap w)) side Hin Hc)
      as (l & r & b & t & Es & Ea).
    rewrite <- Hp in Es. unfold panels_of in Es. inversion Es; subst. exact Ea.
Qed.

Lemma panel_factory_panel_attributes_witness :
  exists w' axmain,
    panel_factory env0 2 unit_box (Some "lb"%string) None None None None None None
      empty_world = Ok (w', axmain) /\
    exists main,
      heap w' !! axmain = Some main /\ kind main = MainAxes /\ panelparent main = None /\
      (forall i side, sides_of "lb" !! i = Some side ->
         panel_attr (snd side) main = Some (PAxes (S axmain + i)) /\
         exists panel,
           heap w' !! (S axmain + i) = Some panel /\ kind panel = PanelAxes /\
           panelside panel = Some (snd side) /\ panelparent panel = Some axmain /\
           panels_of panel = [PEmpty; PEmpty; PEmpty; PEmpty]) /\
      (forall side, In side side_table -> char_in (fst side) "lb" = false ->
         panel_attr (snd side) main = Some PNone).
Proof.
  assert (H : exists w' axmain,
             panel_factory env0 2 unit_box (Some "lb"%string) None None None None None None
               empty_world = Ok (w', axmain))
    by (vm_compute; eexists; eexists; reflexivity).
  destruct H as (w' & axmain & E). exists w', axmain. split; [exact E|].
  exact (panel_factory_panel_attributes env0 2 unit_box (Some "lb"%string)
           None None None None None None empty_world w' axmain E).
Defined.

(** A share set-up of one direction leaves the grouper of the other
    direction as it was. *)
Section ShareKeeps.
Variable other : World -> Grouper.
Variable rec : ref -> option ref -> World -> Result World.
Hypothesis IH : forall self sx w w', rec self sx w = Ok w' -> other w' = other w.

Lemma keeps_step_pair w w' ps qs :
  match ps, qs with
  | PAxes p, PAxes q => rec p (Some q) w
  | _, _ => Ok w
  end = Ok w' -> other w' = other w.
Proof.
  destruct ps as [| |p]; try (intros H; now inversion H).
  destruct qs as [| |q]; try (intros H; now inversion H).
  apply IH.
Qed.

Lemma keeps_step_single w w' ps sx :
  match ps with
  | PAxes p => rec p (Some sx) w
  | _ => Ok w
  end = Ok w' -> other w' = other w.
Proof.
  destruct ps as [| |p]; try (intros H; now inversion H).
  apply IH.
Qed.

Lemma keeps_step_single_guarded w w' ps sx :
  match ps with
  | PAxes p => if negb (sx =? p) then rec p (Some sx) w else Ok w
  | _ => Ok w
  end = Ok w' -> other w' = other w.
Proof.
  destruct ps as [| |p]; try (intros H; now inversion H).
  destruct (negb (sx =? p)); [apply IH|]. intros H; now inversion H.
Qed.
End ShareKeeps.

Lemma sharex_keeps_y fuel : forall self sharex w w',
  _sharex_setup fuel self sharex w = Ok w' -> _shared_y_axes w' = _shared_y_axes w.
Proof.
  induction fuel as [|n IH]; intros self [sx|] w w' H; cbn [_sharex_setup] in H;
    try (now inversion H);
    destruct (self =? sx); try (now inversion H); try discriminate.
  bind_inv H. bind_inv H. bind_inv H. apply (keeps_step_pair _shared_y_axes _ IH) in E1.
  bind_inv H. bind_inv H. bind_inv H. apply (keeps_step_pair _shared_y_axes _ IH) in E4.
  bind_inv H. bind_inv H. apply (keeps_step_single_guarded _shared_y_axes _ IH) in E6.
  bind_inv H. bind_inv H. apply (keeps_step_single_guarded _shared_y_axes _ IH) in E8.
  inversion H; subst w'. cbn. congruence.
Qed.

Lemma sharey_keeps_x fuel : forall self sharey w w',
  _sharey_setup fuel self sharey w = Ok w' -> _shared_x_axes w' = _shared_x_axes w.
Proof.
  induction fuel as [|n IH]; intros self [sy|] w w' H; cbn [_sharey_setup] in H;
    try (now inversion H);
    destruct (self =? sy); try (now inversion H); try discriminate.
  bind_inv H. bind_inv H. bind_inv H. apply (keeps_step_pair _shared_x_axes _ IH) in E1.
  bind_inv H. bind_inv H. bind_inv H. apply (keeps_step_pair _shared_x_axes _ IH) in E4.
  bind_inv H. bind_inv H. apply (keeps_step_single _shared_x_axes _ IH) in E6.
  bind_inv H. bind_inv H. apply (keeps_step_single _shared_x_axes _ IH) in E8.
  inversion H; subst w'. cbn. congruence.
Qed.

Lemma fold_keeps {A B : Type} (g : World -> B) (body : World -> A -> World) l :
  (forall w x, g (body w x) = g w) -> forall w, g (fold_left body l w) = g w.
Proof.
  intros Hb. induction l as [|x l IH]; intros w; simpl; [reflexivity|].
  now rewrite IH.
Qed.

Lemma spanx_keeps_groupers self group w w' :
  _spanx_setup self group w = Ok w' ->
  _shared_x_axes w' = _shared_x_axes w /\ _shared_y_axes w' = _shared_y_axes w.
Proof.
  unfold _spanx_setup. intros H. repeat bind_inv H. apply Ok_inj in H. subst w'.
  split.
  - rewrite (fold_keeps _shared_x_axes); [reflexivity|].
    intros w0 x. now destruct (negb (x =? self)).
  - rewrite (fold_keeps _shared_y_axes); [reflexivity|].
    intros w0 x. now destruct (negb (x =? self)).
Qed.

Lemma spany_keeps_groupers self group w w' :
  _spany_setup self group w = Ok w' ->
  _shared_x_axes w' = _shared_x_axes w /\ _shared_y_axes w' = _shared_y_axes w.
Proof.
  unfold _spany_setup. intros H. repeat bind_inv H. apply Ok_inj in H. subst w'.
  split.
  - rewrite (fold_keeps _shared_x_axes); [reflexivity|].
    intros w0 x. now destruct (negb (x =? self)).
  - rewrite (fold_keeps _shared_y_axes); [reflexivity|].
    intros w0 x. now destruct (negb (x =? self)).
Qed.

(** A share set-up that returned has tied its two axes, whatever else it
    did. *)
Lemma sharex_joined fuel self sx w w' :
  closed (slots w) = true -> sx < length (heap w) ->
  panel_depth_le (slots w) fuel self = true ->
  _sharex_setup fuel self (Some sx) w = Ok w' ->
  joined (_shared_x_axes w') self sx = true.
Proof.
  intros Hc Hsx Hd H.
  destruct (sharex_total fuel self sx w Hc Hsx Hd) as (w1 & E & _ & L).
  rewrite E in H. apply Ok_inj in H. subst w1.
  destruct (Nat.eq_dec self sx) as [->|Hne]; [apply joined_refl|apply (L Hne)].
Qed.

Lemma sharey_joined fuel self sy w w' :
  closed (slots w) = true -> sy < length (heap w) ->
  panel_depth_le (slots w) fuel self = true ->
  _sharey_setup fuel self (Some sy) w = Ok w' ->
  joined (_shared_y_axes w') self sy = true.
Proof.
  intros Hc Hsy Hd H.
  destruct (sharey_total fuel self sy w Hc Hsy Hd) as (w1 & E & _ & L).
  rewrite E in H. apply Ok_inj in H. subst w1.
  destruct (Nat.eq_dec self sy) as [->|Hne]; [apply joined_refl|apply (L Hne)].
Qed.

Lemma mono_eq g g' : g' = g -> mono g g'.
Proof. intros ->. apply mono_refl. Qed.

(** [if slot: self._sharex_setup(slot)]. *)
Lemma panel_step_to_slot_x fuel self slot w w' :
  closed (slots w) = true -> panel_depth_le (slots w) fuel self = true ->
  (forall p, slot = PAxes p -> p < length (heap w)) ->
  match slot with PAxes p => _sharex_setup fuel self (Some p) w | _ => Ok w end = Ok w' ->
  frames w' = frames w /\ mono (_shared_x_axes w) (_shared_x_axes w') /\
  _shared_y_axes w' = _shared_y_axes w /\
  (forall p, slot = PAxes p -> joined (_shared_x_axes w') self p = true).
Proof.
  intros Hc Hd Hl H. destruct slot as [| |p];
    try (apply Ok_inj in H; subst w'; repeat split;
         [apply mono_refl|intros p E; discriminate E]).
  pose proof (sharex_frame _ _ _ _ _ H) as [(F & _) M].
  split; [exact F|]. split; [exact M|]. split; [exact (sharex_keeps_y _ _ _ _ _ H)|].
  intros q E. inversion E; subst q.
  exact (sharex_joined fuel self p w w' Hc (Hl p eq_refl) Hd H).
Qed.

Lemma panel_step_to_slot_y fuel self slot w w' :
  closed (slots w) = true -> panel_depth_le (slots w) fuel self = true ->
  (forall p, slot = PAxes p -> p < length (heap w)) ->
  match slot with PAxes p => _sharey_setup fuel self (Some p) w | _ => Ok w end = Ok w' ->
  frames w' = frames w /\ mono (_shared_y_axes w) (_shared_y_axes w') /\
  _shared_x_axes w' = _shared_x_axes w /\
  (forall p, slot = PAxes p -> joined (_shared_y_axes w') self p = true) /\
  ((forall p, slot <> PAxes p) -> _shared_y_axes w' = _shared_y_axes w).
Proof.
  intros Hc Hd Hl H. destruct slot as [| |p];
    try (apply Ok_inj in H; subst w'; repeat split;
         [apply mono_refl|intros p E; discriminate E]).
  pose proof (sharey_frame _ _ _ _ _ H) as [(F & _) M].
  split; [exact F|]. split; [exact M|]. split; [exact (sharey_keeps_x _ _ _ _ _ H)|].
  split.
  - intros q E. inversion E; subst q.
    exact (sharey_joined fuel self p w w' Hc (Hl p eq_refl) Hd H).
  - intros Hn. now destruct (Hn p).
Qed.

(** [if slot: slot._sharex_setup(target)]. *)
Lemma panel_step_from_slot_x fuel slot target w w' :
  closed (slots w) = true -> target < length (heap w) ->
  (forall p, slot = PAxes p -> panel_depth_le (slots w) fuel p = true) ->
  match slot with PAxes p => _sharex_setup fuel p (Some target) w | _ => Ok w end = Ok w' ->
  frames w' = frames w /\ mono (_shared_x_axes w) (_shared_x_axes w') /\
  _shared_y_axes w' = _shared_y_axes w /\
  (forall p, slot = PAxes p -> joined (_shared_x_axes w') p target = true).
Proof.
  intros Hc Hl Hd H. destruct slot as [| |p];
    try (apply Ok_inj in H; subst w'; repeat split;
         [apply mono_refl|intros p E; discriminate E]).
  pose proof (sharex_frame _ _ _ _ _ H) as [(F & _) M].
  split; [exact F|]. split; [exact M|]. split; [exact (sharex_keeps_y _ _ _ _ _ H)|].
  intros q E. inversion E; subst q.
  exact (sharex_joined fuel p target w w' Hc Hl (Hd p eq_refl) H).
Qed.

Lemma panel_step_spanx (slot : PanelSlot) (grp : list ref) w w'
    (k : ref -> Result World) :
  (forall p w', k p = Ok w' ->
     _shared_x_axes w' = _shared_x_axes w /\ _shared_y_axes w' = _shared_y_axes w) ->
  match slot, grp with
  | PAxes p, _ :: _ => k p
  | _, _ => Ok w
  end = Ok w' ->
  _shared_x_axes w' = _shared_x_axes w /\ _shared_y_axes w' = _shared_y_axes w.
Proof.
  intros Hk H. destruct slot as [| |p]; try (apply Ok_inj in H; now subst w').
  destruct grp; [apply Ok_inj in H; now subst w'|]. eauto.
Qed.

Lemma reread_slots w w' r a a' :
  frames w' = frames w -> heap w !! r = Some a -> get w' r = Ok a' ->
  leftpanel a' = leftpanel a /\ rightpanel a' = rightpanel a /\
  bottompanel a' = bottompanel a /\ toppanel a' = toppanel a.
Proof.
  intros F Ha G. destruct (reread _ _ _ _ F Ha) as (a1 & G1 & _ & P).
  rewrite G1 in G. apply Ok_inj in G. subst a1. now apply panels_of_inv.
Qed.

Lemma slot_live w r a p :
  closed (slots w) = true -> heap w !! r = Some a ->
  (leftpanel a = PAxes p \/ rightpanel a = PAxes p \/
   bottompanel a = PAxes p \/ toppanel a = PAxes p) ->
  p < length (heap w).
Proof.
  intros Hc Ha Hp. apply (closed_slot w r a p Hc Ha). unfold panels_of. simpl.
  destruct Hp as [<-|[<-|[<-|<-]]]; auto.
Qed.

Lemma slot_depth w fuel r a p :
  panel_depth_le (slots w) fuel r = true -> heap w !! r = Some a ->
  (leftpanel a = PAxes p \/ rightpanel a = PAxes p \/
   bottompanel a = PAxes p \/ toppanel a = PAxes p) ->
  panel_depth_le (slots w) fuel p = true.
Proof.
  intros Hd Ha Hp. destruct fuel as [|n]; [discriminate|].
  apply (depth_mono _ n); [lia|]. apply (depth_slot w n r a p Hd Ha).
  unfold panels_of. simpl. destruct Hp as [<-|[<-|[<-|<-]]]; auto.
Qed.

(** X6. The links [_panel_setup] makes on a main axes: its x axis with the
    bottom panel, its y axis with the left panel, the x axis of the top
    panel with the bottom panel (with the main axes when there is no bottom
    panel), and the x axis of the right panel with the left panel (with the
    main axes when there is none): for the right panel the call is
    [_sharex_setup], not [_sharey_setup]. Without a left panel no y link is
    made at all. *)
Theorem panel_setup_links fuel self w w' a :
  closed (slots w) = true -> panel_depth_le (slots w) fuel self = true ->
  heap w !! self = Some a ->
  _panel_setup fuel self w = Ok w' ->
  (forall b, bottompanel a = PAxes b -> joined (_shared_x_axes w') self b = true) /\
  (forall l, leftpanel a = PAxes l -> joined (_shared_y_axes w') self l = true) /\
  (forall t, toppanel a = PAxes t ->
     joined (_shared_x_axes w') t (or_self (bottompanel a) self) = true) /\
  (forall r, rightpanel a = PAxes r ->
     joined (_shared_x_axes w') r (or_self (leftpanel a) self) = true) /\
  ((forall l, leftpanel a <> PAxes l) -> _shared_y_axes w' = _shared_y_axes w).
Proof.
  intros Hc Hd Ha H. unfold _panel_setup in H.
  assert (Hself : self < length (heap w)) by (apply lookup_lt_is_Some; eauto).
  (* the bottom panel *)
  rewrite (get_ok _ _ _ Ha) in H. cbn [bind] in H. bind_inv H. rename a0 into w1.
  apply panel_step_to_slot_x in E; [|exact Hc|exact Hd|].
  2:{ intros p Ep. apply (slot_live w self a p Hc Ha). auto. }
  destruct E as (F1 & X1 & Y1 & J1).
  (* the left panel *)
  bind_inv H. rename a0 into a1. destruct (reread_slots _ _ _ _ _ F1 Ha E) as (Pl & Pr & Pb & Pt).
  bind_inv H. rename a0 into w2. rewrite Pl in E0.
  apply panel_step_to_slot_y in E0;
    [|now rewrite (slots_frames _ _ F1)|now rewrite (slots_frames _ _ F1)|].
  2:{ intros p Ep. rewrite (frames_length _ _ F1). apply (slot_live w self a p Hc Ha). auto. }
  destruct E0 as (F2 & Y2 & X2 & J2 & N2). rewrite F1 in F2. clear E Pl Pr Pb Pt a1.
  (* the top panel *)
  bind_inv H. rename a0 into a2. destruct (reread_slots _ _ _ _ _ F2 Ha E) as (Pl & Pr & Pb & Pt).
  bind_inv H. rename a0 into w3. rewrite Pt, Pb in E0.
  fold (or_self (bottompanel a) self) in E0.
  apply panel_step_from_slot_x in E0; [|now rewrite (slots_frames _ _ F2)| |].
  2:{ rewrite (frames_length _ _ F2). unfold or_self.
      destruct (bottompanel a) as [| |b] eqn:Eb; try exact Hself.
      apply (slot_live w self a b Hc Ha). auto. }
  2:{ intros p Ep. rewrite (slots_frames _ _ F2). apply (slot_depth w fuel self a p Hd Ha). auto. }
  destruct E0 as (F3 & X3 & Y3 & J3). rewrite F2 in F3.
  (* the right panel *)
  bind_inv H. rename a0 into a3. destruct (reread_slots _ _ _ _ _ F3 Ha E0) as (Ql & Qr & Qb & Qt).
  bind_inv H. rename a0 into w4. rewrite Qr, Pl in E1.
  fold (or_self (leftpanel a) self) in E1.
  apply panel_step_from_slot_x in E1; [|now rewrite (slots_frames _ _ F3)| |].
  2:{ rewrite (frames_length _ _ F3). unfold or_self.
      destruct (leftpanel a) as [| |l] eqn:El; try exact Hself.
      apply (slot_live w self a l Hc Ha). auto. }
  2:{ intros p Ep. rewrite (slots_frames _ _ F3). apply (slot_depth w fuel self a p Hd Ha). auto. }
  destruct E1 as (F4 & X4 & Y4 & J4).
  (* the span groups *)
  bind_inv H. rename a0 into a4. bind_inv H. rename a0 into w5.
  apply panel_step_spanx in E2.
  2:{ intros p w0 Hk. bind_inv Hk. bind_inv Hk. now apply spanx_keeps_groupers in Hk. }
  destruct E2 as (X5 & Y5).
  bind_inv H. rename a0 into a5.
  apply panel_step_spanx in H.
  2:{ intros p w0 Hk. bind_inv Hk. bind_inv Hk. now apply spany_keeps_groupers in Hk. }
  destruct H as (X6 & Y6).
  rewrite X6, X5, Y6, Y5, Y4, Y3.
  split; [|split; [|split; [|split]]].
  - intros b Eb. apply X4, X3. rewrite X2. now apply J1.
  - intros l El. now apply J2.
  - intros t Et. apply X4. now apply J3.
  - intros r Er. now apply J4.
  - intros Hn. rewrite (N2 Hn). exact Y1.
Qed.

Lemma panel_setup_links_witness :
  exists w' a,
    closed (slots four_panels) = true /\ panel_depth_le (slots four_panels) 2 0 = true /\
    heap four_panels !! 0 = Some a /\ _panel_setup 2 0 four_panels = Ok w' /\
    (forall b, bottompanel a = PAxes b -> joined (_shared_x_axes w') 0 b = true) /\
    (forall l, leftpanel a = PAxes l -> joined (_shared_y_axes w') 0 l = true) /\
    (forall t, toppanel a = PAxes t ->
       joined (_shared_x_axes w') t (or_self (bottompanel a) 0) = true) /\
    (forall r, rightpanel a = PAxes r ->
       joined (_shared_x_axes w') r (or_self (leftpanel a) 0) = true) /\
    ((forall l, leftpanel a <> PAxes l) -> _shared_y_axes w' = _shared_y_axes four_panels).
Proof.
  assert (H1 : closed (slots four_panels) = true) by reflexivity.
  assert (H2 : panel_depth_le (slots four_panels) 2 0 = true) by reflexivity.
  assert (H3 : exists a, heap four_panels !! 0 = Some a) by (eexists; reflexivity).
  assert (H4 : exists w', _panel_setup 2 0 four_panels = Ok w')
    by (vm_compute; eexists; reflexivity).
  destruct H3 as [a H3]. destruct H4 as [w' H4]. exists w', a.
  split; [exact H1|]. split; [exact H2|]. split; [exact H3|]. split; [exact H4|].
  exact (panel_setup_links 2 0 four_panels w' a H1 H2 H3 H4).
Defined.

Lemma suptitle_setup_no_axes env offset w :
  axes (fig w) = [] ->
  _suptitle_setup env offset w = Raise (IndexError "list index out of range").
Proof. intros E. unfold _suptitle_setup. cbv zeta. now rewrite E. Qed.

Lemma suptitle_setup_raise env offset w e :
  Forall (fun r => is_Some (heap w !! r)) (axes (fig w)) ->
  _suptitle_setup env offset w = Raise e ->
  exists msg, e = IndexError msg \/ e = AttributeError msg.
Proof.
  intros Hall. unfold _suptitle_setup. cbv zeta.
  destruct (axes (fig w)) as [|r l]; cbn [bind].
  - intros H. inversion H. eauto.
  - inversion Hall as [|? ? [a Ha] _]; subst. rewrite (get_ok _ _ _ Ha). cbn [bind].
    destruct (_gridspec (fig w)); cbn [bind]; [|intros H; inversion H; eauto].
    destruct (_subplots_kw (fig w)); cbn [bind]; [discriminate|intros H; inversion H; eauto].
Qed.

Lemma suptitle_setup_keeps env offset w w' :
  _suptitle_setup env offset w = Ok w' ->
  heap w' = heap w /\ axes (fig w') = axes (fig w) /\
  _gridspec (fig w') = _gridspec (fig w) /\ _subplots_kw (fig w') = _subplots_kw (fig w) /\
  _smart_tight_init (fig w') = _smart_tight_init (fig w) /\
  _smart_tight (fig w') = _smart_tight (fig w) /\ _rcreset (fig w') = _rcreset (fig w).
Proof.
  unfold _suptitle_setup. cbv zeta. intros H. repeat bind_inv H.
  apply Ok_inj in H. subst w'. repeat split.
Qed.

(** X7. How [draw] fails. On a figure without axes it raises [IndexError];
    on one with axes but no gridspec, [AttributeError]; with a gridspec
    but no [subplots_kw], [AttributeError] again: the title set-up reads
    both before the tight layout is reached, so the [ValueError] with
    which [smart_tight_layout] guards against their absence is never the
    outcome of [draw] (as long as the solver of the margins raises none
    itself). *)
Theorem draw_failure_modes env w :
  Forall (fun r => is_Some (heap w !! r)) (axes (fig w)) ->
  (axes (fig w) = [] -> draw env w = Raise (IndexError "list index out of range")) /\
  (axes (fig w) <> [] -> _gridspec (fig w) = None ->
   draw env w = Raise (AttributeError "'NoneType' object has no attribute 'top'")) /\
  (axes (fig w) <> [] -> _gridspec (fig w) <> None -> _subplots_kw (fig w) = None ->
   draw env w = Raise (AttributeError "'NoneType' object has no attribute 'left'")) /\
  ((forall kw msg, _gridspec_kwargs env kw <> Raise (ValueError msg)) ->
   forall msg, draw env w <> Raise (ValueError msg)).
Proof.
  intros Hall. unfold draw.
  match goal with |- context [any_axes w ?t (axes (fig w))] =>
    destruct (any_axes_total w t (axes (fig w)) Hall) as [offset Eo]; rewrite Eo end.
  cbn [bind]. split; [|split; [|split]].
  - intros E. now rewrite (suptitle_setup_no_axes env offset w E).
  - intros Hne Hg. unfold _suptitle_setup. cbv zeta.
    destruct (axes (fig w)) as [|r l]; [congruence|].
    inversion Hall as [|? ? [a Ha] _]; subst. rewrite (get_ok _ _ _ Ha), Hg. reflexivity.
  - intros Hne Hg Hk. unfold _suptitle_setup. cbv zeta.
    destruct (axes (fig w)) as [|r l]; [congruence|].
    inversion Hall as [|? ? [a Ha] _]; subst. rewrite (get_ok _ _ _ Ha), Hk.
    destruct (_gridspec (fig w)); [reflexivity|congruence].
  - intros Hsolve msg H.
    destruct (_suptitle_setup env offset w) as [w1|e] eqn:Es; cbn [bind] in H.
    2:{ destruct (suptitle_setup_raise env offset w e Hall Es) as [m [E|E]]; congruence. }
    destruct (suptitle_setup_keeps env offset w w1 Es) as (_ & _ & Hg & Hk & _).
    set (wr := if negb (rc_init env) && _rcreset (fig w1) then emit EvRcReset w1 else w1) in *.
    assert (Hf : fig wr = fig w1) by (unfold wr; now destruct (negb (rc_init env) && _rcreset (fig w1))).
    destruct (_smart_tight_init (fig wr) && _smart_tight (fig wr)); cbn [bind] in H;
      [|discriminate].
    unfold smart_tight_layout in H. cbv zeta in H. rewrite Hf, Hg, Hk in H.
    unfold _suptitle_setup in Es. cbv zeta in Es.
    bind_inv Es. bind_inv Es. bind_inv Es. clear Es.
    destruct (_subplots_kw (fig w)) as [kw|]; [|discriminate].
    destruct (_gridspec (fig w)) as [gs|]; [|discriminate].
    match type of H with context [_gridspec_kwargs env ?k] =>
      destruct (_gridspec_kwargs env k) as [[size gs']|e'] eqn:Ek end;
      cbn [bind] in H; [discriminate|].
    inversion H; subst e'. exact (Hsolve _ _ Ek).
Qed.

Lemma draw_failure_modes_witness :
  Forall (fun r => is_Some (heap three_in_a_row !! r)) (axes (fig three_in_a_row)) /\
  (axes (fig three_in_a_row) = [] ->
   draw env0 three_in_a_row = Raise (IndexError "list index out of range")) /\
  (axes (fig three_in_a_row) <> [] -> _gridspec (fig three_in_a_row) = None ->
   draw env0 three_in_a_row
   = Raise (AttributeError "'NoneType' object has no attribute 'top'")) /\
  (axes (fig three_in_a_row) <> [] -> _gridspec (fig three_in_a_row) <> None ->
   _subplots_kw (fig three_in_a_row) = None ->
   draw env0 three_in_a_row
   = Raise (AttributeError "'NoneType' object has no attribute 'left'")) /\
  ((forall kw msg, _gridspec_kwargs env0 kw <> Raise (ValueError msg)) ->
   forall msg, draw env0 three_in_a_row <> Raise (ValueError msg)).
Proof.
  assert (H : Forall (fun r => is_Some (heap three_in_a_row !! r))
                     (axes (fig three_in_a_row)))
    by (repeat constructor; eexists; reflexivity).
  split; [exact H|]. exact (draw_failure_modes env0 three_in_a_row H).
Defined.

(** X8. Where [_suptitle_setup] puts the figure title: horizontally at the
    middle of the main block, half way between the left margin and the
    right margin (each with the figure panel of its side, when there is
    one), in figure coordinates; vertically above the top of the gridspec
    by the title pad, and one title line of the first axes higher when
    [offset] is set. Nothing but the position of the title changes. *)
Theorem suptitle_is_centred_on_the_main_block env offset w gs kw ax0 a0 rest :
  axes (fig w) = ax0 :: rest -> heap w !! ax0 = Some a0 ->
  _gridspec (fig w) = Some gs -> _subplots_kw (fig w) = Some kw ->
  ~ (width (fig w) == 0)%Q -> ~ (height (fig w) == 0)%Q ->
  exists w' x y,
    _suptitle_setup env offset w = Ok w' /\
    _suptitle (fig w') = Some (x, y) /\
    (x == (left_margin (fig w) kw / width (fig w)
           + (1 - right_margin (fig w) kw / width (fig w))) / 2)%Q /\
    (y == gs_top gs
          + (rc_titlepad env / 72
             + (if offset then title_linespacing env a0 * (title_size env a0 / 72) else 0))
            / height (fig w))%Q /\
    heap w' = heap w /\ log w' = log w /\
    _shared_x_axes w' = _shared_x_axes w /\ _shared_y_axes w' = _shared_y_axes w.
Proof.
  intros Hax Ha Hg Hk Hw Hh. unfold _suptitle_setup. cbv zeta.
  rewrite Hax, (get_ok _ _ _ Ha), Hg, Hk. cbn [bind].
  eexists. eexists. eexists. split; [reflexivity|]. split; [reflexivity|].
  split; [|split; [|repeat split]].
  - unfold left_margin, right_margin.
    destruct (truthy (fig_leftpanel (fig w))), (truthy (fig_rightpanel (fig w)));
      field; exact Hw.
  - destruct offset; field; exact Hh.
Qed.

Lemma suptitle_is_centred_on_the_main_block_witness :
  exists a0,
    axes (fig three_in_a_row) = 0 :: [1; 2] /\ heap three_in_a_row !! 0 = Some a0 /\
    _gridspec (fig three_in_a_row) = Some gridspec0 /\
    _subplots_kw (fig three_in_a_row) = Some subplots_kw0 /\
    ~ (width (fig three_in_a_row) == 0)%Q /\ ~ (height (fig three_in_a_row) == 0)%Q /\
    exists w' x y,
      _suptitle_setup env0 true three_in_a_row = Ok w' /\
      _suptitle (fig w') = Some (x, y) /\
      (x == (left_margin (fig three_in_a_row) subplots_kw0 / width (fig three_in_a_row)
             + (1 - right_margin (fig three_in_a_row) subplots_kw0
                    / width (fig three_in_a_row))) / 2)%Q /\
      (y == gs_top gridspec0
            + (rc_titlepad env0 / 72
               + (if true then title_linespacing env0 a0 * (title_size env0 a0 / 72) else 0))
              / height (fig three_in_a_row))%Q /\
      heap w' = heap three_in_a_row /\ log w' = log three_in_a_row /\
      _shared_x_axes w' = _shared_x_axes three_in_a_row /\
      _shared_y_axes w' = _shared_y_axes three_in_a_row.
Proof.
  assert (H1 : axes (fig three_in_a_row) = 0 :: [1; 2]) by reflexivity.
  assert (H2 : exists a0, heap three_in_a_row !! 0 = Some a0) by (eexists; reflexivity).
  assert (H3 : _gridspec (fig three_in_a_row) = Some gridspec0) by reflexivity.
  assert (H4 : _subplots_kw (fig three_in_a_row) = Some subplots_kw0) by reflexivity.
  assert (H5 : ~ (width (fig three_in_a_row) == 0)%Q) by (vm_compute; discriminate).
  assert (H6 : ~ (height (fig three_in_a_row) == 0)%Q) by (vm_compute; discriminate).
  destruct H2 as [a0 H2]. exists a0.
  split; [exact H1|]. split; [exact H2|]. split; [exact H3|]. split; [exact H4|].
  split; [exact H5|]. split; [exact H6|].
  exact (suptitle_is_centred_on_the_main_block env0 true three_in_a_row gridspec0
           subplots_kw0 0 a0 [1; 2] H1 H2 H3 H4 H5 H6).
Defined.

(** X9. The arithmetic of one tight-layout pass: on each side the margin
    is moved by the padding less the measured gap, and the move is made
    once, on the outer margin or, when the figure has a panel on that
    side, on the space beside the panel: the sum of the two grows by
    exactly [pad - gap]. The top has only its margin. The widths of the
    panels are never touched, an explicit [pad] replaces the figure's own,
    the settings are stored only after the solver accepted them, and the
    initial-state flag is cleared. *)
Theorem tight_layout_moves_each_margin_once env pad w kw gs :
  _subplots_kw (fig w) = Some kw -> _gridspec (fig w) = Some gs ->
  solver_total env ->
  let p := default (_smart_pad (fig w)) pad in
  let '(g_left, g_right, g_bottom, g_top) := gaps env w in
  exists w' kw' size gs',
    smart_tight_layout env pad w = Ok w' /\
    _gridspec_kwargs env kw' = Ok (size, gs') /\
    _subplots_kw (fig w') = Some kw' /\ _gridspec (fig w') = Some gs' /\
    size_inches (fig w') = size /\ _smart_tight_init (fig w') = false /\
    (kw_left kw' + kw_lspace kw' == kw_left kw + kw_lspace kw + (p - g_left))%Q /\
    (kw_right kw' + kw_rspace kw' == kw_right kw + kw_rspace kw + (p - g_right))%Q /\
    (kw_bottom kw' + kw_bspace kw' == kw_bottom kw + kw_bspace kw + (p - g_bottom))%Q /\
    (kw_top kw' == kw_top kw + (p - g_top))%Q /\
    kw_lwidth kw' = kw_lwidth kw /\ kw_rwidth kw' = kw_rwidth kw /\
    (truthy (fig_leftpanel (fig w)) = true -> kw_left kw' = kw_left kw) /\
    (truthy (fig_leftpanel (fig w)) = false -> kw_lspace kw' = kw_lspace kw) /\
    heap w' = heap w.
Proof.
  intros Hk Hg Hsolve. cbv zeta. unfold gaps. cbv zeta.
  unfold smart_tight_layout. cbv zeta. rewrite Hk, Hg.
  match goal with |- context [_gridspec_kwargs env ?k] =>
    destruct (Hsolve k) as [[size gs'] E]; rewrite E; exists
      (let w0 := emit (EvSetSizeInches size) (emit (EvGridspecUpdate gs') (emit EvGetTightBbox w)) in
       set_fig (set_tight k gs' size (fig w0)) w0), k, size, gs' end.
  cbn [bind]. split; [reflexivity|]. split; [exact E|]. clear E.
  split; [reflexivity|]. split; [reflexivity|]. split; [reflexivity|]. split; [reflexivity|].
  cbn [kw_left kw_right kw_bottom kw_top kw_lspace kw_rspace kw_bspace kw_lwidth kw_rwidth].
  destruct (truthy (fig_leftpanel (fig w))), (truthy (fig_rightpanel (fig w))),
    (truthy (fig_bottompanel (fig w))); destruct pad; cbn [default fst snd]; unfold id;
    repeat split; try ring; try reflexivity; try discriminate.
Qed.

Lemma env0_solver_total : solver_total env0.
Proof. intros kw. eexists. reflexivity. Qed.

Lemma tight_layout_moves_each_margin_once_witness :
  _subplots_kw (fig three_in_a_row) = Some subplots_kw0 /\
  _gridspec (fig three_in_a_row) = Some gridspec0 /\
  solver_total env0 /\
  let p := default (_smart_pad (fig three_in_a_row)) (Some (1 # 5)%Q) in
  let '(g_left, g_right, g_bottom, g_top) := gaps env0 three_in_a_row in
  exists w' kw' size gs',
    smart_tight_layout env0 (Some (1 # 5)%Q) three_in_a_row = Ok w' /\
    _gridspec_kwargs env0 kw' = Ok (size, gs') /\
    _subplots_kw (fig w') = Some kw' /\ _gridspec (fig w') = Some gs' /\
    size_inches (fig w') = size /\ _smart_tight_init (fig w') = false /\
    (kw_left kw' + kw_lspace kw'
     == kw_left subplots_kw0 + kw_lspace subplots_kw0 + (p - g_left))%Q /\
    (kw_right kw' + kw_rspace kw'
     == kw_right subplots_kw0 + kw_rspace subplots_kw0 + (p - g_right))%Q /\
    (kw_bottom kw' + kw_bspace kw'
     == kw_bottom subplots_kw0 + kw_bspace subplots_kw0 + (p - g_bottom))%Q /\
    (kw_top kw' == kw_top subplots_kw0 + (p - g_top))%Q /\
    kw_lwidth kw' = kw_lwidth subplots_kw0 /\ kw_rwidth kw' = kw_rwidth subplots_kw0 /\
    (truthy (fig_leftpanel (fig three_in_a_row)) = true ->
     kw_left kw' = kw_left subplots_kw0) /\
    (truthy (fig_leftpanel (fig three_in_a_row)) = false ->
     kw_lspace kw' = kw_lspace subplots_kw0) /\
    heap w' = heap three_in_a_row.
Proof.
  assert (H1 : _subplots_kw (fig three_in_a_row) = Some subplots_kw0) by reflexivity.
  assert (H2 : _gridspec (fig three_in_a_row) = Some gridspec0) by reflexivity.
  split; [exact H1|]. split; [exact H2|]. split; [exact env0_solver_total|].
  exact (tight_layout_moves_each_margin_once env0 (Some (1 # 5)%Q) three_in_a_row
           subplots_kw0 gridspec0 H1 H2 env0_solver_total).
Defined.

Lemma insert_pair_tie x : forall l,
  StronglySorted key_lt l -> In (fst x) (map fst l) -> ~ In (snd x) (map snd l) ->
  insert_pair x l = Raise tie_error.
Proof.
  induction l as [|y l IH]; intros Hs Hin Hnin; [destruct Hin|].
  cbn [insert_pair]. unfold pair_lt.
  inversion Hs as [|? ? Hs' Hall]; subst.
  destruct (fst x =? fst y) eqn:Exy; cbn [negb].
  - assert (Hne : snd x <> snd y) by (intros E; apply Hnin; left; auto).
    apply Nat.eqb_neq in Hne. now rewrite Hne.
  - cbn [bind]. apply Nat.eqb_neq in Exy.
    destruct Hin as [E|Hin]; [congruence|].
    assert (Hlt : fst y < fst x).
    { apply in_map_iff in Hin. destruct Hin as (z & Ez & Hz).
      rewrite List.Forall_forall in Hall. specialize (Hall z Hz).
      unfold key_lt in Hall. lia. }
    assert (E : (fst x <? fst y) = false) by (apply Nat.ltb_ge; lia).
    rewrite E. rewrite IH; auto. intros H. apply Hnin. now right.
Qed.

Lemma py_sorted_tie : forall l,
  List.NoDup (map snd l) -> ~ List.NoDup (map fst l) ->
  py_sorted l = Raise tie_error.
Proof.
  induction l as [|x l IH]; intros Hrefs Hkeys.
  - destruct Hkeys. constructor.
  - cbn [map] in Hrefs. apply List.NoDup_cons_iff in Hrefs. destruct Hrefs as [Hx Hrefs].
    cbn [py_sorted].
    destruct (ListDec.NoDup_dec Nat.eq_dec (map fst l)) as [Hnd|Hnd].
    + destruct (py_sorted_spec l Hnd) as (l1 & E1 & Hp & Hs). rewrite E1. cbn [bind].
      apply insert_pair_tie; [exact Hs| |].
      * eapply Permutation_in; [symmetry; apply Permutation_map; exact Hp|].
        destruct (in_dec Nat.eq_dec (fst x) (map fst l)) as [Hin|Hnin]; [exact Hin|].
        destruct Hkeys. cbn [map]. now constructor.
      * intros Hin. apply Hx.
        eapply Permutation_in; [apply Permutation_map; exact Hp|exact Hin].
    + now rewrite (IH Hrefs Hnd).
Qed.

Lemma assign_labels_tie test key what body labels w :
  Forall (fun r => is_Some (heap w !! r)) (axes (fig w)) ->
  List.NoDup (axes (fig w)) ->
  length (broadcast labels (length (matched w test))) = length (matched w test) ->
  ~ List.NoDup (map (attr_of w key 0) (matched w test)) ->
  assign_labels test key what body labels w = Raise tie_error.
Proof.
  intros Hall Hnd Hlen Htie. unfold assign_labels.
  rewrite (select_axes_eq w test _ Hall). cbn [bind]. fold (matched w test).
  set (axs := matched w test) in *.
  apply Nat.eqb_eq in Hlen. rewrite Hlen. cbn [negb].
  assert (Hvalid : Forall (fun r => is_Some (heap w !! r)) axs).
  { rewrite List.Forall_forall in *. intros r Hr. apply Hall.
    unfold axs, matched in Hr. apply filter_In in Hr. tauto. }
  rewrite (for_each_get_eq w key 0 axs Hvalid). cbn [bind].
  rewrite combine_keys. rewrite py_sorted_tie; [reflexivity| |].
  - rewrite map_map. cbn [snd]. rewrite map_id. unfold axs, matched.
    now apply List.NoDup_filter.
  - now rewrite map_map.
Qed.

(** X10. Two matched axes on the same row (column): when the number of
    labels fits, no axes occurs twice in [figure.axes], and two of the
    matched axes start in the same row (for [_collabels]: the same
    column), sorting the pairs of key and axes has to compare two axes,
    and the call fails with [TypeError]; nothing is labelled. *)
Theorem labels_of_axes_on_the_same_row_raise env labels w :
  Forall (fun r => is_Some (heap w !! r)) (axes (fig w)) ->
  List.NoDup (axes (fig w)) ->
  (length (broadcast labels (length (matched w row_test))) = length (matched w row_test) ->
   ~ List.NoDup (map (attr_of w (fun ax => fst (rows ax)) 0) (matched w row_test)) ->
   _rowlabels env labels w = Raise tie_error) /\
  (length (broadcast labels (length (matched w col_test))) = length (matched w col_test) ->
   ~ List.NoDup (map (attr_of w (fun ax => fst (cols ax)) 0) (matched w col_test)) ->
   _collabels env labels w = Raise tie_error).
Proof.
  intros Hall Hnd. split; intros Hlen Htie.
  - rewrite rowlabels_shape. now apply assign_labels_tie.
  - rewrite collabels_shape. now apply assign_labels_tie.
Qed.

Lemma labels_of_axes_on_the_same_row_raise_witness :
  Forall (fun r => is_Some (heap overlaid !! r)) (axes (fig overlaid)) /\
  List.NoDup (axes (fig overlaid)) /\
  length (broadcast (LabelStr "a") (length (matched overlaid row_test)))
  = length (matched overlaid row_test) /\
  ~ List.NoDup (map (attr_of overlaid (fun ax => fst (rows ax)) 0)
                  (matched overlaid row_test)) /\
  _rowlabels env0 (LabelStr "a") overlaid = Raise tie_error.
Proof.
  assert (H1 : Forall (fun r => is_Some (heap overlaid !! r))
                      (axes (fig overlaid)))
    by (repeat constructor; eexists; reflexivity).
  assert (H2 : List.NoDup (axes (fig overlaid))).
  { apply (List.NoDup_cons 0); [simpl; lia|].
    apply (List.NoDup_cons 1); [simpl; lia|]. apply List.NoDup_nil. }
  assert (H3 : length (broadcast (LabelStr "a") (length (matched overlaid row_test)))
               = length (matched overlaid row_test)) by reflexivity.
  assert (H4 : ~ List.NoDup (map (attr_of overlaid (fun ax => fst (rows ax)) 0)
                               (matched overlaid row_test))).
  { intros H. change (List.NoDup [0; 0]) in H. apply List.NoDup_cons_iff in H.
    apply (proj1 H). now left. }
  split; [exact H1|]. split; [exact H2|]. split; [exact H3|]. split; [exact H4|].
  exact (proj1 (labels_of_axes_on_the_same_row_raise env0 (LabelStr "a") overlaid
                  H1 H2) H3 H4).
Defined.

(** Two remainders of the same number are the same. *)
Lemma remainder_unique (m r r' : Q) (z : Z) :
  (0 < m)%Q -> (0 <= r /\ r < m)%Q -> (0 <= r' /\ r' < m)%Q ->
  (r' - r == m * inject_Z z)%Q -> (r' == r)%Q.
Proof.
  intros Hm [Hr0 Hr1] [Hr0' Hr1'] E.
  destruct (Z_lt_le_dec z 1) as [Hz|Hz].
  - destruct (Z_lt_le_dec (-1) z) as [Hz'|Hz'].
    + assert (z = 0%Z) by lia. subst z. change (inject_Z 0) with 0%Q in E. lra.
    + assert (H : (inject_Z z <= -1)%Q).
      { change (-1)%Q with (inject_Z (-1)). rewrite <- Zle_Qle. lia. }
      assert (H2 : (m * inject_Z z <= m * -1)%Q) by (apply Qmult_le_l; auto).
      lra.
  - assert (H : (1 <= inject_Z z)%Q).
    { change 1%Q with (inject_Z 1). rewrite <- Zle_Qle. lia. }
    assert (H2 : (m * 1 <= m * inject_Z z)%Q) by (apply Qmult_le_l; auto).
    lra.
Qed.

Lemma pymod_small (x m : Q) : (0 <= x /\ x < m)%Q -> (Geo.pymod x m == x)%Q.
Proof.
  intros Hx. assert (Hm : (0 < m)%Q) by lra.
  apply (remainder_unique m x (Geo.pymod x m) (- Qfloor (x / m)));
    [exact Hm|exact Hx|now apply pymod_bounds|].
  unfold Geo.pymod. rewrite inject_Z_opp. lra.
Qed.

Lemma pymod_periodic (x m : Q) (k : Z) :
  (0 < m)%Q -> (Geo.pymod (x + m * inject_Z k) m == Geo.pymod x m)%Q.
Proof.
  intros Hm.
  apply (remainder_unique m (Geo.pymod x m) (Geo.pymod (x + m * inject_Z k) m)
           (k + - Qfloor ((x + m * inject_Z k) / m) + Qfloor (x / m)));
    [exact Hm|now apply pymod_bounds|now apply pymod_bounds|].
  unfold Geo.pymod. rewrite !inject_Z_plus, inject_Z_opp. lra.
Qed.

Lemma pymod_comp (x y m : Q) : (x == y)%Q -> (Geo.pymod x m == Geo.pymod y m)%Q.
Proof.
  intros E. unfold Geo.pymod.
  assert (Ed : (x / m == y / m)%Q) by (now rewrite E).
  rewrite (Qfloor_comp _ _ Ed). lra.
Qed.

Lemma pred_test (n len : nat) : (Z.of_nat n =? Z.of_nat len - 1)%Z = (S n =? len).
Proof.
  destruct (S n =? len) eqn:E.
  - apply Nat.eqb_eq in E. apply Z.eqb_eq. lia.
  - apply Nat.eqb_neq in E. apply Z.eqb_neq. lia.
Qed.

Lemma centers_loop_accepts xlen ylen : forall Zs x y,
  Forall two_dimensional Zs ->
  forallb (fun Zi => on_centers xlen ylen Zi || on_borders xlen ylen Zi) Zs = true ->
  centers_loop xlen ylen Zs x y
  = Ok (Nat.iter (length (List.filter (on_borders xlen ylen) Zs)) midpoints x,
        Nat.iter (length (List.filter (on_borders xlen ylen) Zs)) midpoints y).
Proof.
  induction Zs as [|Zi Zs IH]; intros x y H2 Hok; [reflexivity|].
  inversion H2 as [|? ? [m ->] H2']; subst. cbn [forallb] in Hok.
  apply andb_prop in Hok. destruct Hok as [Hi Hok].
  cbn [centers_loop shape_at shape lookup list_lookup bind List.filter].
  unfold on_centers, on_borders in *. cbn [shape] in *. rewrite !pred_test.
  destruct ((S (shape0 m) =? xlen) && (S (shape1 m) =? ylen)) eqn:Eb.
  - rewrite IH by assumption. cbn [length]. now rewrite !Nat.iter_succ_r.
  - rewrite orb_false_r in Hi. apply andb_prop in Hi. destruct Hi as [-> ->].
    cbn [negb orb]. now apply IH.
Qed.

Lemma centers_loop_rejects xlen ylen : forall Zs x y,
  Forall two_dimensional Zs ->
  forallb (fun Zi => on_centers xlen ylen Zi || on_borders xlen ylen Zi) Zs = false ->
  exists msg, centers_loop xlen ylen Zs x y = Raise (ValueError msg).
Proof.
  induction Zs as [|Zi Zs IH]; intros x y H2 Hok; [discriminate|].
  inversion H2 as [|? ? [m ->] H2']; subst. cbn [forallb] in Hok.
  cbn [centers_loop shape_at shape lookup list_lookup bind].
  unfold on_centers, on_borders in *. cbn [shape] in *. rewrite !pred_test.
  destruct ((S (shape0 m) =? xlen) && (S (shape1 m) =? ylen)) eqn:Eb.
  - rewrite orb_true_r in Hok. cbn [andb] in Hok. now apply IH.
  - rewrite orb_false_r in Hok.
    destruct ((shape0 m =? xlen) && (shape1 m =? ylen)) eqn:Ec.
    + apply andb_prop in Ec. destruct Ec as [-> ->]. cbn [negb orb].
      cbn [andb] in Hok. now apply IH.
    + assert (E : (negb (shape0 m =? xlen) || negb (shape1 m =? ylen)) = true).
      { destruct (shape0 m =? xlen), (shape1 m =? ylen); try discriminate; reflexivity. }
      rewrite E. unfold shape_error. eauto.
Qed.

Lemma shape_midpoints_vec k : forall v,
  shape (Nat.iter k midpoints (Vec v)) = [length v - k].
Proof.
  induction k as [|k IH]; intros v; [cbn; f_equal; lia|].
  rewrite Nat.iter_succ_r. cbn [midpoints]. rewrite IH. f_equal.
  rewrite length_zip_with.
  assert (H1 : length (tail v) = length v - 1) by (destruct v; simpl; lia).
  assert (H2 : length (removelast v) = length v - 1).
  { rewrite removelast_firstn_len, length_firstn. lia. }
  lia.
Qed.

Lemma shape_at_0 a : shape_at a 0 = Ok (hd 0 (shape a)).
Proof. now destruct a. Qed.

Lemma shape_arange n : shape (arange n) = [n].
Proof. unfold arange. cbn [shape]. now rewrite length_map, length_seq. Qed.

Lemma parse_args_three x y Zs :
  Zs <> [] -> _parse_args (x :: y :: Zs) = Ok (x, y, Zs).
Proof. destruct Zs; [congruence|reflexivity]. Qed.

(** X12. The shape check of the contour-like methods. Called with
    coordinates and two-dimensional fields, [_check_centers] compares
    every field with the lengths the coordinates had on entry: if each
    field has these lengths, or one less along both axes, the wrapped
    method is called with the fields transposed, and with coordinates
    that were replaced by their midpoints once for every field of the
    second kind, so that a vector of coordinates has lost one entry per
    such field; if some field has another shape the call fails with
    [ValueError]. A lone field is always accepted, with its indices as
    coordinates. *)
Theorem check_centers_reads_the_lengths_once {R : Type}
    (func : ndarray -> ndarray -> list ndarray -> Result R) x y Zs :
  Zs <> [] -> Forall two_dimensional Zs ->
  let xlen := hd 0 (shape x) in
  let ylen := shape_last y in
  let fits := forallb (fun Zi => on_centers xlen ylen Zi || on_borders xlen ylen Zi) Zs in
  let k := length (List.filter (on_borders xlen ylen) Zs) in
  (fits = true ->
   _check_centers func (x :: y :: Zs)
   = func (Nat.iter k midpoints x) (Nat.iter k midpoints y) (map transpose Zs)) /\
  (fits = false -> exists msg, _check_centers func (x :: y :: Zs) = Raise (ValueError msg)) /\
  (forall v, x = Vec v -> shape (Nat.iter k midpoints x) = [length v - k]) /\
  (forall m, _check_centers func [Mat m]
             = func (arange (shape0 m)) (arange (shape1 m)) [transpose (Mat m)]).
Proof.
  intros Hne H2. cbv zeta. split; [|split; [|split]].
  - intros Hok. unfold _check_centers. rewrite (parse_args_three x y Zs Hne). cbn [bind].
    rewrite shape_at_0. cbn [bind].
    now rewrite (centers_loop_accepts _ _ Zs x y H2 Hok).
  - intros Hbad. unfold _check_centers. rewrite (parse_args_three x y Zs Hne). cbn [bind].
    rewrite shape_at_0. cbn [bind].
    destruct (centers_loop_rejects _ _ Zs x y H2 Hbad) as [msg ->]. eauto.
  - intros v ->. apply shape_midpoints_vec.
  - intros m. unfold _check_centers.
    cbn [_parse_args shape_at shape lookup list_lookup bind].
    rewrite shape_at_0. unfold shape_last. rewrite !shape_arange. cbn [hd List.last bind].
    cbn [centers_loop shape_at shape lookup list_lookup bind]. rewrite !pred_test.
    replace (S (shape0 m) =? shape0 m) with false by (symmetry; apply Nat.eqb_neq; lia).
    cbn [andb]. rewrite !Nat.eqb_refl. reflexivity.
Qed.

Lemma check_centers_reads_the_lengths_once_witness :
  let x := Vec [0; 1; 2]%Q in
  let y := Vec [0; 1]%Q in
  let U := Mat (mkMatrix 2 1 (fun _ _ => 0%Q)) in
  let func := fun x y (Zs : list ndarray) => Ok (shape x, shape y, map shape Zs) in
  [U; U] <> [] /\ Forall two_dimensional [U; U] /\
  forallb (fun Zi => on_centers 3 2 Zi || on_borders 3 2 Zi) [U; U] = true /\
  _check_centers func [x; y; U; U] = Ok ([1], [0], [[1; 2]; [1; 2]]).
Proof.
  cbv zeta.
  assert (H1 : [Mat (mkMatrix 2 1 (fun _ _ => 0%Q)); Mat (mkMatrix 2 1 (fun _ _ => 0%Q))]
               <> []) by discriminate.
  assert (H2 : Forall two_dimensional
                 [Mat (mkMatrix 2 1 (fun _ _ => 0%Q)); Mat (mkMatrix 2 1 (fun _ _ => 0%Q))])
    by (repeat constructor; eexists; reflexivity).
  assert (H3 : forallb (fun Zi => on_centers 3 2 Zi || on_borders 3 2 Zi)
                 [Mat (mkMatrix 2 1 (fun _ _ => 0%Q)); Mat (mkMatrix 2 1 (fun _ _ => 0%Q))]
               = true) by reflexivity.
  split; [exact H1|]. split; [exact H2|]. split; [exact H3|].
  rewrite (proj1 (check_centers_reads_the_lengths_once
                    (fun x y (Zs : list ndarray) => Ok (shape x, shape y, map shape Zs))
                    (Vec [0; 1; 2]%Q) (Vec [0; 1]%Q) _ H1 H2) H3).
  reflexivity.
Defined.

Lemma edges_loop_accepts edges xlen ylen : forall Zs x y,
  Forall two_dimensional Zs ->
  forallb (fun Zi => on_centers xlen ylen Zi || on_borders xlen ylen Zi) Zs = true ->
  edges_loop edges xlen ylen Zs x y
  = Ok (Nat.iter (length (List.filter (on_centers xlen ylen) Zs)) edges x,
        Nat.iter (length (List.filter (on_centers xlen ylen) Zs)) edges y).
Proof.
  induction Zs as [|Zi Zs IH]; intros x y H2 Hok; [reflexivity|].
  inversion H2 as [|? ? [m ->] H2']; subst. cbn [forallb] in Hok.
  apply andb_prop in Hok. destruct Hok as [Hi Hok].
  cbn [edges_loop shape_at shape lookup list_lookup bind List.filter].
  unfold on_centers, on_borders in *. cbn [shape] in *. rewrite !pred_test.
  destruct ((shape0 m =? xlen) && (shape1 m =? ylen)) eqn:Ec.
  - rewrite IH by assumption. cbn [length]. now rewrite !Nat.iter_succ_r.
  - cbn [orb] in Hi. apply andb_prop in Hi. destruct Hi as [-> ->].
    cbn [negb orb]. now apply IH.
Qed.

Lemma edges_loop_rejects edges xlen ylen : forall Zs x y,
  Forall two_dimensional Zs ->
  forallb (fun Zi => on_centers xlen ylen Zi || on_borders xlen ylen Zi) Zs = false ->
  exists msg, edges_loop edges xlen ylen Zs x y = Raise (ValueError msg).
Proof.
  induction Zs as [|Zi Zs IH]; intros x y H2 Hok; [discriminate|].
  inversion H2 as [|? ? [m ->] H2']; subst. cbn [forallb] in Hok.
  cbn [edges_loop shape_at shape lookup list_lookup bind].
  unfold on_centers, on_borders in *. cbn [shape] in *. rewrite !pred_test.
  destruct ((shape0 m =? xlen) && (shape1 m =? ylen)) eqn:Ec.
  - cbn [orb andb] in Hok. now apply IH.
  - cbn [orb] in Hok.
    destruct ((S (shape0 m) =? xlen) && (S (shape1 m) =? ylen)) eqn:Eb.
    + apply andb_prop in Eb. destruct Eb as [-> ->]. cbn [negb orb].
      cbn [andb] in Hok. now apply IH.
    + assert (E : (negb (S (shape0 m) =? xlen) || negb (S (shape1 m) =? ylen)) = true).
      { destruct (S (shape0 m) =? xlen), (S (shape1 m) =? ylen);
          try discriminate; reflexivity. }
      rewrite E. unfold shape_error. eauto.
Qed.

(** X13. The shape check of the pcolor-like methods accepts the same
    shapes as that of the contour-like ones, and treats them the other way
    round: a field on the cells is passed on with the coordinates as they
    are, and for every field on the points the coordinates go through
    [utils.edges] once more; the fields are transposed. The lengths are
    those the coordinates had on entry. A lone field always sends its
    index coordinates through [utils.edges]. *)
Theorem check_edges_reads_the_lengths_once {R : Type} (edges : ndarray -> ndarray)
    (func : ndarray -> ndarray -> list ndarray -> Result R) x y Zs :
  Zs <> [] -> Forall two_dimensional Zs ->
  let xlen := hd 0 (shape x) in
  let ylen := shape_last y in
  let fits := forallb (fun Zi => on_centers xlen ylen Zi || on_borders xlen ylen Zi) Zs in
  let k := length (List.filter (on_centers xlen ylen) Zs) in
  (fits = true ->
   _check_edges edges func (x :: y :: Zs)
   = func (Nat.iter k edges x) (Nat.iter k edges y) (map transpose Zs)) /\
  (fits = false ->
   exists msg, _check_edges edges func (x :: y :: Zs) = Raise (ValueError msg)) /\
  (forall m, _check_edges edges func [Mat m]
             = func (edges (arange (shape0 m))) (edges (arange (shape1 m)))
                    [transpose (Mat m)]).
Proof.
  intros Hne H2. cbv zeta. split; [|split].
  - intros Hok. unfold _check_edges. rewrite (parse_args_three x y Zs Hne). cbn [bind].
    rewrite shape_at_0. cbn [bind].
    now rewrite (edges_loop_accepts edges _ _ Zs x y H2 Hok).
  - intros Hbad. unfold _check_edges. rewrite (parse_args_three x y Zs Hne). cbn [bind].
    rewrite shape_at_0. cbn [bind].
    destruct (edges_loop_rejects edges _ _ Zs x y H2 Hbad) as [msg ->]. eauto.
  - intros m. unfold _check_edges.
    cbn [_parse_args shape_at shape lookup list_lookup bind].
    rewrite shape_at_0. unfold shape_last. rewrite !shape_arange. cbn [hd List.last bind].
    cbn [edges_loop shape_at shape lookup list_lookup bind].
    rewrite !Nat.eqb_refl. reflexivity.
Qed.

Lemma check_edges_reads_the_lengths_once_witness :
  let x := Vec [0; 1; 2]%Q in
  let y := Vec [0; 1]%Q in
  let C := Mat (mkMatrix 2 1 (fun _ _ => 0%Q)) in
  let func := fun x y (Zs : list ndarray) => Ok (shape x, shape y, map shape Zs) in
  [C] <> [] /\ Forall two_dimensional [C] /\
  forallb (fun Zi => on_centers 3 2 Zi || on_borders 3 2 Zi) [C] = true /\
  _check_edges (fun a => a) func [x; y; C] = Ok ([3], [2], [[1; 2]]).
Proof.
  cbv zeta.
  assert (H1 : [Mat (mkMatrix 2 1 (fun _ _ => 0%Q))] <> []) by discriminate.
  assert (H2 : Forall two_dimensional [Mat (mkMatrix 2 1 (fun _ _ => 0%Q))])
    by (repeat constructor; eexists; reflexivity).
  assert (H3 : forallb (fun Zi => on_centers 3 2 Zi || on_borders 3 2 Zi)
                 [Mat (mkMatrix 2 1 (fun _ _ => 0%Q))] = true) by reflexivity.
  split; [exact H1|]. split; [exact H2|]. split; [exact H3|].
  rewrite (proj1 (check_edges_reads_the_lengths_once (fun a => a)
                    (fun x y (Zs : list ndarray) => Ok (shape x, shape y, map shape Zs))
                    (Vec [0; 1; 2]%Q) (Vec [0; 1]%Q) _ H1 H2) H3).
  reflexivity.
Defined.

(** X14. What [_gridfix_cartopy] hands to the wrapped method, for a field
    with at least one row and a non-empty vector of longitudes: the
    latitudes between -90 and 90, the longitudes followed by the first one
    plus 360, and a field with one row more at either end and, unless it
    has no column, one column more. The old entries sit one row further
    down; the two new rows are constant, the mean of the old first and
    last row; the new column repeats the first one. A field that was
    latitudes by longitudes still is. Without a row, or without a
    longitude, the call fails with [IndexError]; the transform defaults to
    [PlateCarree]. *)
Theorem gridfix_cartopy_closes_the_grid {R : Type}
    (func : list Q -> list Q -> Matrix -> Crs -> Result R)
    (lon lat : list Q) (Z : Matrix) (transform : option Crs) :
  (shape0 Z = 0 \/ lon = [] ->
   exists msg, _gridfix_cartopy func lon lat Z transform = Raise (IndexError msg)) /\
  (0 < shape0 Z -> lon <> [] ->
   exists Z',
     _gridfix_cartopy func lon lat Z transform
     = func (lon ++ [(hd 0 lon + 360)%Q]) ([-90] ++ lat ++ [90])%Q Z'
            (default PlateCarree transform) /\
     shape0 Z' = shape0 Z + 2 /\ shape1 Z' = shape1 Z + Nat.min 1 (shape1 Z) /\
     (forall i j, i < shape0 Z -> j < shape1 Z -> item Z' (S i) j = item Z i j) /\
     (forall j, j < shape1 Z' ->
        item Z' 0 j = row_mean Z 0 /\
        item Z' (shape0 Z + 1) j = row_mean Z (shape0 Z - 1)) /\
     (forall i, 0 < shape1 Z -> item Z' i (shape1 Z) = item Z' i 0) /\
     (shape0 Z = length lat -> shape1 Z = length lon ->
      shape0 Z' = length ([-90] ++ lat ++ [90])%Q /\
      shape1 Z' = length (lon ++ [(hd 0 lon + 360)%Q]))).
Proof.
  split.
  - intros [H|H]; unfold _gridfix_cartopy; cbv zeta.
    + rewrite H. cbn. eauto.
    + subst lon. destruct (shape0 Z =? 0); eauto.
  - intros Hrows Hlon. unfold _gridfix_cartopy. cbv zeta.
    assert (E : (shape0 Z =? 0) = false) by (apply Nat.eqb_neq; lia). rewrite E.
    destruct lon as [|lon0 lon]; [congruence|]. cbn [hd].
    eexists. split; [reflexivity|]. cbn [shape0 shape1 item].
    split; [lia|]. split; [reflexivity|]. split; [|split; [|split]].
    + intros i j Hi Hj.
      destruct (Nat.ltb_spec j (shape1 Z)); [|lia].
      destruct (Nat.eqb_spec (S i) 0); [lia|].
      destruct (Nat.eqb_spec (S i) (shape0 Z + 1)); [lia|].
      cbn [Nat.sub]. now rewrite Nat.sub_0_r.
    + intros j Hj.
      destruct (Nat.eqb_spec 0 0); [|lia].
      destruct (Nat.eqb_spec (shape0 Z + 1) 0); [lia|].
      destruct (Nat.eqb_spec (shape0 Z + 1) (shape0 Z + 1)); [|lia].
      now destruct (j <? shape1 Z).
    + intros i Hc.
      destruct (Nat.ltb_spec (shape1 Z) (shape1 Z)); [lia|].
      destruct (Nat.ltb_spec 0 (shape1 Z)); [reflexivity|lia].
    + intros Hs0 Hs1. rewrite !length_app. cbn [length]. rewrite Hs0, Hs1. cbn [length]. lia.
Qed.

Lemma gridfix_cartopy_closes_the_grid_witness :
  let Z := mkMatrix 1 2 (fun i j => inject_Z (Z.of_nat j)) in
  let func := fun (lon lat : list Q) (Z' : Matrix) (t : Crs) =>
                Ok (lon, lat, (shape0 Z', shape1 Z'), t) in
  0 < shape0 Z /\ [0; 180]%Q <> [] /\
  exists Z',
    _gridfix_cartopy func [0; 180]%Q [0%Q] Z None
    = func ([0; 180] ++ [(hd 0 [0; 180] + 360)])%Q ([-90] ++ [0] ++ [90])%Q Z'
           (default PlateCarree None) /\
    shape0 Z' = shape0 Z + 2 /\ shape1 Z' = shape1 Z + Nat.min 1 (shape1 Z).
Proof.
  cbv zeta.
  assert (H1 : 0 < shape0 (mkMatrix 1 2 (fun i j => inject_Z (Z.of_nat j)))) by (simpl; lia).
  assert (H2 : [0; 180]%Q <> []) by discriminate.
  split; [exact H1|]. split; [exact H2|].
  destruct (proj2 (gridfix_cartopy_closes_the_grid
                     (fun (lon lat : list Q) (Z' : Matrix) (t : Crs) =>
                        Ok (lon, lat, (shape0 Z', shape1 Z'), t))
                     [0; 180]%Q [0%Q] (mkMatrix 1 2 (fun i j => inject_Z (Z.of_nat j))) None)
              H1 H2) as (Z' & E & S0 & S1 & _).
  exists Z'. split; [exact E|]. split; [exact S0|exact S1].
Defined.

(** X15. The label specification of a map axes. [None] stays [None]; any
    other specification either fails with [ValueError] or gives exactly
    four entries, for the left, right, bottom and top side. A string never
    fails, does not depend on [lon], and marks with 1 the sides whose
    letter it contains. A list fails exactly when it has neither one, two
    nor four entries. One or two values are read as the bottom and top
    side for longitudes and as the left and right side for latitudes, a
    missing second value being 0: the other two sides are never labelled. *)
Theorem parse_labels_gives_four_sides (labels : GeoAxes.LabelSpec) (lon : bool) :
  GeoAxes._parse_labels None lon = Ok None /\
  (forall array, GeoAxes._parse_labels (Some labels) lon = Ok (Some array) ->
                 length array = 4) /\
  GeoAxes._parse_labels (Some labels) lon <> Ok None /\
  (forall s,
     GeoAxes._parse_labels (Some (GeoAxes.SpecStr s)) lon
     = Ok (Some (map (fun c => if char_in c s then 1%Z else 0%Z) ["l"; "r"; "b"; "t"]%char))) /\
  (forall l,
     (exists msg, GeoAxes._parse_labels (Some (GeoAxes.SpecList l)) lon
                  = Raise (ValueError msg))
     <-> length l <> 1 /\ length l <> 2 /\ length l <> 4) /\
  (forall v w,
     GeoAxes._parse_labels (Some (GeoAxes.SpecScalar v)) lon
     = GeoAxes._parse_labels (Some (GeoAxes.SpecList [v; 0%Z])) lon /\
     GeoAxes._parse_labels (Some (GeoAxes.SpecList [v])) lon
     = GeoAxes._parse_labels (Some (GeoAxes.SpecList [v; 0%Z])) lon /\
     GeoAxes._parse_labels (Some (GeoAxes.SpecList [v; w])) lon
     = Ok (Some (if lon then [0; 0; v; w]%Z else [v; w; 0; 0]%Z))).
Proof.
  split; [reflexivity|]. split; [|split; [|split; [|split]]].
  - intros array. unfold GeoAxes._parse_labels. cbv zeta.
    set (a0 := match labels with
               | GeoAxes.SpecStr s => _ | GeoAxes.SpecScalar v => _ | GeoAxes.SpecList l => _
               end).
    set (a1 := if length a0 =? 1 then a0 ++ [0%Z] else a0).
    destruct (length a1 =? 2) eqn:E2.
    + apply Nat.eqb_eq in E2. intros H. inversion H; subst.
      destruct lon; rewrite ?length_app; cbn [length]; rewrite E2; reflexivity.
    + destruct (length a1 =? 4) eqn:E4; cbn [negb]; [|discriminate].
      apply Nat.eqb_eq in E4. intros H. inversion H; subst. exact E4.
  - unfold GeoAxes._parse_labels. cbv zeta.
    repeat match goal with |- context [if ?c then _ else _] => destruct c end; discriminate.
  - intros s. reflexivity.
  - intros l. unfold GeoAxes._parse_labels. cbv zeta.
    destruct l as [|a [|b [|c [|d [|e l]]]]]; cbn [length Nat.eqb app negb];
      try (split; [intros [msg H]; discriminate H|intros (H1 & H2 & H4); lia]);
      (split; [intros _; repeat split; lia|intros _; eauto]).
  - intros v w. repeat split.
Qed.

Lemma parse_labels_gives_four_sides_witness :
  GeoAxes._parse_labels (Some (GeoAxes.SpecStr "lb")) true = Ok (Some [1; 0; 1; 0]%Z) /\
  length [1; 0; 1; 0]%Z = 4.
Proof.
  assert (H : GeoAxes._parse_labels (Some (GeoAxes.SpecStr "lb")) true
              = Ok (Some [1; 0; 1; 0]%Z)) by reflexivity.
  split; [exact H|].
  exact (proj1 (proj2 (parse_labels_gives_four_sides (GeoAxes.SpecStr "lb") true)) _ H).
Defined.

Lemma omap_lookup_all {A : Type} (l : list A) (f : nat -> nat) : forall idx,
  Forall (fun i => f i < length l) idx ->
  length (omap (fun i => l !! f i) idx) = length idx /\
  forall k i, idx !! k = Some i -> omap (fun i => l !! f i) idx !! k = l !! f i.
Proof.
  induction idx as [|i idx IH]; intros Hall; [split; [reflexivity|intros k i H; inversion H]|].
  inversion Hall as [|? ? Hi Hrest]; subst.
  destruct (lookup_lt_is_Some_2 l (f i) Hi) as [x Hx].
  destruct (IH Hrest) as [Hlen Hk].
  assert (E : omap (fun i => l !! f i) (i :: idx) = x :: omap (fun i => l !! f i) idx).
  { change (omap (fun i => l !! f i) (i :: idx))
      with (match l !! f i with
            | Some y => y :: omap (fun i => l !! f i) idx
            | None => omap (fun i => l !! f i) idx
            end).
    now rewrite Hx. }
  rewrite E. cbn [length]. split; [now rewrite Hlen|].
  intros [|k] j Hj.
  - inversion Hj; subst. now rewrite Hx.
  - apply (Hk k j Hj).
Qed.

Lemma stride_spec {A : Type} (l : list A) (step : nat) :
  0 < step ->
  length (stride l step) = (length l + step - 1) / step /\
  forall k, k < (length l + step - 1) / step -> stride l step !! k = l !! (k * step).
Proof.
  intros Hs. unfold stride. set (n := (length l + step - 1) / step).
  destruct (omap_lookup_all l (fun i => i * step) (seq 0 n)) as [Hlen Hk].
  - apply List.Forall_forall. intros i Hi. apply in_seq in Hi. cbn in Hi.
    assert (Hle : S i <= n) by lia.
    assert (H1 : step * S i <= length l + step - 1).
    { transitivity (step * n); [apply Nat.mul_le_mono_l; lia|].
      unfold n. apply Nat.Div0.mul_div_le. }
    nia.
  - rewrite length_seq in Hlen. split; [exact Hlen|].
    intros k Hlt. apply Hk. rewrite lookup_seq. cbn. split; [reflexivity|exact Hlt].
Qed.

(** X16. The default ticks of a colorbar: when no locator is given and the
    mappable has levels, every [1 + n // 20]-th level is taken, beginning
    with the first; there are never more than 20 of them, and fewer than
    20 levels are all kept. A locator that is given is not touched, and a
    mappable without levels gives none. *)
Theorem default_clocator_keeps_at_most_twenty_levels (levels : list Q) :
  exists ticks,
    default_clocator None (Some levels) = Some ticks /\
    length ticks <= 20 /\
    (forall k, k < length ticks -> ticks !! k = levels !! (k * (1 + length levels / 20))) /\
    (length levels < 20 -> ticks = levels) /\
    (forall c, default_clocator (Some c) (Some levels) = Some c) /\
    default_clocator None None = None.
Proof.
  cbn [default_clocator]. eexists. split; [reflexivity|].
  set (n := length levels). set (step := 1 + n / 20).
  assert (Hs : 0 < step) by (unfold step; lia).
  destruct (stride_spec levels step Hs) as [Hlen Hk]. fold n in Hlen, Hk.
  split; [|split; [|split; [|split; reflexivity]]].
  - rewrite Hlen. apply Nat.lt_succ_r. apply Nat.Div0.div_lt_upper_bound.
    pose proof (Nat.div_mod_eq n 20) as Hd.
    pose proof (Nat.mod_upper_bound n 20) as Hm. unfold step. lia.
  - intros k Hlt. rewrite Hlen in Hlt. now apply Hk.
  - intros Hlt. assert (E : step = 1).
    { unfold step. rewrite Nat.div_small by exact Hlt. reflexivity. }
    rewrite E in *. replace (n + 1 - 1) with n in * by lia. rewrite Nat.div_1_r in *.
    apply list_eq. intros k. destruct (Nat.lt_ge_cases k n) as [Hk'|Hk'].
    + rewrite (Hk k Hk'). now rewrite Nat.mul_1_r.
    + rewrite !lookup_ge_None_2; [reflexivity|exact Hk'|now rewrite Hlen].
Qed.

Lemma default_clocator_keeps_at_most_twenty_levels_witness :
  length [1; 2; 3]%Q < 20 /\ default_clocator None (Some [1; 2; 3]%Q) = Some [1; 2; 3]%Q.
Proof.
  assert (H : length [1; 2; 3]%Q < 20) by (simpl; lia).
  split; [exact H|].
  destruct (default_clocator_keeps_at_most_twenty_levels [1; 2; 3]%Q)
    as (ticks & E & _ & _ & Hsmall & _).
  rewrite (Hsmall H) in E. exact E.
Defined.

Lemma where_from_0 {A : Type} (test : A -> bool) l : where_ test l = where_from 0 test l.
Proof. reflexivity. Qed.

Lemma where_from_cons {A : Type} k (test : A -> bool) x l :
  where_from k test (x :: l)
  = (if test x then [k] else []) ++ where_from (S k) test l.
Proof. unfold where_from. cbn. now destruct (test x). Qed.

Lemma where_from_app {A : Type} (test : A -> bool) l1 : forall k l2,
  where_from k test (l1 ++ l2)
  = where_from k test l1 ++ where_from (k + length l1) test l2.
Proof.
  induction l1 as [|x l1 IH]; intros k l2.
  - cbn [app length]. now rewrite Nat.add_0_r.
  - cbn [app length]. rewrite !where_from_cons, IH, <- app_assoc.
    now replace (S k + length l1) with (k + S (length l1)) by lia.
Qed.

Lemma where_from_all {A : Type} (test : A -> bool) l : forall k,
  Forall (fun x => test x = true) l -> where_from k test l = seq k (length l).
Proof.
  induction l as [|x l IH]; intros k H; [reflexivity|].
  inversion H; subst. rewrite where_from_cons, IH by assumption.
  now replace (test x) with true.
Qed.

Lemma where_from_none {A : Type} (test : A -> bool) l : forall k,
  Forall (fun x => test x = false) l -> where_from k test l = [].
Proof.
  induction l as [|x l IH]; intros k H; [reflexivity|].
  inversion H; subst. rewrite where_from_cons, IH by assumption.
  now replace (test x) with false.
Qed.

Lemma last_seq m : 0 < m -> List.last (map Some (seq 0 m)) None = Some (m - 1).
Proof.
  intros Hm. destruct m as [|m]; [lia|].
  rewrite seq_S, List.map_app. cbn [map]. rewrite last_last. f_equal. lia.
Qed.

(** A sorted list falls into the entries below a range, those inside and
    those above. *)
Lemma sorted_three_parts (vmin vmax : Q) : forall l,
  StronglySorted Qle l -> (vmin <= vmax)%Q ->
  exists A B C, l = A ++ B ++ C /\
    Forall (fun v => (v < vmin)%Q) A /\
    Forall (fun v => (vmin <= v /\ v <= vmax)%Q) B /\
    Forall (fun v => (vmax < v)%Q) C.
Proof.
  induction l as [|v l IH]; intros Hs Hr.
  - exists [], [], []. repeat split; constructor.
  - inversion Hs as [|? ? Hs' Hall]; subst.
    destruct (IH Hs' Hr) as (A & B & C & El & HA & HB & HC).
    destruct (Qlt_le_dec v vmin) as [Hlo|Hlo].
    + exists (v :: A), B, C. rewrite El. repeat split; auto.
    + assert (EA : A = []).
      { destruct A as [|a A]; [reflexivity|]. exfalso.
        inversion HA; subst. inversion Hall; subst. lra. }
      subst A. cbn [app] in El.
      destruct (Qlt_le_dec vmax v) as [Hhi|Hhi].
      * assert (EB : B = []).
        { destruct B as [|b B]; [reflexivity|]. exfalso.
          inversion HB; subst. inversion Hall; subst. lra. }
        subst B. exists [], [], (v :: C). rewrite El. repeat split; auto.
      * exists [], (v :: B), C. rewrite El. repeat split; auto.
Qed.

Lemma ticks_in_range_parts fmt (A B C : list Q) (vmin vmax : Q) :
  (vmin <= vmax)%Q ->
  Forall (fun v => (v < vmin)%Q) A ->
  Forall (fun v => (vmin <= v /\ v <= vmax)%Q) B ->
  Forall (fun v => (vmax < v)%Q) C ->
  ticks_in_range fmt (A ++ B ++ C) vmin vmax
  = match B with
    | first :: _ => Ok (B, Qeq_bool first vmin)
    | [] => if (length A =? 0) || (length C =? 0)
            then Raise (no_ticks_error fmt vmin vmax)
            else Raise empty_array_error
    end.
Proof.
  intros Hr HA HB HC. unfold ticks_in_range. cbv zeta.
  assert (Emin : where_ (fun v => Qle_bool vmin v) (A ++ B ++ C)
                 = seq (length A) (length (B ++ C))).
  { rewrite where_from_0, where_from_app, where_from_none, where_from_all; [reflexivity| |].
    - apply Forall_app. split; (eapply Forall_impl; [eassumption|]); cbn; intros v Hv;
        apply Qle_bool_iff; lra.
    - eapply Forall_impl; [exact HA|]. cbn. intros v Hv.
      destruct (Qle_bool vmin v) eqn:E; [|reflexivity]. apply Qle_bool_iff in E. lra. }
  assert (Emax : where_ (fun v => Qle_bool v vmax) (A ++ B ++ C)
                 = seq 0 (length (A ++ B))).
  { rewrite app_assoc, where_from_0, where_from_app, where_from_all, where_from_none.
    - now rewrite app_nil_r.
    - eapply Forall_impl; [exact HC|]. cbn. intros v Hv.
      destruct (Qle_bool v vmax) eqn:E; [|reflexivity]. apply Qle_bool_iff in E. lra.
    - apply Forall_app. split; (eapply Forall_impl; [eassumption|]); cbn; intros v Hv;
        apply Qle_bool_iff; lra. }
  rewrite Emin, Emax. rewrite !length_app.
  destruct B as [|b B].
  - cbn [app length Nat.add]. rewrite Nat.add_0_r.
    destruct A as [|a A]; cbn [length].
    + cbn [seq map List.last Nat.eqb orb]. destruct (seq 0 (length C)); reflexivity.
    + destruct C as [|c C]; cbn [length].
      * cbn [seq]. rewrite orb_true_r. reflexivity.
      * rewrite last_seq by lia. cbn [seq Nat.eqb orb].
        unfold slice. replace (S (length A) - 1 + 1 - S (length A)) with 0 by lia.
        reflexivity.
  - cbn [length]. rewrite last_seq by lia. cbn [Nat.add seq]. unfold slice.
    replace (length A + S (length B) - 1 + 1 - length A) with (length (b :: B))
      by (cbn [length]; lia).
    rewrite drop_app_length, take_app_length. reflexivity.
Qed.

Lemma filter_parts (A B C : list Q) (vmin vmax : Q) :
  (vmin <= vmax)%Q ->
  Forall (fun v => (v < vmin)%Q) A ->
  Forall (fun v => (vmin <= v /\ v <= vmax)%Q) B ->
  Forall (fun v => (vmax < v)%Q) C ->
  List.filter (fun v => Qle_bool vmin v && Qle_bool v vmax) (A ++ B ++ C) = B.
Proof.
  intros Hr HA HB HC. rewrite !List.filter_app.
  assert (EA : List.filter (fun v => Qle_bool vmin v && Qle_bool v vmax) A = []).
  { clear - HA. induction HA as [|v A Hv _ IH]; [reflexivity|]. cbn [List.filter].
    destruct (Qle_bool vmin v) eqn:E; [apply Qle_bool_iff in E; lra|exact IH]. }
  assert (EC : List.filter (fun v => Qle_bool vmin v && Qle_bool v vmax) C = []).
  { clear - HC. induction HC as [|v C Hv _ IH]; [reflexivity|]. cbn [List.filter].
    destruct (Qle_bool v vmax) eqn:E; [apply Qle_bool_iff in E; lra|].
    rewrite andb_false_r. exact IH. }
  assert (EB : List.filter (fun v => Qle_bool vmin v && Qle_bool v vmax) B = B).
  { clear - HB. induction HB as [|v B [H1 H2] _ IH]; [reflexivity|]. cbn [List.filter].
    apply Qle_bool_iff in H1, H2. rewrite H1, H2. cbn [andb]. now rewrite IH. }
  rewrite EA, EB, EC. now rewrite app_nil_r.
Qed.

(** X17. The ticks of a colorbar are cut to the range of the norm between
    the first tick that is not below [vmin] and the last that is not above
    [vmax]. For ticks in ascending order and [vmin <= vmax]: when some
    tick lies in the range, exactly the ticks in the range are kept, and
    the flag tells whether the first of them sits on [vmin]; when all
    ticks lie below the range, or all above, the call fails with the
    [ValueError] that no tick is in range; when none lies in the range but
    some below and some above, the cut is empty and reading its first
    entry fails with [IndexError] instead. *)
Theorem colorbar_ticks_are_cut_to_the_range fmt (values : list Q) (vmin vmax : Q) :
  StronglySorted Qle values -> (vmin <= vmax)%Q ->
  let kept := List.filter (fun v => Qle_bool vmin v && Qle_bool v vmax) values in
  (forall first rest, kept = first :: rest ->
     ticks_in_range fmt values vmin vmax = Ok (kept, Qeq_bool first vmin)) /\
  (kept = [] ->
   Forall (fun v => (v < vmin)%Q) values \/ Forall (fun v => (vmax < v)%Q) values ->
   ticks_in_range fmt values vmin vmax = Raise (no_ticks_error fmt vmin vmax)) /\
  (kept = [] ->
   Exists (fun v => (v < vmin)%Q) values -> Exists (fun v => (vmax < v)%Q) values ->
   ticks_in_range fmt values vmin vmax = Raise empty_array_error).
Proof.
  intros Hs Hr. cbv zeta.
  destruct (sorted_three_parts vmin vmax values Hs Hr) as (A & B & C & -> & HA & HB & HC).
  rewrite (filter_parts A B C vmin vmax Hr HA HB HC).
  rewrite (ticks_in_range_parts fmt A B C vmin vmax Hr HA HB HC).
  split; [|split].
  - intros first rest ->. reflexivity.
  - intros -> Hside. cbn [app] in *.
    assert (E : ((length A =? 0) || (length C =? 0)) = true).
    { destruct Hside as [H|H].
      - destruct C as [|c C]; [now rewrite orb_true_r|]. exfalso.
        apply Forall_app in H. destruct H as [_ H]. inversion H; subst.
        inversion HC; subst. lra.
      - destruct A as [|a A]; [reflexivity|]. exfalso.
        inversion H; subst. inversion HA; subst. lra. }
    now rewrite E.
  - intros -> Hlo Hhi. cbn [app] in *.
    assert (E : ((length A =? 0) || (length C =? 0)) = false).
    { destruct A as [|a A].
      - exfalso. cbn [app] in Hlo. apply List.Exists_exists in Hlo. destruct Hlo as (v & Hin & Hv).
        rewrite List.Forall_forall in HC. specialize (HC v Hin). lra.
      - destruct C as [|c C]; [|reflexivity]. exfalso. rewrite app_nil_r in Hhi.
        apply List.Exists_exists in Hhi. destruct Hhi as (v & Hin & Hv).
        rewrite List.Forall_forall in HA. specialize (HA v Hin). lra. }
    now rewrite E.
Qed.

Lemma colorbar_ticks_are_cut_to_the_range_witness :
  StronglySorted Qle [0; 10]%Q /\ (3 <= 7)%Q /\
  ticks_in_range (fun _ => EmptyString) [0; 10]%Q 3 7 = Raise empty_array_error.
Proof.
  assert (H1 : StronglySorted Qle [0; 10]%Q).
  { repeat constructor. discriminate. }
  assert (H2 : (3 <= 7)%Q) by discriminate.
  split; [exact H1|]. split; [exact H2|].
  apply (proj2 (proj2 (colorbar_ticks_are_cut_to_the_range (fun _ => EmptyString)
                         [0; 10]%Q 3 7 H1 H2))).
  - reflexivity.
  - apply Exists_cons_hd. reflexivity.
  - apply Exists_cons_tl, Exists_cons_hd. reflexivity.
Defined.

Lemma lookup_slice {A : Type} (l : list A) a b k :
  k < b - a -> slice l a b !! k = l !! (a + k).
Proof. intros Hk. unfold slice. rewrite lookup_take_lt by exact Hk. apply lookup_drop. Qed.

Lemma lookup_slice_ge {A : Type} (l : list A) a b k :
  b - a <= k -> slice l a b !! k = None.
Proof. intros Hk. unfold slice. now apply lookup_take_ge. Qed.

Lemma length_slice {A : Type} (l : list A) a b :
  length (slice l a b) = Nat.min (b - a) (length l - a).
Proof. unfold slice. now rewrite length_take, length_drop. Qed.

Section RowMajor.
Context {A : Type}.
Variable handles : list A.
Variable ncol : nat.
Hypothesis Hncol : 0 < ncol.

Let n := length handles.
Let q := n / ncol.
Let r := n mod ncol.
Let handlesplit := map (fun i => slice handles (i * ncol) ((i + 1) * ncol)) (seq 0 (q + 1)).

Lemma division : n = ncol * q + r /\ r < ncol.
Proof.
  split; [apply Nat.div_mod_eq|]. apply Nat.mod_upper_bound. lia.
Qed.

Lemma handlesplit_lookup row :
  row <= q -> handlesplit !! row = Some (slice handles (row * ncol) ((row + 1) * ncol)).
Proof.
  intros Hrow. unfold handlesplit. rewrite list_lookup_fmap, lookup_seq_lt by lia.
  reflexivity.
Qed.

Lemma index2_handlesplit row col :
  row <= q -> col < ncol -> index2 handlesplit row col = handles !! (row * ncol + col).
Proof.
  intros Hrow Hcol. unfold index2. rewrite (handlesplit_lookup row Hrow).
  apply lookup_slice. lia.
Qed.

Lemma length_handlesplit : length handlesplit = q + 1.
Proof. unfold handlesplit. now rewrite length_map, length_seq. Qed.

Lemma last_handlesplit :
  List.last (map Some handlesplit) None
  = Some (slice handles (q * ncol) ((q + 1) * ncol)).
Proof.
  unfold handlesplit. rewrite Nat.add_1_r, seq_S. rewrite !List.map_app.
  cbn [map]. rewrite last_last. cbn [Nat.add]. now rewrite Nat.add_1_r.
Qed.

Lemma length_final : length (slice handles (q * ncol) ((q + 1) * ncol)) = r.
Proof.
  rewrite length_slice. destruct division as [Hn Hr]. fold n. nia.
Qed.

Lemma enumerate_nrows :
  enumerate (repeat (q + 1) r ++ repeat (q + 1 - 1) (ncol - r))
  = map (fun col => (col, rows_of_column n ncol col)) (seq 0 ncol).
Proof.
  destruct division as [_ Hr]. unfold enumerate.
  rewrite length_app, !repeat_length.
  replace (r + (ncol - r)) with ncol by lia.
  replace (seq 0 ncol) with (seq 0 r ++ seq r (ncol - r)).
  2:{ rewrite <- seq_app. f_equal. lia. }
  rewrite List.map_app.
  assert (Hc : forall (k m v : nat) (f : nat -> nat),
             (forall i, k <= i < k + m -> f i = v) ->
             combine (seq k m) (repeat v m) = map (fun col => (col, f col)) (seq k m)).
  { intros k m v f. revert k. induction m as [|m IH]; intros k Hf; [reflexivity|].
    cbn [seq repeat combine map]. rewrite (Hf k) by lia. f_equal. apply IH.
    intros i Hi. apply Hf. lia. }
  rewrite <- (Hc 0 r (q + 1) (rows_of_column n ncol)).
  2:{ intros i Hi. unfold rows_of_column. fold r q.
      destruct (Nat.ltb_spec i r); [reflexivity|lia]. }
  rewrite <- (Hc r (ncol - r) (q + 1 - 1) (rows_of_column n ncol)).
  2:{ intros i Hi. unfold rows_of_column. fold r q.
      destruct (Nat.ltb_spec i r); lia. }
  clear Hc. generalize (repeat (q + 1 - 1) (ncol - r)). generalize (seq r (ncol - r)).
  assert (Hl : length (seq 0 r) = length (repeat (q + 1) r))
    by now rewrite length_seq, repeat_length.
  revert Hl. generalize (repeat (q + 1) r). generalize (seq 0 r).
  induction l as [|x l IH]; intros [|y l'] Hl l1 l2; try discriminate; [reflexivity|].
  cbn [app combine]. f_equal. apply IH. now inversion Hl.
Qed.

Lemma position_in_range col row :
  col < ncol -> row < rows_of_column n ncol col -> row <= q /\ row * ncol + col < n.
Proof.
  intros Hcol Hrow. destruct division as [Hn Hr]. unfold rows_of_column in Hrow.
  fold r q in Hrow. destruct (Nat.ltb_spec col r); nia.
Qed.

Lemma extend_column_spec col : forall rows,
  col < ncol -> Forall (fun row => row < rows_of_column n ncol col) rows ->
  extend_column handlesplit col rows
  = Some (omap (fun i => handles !! i) (map (fun row => row * ncol + col) rows)).
Proof.
  intros rows Hcol. induction 1 as [|row rows Hrow _ IH]; [reflexivity|].
  destruct (position_in_range col row Hcol Hrow) as [Hq Hn].
  cbn [extend_column map]. rewrite (index2_handlesplit row col Hq Hcol), IH.
  destruct (lookup_lt_is_Some_2 handles (row * ncol + col) Hn) as [h Hh].
  rewrite Hh.
  change (omap (fun i => handles !! i) (row * ncol + col :: ?l))
    with (match handles !! (row * ncol + col) with
          | Some y => y :: omap (fun i => handles !! i) l
          | None => omap (fun i => handles !! i) l
          end).
  now rewrite Hh.
Qed.

Lemma extend_columns_spec : forall cols,
  Forall (fun col => col < ncol) cols ->
  extend_columns handlesplit (map (fun col => (col, rows_of_column n ncol col)) cols)
  = Some (omap (fun i => handles !! i)
            (flat_map (fun col => map (fun row => row * ncol + col)
                                      (seq 0 (rows_of_column n ncol col))) cols)).
Proof.
  induction 1 as [|col cols Hcol _ IH]; [reflexivity|].
  cbn [map extend_columns flat_map]. rewrite extend_column_spec, IH; [|exact Hcol|].
  - now rewrite omap_app.
  - apply List.Forall_forall. intros row Hrow. apply in_seq in Hrow. lia.
Qed.

Lemma rowmajor_run :
  rowmajor_handles handles ncol
  = Done (omap (fun i => handles !! i) (column_major n ncol)).
Proof.
  unfold rowmajor_handles.
  replace (ncol =? 0) with false by (symmetry; apply Nat.eqb_neq; lia).
  fold n q handlesplit. rewrite last_handlesplit, length_handlesplit, length_final.
  rewrite enumerate_nrows, extend_columns_spec; [reflexivity|].
  apply List.Forall_forall. intros col Hcol. apply in_seq in Hcol. lia.
Qed.
End RowMajor.

Lemma NoDup_flat_map_disjoint {A B : Type} (f : A -> list B) : forall l,
  List.NoDup l -> (forall x, In x l -> List.NoDup (f x)) ->
  (forall x y z, In x l -> In y l -> In z (f x) -> In z (f y) -> x = y) ->
  List.NoDup (flat_map f l).
Proof.
  induction l as [|a l IH]; intros Hnd Hf Hdis; [constructor|].
  apply List.NoDup_cons_iff in Hnd. destruct Hnd as [Ha Hnd].
  cbn [flat_map]. apply List.NoDup_app.
  - apply Hf. now left.
  - apply IH; [exact Hnd| |].
    + intros x Hx. apply Hf. now right.
    + intros x y z Hx Hy. apply Hdis; now right.
  - intros z Hz Hin. apply in_flat_map in Hin. destruct Hin as (y & Hy & Hzy).
    apply Ha. rewrite (Hdis a y z); auto; [now left|now right].
Qed.

Lemma in_column_major n ncol x : 0 < ncol -> In x (column_major n ncol) <-> x < n.
Proof.
  intros Hc. unfold column_major. rewrite in_flat_map.
  pose proof (Nat.div_mod_eq n ncol) as Hn.
  pose proof (Nat.mod_upper_bound n ncol ltac:(lia)) as Hr.
  split.
  - intros (col & Hcol & Hin). apply in_seq in Hcol. apply in_map_iff in Hin.
    destruct Hin as (row & <- & Hrow). apply in_seq in Hrow. unfold rows_of_column in Hrow.
    destruct (Nat.ltb_spec col (n mod ncol)); nia.
  - intros Hx. exists (x mod ncol).
    pose proof (Nat.div_mod_eq x ncol) as Hxd.
    pose proof (Nat.mod_upper_bound x ncol ltac:(lia)) as Hxr.
    split; [apply in_seq; lia|]. apply in_map_iff. exists (x / ncol).
    split; [lia|]. apply in_seq. unfold rows_of_column.
    destruct (Nat.ltb_spec (x mod ncol) (n mod ncol)); nia.
Qed.

Lemma NoDup_column_major n ncol : 0 < ncol -> List.NoDup (column_major n ncol).
Proof.
  intros Hc. unfold column_major. apply NoDup_flat_map_disjoint.
  - apply seq_NoDup.
  - intros col _. apply Finite.Injective_map_NoDup; [|apply seq_NoDup].
    intros a b E. nia.
  - intros c1 c2 z H1 H2 Hz1 Hz2. apply in_seq in H1, H2.
    apply in_map_iff in Hz1, Hz2.
    destruct Hz1 as (r1 & E1 & _). destruct Hz2 as (r2 & E2 & _).
    assert (E : r1 * ncol + c1 = r2 * ncol + c2) by lia.
    assert (M1 : (r1 * ncol + c1) mod ncol = c1).
    { rewrite Nat.add_comm, Nat.Div0.mod_add. apply Nat.mod_small. lia. }
    assert (M2 : (r2 * ncol + c2) mod ncol = c2).
    { rewrite Nat.add_comm, Nat.Div0.mod_add. apply Nat.mod_small. lia. }
    congruence.
Qed.

Lemma column_major_permutes n ncol :
  0 < ncol -> Permutation (column_major n ncol) (seq 0 n).
Proof.
  intros Hc. apply Stdlib.Sorting.Permutation.NoDup_Permutation;
    [now apply NoDup_column_major|apply seq_NoDup|].
  intros x. rewrite (in_column_major n ncol x Hc), in_seq. lia.
Qed.

Lemma omap_ext_in {A B : Type} (f g : A -> option B) : forall l,
  (forall x, In x l -> f x = g x) -> omap f l = omap g l.
Proof.
  induction l as [|x l IH]; intros H; [reflexivity|].
  change (omap f (x :: l)) with (match f x with Some y => y :: omap f l | None => omap f l end).
  change (omap g (x :: l)) with (match g x with Some y => y :: omap g l | None => omap g l end).
  rewrite (H x) by now left. rewrite IH; [reflexivity|]. intros y Hy. apply H. now right.
Qed.

Lemma omap_lookup_seq {A : Type} (l : list A) :
  omap (fun i => l !! i) (seq 0 (length l)) = l.
Proof.
  induction l as [|x l IH] using rev_ind; [reflexivity|].
  rewrite length_app. cbn [length]. rewrite Nat.add_1_r, seq_S, omap_app. cbn [Nat.add].
  f_equal.
  - rewrite <- IH at 2. apply omap_ext_in. intros i Hi. apply in_seq in Hi.
    apply lookup_app_l. lia.
  - change (omap (fun i => (l ++ [x]) !! i) [length l])
      with (match (l ++ [x]) !! length l with Some y => [y] | None => [] end).
    now rewrite list_lookup_middle.
Qed.

Lemma flat_map_singletons (g : nat -> list nat) : forall m k,
  (forall i, k <= i < k + m -> g i = [i]) -> flat_map g (seq k m) = seq k m.
Proof.
  induction m as [|m IH]; intros k Hg; [reflexivity|].
  cbn [seq flat_map]. rewrite (Hg k) by lia. cbn [app]. f_equal.
  apply IH. intros i Hi. apply Hg. lia.
Qed.

Lemma flat_map_empties (g : nat -> list nat) : forall m k,
  (forall i, k <= i < k + m -> g i = []) -> flat_map g (seq k m) = [].
Proof.
  induction m as [|m IH]; intros k Hg; [reflexivity|].
  cbn [seq flat_map]. rewrite (Hg k) by lia. cbn [app].
  apply IH. intros i Hi. apply Hg. lia.
Qed.

Lemma column_major_single_row n ncol :
  0 < ncol -> n <= ncol -> column_major n ncol = seq 0 n.
Proof.
  intros Hc Hn. unfold column_major.
  replace (seq 0 ncol) with (seq 0 n ++ seq n (ncol - n)).
  2:{ rewrite <- seq_app. f_equal. lia. }
  pose proof (Nat.div_mod_eq n ncol) as Hd.
  pose proof (Nat.mod_upper_bound n ncol ltac:(lia)) as Hr.
  assert (Hq : n / ncol <= 1).
  { destruct (Nat.le_gt_cases (n / ncol) 1); [assumption|nia]. }
  rewrite flat_map_app.
  rewrite (flat_map_singletons _ n 0).
  2:{ intros i Hi. unfold rows_of_column.
      destruct (Nat.ltb_spec i (n mod ncol)).
      - assert (E : n / ncol = 0) by nia. rewrite E. cbn. try reflexivity; f_equal; lia.
      - assert (E : n / ncol = 1) by nia. rewrite E. cbn. try reflexivity; f_equal; lia. }
  rewrite (flat_map_empties _ (ncol - n) n); [now rewrite app_nil_r|].
  intros i Hi. unfold rows_of_column.
  destruct (Nat.ltb_spec i (n mod ncol)); [nia|].
  assert (E : n / ncol = 0) by nia. now rewrite E.
Qed.

(** X18. The handles of an aligned legend are re-ordered so that the
    legend, which matplotlib fills column by column, reads row by row: for
    a positive number of columns the block fails on no list of handles,
    and the new list holds every handle exactly once: it is the old list
    laid out in rows of [ncol] and read column by column, the first
    [len(handles) % ncol] columns being one row longer. A list that fits
    into one row is not changed. With [ncol = 0] the division raises
    [ZeroDivisionError]. *)
Theorem legend_handles_are_read_column_by_column {A : Type} (handles : list A) (ncol : nat) :
  (ncol = 0 ->
   rowmajor_handles handles ncol
   = Abort (ZeroDivisionError "integer division or modulo by zero")) /\
  (0 < ncol ->
   exists newhandles,
     rowmajor_handles handles ncol = Done newhandles /\
     Permutation newhandles handles /\
     newhandles = omap (fun i => handles !! i) (column_major (length handles) ncol) /\
     (length handles <= ncol -> newhandles = handles)).
Proof.
  split; [intros ->; reflexivity|]. intros Hc.
  pose proof (rowmajor_run handles ncol Hc) as Hrun. cbv zeta in Hrun.
  eexists. split; [exact Hrun|]. split; [|split; [reflexivity|]].
  - rewrite (column_major_permutes (length handles) ncol Hc). now rewrite omap_lookup_seq.
  - intros Hn. rewrite (column_major_single_row _ _ Hc Hn). apply omap_lookup_seq.
Qed.

Lemma legend_handles_are_read_column_by_column_witness :
  0 < 2 /\
  exists newhandles,
    rowmajor_handles ["a"; "b"; "c"; "d"; "e"]%string 2 = Done newhandles /\
    Permutation newhandles ["a"; "b"; "c"; "d"; "e"]%string /\
    newhandles = ["a"; "c"; "e"; "b"; "d"]%string.
Proof.
  assert (H : 0 < 2) by lia. split; [exact H|].
  destruct (proj2 (legend_handles_are_read_column_by_column
                     ["a"; "b"; "c"; "d"; "e"]%string 2) H)
    as (newhandles & E & P & F & _).
  exists newhandles. split; [exact E|]. split; [exact P|]. rewrite F. reflexivity.
Defined.

Lemma draw_test env w :
  draw env w
  = (do offset <- any_axes w pushes_suptitle (axes (fig w));
     do w <- _suptitle_setup env offset w;
     let w := if negb (rc_init env) && _rcreset (fig w) then emit EvRcReset w else w in
     do w <- (if _smart_tight_init (fig w) && _smart_tight (fig w)
              then smart_tight_layout env None w
              else Ok w);
     Ok (emit EvSuperDraw w)).
Proof. reflexivity. Qed.

Lemma char_in_append c s t : char_in c (s +:+ t) = char_in c s || char_in c t.
Proof.
  unfold char_in. induction s as [|a s IH]; [reflexivity|].
  simpl. rewrite IH. now rewrite orb_assoc.
Qed.

Lemma modify_twice r f g w :
  modify r g (modify r f w) = modify r (fun a => g (f a)) w.
Proof. unfold modify, set_heap. cbn. now rewrite alter_twice. Qed.

Lemma title_pos_of_string env self a w (s : string) :
  heap w !! self = Some a -> s <> EmptyString ->
  let outside := char_in "o" s || negb (char_in "i" s) in
  let centred := char_in "c" s || negb (char_in "l" s || char_in "r" s) in
  let pad := (rc_titlepad env / 72 / axes_height w a)%Q in
  exists w' x,
    _title_pos env self (Some (PosStr s)) w
    = Done (w', mkTitleKw (x, if outside then (1 + pad)%Q else (1 - pad * (3 # 2))%Q)
                          (if centred then "center"
                           else if char_in "l" s then "left" else "right")
                          (if outside then "baseline" else "top")) /\
    heap w' !! self = Some (set_title_inside true a) /\
    (forall r, r <> self -> heap w' !! r = heap w !! r) /\
    fig w' = fig w.
Proof.
  intros Ha Hs. cbv zeta. unfold _title_pos. rewrite Ha.
  destruct s as [|c0 s0]; [congruence|]. set (s := String c0 s0) in *.
  cbv zeta. unfold any_in. cbn [existsb].
  set (pad := (rc_titlepad env / 72 / axes_height w a)%Q).
  assert (Hh : forall v, heap (modify self (set_title_inside true) v) !! self
                         = set_title_inside true <$> heap v !! self).
  { intros v. unfold modify, set_heap. cbn. apply list_lookup_alter_eq. }
  assert (Hh2 : heap (modify self (set_title_inside false) w) !! self
                = Some (set_title_inside false a)) by now apply heap_modify_eq.
  assert (Hn : forall f g r, r <> self -> heap (modify self f (modify self g w)) !! r
                                          = heap w !! r).
  { intros f g r Hr. now rewrite !heap_modify_ne by congruence. }
  assert (Hn1 : forall f r, r <> self -> heap (modify self f w) !! r = heap w !! r).
  { intros f r Hr. now rewrite !heap_modify_ne by congruence. }
  assert (Kc : char_in "c" "c" = true /\ char_in "l" "c" = false /\ char_in "r" "c" = false
               /\ char_in "o" "c" = false /\ char_in "i" "c" = false) by (repeat split).
  assert (Ko : char_in "c" "o" = false /\ char_in "l" "o" = false /\ char_in "r" "o" = false
               /\ char_in "o" "o" = true /\ char_in "i" "o" = false) by (repeat split).
  destruct Kc as (Kc1 & Kc2 & Kc3 & Kc4 & Kc5). destruct Ko as (Ko1 & Ko2 & Ko3 & Ko4 & Ko5).
  destruct (char_in "l" s) eqn:El, (char_in "c" s) eqn:Ec, (char_in "r" s) eqn:Er,
    (char_in "o" s) eqn:Eo, (char_in "i" s) eqn:Ei;
    repeat (cbn -[char_in modify Qplus Qminus Qmult Qdiv];
            rewrite ?char_in_append, ?El, ?Ec, ?Er, ?Eo, ?Ei,
              ?Kc1, ?Kc2, ?Kc3, ?Kc4, ?Kc5, ?Ko1, ?Ko2, ?Ko3, ?Ko4, ?Ko5);
    cbn -[char_in modify Qplus Qminus Qmult Qdiv];
    (eexists; eexists; split; [reflexivity|]; split;
       [rewrite Hh; (rewrite Hh2 || rewrite Ha); reflexivity|split; [|reflexivity]];
     first [apply Hn|apply Hn1]).
Qed.

(** X19. A title placed by letters counts as inside. For a live axes and a
    string of position letters, [_title_pos] returns (no variable is left
    unbound): the text is centred when the string has a [c] or neither [l]
    nor [r], else left when it has an [l], else right; it sits above the
    axes when the string has an [o] or no [i], else inside. Whatever the
    letters, the call ends by setting [_title_inside], also for a title
    above the axes: the test by which [draw] pushes the figure title up
    then sees only the column label of the axes. No other axes and nothing
    of the figure changes. A missing or empty position means [oc]; a pair
    of coordinates is returned centred and changes nothing. *)
Theorem a_title_placed_by_letters_counts_as_inside env self a w (s : string) :
  heap w !! self = Some a ->
  let outside := char_in "o" s || negb (char_in "i" s) in
  let centred := char_in "c" s || negb (char_in "l" s || char_in "r" s) in
  exists w' kw,
    _title_pos env self (Some (PosStr s)) w = Done (w', kw) /\
    kw_ha kw = (if centred then "center" else if char_in "l" s then "left" else "right") /\
    kw_va kw = (if outside then "baseline" else "top") /\
    heap w' !! self = Some (set_title_inside true a) /\
    (forall r, r <> self -> heap w' !! r = heap w !! r) /\
    fig w' = fig w /\
    any_axes w' pushes_suptitle [self]
    = Ok (is_BaseAxes a && (fst (rows a) =? 0) && nonempty (text (collabel a))) /\
    _title_pos env self None w = _title_pos env self (Some (PosStr "oc")) w /\
    _title_pos env self (Some (PosStr EmptyString)) w
    = _title_pos env self (Some (PosStr "oc")) w /\
    (forall x y, _title_pos env self (Some (PosXY x y)) w
                 = Done (w, mkTitleKw (x, y) "center" "center")).
Proof.
  intros Ha. cbv zeta.
  assert (Hoc : _title_pos env self (Some (PosStr EmptyString)) w
                = _title_pos env self (Some (PosStr "oc")) w) by reflexivity.
  assert (Hrun : exists w' x,
    _title_pos env self (Some (PosStr s)) w
    = Done (w', mkTitleKw (x, if char_in "o" s || negb (char_in "i" s)
                              then (1 + rc_titlepad env / 72 / axes_height w a)%Q
                              else (1 - rc_titlepad env / 72 / axes_height w a * (3 # 2))%Q)
                          (if char_in "c" s || negb (char_in "l" s || char_in "r" s)
                           then "center" else if char_in "l" s then "left" else "right")
                          (if char_in "o" s || negb (char_in "i" s)
                           then "baseline" else "top")) /\
    heap w' !! self = Some (set_title_inside true a) /\
    (forall r, r <> self -> heap w' !! r = heap w !! r) /\
    fig w' = fig w).
  { destruct (string_dec s EmptyString) as [->|Hs].
    - rewrite Hoc.
      apply (title_pos_of_string env self a w "oc" Ha). discriminate.
    - now apply title_pos_of_string. }
  destruct Hrun as (w' & x & E & Hself & Hother & Hfig).
  exists w'. eexists. split; [exact E|]. cbn [kw_ha kw_va].
  split; [reflexivity|]. split; [reflexivity|]. split; [exact Hself|].
  split; [exact Hother|]. split; [exact Hfig|]. split; [|split; [reflexivity|split]].
  - cbn [any_axes]. rewrite (get_ok _ _ _ Hself). cbn [bind].
    unfold pushes_suptitle. cbn [set_title_inside _title_inside title collabel rows negb].
    change (is_BaseAxes (set_title_inside true a)) with (is_BaseAxes a).
    rewrite andb_false_r. cbn [orb].
    now destruct (is_BaseAxes a && (fst (rows a) =? 0) && nonempty (text (collabel a))).
  - exact Hoc.
  - intros x0 y0. unfold _title_pos. now rewrite Ha.
Qed.

Lemma a_title_placed_by_letters_counts_as_inside_witness :
  exists a,
    heap three_in_a_row !! 0 = Some a /\
    exists w' kw,
      _title_pos env0 0 (Some (PosStr "ol")) three_in_a_row = Done (w', kw) /\
      kw_ha kw = "left"%string /\ kw_va kw = "baseline"%string /\
      heap w' !! 0 = Some (set_title_inside true a).
Proof.
  assert (H : exists a, heap three_in_a_row !! 0 = Some a) by (eexists; reflexivity).
  destruct H as [a H]. exists a. split; [exact H|].
  destruct (a_title_placed_by_letters_counts_as_inside env0 0 a three_in_a_row "ol" H)
    as (w' & kw & E & Hha & Hva & Hself & _).
  exists w', kw. split; [exact E|]. split; [exact Hha|]. split; [exact Hva|exact Hself].
Defined.

Lemma pop_alias_name name option kw :
  name <> option ->
  pop_alias name option kw !! name = first_of [kw !! option; kw !! name].
Proof.
  intros Hne. unfold pop_alias, first_of. cbn [fold_right].
  destruct (kw !! option) as [v|] eqn:E.
  - apply lookup_insert_eq.
  - now destruct (kw !! name).
Qed.

Lemma pop_alias_option name option kw :
  name <> option -> pop_alias name option kw !! option = None.
Proof.
  intros Hne. unfold pop_alias. destruct (kw !! option) as [v|] eqn:E; [|exact E].
  rewrite lookup_insert_ne by exact Hne. apply lookup_delete_eq.
Qed.

Lemma pop_alias_other name option kw k :
  k <> name -> k <> option -> pop_alias name option kw !! k = kw !! k.
Proof.
  intros H1 H2. unfold pop_alias. destruct (kw !! option) as [v|] eqn:E; [|reflexivity].
  rewrite lookup_insert_ne by congruence. apply lookup_delete_ne. congruence.
Qed.

Lemma pop_alias_keeps_none name option kw k :
  k <> name -> kw !! k = None -> pop_alias name option kw !! k = None.
Proof.
  intros H1 Hk. unfold pop_alias. destruct (kw !! option) as [v|] eqn:E; [|exact Hk].
  rewrite lookup_insert_ne by congruence.
  destruct (decide (option = k)) as [->|Hne]; [apply lookup_delete_eq|].
  now rewrite lookup_delete_ne.
Qed.

Lemma normalise_other k : forall pairs kw,
  Forall (fun p => k <> fst p /\ k <> snd p) pairs -> normalise pairs kw !! k = kw !! k.
Proof.
  induction pairs as [|p pairs IH]; intros kw H; [reflexivity|].
  inversion H as [|? ? [H1 H2] Hrest]; subst. cbn [normalise fold_left].
  change (fold_left _ pairs ?x) with (normalise pairs x).
  rewrite IH by exact Hrest. now apply pop_alias_other.
Qed.

Lemma normalise_keeps_none k : forall pairs kw,
  Forall (fun p => k <> fst p) pairs -> kw !! k = None -> normalise pairs kw !! k = None.
Proof.
  induction pairs as [|p pairs IH]; intros kw H Hk; [exact Hk|].
  inversion H as [|? ? H1 Hrest]; subst. cbn [normalise fold_left].
  change (fold_left _ pairs ?x) with (normalise pairs x).
  apply IH; [exact Hrest|]. now apply pop_alias_keeps_none.
Qed.

Lemma normalise_pops option : forall pairs kw,
  Forall (fun p => option <> fst p) pairs -> In option (map snd pairs) ->
  normalise pairs kw !! option = None.
Proof.
  induction pairs as [|p pairs IH]; intros kw H Hin; [destruct Hin|].
  inversion H as [|? ? H1 Hrest]; subst. cbn [normalise fold_left].
  change (fold_left _ pairs ?x) with (normalise pairs x).
  destruct (decide (snd p = option)) as [E|Hne].
  - apply normalise_keeps_none; [exact Hrest|]. rewrite <- E.
    apply pop_alias_option. congruence.
  - apply IH; [exact Hrest|]. destruct Hin as [E|Hin]; [congruence|exact Hin].
Qed.

Lemma normalise_fixed : forall pairs kw,
  Forall (fun p => kw !! snd p = None) pairs -> normalise pairs kw = kw.
Proof.
  induction pairs as [|p pairs IH]; intros kw H; [reflexivity|].
  inversion H as [|? ? H1 Hrest]; subst. cbn [normalise fold_left].
  change (fold_left _ pairs ?x) with (normalise pairs x).
  unfold pop_alias at 1. rewrite H1. now apply IH.
Qed.

Lemma nested_loops kw :
  fold_left (fun kwargs '(name, options) =>
               fold_left (fun kwargs option => pop_alias name option kwargs) options kwargs)
            aliases kw
  = normalise alias_pairs kw.
Proof. reflexivity. Qed.

Lemma names_are_no_options :
  Forall (fun option => Forall (fun p => option <> fst p) alias_pairs) (map snd alias_pairs).
Proof. repeat constructor; discriminate. Qed.

(** X20. The keyword arguments of [scatter]. With at most four positional
    arguments the call goes through: the first two are passed on as they
    are, the third and fourth become [s] and [c]. After the aliases are
    applied none of the alias names is left among the keyword arguments,
    and every keyword that is neither an alias nor one of [c], [s],
    [linewidths], [edgecolors] is passed on unchanged. The colour passed
    as [c] is the first that is given of: [color], [markercolor], the
    fourth positional argument, [c]; the size passed as [s] the first of:
    [size], [markersize], the third positional argument, [s]. With more
    than four positional arguments the call fails with [ValueError]. *)
Theorem scatter_aliases_take_precedence (args : list PyVal) (kwargs : gmap string PyVal) :
  (4 < length args -> exists msg, scatter args kwargs = Raise (ValueError msg)) /\
  (length args <= 4 ->
   exists kwargs',
     scatter args kwargs = Ok (take 2 args, kwargs') /\
     (forall option, In option (map snd alias_pairs) -> kwargs' !! option = None) /\
     (forall k, ~ In k (map fst alias_pairs) -> ~ In k (map snd alias_pairs) ->
                kwargs' !! k = kwargs !! k) /\
     kwargs' !! "c"
     = first_of [kwargs !! "color"; kwargs !! "markercolor"; args !! 3; kwargs !! "c"] /\
     kwargs' !! "s"
     = first_of [kwargs !! "size"; kwargs !! "markersize"; args !! 2; kwargs !! "s"] /\
     normalise alias_pairs kwargs' = kwargs').
Proof.
  split.
  - intros H. unfold scatter. apply Nat.ltb_lt in H. rewrite H. eauto.
  - intros H. unfold scatter.
    replace (4 <? length args) with false by (symmetry; apply Nat.ltb_ge; lia).
    set (kw1 := match args !! 3 with Some v => <["c" := v]> kwargs | None => kwargs end).
    set (kw2 := match args !! 2 with Some v => <["s" := v]> kw1 | None => kw1 end).
    assert (E : (let '(args0, kwargs0) :=
                   match args !! 3 with
                   | Some v => (take 3 args ++ drop 4 args, <["c" := v]> kwargs)
                   | None => (args, kwargs)
                   end in
                 let '(args1, kwargs1) :=
                   match args0 !! 2 with
                   | Some v => (take 2 args0 ++ drop 3 args0, <["s" := v]> kwargs0)
                   | None => (args0, kwargs0)
                   end in
                 Ok (args1,
                     fold_left (fun kwargs '(name, options) =>
                                  fold_left (fun kwargs option => pop_alias name option kwargs)
                                            options kwargs)
                               aliases kwargs1))
                = Ok (take 2 args, normalise alias_pairs kw2)).
    { unfold kw2, kw1.
      destruct args as [|a [|b [|c [|d [|e args]]]]]; try reflexivity.
      cbn [length] in H. lia. }
    rewrite E. clear E. eexists. split; [reflexivity|].
    assert (Hpop : forall option, In option (map snd alias_pairs) ->
                                  normalise alias_pairs kw2 !! option = None).
    { intros option Hin. apply normalise_pops; [|exact Hin].
      pose proof names_are_no_options as Hn. rewrite List.Forall_forall in Hn.
      now apply Hn. }
    split; [exact Hpop|]. split; [|split; [|split]].
    + intros k Hname Hopt. rewrite normalise_other.
      * unfold kw2, kw1.
        assert (k <> "c"%string) by (intros ->; apply Hname; cbn; tauto).
        assert (k <> "s"%string) by (intros ->; apply Hname; cbn; tauto).
        destruct (args !! 2), (args !! 3); now rewrite ?lookup_insert_ne by congruence.
      * apply List.Forall_forall. intros p Hp. split; intros ->.
        -- apply Hname. now apply in_map.
        -- apply Hopt. now apply in_map.
    + change alias_pairs
        with ([("c", "markercolor"); ("c", "color")]%string ++ skipn 2 alias_pairs).
      unfold normalise at 1. rewrite fold_left_app.
      change (fold_left _ (skipn 2 alias_pairs) ?x) with (normalise (skipn 2 alias_pairs) x).
      rewrite normalise_other by (repeat constructor; discriminate).
      cbn [fold_left fst snd]. rewrite pop_alias_name by discriminate.
      rewrite pop_alias_other by discriminate. rewrite pop_alias_name by discriminate.
      unfold kw2, kw1, first_of. cbn [fold_right].
      destruct (args !! 2), (args !! 3);
        rewrite ?lookup_insert_eq, ?lookup_insert_ne by discriminate;
        rewrite ?lookup_insert_eq, ?lookup_insert_ne by discriminate;
        destruct (kwargs !! "color"), (kwargs !! "markercolor"), (kwargs !! "c");
        reflexivity.
    + change alias_pairs
        with ([("c", "markercolor"); ("c", "color")]%string
                ++ [("s", "markersize"); ("s", "size")]%string ++ skipn 4 alias_pairs).
      unfold normalise at 1. rewrite !fold_left_app.
      change (fold_left _ (skipn 4 alias_pairs) ?x) with (normalise (skipn 4 alias_pairs) x).
      rewrite normalise_other by (repeat constructor; discriminate).
      cbn [fold_left fst snd].
      repeat first [rewrite pop_alias_name by discriminate
                   |rewrite pop_alias_other by discriminate].
      unfold kw2, kw1, first_of. cbn [fold_right].
      destruct (args !! 2), (args !! 3);
        rewrite ?lookup_insert_eq, ?lookup_insert_ne by discriminate;
        rewrite ?lookup_insert_eq, ?lookup_insert_ne by discriminate;
        destruct (kwargs !! "size"), (kwargs !! "markersize"), (kwargs !! "s");
        reflexivity.
    + apply normalise_fixed. apply List.Forall_forall. intros p Hp.
      apply Hpop. now apply in_map.
Qed.

Lemma scatter_aliases_take_precedence_witness :
  let args := [VNum 1; VNum 2; VNum 3; VStr "red"] in
  let kwargs : gmap string PyVal := {[ "color"%string := VStr "blue" ]} in
  length args <= 4 /\
  exists kwargs',
    scatter args kwargs = Ok (take 2 args, kwargs') /\
    kwargs' !! "c" = Some (VStr "blue") /\ kwargs' !! "color" = None.
Proof.
  cbv zeta.
  assert (H : length [VNum 1; VNum 2; VNum 3; VStr "red"] <= 4) by (simpl; lia).
  split; [exact H|].
  destruct (proj2 (scatter_aliases_take_precedence [VNum 1; VNum 2; VNum 3; VStr "red"]
                     {[ "color"%string := VStr "blue" ]}) H)
    as (kwargs' & E & Hgone & _ & Hc & _).
  exists kwargs'. split; [exact E|]. split.
  - rewrite Hc. unfold first_of. cbn [fold_right]. now rewrite lookup_singleton_eq.
  - apply Hgone. cbn. tauto.
Defined.

(** ** Twin axes *)

Lemma sharex_setup_bare fuel self sx a b w :
  heap w !! self = Some a -> heap w !! sx = Some b -> self <> sx ->
  leftpanel a = PEmpty -> rightpanel a = PEmpty ->
  bottompanel a = PEmpty -> toppanel a = PEmpty ->
  _sharex_setup (S fuel) self (Some sx) w = Ok (link_x w (self, sx)).
Proof.
  intros Ha Hb Hne Hl Hr Hbo Ht. cbn [_sharex_setup].
  apply Nat.eqb_neq in Hne. rewrite Hne. unfold get. rewrite Ha, Hb. cbn [bind].
  rewrite Hl. cbn [bind]. rewrite Ha, Hb. cbn [bind]. rewrite Hr. cbn [bind].
  rewrite Ha. cbn [bind]. rewrite Hbo. cbn [bind]. rewrite Ha. cbn [bind].
  rewrite Ht. cbn [bind]. reflexivity.
Qed.

Lemma sharey_setup_bare fuel self sy a b w :
  heap w !! self = Some a -> heap w !! sy = Some b -> self <> sy ->
  leftpanel a = PEmpty -> rightpanel a = PEmpty ->
  bottompanel a = PEmpty -> toppanel a = PEmpty ->
  _sharey_setup (S fuel) self (Some sy) w = Ok (link_y w (self, sy)).
Proof.
  intros Ha Hb Hne Hl Hr Hbo Ht. cbn [_sharey_setup].
  apply Nat.eqb_neq in Hne. rewrite Hne. unfold get. rewrite Ha, Hb. cbn [bind].
  rewrite Hbo. cbn [bind]. rewrite Ha, Hb. cbn [bind]. rewrite Ht. cbn [bind].
  rewrite Ha. cbn [bind]. rewrite Hl. cbn [bind]. rewrite Ha. cbn [bind].
  rewrite Hr. cbn [bind]. reflexivity.
Qed.

Lemma twinx_run fuel self a w :
  heap w !! self = Some a -> kind a <> PanelAxes -> 0 < fuel ->
  twinx fuel self w
  = Ok (append_axes (length (heap w))
          (link_x (set_heap (heap w ++ [twin_of a]) w) (length (heap w), self)),
        length (heap w)).
Proof.
  intros Ha Hk Hf. unfold twinx, _make_twin_axes, get. rewrite Ha. cbn [bind].
  assert (Hlt : self < length (heap w)) by (eapply lookup_lt_Some; eauto).
  assert (E : (match kind a with
               | PanelAxes => Raise (ValueError "Must specify side.")
               | _ => Ok tt
               end) = Ok tt) by (destruct (kind a); congruence).
  rewrite E. cbn [bind]. unfold BaseAxes__init__. cbn [valid_panelside negb].
  destruct fuel as [|fuel]; [lia|]. fold (twin_of a).
  rewrite (sharex_setup_bare fuel _ self (twin_of a) a); try reflexivity.
  - cbn [heap set_heap]. rewrite lookup_app_r by lia. now rewrite Nat.sub_diag.
  - cbn [heap set_heap]. now rewrite lookup_app_l by lia.
  - lia.
Qed.

Lemma twiny_run fuel self a w :
  heap w !! self = Some a -> kind a <> PanelAxes -> 0 < fuel ->
  twiny fuel self w
  = Ok (append_axes (length (heap w))
          (link_y (set_heap (heap w ++ [twin_of a]) w) (length (heap w), self)),
        length (heap w)).
Proof.
  intros Ha Hk Hf. unfold twiny, _make_twin_axes, get. rewrite Ha. cbn [bind].
  assert (Hlt : self < length (heap w)) by (eapply lookup_lt_Some; eauto).
  assert (E : (match kind a with
               | PanelAxes => Raise (ValueError "Must specify side.")
               | _ => Ok tt
               end) = Ok tt) by (destruct (kind a); congruence).
  rewrite E. cbn [bind]. unfold BaseAxes__init__. cbn [valid_panelside negb].
  destruct fuel as [|fuel]; [lia|]. fold (twin_of a). cbn [bind].
  rewrite (sharey_setup_bare fuel _ self (twin_of a) a); try reflexivity.
  - cbn [heap set_heap]. rewrite lookup_app_r by lia. now rewrite Nat.sub_diag.
  - cbn [heap set_heap]. now rewrite lookup_app_l by lia.
  - lia.
Qed.

Lemma make_twin_of_panel fuel self a sharex sharey w :
  heap w !! self = Some a -> kind a = PanelAxes ->
  _make_twin_axes fuel self sharex sharey w = Raise (ValueError "Must specify side.").
Proof.
  intros Ha Hk. unfold _make_twin_axes, get. rewrite Ha. cbn [bind]. now rewrite Hk.
Qed.

(** X21. A twin axes: for a live axes [self] that is no panel, [twinx]
    (and likewise [twiny], with x and y exchanged) returns a new object
    appended to [figure.axes], of the same class, starting in the same row
    and column and at the same position; its x axis is shared with [self], with tick
    labels and axis label hidden, while its y axis is shared with nothing
    and keeps its labels; the two are joined in the x grouper and the y
    grouper is as before; of the attributes modelled, none changes on an
    object that existed before, the panels of [self] included, and one
    level of nesting is enough however deep the panels of [self] are. On a panel both methods fail with
    [ValueError('Must specify side.')]. *)
Theorem a_twin_shares_one_axis_with_the_original fuel self a w :
  heap w !! self = Some a -> 0 < fuel ->
  (kind a = PanelAxes ->
     twinx fuel self w = Raise (ValueError "Must specify side.") /\
     twiny fuel self w = Raise (ValueError "Must specify side.")) /\
  (kind a <> PanelAxes ->
     exists wx wy tx ty,
       twinx fuel self w = Ok (wx, length (heap w)) /\
       twiny fuel self w = Ok (wy, length (heap w)) /\
       heap wx = heap w ++ [tx] /\ heap wy = heap w ++ [ty] /\
       axes (fig wx) = axes (fig w) ++ [length (heap w)] /\
       axes (fig wy) = axes (fig w) ++ [length (heap w)] /\
       (kind tx, fst (rows tx), fst (cols tx), bbox tx)
       = (kind a, fst (rows a), fst (cols a), bbox a) /\
       (kind ty, fst (rows ty), fst (cols ty), bbox ty)
       = (kind a, fst (rows a), fst (cols a), bbox a) /\
       panels_of tx = [PEmpty; PEmpty; PEmpty; PEmpty] /\
       panels_of ty = [PEmpty; PEmpty; PEmpty; PEmpty] /\
       (share (xaxis tx), ticklabels_visible (xaxis tx), visible (label (xaxis tx)))
       = (Some self, false, false) /\
       (share (yaxis tx), ticklabels_visible (yaxis tx), visible (label (yaxis tx)))
       = (None, true, true) /\
       (share (yaxis ty), ticklabels_visible (yaxis ty), visible (label (yaxis ty)))
       = (Some self, false, false) /\
       (share (xaxis ty), ticklabels_visible (xaxis ty), visible (label (xaxis ty)))
       = (None, true, true) /\
       joined (_shared_x_axes wx) (length (heap w)) self = true /\
       joined (_shared_y_axes wy) (length (heap w)) self = true /\
       _shared_y_axes wx = _shared_y_axes w /\
       _shared_x_axes wy = _shared_x_axes w).
Proof.
  intros Ha Hf. split.
  - intros Hk. unfold twinx, twiny. now rewrite !(make_twin_of_panel _ _ a) by assumption.
  - intros Hk.
    assert (Hlt : self < length (heap w)) by (eapply lookup_lt_Some; eauto).
    eexists _, _, _, _.
    split; [apply (twinx_run _ _ a); assumption|].
    split; [apply (twiny_run _ _ a); assumption|].
    split.
    { unfold append_axes. cbn [heap set_fig]. rewrite heap_link_x. cbn [heap set_heap].
      rewrite alter_app_r_alt by lia. rewrite Nat.sub_diag. reflexivity. }
    split.
    { unfold append_axes. cbn [heap set_fig]. rewrite heap_link_y. cbn [heap set_heap].
      rewrite alter_app_r_alt by lia. rewrite Nat.sub_diag. reflexivity. }
    repeat split; try reflexivity.
    + unfold append_axes. cbn. apply join_joined.
    + unfold append_axes. cbn. apply join_joined.
Qed.

Lemma a_twin_shares_one_axis_with_the_original_witness :
  exists a wx tx,
    heap two_composites !! 0 = Some a /\ 0 < 1 /\ kind a <> PanelAxes /\
    twinx 1 0 two_composites = Ok (wx, length (heap two_composites)) /\
    heap wx = heap two_composites ++ [tx] /\
    share (xaxis tx) = Some 0 /\
    joined (_shared_x_axes wx) (length (heap two_composites)) 0 = true.
Proof.
  assert (H1 : exists a, heap two_composites !! 0 = Some a) by (eexists; reflexivity).
  destruct H1 as (a & H1).
  assert (H2 : 0 < 1) by lia.
  assert (H3 : kind a <> PanelAxes) by (injection H1 as <-; discriminate).
  destruct (proj2 (a_twin_shares_one_axis_with_the_original 1 0 a two_composites H1 H2) H3)
    as (wx & wy & tx & ty & E1 & _ & E3 & _ & _ & _ & _ & _ & _ & _ & E4 & _ & _ & _ & E5 & _).
  exists a, wx, tx. repeat split; try assumption; try lia.
  now injection E4.
Defined.

Lemma twin_heap fuel self a w w' twin :
  heap w !! self = Some a -> 0 < fuel ->
  twinx fuel self w = Ok (w', twin) \/ twiny fuel self w = Ok (w', twin) ->
  exists t,
    heap w' = heap w ++ [t] /\ axes (fig w') = axes (fig w) ++ [length (heap w)] /\
    kind t = kind a /\ fst (rows t) = fst (rows a) /\ fst (cols t) = fst (cols a).
Proof.
  intros Ha Hf Hrun.
  assert (Hk : kind a <> PanelAxes).
  { intros Hk. unfold twinx, twiny in Hrun.
    rewrite !(make_twin_of_panel _ _ a) in Hrun by assumption.
    destruct Hrun; discriminate. }
  rewrite (twinx_run _ _ a), (twiny_run _ _ a) in Hrun by assumption.
  destruct Hrun as [E|E]; injection E as <- _; eexists; (split; [|split; [reflexivity|]]).
  - unfold append_axes. cbn [heap set_fig]. rewrite heap_link_x. cbn [heap set_heap].
    rewrite alter_app_r_alt by lia. rewrite Nat.sub_diag. reflexivity.
  - repeat split.
  - unfold append_axes. cbn [heap set_fig]. rewrite heap_link_y. cbn [heap set_heap].
    rewrite alter_app_r_alt by lia. rewrite Nat.sub_diag. reflexivity.
  - repeat split.
Qed.

Lemma assign_labels_count test key what body labels w :
  Forall (fun r => is_Some (heap w !! r)) (axes (fig w)) ->
  length (broadcast labels (length (matched w test))) <> length (matched w test) ->
  assign_labels test key what body labels w
  = Raise (count_mismatch (length (broadcast labels (length (matched w test))))
             (length (matched w test)) what).
Proof.
  intros Hall Hlen. unfold assign_labels.
  rewrite (select_axes_eq w test _ Hall). cbn [bind]. fold (matched w test).
  apply Nat.eqb_neq in Hlen. now rewrite Hlen.
Qed.

Lemma labels_after_append test key what body labels self a t w w' :
  heap w !! self = Some a ->
  Forall (fun r => is_Some (heap w !! r)) (axes (fig w)) ->
  List.NoDup (axes (fig w)) -> In self (axes (fig w)) ->
  heap w' = heap w ++ [t] -> axes (fig w') = axes (fig w) ++ [length (heap w)] ->
  test a = true -> test t = true -> key t = key a ->
  assign_labels test key what body labels w'
  = Raise (labels_error labels (length (matched w' test)) what).
Proof.
  intros Ha Hall Hnd Hin Hheap Haxes Hta Htt Hkey.
  assert (Hold : forall r, In r (axes (fig w)) -> heap w' !! r = heap w !! r /\
                                                r < length (heap w)).
  { intros r Hr. rewrite List.Forall_forall in Hall. destruct (Hall r Hr) as [x Hx].
    assert (r < length (heap w)) by (eapply lookup_lt_Some; eauto).
    rewrite Hheap. now rewrite lookup_app_l by lia. }
  assert (Hnew : heap w' !! length (heap w) = Some t).
  { rewrite Hheap. rewrite lookup_app_r by lia. now rewrite Nat.sub_diag. }
  assert (Hall' : Forall (fun r => is_Some (heap w' !! r)) (axes (fig w'))).
  { rewrite Haxes. apply Forall_app. split.
    - rewrite List.Forall_forall in *. intros r Hr.
      rewrite (proj1 (Hold r Hr)). now apply Hall.
    - constructor; [|constructor]. now exists t. }
  assert (Hnd' : List.NoDup (axes (fig w'))).
  { rewrite Haxes. apply List.NoDup_app; [exact Hnd| |].
    - apply List.NoDup_cons; [intros []|constructor].
    - intros r Hr [<-|[]]. destruct (Hold _ Hr). lia. }
  assert (Htie : ~ List.NoDup (map (attr_of w' key 0) (matched w' test))).
  { unfold matched. rewrite Haxes, List.filter_app. cbn [List.filter].
    unfold holds at 2. rewrite Hnew, Htt. rewrite List.map_app. cbn [map].
    intros H. apply List.NoDup_remove_2 in H. apply H. rewrite app_nil_r.
    unfold attr_of at 1. rewrite Hnew, Hkey.
    apply in_map_iff. exists self. split.
    - unfold attr_of. now rewrite (proj1 (Hold _ Hin)), Ha.
    - apply filter_In. split; [exact Hin|].
      unfold holds. now rewrite (proj1 (Hold _ Hin)), Ha. }
  unfold labels_error.
  destruct (Nat.eqb_spec (length (broadcast labels (length (matched w' test))))
              (length (matched w' test))) as [E|E].
  - now apply assign_labels_tie.
  - now apply assign_labels_count.
Qed.

(** X22. Labels after a twin: let every reference of [figure.axes] be
    live and occur once, and let [self] be one of them. Once [twinx] or
    [twiny] has given [self] a twin, [_rowlabels] fails whenever [self] is
    one of the axes it labels, and so does [_collabels]: with [ValueError]
    when the number of labels does not fit and otherwise with [TypeError],
    since [self] and its twin start in the same row and column and sorting
    has to compare the two axes. A string as labels always ends in the
    [TypeError]. *)
Theorem labels_fail_once_an_axes_has_a_twin fuel self a w w' twin env labels :
  heap w !! self = Some a -> 0 < fuel ->
  Forall (fun r => is_Some (heap w !! r)) (axes (fig w)) ->
  List.NoDup (axes (fig w)) -> In self (axes (fig w)) ->
  twinx fuel self w = Ok (w', twin) \/ twiny fuel self w = Ok (w', twin) ->
  (row_test a = true ->
   _rowlabels env labels w'
   = Raise (labels_error labels (length (matched w' row_test)) "rows")) /\
  (col_test a = true ->
   _collabels env labels w'
   = Raise (labels_error labels (length (matched w' col_test)) "columns")) /\
  (forall s n what, labels = LabelStr s -> labels_error labels n what = tie_error).
Proof.
  intros Ha Hf Hall Hnd Hin Hrun.
  destruct (twin_heap _ _ _ _ _ _ Ha Hf Hrun) as (t & Hheap & Haxes & Hk & Hr & Hc).
  split; [|split].
  - intros Ht. rewrite rowlabels_shape.
    apply (labels_after_append _ _ _ _ _ self a t w); try assumption.
    unfold row_test, is_BaseAxes, is_PanelAxes in *. now rewrite Hk, Hc.
  - intros Ht. rewrite collabels_shape.
    apply (labels_after_append _ _ _ _ _ self a t w); try assumption.
    unfold col_test, is_BaseAxes, is_PanelAxes in *. now rewrite Hk, Hr.
  - intros s n what ->. unfold labels_error. cbn [broadcast].
    rewrite repeat_length. now rewrite Nat.eqb_refl.
Qed.

Lemma labels_fail_once_an_axes_has_a_twin_witness :
  exists a w' twin,
    heap three_in_a_column !! 1 = Some a /\ 0 < 1 /\
    Forall (fun r => is_Some (heap three_in_a_column !! r)) (axes (fig three_in_a_column)) /\
    List.NoDup (axes (fig three_in_a_column)) /\ In 1 (axes (fig three_in_a_column)) /\
    twinx 1 1 three_in_a_column = Ok (w', twin) /\ row_test a = true /\
    _rowlabels env0 (LabelList ["a"; "b"; "c"; "d"]%string) w' = Raise tie_error.
Proof.
  assert (H1 : exists a, heap three_in_a_column !! 1 = Some a) by (eexists; reflexivity).
  destruct H1 as (a & H1).
  assert (H2 : 0 < 1) by lia.
  assert (H3 : Forall (fun r => is_Some (heap three_in_a_column !! r))
                 (axes (fig three_in_a_column)))
    by (repeat constructor; eexists; reflexivity).
  assert (H4 : List.NoDup (axes (fig three_in_a_column))).
  { apply (List.NoDup_cons 0); [simpl; lia|]. apply (List.NoDup_cons 1); [simpl; lia|].
    apply (List.NoDup_cons 2); [simpl; lia|]. apply List.NoDup_nil. }
  assert (H5 : In 1 (axes (fig three_in_a_column))) by (right; left; reflexivity).
  assert (H6 : exists w' twin, twinx 1 1 three_in_a_column = Ok (w', twin))
    by (eexists _, _; reflexivity).
  destruct H6 as (w' & twin & H6).
  assert (H7 : row_test a = true) by (injection H1 as <-; reflexivity).
  exists a, w', twin. repeat (split; [assumption|]).
  rewrite (proj1 (labels_fail_once_an_axes_has_a_twin 1 1 a three_in_a_column w' twin env0
                    (LabelList ["a"; "b"; "c"; "d"]%string) H1 H2 H3 H4 H5
                    (or_introl H6)) H7).
  injection H6 as <- _. reflexivity.
Defined.

(** ** Colorbars on panels *)

Lemma panel_side_cases side :
  mem side ["left"; "right"; "bottom"; "top"] = true ->
  side = "left"%string \/ side = "right"%string \/ side = "bottom"%string \/
  side = "top"%string.
Proof.
  unfold mem. cbn [existsb]. intros H.
  destruct (String.eqb_spec side "left"); [tauto|].
  destruct (String.eqb_spec side "right"); [tauto|].
  destruct (String.eqb_spec side "bottom"); [tauto|].
  destruct (String.eqb_spec side "top"); [tauto|]. discriminate.
Qed.

Lemma colorbar_keywords_of_side side i n :
  mem side ["left"; "right"; "bottom"; "top"] = true ->
  colorbar_keywords (Some side) i n
  = Done (if mem side ["bottom"; "top"] then "horizontal"%string else "vertical"%string,
          if (Z.of_nat i =? Z.of_nat n - 1)%Z then side else opposite side).
Proof.
  intros H. destruct (panel_side_cases side H) as [-> | [-> | [-> | ->]]];
    unfold colorbar_keywords; cbn; now destruct (Z.of_nat i =? Z.of_nat n - 1)%Z.
Qed.

Lemma colorbar_subspec_of_side subgrid side box i n len :
  mem side ["left"; "right"; "bottom"; "top"] = true ->
  colorbar_subspec subgrid (Some side) box i n len
  = if negb (Qeq_bool len 1) || negb (n =? 1)
    then subgrid (colorbar_grid side box n len)
           (fst (colorbar_cell side i)) (snd (colorbar_cell side i))
    else Ok box.
Proof.
  intros H. unfold colorbar_subspec, colorbar_grid, colorbar_cell.
  destruct (negb (Qeq_bool len 1) || negb (n =? 1)); [|reflexivity].
  destruct (panel_side_cases side H) as [-> | [-> | [-> | ->]]]; reflexivity.
Qed.



(** ** Attribute lookup *)

Lemma name_decorated ds func : __name__ (decorated ds func) = __name__ func.
Proof. induction ds as [|d ds IH]; [reflexivity|exact IH]. Qed.

Lemma check_disabled_spec attr : forall items,
  (existsb (fun item => mem attr (snd item)) items = false ->
   check_disabled attr items = Ok tt) /\
  (existsb (fun item => mem attr (snd item)) items = true ->
   exists msg, check_disabled attr items = Raise (NotImplementedError msg)).
Proof.
  induction items as [|[message attrs] items [IH1 IH2]]; cbn [existsb check_disabled snd].
  - split; [reflexivity|discriminate].
  - destruct (mem attr attrs); cbn [orb].
    + split; [discriminate|]. intros _. eexists. reflexivity.
    + split; assumption.
Qed.

Lemma alias_idem attr : String.eqb (alias attr) "pcolorpoly" = false.
Proof.
  unfold alias. destruct (String.eqb attr "pcolorpoly") eqn:E; [reflexivity|exact E].
Qed.

Lemma alias_alias attr : alias (alias attr) = alias attr.
Proof. unfold alias at 1. now rewrite alias_idem. Qed.

Lemma alias_not_disabled attr :
  existsb (fun item => mem (alias attr) (snd item)) _disabled_methods
  = existsb (fun item => mem attr (snd item)) _disabled_methods /\
  mem (alias attr) _map_disabled_methods = mem attr _map_disabled_methods.
Proof.
  unfold alias. destruct (String.eqb_spec attr "pcolorpoly") as [->|_]; split; reflexivity.
Qed.

Lemma BaseAxes_lookup found attr :
  existsb (fun item => mem attr (snd item)) _disabled_methods = false ->
  BaseAxes__getattribute__ found attr
  = do obj <- found (alias attr);
    Ok (decorated (if mem (alias attr) _cmap_methods then [CmapFeatures]
                   else if mem (alias attr) _cycle_methods then [CycleFeatures]
                   else []) obj).
Proof.
  intros H. unfold BaseAxes__getattribute__.
  rewrite (proj1 (check_disabled_spec attr _) H). cbn [bind]. fold (alias attr).
  destruct (found (alias attr)) as [obj|e]; cbn [bind]; [|reflexivity].
  destruct (mem (alias attr) _cmap_methods); [reflexivity|].
  now destruct (mem (alias attr) _cycle_methods).
Qed.

Lemma BaseAxes_lookup_disabled found attr :
  existsb (fun item => mem attr (snd item)) _disabled_methods = true ->
  exists msg, BaseAxes__getattribute__ found attr = Raise (NotImplementedError msg).
Proof.
  intros H. unfold BaseAxes__getattribute__.
  destruct (proj2 (check_disabled_spec attr _) H) as (msg & E). rewrite E.
  now exists msg.
Qed.

Lemma MapAxes_lookup_disabled found attr :
  existsb (fun item => mem attr (snd item)) _disabled_methods
  || mem attr _map_disabled_methods = true ->
  exists msg, MapAxes__getattribute__ found attr = Raise (NotImplementedError msg).
Proof.
  intros H. unfold MapAxes__getattribute__.
  destruct (mem attr _map_disabled_methods); [eexists; reflexivity|].
  rewrite orb_false_r in H. now apply BaseAxes_lookup_disabled.
Qed.

Lemma decorators_of_nodup cls attr : List.NoDup (fst (decorators_of cls attr)).
Proof.
  unfold decorators_of.
  destruct cls, (mem (alias attr) _cmap_methods), (mem (alias attr) _cycle_methods),
    (mem attr _center_methods), (mem attr _edge_methods), (mem attr _line_methods),
    (mem (alias attr) _line_methods), (mem (alias attr) _edge_methods),
    (mem (alias attr) _center_methods);
    cbn [fst app]; repeat (apply List.NoDup_cons; [cbn [In]; intuition discriminate|]);
    apply List.NoDup_nil.
Qed.

Lemma lookup_run cls found attr :
  disabled_for cls attr = false ->
  getattribute cls found attr
  = do obj <- found (alias attr);
    Ok (decorated (fst (decorators_of cls attr))
          (if snd (decorators_of cls attr) then BasemapCall (__name__ obj) else obj)).
Proof.
  unfold disabled_for. intros H. apply orb_false_elim in H. destruct H as [Hd Hm].
  destruct cls; cbn [is_map andb] in Hm; unfold getattribute, decorators_of;
    unfold XYAxes__getattribute__, CartopyAxes__getattribute__,
      BasemapAxes__getattribute__, MapAxes__getattribute__; fold (alias attr);
    rewrite ?(proj2 (alias_not_disabled attr)), ?Hm;
    rewrite ?BaseAxes_lookup
      by (rewrite ?(proj1 (alias_not_disabled attr)); exact Hd);
    rewrite ?(proj2 (alias_not_disabled attr)), ?Hm;
    rewrite ?alias_alias;
    destruct (found (alias attr)) as [obj|e]; cbn [bind]; try reflexivity;
    repeat match goal with
           | |- context [mem ?a ?l] => destruct (mem a l); cbn [orb]
           end; reflexivity.
Qed.

Lemma lookup_disabled cls found attr :
  disabled_for cls attr = true ->
  exists msg, getattribute cls found attr = Raise (NotImplementedError msg).
Proof.
  unfold disabled_for. intros H.
  destruct cls; cbn [is_map andb] in H; rewrite ?orb_false_r in H; unfold getattribute;
    try (now apply BaseAxes_lookup_disabled);
    try (now apply MapAxes_lookup_disabled).
  - unfold XYAxes__getattribute__.
    destruct (BaseAxes_lookup_disabled found attr H) as (msg & E). rewrite E.
    now exists msg.
  - unfold XYAxes__getattribute__.
    destruct (BaseAxes_lookup_disabled found attr H) as (msg & E). rewrite E.
    now exists msg.
  - unfold BasemapAxes__getattribute__. fold (alias attr).
    destruct (MapAxes_lookup_disabled found (alias attr)) as (msg & E).
    { now rewrite (proj1 (alias_not_disabled attr)), (proj2 (alias_not_disabled attr)). }
    rewrite E. now exists msg.
  - unfold CartopyAxes__getattribute__.
    destruct (MapAxes_lookup_disabled found attr H) as (msg & E). rewrite E.
    now exists msg.
Qed.

Lemma only_basemap_replaces cls attr :
  snd (decorators_of cls attr) = true -> cls = ClsBasemapAxes.
Proof.
  unfold decorators_of.
  destruct cls; try reflexivity; try discriminate;
    repeat match goal with
           | |- context [mem ?a ?l] => destruct (mem a l)
           end; cbn [snd]; discriminate.
Qed.

(** X24. Attribute lookup on the axes classes. A name that the class
    disables (the unsupported and redundant plotting functions on every
    class, the Cartesian ones on the map classes) raises
    [NotImplementedError] whatever the parent classes would find, since it
    is refused before they are asked. For any other name the parent classes
    are asked for the name with [pcolorpoly] replaced by [pcolor]; their
    failure is passed on; what they find comes back under decorators of
    which no two are the same, and with its name unchanged. The function
    found is always the one that is decorated, except where a basemap axes
    puts the call of the basemap method of the same name in its place. *)
Theorem lookup_decorates_what_the_parent_finds cls found attr :
  (disabled_for cls attr = true ->
   exists msg, getattribute cls found attr = Raise (NotImplementedError msg)) /\
  (disabled_for cls attr = false ->
   (forall e, found (alias attr) = Raise e -> getattribute cls found attr = Raise e) /\
   (forall g, found (alias attr) = Ok g ->
    exists ds base,
      getattribute cls found attr = Ok (decorated ds base) /\
      List.NoDup ds /\ __name__ (decorated ds base) = __name__ g /\
      (base = g \/ cls = ClsBasemapAxes /\ base = BasemapCall (__name__ g)))).
Proof.
  split; [apply lookup_disabled|]. intros H. rewrite (lookup_run cls found attr H). split.
  - intros e ->. reflexivity.
  - intros g ->. cbn [bind]. eexists _, _. split; [reflexivity|].
    split; [apply decorators_of_nodup|]. rewrite name_decorated.
    destruct (snd (decorators_of cls attr)) eqn:E; (split; [reflexivity|]);
      [right|left; reflexivity].
    split; [exact (only_basemap_replaces cls attr E)|reflexivity].
Qed.

Lemma lookup_decorates_what_the_parent_finds_witness :
  disabled_for ClsBasemapAxes "pcolorpoly" = false /\
  disabled_for ClsCartopyAxes "hist" = true /\
  (exists msg, getattribute ClsCartopyAxes (fun a => Ok (Attribute a)) "hist"
               = Raise (NotImplementedError msg)) /\
  exists ds base,
    getattribute ClsBasemapAxes (fun a => Ok (Attribute a)) "pcolorpoly"
    = Ok (decorated ds base) /\ List.NoDup ds /\
    __name__ (decorated ds base) = "pcolor"%string.
Proof.
  assert (H1 : disabled_for ClsBasemapAxes "pcolorpoly" = false) by reflexivity.
  assert (H2 : disabled_for ClsCartopyAxes "hist" = true) by reflexivity.
  split; [exact H1|]. split; [exact H2|]. split.
  - exact (proj1 (lookup_decorates_what_the_parent_finds ClsCartopyAxes
                    (fun a => Ok (Attribute a)) "hist") H2).
  - destruct (proj2 (proj2 (lookup_decorates_what_the_parent_finds ClsBasemapAxes
                              (fun a => Ok (Attribute a)) "pcolorpoly") H1)
                (Attribute "pcolor") eq_refl) as (ds & base & E & Hnd & Hn & _).
    exists ds, base. split; [exact E|]. split; [exact Hnd|exact Hn].
Defined.

Lemma decorators_decorated ds func :
  decorators (decorated ds func) = ds ++ decorators func.
Proof.
  induction ds as [|d ds IH]; [reflexivity|].
  change (d :: decorators (decorated ds func) = d :: (ds ++ decorators func)).
  now rewrite IH.
Qed.

Lemma mem_false name l : ~ In name l -> mem name l = false.
Proof.
  intros H. unfold mem. apply not_true_is_false. intros E.
  apply existsb_exists in E. destruct E as (x & Hx & E).
  apply String.eqb_eq in E. now subst.
Qed.

Lemma method_cases attr :
  In attr wrapped_names \/
  (alias attr = attr /\ mem attr _line_methods = false /\ mem attr _edge_methods = false /\
   mem attr _center_methods = false /\ mem attr _cycle_methods = false /\
   mem attr _cmap_methods = false).
Proof.
  destruct (in_dec String.string_dec attr wrapped_names) as [H|H]; [now left|right].
  unfold wrapped_names in H. rewrite !in_app_iff in H.
  repeat split; try (apply mem_false; tauto).
  unfold alias. destruct (String.eqb_spec attr "pcolorpoly") as [->|_]; [|reflexivity].
  destruct H. right. left. right. left. reflexivity.
Qed.

Lemma lookup_ok_not_disabled cls found attr f :
  getattribute cls found attr = Ok f -> disabled_for cls attr = false.
Proof.
  intros H. destruct (disabled_for cls attr) eqn:E; [|reflexivity].
  destruct (lookup_disabled cls found attr E) as (msg & E'). congruence.
Qed.

Lemma lookup_decorators cls found attr n f :
  found (alias attr) = Ok (Attribute n) -> getattribute cls found attr = Ok f ->
  decorators f = fst (decorators_of cls attr).
Proof.
  intros Hf H. pose proof (lookup_ok_not_disabled _ _ _ _ H) as Hd.
  rewrite (lookup_run _ _ _ Hd), Hf in H. cbn [bind] in H. injection H as <-.
  rewrite decorators_decorated.
  destruct (snd (decorators_of cls attr)); cbn [decorators]; apply app_nil_r.
Qed.

(** X25. Which method gets which decorator. Let the parent classes find a
    plain function for a name. On the Cartesian, panel, basemap and cartopy
    axes the function comes back under the check of edges exactly for the
    names of [_edge_methods] and under the check of centers exactly for
    those of [_center_methods]; the base class and the other map classes
    add no check. No function gets both the colormap and the color cycle
    features. The methods with colormap features are those of
    [_cmap_methods], [pcolorpoly] counting as [pcolor], and on a basemap
    axes the rest of [_center_methods] as well. On a map axes only the
    methods of [_line_methods] are left with the color cycle features.
    [pcolorpoly] resolves on every class to what [pcolor] resolves to. *)
Theorem grid_methods_get_their_shape_check cls found attr n f :
  found (alias attr) = Ok (Attribute n) ->
  getattribute cls found attr = Ok f ->
  (In CheckEdges (decorators f)
   <-> checks_shapes cls = true /\ mem attr _edge_methods = true) /\
  (In CheckCenters (decorators f)
   <-> checks_shapes cls = true /\ mem attr _center_methods = true) /\
  ~ (In CycleFeatures (decorators f) /\ In CmapFeatures (decorators f)) /\
  (In CmapFeatures (decorators f)
   <-> mem (alias attr) _cmap_methods = true
       \/ cls = ClsBasemapAxes /\ mem attr _center_methods = true) /\
  (is_map cls = true -> In CycleFeatures (decorators f) ->
   mem attr _line_methods = true) /\
  getattribute cls found "pcolorpoly" = getattribute cls found "pcolor".
Proof.
  intros Hf H. pose proof (lookup_ok_not_disabled _ _ _ _ H) as Hd.
  rewrite (lookup_decorators _ _ _ _ _ Hf H). clear H Hf.
  assert (Hp : getattribute cls found "pcolorpoly" = getattribute cls found "pcolor").
  { rewrite !lookup_run by (now destruct cls). now destruct cls. }
  destruct (method_cases attr) as [Hin|(Ha & H1 & H2 & H3 & H4 & H5)].
  - unfold wrapped_names, _line_methods, _edge_methods, _center_methods, _cycle_methods,
      _cmap_methods in Hin. cbn [app In] in Hin.
    repeat (destruct Hin as [<-|Hin]; [
      destruct cls; try discriminate Hd; vm_compute;
      repeat split; try tauto; try discriminate; try congruence;
      intuition (try discriminate; try congruence) |]).
    destruct Hin.
  - unfold decorators_of. rewrite Ha, H1, H2, H3, H4, H5.
    destruct cls; cbn; intuition (try discriminate; try congruence).
Qed.

Lemma grid_methods_get_their_shape_check_witness :
  exists f,
    (fun a => Ok (Attribute a)) (alias "quiver") = Ok (Attribute "quiver") /\
    getattribute ClsBasemapAxes (fun a => Ok (Attribute a)) "quiver" = Ok f /\
    In CheckCenters (decorators f) /\ In CmapFeatures (decorators f) /\
    ~ In CycleFeatures (decorators f) /\ ~ In CheckEdges (decorators f).
Proof.
  assert (H1 : (fun a => Ok (Attribute a)) (alias "quiver") = Ok (Attribute "quiver"))
    by reflexivity.
  assert (H2 : exists f, getattribute ClsBasemapAxes (fun a => Ok (Attribute a)) "quiver"
                         = Ok f) by (eexists; reflexivity).
  destruct H2 as (f & H2). exists f.
  destruct (grid_methods_get_their_shape_check ClsBasemapAxes
              (fun a => Ok (Attribute a)) "quiver" "quiver" f H1 H2)
    as (He & Hc & Hx & Hm & _).
  split; [exact H1|]. split; [exact H2|].
  assert (Hc' : In CheckCenters (decorators f))
    by (apply (proj2 Hc); split; reflexivity).
  assert (Hm' : In CmapFeatures (decorators f))
    by (apply (proj2 Hm); right; split; reflexivity).
  split; [exact Hc'|]. split; [exact Hm'|]. split.
  - intros Hy. apply Hx. now split.
  - intros Hy. apply (proj1 He) in Hy. destruct Hy as [_ Hy]. discriminate Hy.
Defined.

(** ** The default gridlines *)

Lemma pymod_of_opposite (x step : Q) :
  (0 < step)%Q ->
  (Geo.pymod x step == Geo.pymod (- x) step)%Q
  <-> exists k : Z, (2 * x == step * inject_Z k)%Q.
Proof.
  intros Hs. split.
  - intros E. exists (Qfloor (x / step) + - Qfloor (- x / step))%Z.
    unfold Geo.pymod in E. rewrite inject_Z_plus, inject_Z_opp. lra.
  - intros (k & E).
    rewrite <- (pymod_periodic x step (- k) Hs). apply pymod_comp.
    rewrite inject_Z_opp. lra.
Qed.

Lemma Forall2_Qeq_refl (l : list Q) : Forall2 Qeq l l.
Proof. induction l; constructor; [reflexivity|assumption]. Qed.

Lemma Forall2_Qeq_opp_opp (l : list Q) : Forall2 Qeq (map Qopp (map Qopp l)) l.
Proof. induction l; constructor; [apply Qopp_involutive|assumption]. Qed.

Lemma northern_last z rest latmax :
  exists t final, northern (z :: rest) latmax = z :: t /\
                  last (z :: t) = Some final /\ (final == latmax)%Q.
Proof.
  unfold northern. destruct (last (z :: rest)) as [final|] eqn:El.
  - destruct (Qeq_bool final latmax) eqn:E; cbn [negb].
    + exists rest, final. split; [reflexivity|]. split; [exact El|].
      now apply Qeq_bool_iff.
    + exists (rest ++ [latmax]), latmax. split; [reflexivity|]. split; [|reflexivity].
      change (z :: rest ++ [latmax]) with ((z :: rest) ++ [latmax]). apply last_snoc.
  - apply last_None in El. discriminate.
Qed.

Lemma mirrored_antisymmetric z t :
  (z == 0)%Q ->
  Forall2 Qeq (map Qopp (rev (map Qopp (rev (z :: t)) ++ drop 1 (z :: t))))
          (map Qopp (rev (z :: t)) ++ drop 1 (z :: t)).
Proof.
  intros Hz. change (drop 1 (z :: t)) with t. cbn [rev]. rewrite List.map_app. cbn [map].
  rewrite rev_app_distr, rev_app_distr. cbn [rev app].
  rewrite <- List.map_rev, rev_involutive.
  rewrite List.map_app. cbn [map]. rewrite <- app_assoc. cbn [app].
  apply Forall2_app; [apply Forall2_Qeq_refl|].
  constructor; [rewrite Hz; reflexivity|apply Forall2_Qeq_opp_opp].
Qed.

Lemma mirrored_last z t final :
  (z == 0)%Q -> last (z :: t) = Some final ->
  exists final', last (map Qopp (rev (z :: t)) ++ drop 1 (z :: t)) = Some final' /\
                 (final' == final)%Q.
Proof.
  intros Hz Hl. change (drop 1 (z :: t)) with t. destruct t as [|y t].
  - cbn in *. injection Hl as <-. exists (- z)%Q. split; [reflexivity|]. rewrite Hz.
    reflexivity.
  - exists final. split; [|reflexivity].
    rewrite last_app. change (last (z :: y :: t)) with (last (y :: t)) in Hl.
    now rewrite Hl.
Qed.

(** X26. The default latitude lines: for a positive step the lines run
    from [-latmax] to [latmax] in one [arange] exactly when [latmax] is a
    whole number of half steps. Otherwise they are the lines from the
    equator to [latmax], with [latmax] itself added when [arange] does not
    end on it, mirrored at the equator: if [arange] starts at the equator
    as asked, the result read backwards with the signs changed is the
    result itself, it ends on [latmax], and it has an odd number of lines.
    With no line from [arange] the second case fails with [IndexError]. *)
Theorem latlines_are_mirrored_at_the_equator arange step latmax :
  (0 < step)%Q ->
  ((exists k : Z, (2 * latmax == step * inject_Z k)%Q) ->
   _get_latlines arange step latmax = Ok (arange (- latmax)%Q latmax step)) /\
  (~ (exists k : Z, (2 * latmax == step * inject_Z k)%Q) ->
   (arange 0%Q latmax step = [] ->
    _get_latlines arange step latmax
    = Raise (IndexError "index -1 is out of bounds for axis 0 with size 0")) /\
   (forall z rest, arange 0%Q latmax step = z :: rest -> (z == 0)%Q ->
    exists lines final,
      _get_latlines arange step latmax = Ok lines /\
      Forall2 Qeq (map Qopp (rev lines)) lines /\
      last lines = Some final /\ (final == latmax)%Q /\
      Nat.Odd (length lines) /\ length (z :: rest) <= length lines)).
Proof.
  intros Hs. unfold _get_latlines. split.
  - intros Hk. apply (pymod_of_opposite latmax step Hs) in Hk.
    apply Qeq_bool_iff in Hk. now rewrite Hk.
  - intros Hk.
    assert (E : Qeq_bool (Geo.pymod latmax step) (Geo.pymod (- latmax) step) = false).
    { destruct (Qeq_bool _ _) eqn:E; [|reflexivity]. destruct Hk.
      apply (pymod_of_opposite latmax step Hs). now apply Qeq_bool_iff. }
    rewrite E. split.
    + intros ->. reflexivity.
    + intros z rest -> Hz.
      destruct (northern_last z rest latmax) as (t & final & En & Hl & Hf).
      unfold northern in En.
      destruct (last (z :: rest)) as [f0|] eqn:El;
        [|apply last_None in El; discriminate].
      rewrite En.
      destruct (mirrored_last z t final Hz Hl) as (final' & Hl' & Hf').
      exists (map Qopp (rev (z :: t)) ++ drop 1 (z :: t)), final'.
      split; [reflexivity|]. split; [now apply mirrored_antisymmetric|].
      split; [exact Hl'|]. split; [now rewrite Hf'|].
      assert (Hlen : length rest <= length t).
      { destruct (negb (Qeq_bool f0 latmax)); injection En as <-;
          [rewrite length_app; cbn; lia|lia]. }
      change (drop 1 (z :: t)) with t.
      rewrite length_app, length_map, length_rev. cbn [length]. split.
      * exists (length t). lia.
      * lia.
Qed.

Lemma latlines_are_mirrored_at_the_equator_witness :
  exists lines,
    (0 < 30)%Q /\ ~ (exists k : Z, (2 * 80 == 30 * inject_Z k)%Q) /\
    _get_latlines (fun _ _ _ => [0; 30; 60]%Q) 30 80 = Ok lines /\
    Forall2 Qeq (map Qopp (rev lines)) lines /\ length lines = 7.
Proof.
  assert (H1 : (0 < 30)%Q) by reflexivity.
  assert (H2 : ~ (exists k : Z, (2 * 80 == 30 * inject_Z k)%Q)).
  { intros (k & E). unfold Qeq in E. cbn in E. lia. }
  destruct (proj2 (proj2 (latlines_are_mirrored_at_the_equator
                            (fun _ _ _ => [0; 30; 60]%Q) 30 80 H1) H2)
              0%Q [30; 60]%Q eq_refl (Qeq_refl 0))
    as (lines & final & E & Hsym & _).
  exists lines. split; [exact H1|]. split; [exact H2|]. split; [exact E|].
  split; [exact Hsym|]. vm_compute in E. injection E as <-. reflexivity.
Defined.

Lemma pymod_zero (x m : Q) :
  (0 < m)%Q ->
  (Geo.pymod x m == 0)%Q <-> exists k : Z, (x == m * inject_Z k)%Q.
Proof.
  intros Hm. split.
  - intros E. exists (Qfloor (x / m)). unfold Geo.pymod in E. lra.
  - intros (k & E).
    assert (E0 : (Geo.pymod x m == Geo.pymod (0 + m * inject_Z k) m)%Q)
      by (apply pymod_comp; lra).
    rewrite E0, pymod_periodic by exact Hm. apply pymod_small. lra.
Qed.

(** X27. The default longitude lines: they are the lines of [arange]
    from [lon0 - 180] to [lon0 + 180] with only the last one moved, by
    [1e-10]: to the east when it lies on a whole number of turns, and to
    the west otherwise. With no line from [arange] the call fails with
    [IndexError]. *)
Theorem only_the_last_lonline_is_moved arange step lon0 :
  (arange (lon0 - 180)%Q (lon0 + 180)%Q step = [] ->
   _get_lonlines arange step lon0
   = Raise (IndexError "index -1 is out of bounds for axis 0 with size 0")) /\
  (forall init final,
     arange (lon0 - 180)%Q (lon0 + 180)%Q step = init ++ [final] ->
     ((exists k : Z, (final == 360 * inject_Z k)%Q) ->
      _get_lonlines arange step lon0
      = Ok (init ++ [(final + (1 # 10000000000))%Q])) /\
     (~ (exists k : Z, (final == 360 * inject_Z k)%Q) ->
      _get_lonlines arange step lon0
      = Ok (init ++ [(final - (1 # 10000000000))%Q]))).
Proof.
  unfold _get_lonlines. split; [intros ->; reflexivity|].
  intros init final ->. rewrite last_snoc, length_app. cbn [length].
  replace (length init + 1 - 1) with (length init + 0) by lia.
  rewrite !insert_app_r. cbn [insert list_insert].
  assert (Hb : (0 <= Geo.pymod final 360)%Q) by (apply pymod_bounds; reflexivity).
  unfold Qltb. split.
  - intros Hk. apply (pymod_zero final 360) in Hk; [|reflexivity].
    assert (E : Qle_bool (Geo.pymod final 360) 0 = true)
      by (apply Qle_bool_iff; lra).
    now rewrite E.
  - intros Hk.
    assert (E : Qle_bool (Geo.pymod final 360) 0 = false).
    { destruct (Qle_bool _ _) eqn:E; [|reflexivity]. destruct Hk.
      apply (pymod_zero final 360); [reflexivity|]. apply Qle_bool_iff in E. lra. }
    now rewrite E.
Qed.

Lemma only_the_last_lonline_is_moved_witness :
  (fun _ _ _ => [-180; -90; 0; 90; 180]%Q) (0 - 180)%Q (0 + 180)%Q 90%Q
  = [-180; -90; 0; 90]%Q ++ [180%Q] /\
  ~ (exists k : Z, (180 == 360 * inject_Z k)%Q) /\
  _get_lonlines (fun _ _ _ => [-180; -90; 0; 90; 180]%Q) 90 0
  = Ok ([-180; -90; 0; 90]%Q ++ [(180 - (1 # 10000000000))%Q]).
Proof.
  assert (H1 : (fun _ _ _ : Q => [-180; -90; 0; 90; 180]%Q) (0 - 180)%Q (0 + 180)%Q 90%Q
               = [-180; -90; 0; 90]%Q ++ [180%Q]) by reflexivity.
  assert (H2 : ~ (exists k : Z, (180 == 360 * inject_Z k)%Q)).
  { intros (k & E). unfold Qeq in E. cbn in E. lia. }
  split; [exact H1|]. split; [exact H2|].
  exact (proj2 (proj2 (only_the_last_lonline_is_moved
                         (fun _ _ _ => [-180; -90; 0; 90; 180]%Q) 90 0)
                  [-180; -90; 0; 90]%Q 180%Q H1) H2).
Defined.

(** ** Longitude labels on doubles *)

Ltac slra :=
  repeat match goal with H : _ /\ _ |- _ => destruct H end;
  repeat match goal with |- _ /\ _ => split end; lra.

Section Doubles.
Import Geo.
Local Open Scope Q_scope.

Lemma two_ne_0 : ~ 2 == 0.
Proof. discriminate. Qed.

Lemma two_to_pos e : 0 < two_to e.
Proof. apply Qpower_0_lt. reflexivity. Qed.

Lemma two_to_plus a b : two_to (a + b) == two_to a * two_to b.
Proof. apply Qpower_plus, two_ne_0. Qed.

Lemma two_to_succ a : two_to (a + 1) == 2 * two_to a.
Proof. rewrite two_to_plus. unfold two_to at 2. rewrite Qpower_1_r. ring. Qed.

Lemma two_to_Z n : (0 <= n)%Z -> two_to n == inject_Z (2 ^ n).
Proof. intros H. unfold two_to. now rewrite Zpower_Qpower. Qed.

Lemma two_to_le a b : (a <= b)%Z -> two_to a <= two_to b.
Proof. intros H. apply Qpower_le_compat_l; [exact H|discriminate]. Qed.

Lemma two_to_lt_inv a b : two_to a < two_to b -> (a < b)%Z.
Proof. intros H. apply (Qpower_lt_compat_l_inv 2); [exact H|reflexivity]. Qed.

Lemma frac_lt (x y b r : Q) : 0 < b -> 0 < r -> x * r < y * b -> x / b < y / r.
Proof.
  intros Hb Hr H. apply Qlt_shift_div_r; [exact Hb|].
  setoid_replace (y / r * b) with (y * b / r) using relation Qeq by (field; lra).
  now apply Qlt_shift_div_l.
Qed.

Lemma frac_le (x y b r : Q) : 0 < b -> 0 < r -> x * r <= y * b -> x / b <= y / r.
Proof.
  intros Hb Hr H. apply Qle_shift_div_r; [exact Hb|].
  setoid_replace (y / r * b) with (y * b / r) using relation Qeq by (field; lra).
  now apply Qle_shift_div_l.
Qed.

Lemma log2_bounds (a : Z) :
  (0 < a)%Z -> two_to (Z.log2 a) <= inject_Z a < two_to (Z.log2 a + 1).
Proof.
  intros Ha. destruct (Z.log2_spec a Ha) as [H1 H2].
  pose proof (Z.log2_nonneg a) as Hn.
  rewrite !two_to_Z by lia. rewrite <- Zle_Qle, <- Zlt_Qlt.
  split; [exact H1|]. now rewrite <- Z.add_1_r in H2.
Qed.

(** [ilog2 q] is the binary order of magnitude of a positive [q]. *)
Lemma ilog2_spec q : 0 < q -> two_to (ilog2 q) <= q < two_to (ilog2 q + 1).
Proof.
  intros Hq. destruct q as [a b]. assert (Ha : (0 < a)%Z).
  { unfold Qlt in Hq. cbn in Hq. lia. }
  unfold ilog2. cbn [Qnum Qden].
  set (la := Z.log2 a). set (lb := Z.log2 (Z.pos b)).
  destruct (log2_bounds a Ha) as [A1 A2]. fold la in A1, A2.
  destruct (log2_bounds (Z.pos b) eq_refl) as [B1 B2]. fold lb in B1, B2.
  rewrite two_to_succ in A2, B2.
  pose proof (two_to_pos la) as Pa. pose proof (two_to_pos lb) as Pb.
  assert (Eq : a # b == inject_Z a / inject_Z (Z.pos b)) by apply Qmake_Qdiv.
  assert (Ed : forall k, two_to (la - lb + k) == two_to k * two_to la / two_to lb).
  { intros k. replace (la - lb + k)%Z with (k + la + - lb)%Z by lia.
    rewrite !two_to_plus. unfold two_to at 3. rewrite Qpower_opp. fold (two_to lb).
    field. lra. }
  destruct (Qle_bool (two_to (la - lb)) (a # b)) eqn:E.
  - apply Qle_bool_iff in E. split; [exact E|].
    rewrite Eq, Ed. apply frac_lt; [lra|exact Pb|].
    assert (E1 : two_to 1 == 2) by reflexivity. rewrite E1. nra.
  - assert (E' : a # b < two_to (la - lb)).
    { apply Qnot_le_lt. intros H. apply Qle_bool_iff in H. congruence. }
    replace (la - lb - 1 + 1)%Z with (la - lb)%Z by lia. split; [|exact E'].
    replace (la - lb - 1)%Z with (la - lb + -1)%Z by lia.
    rewrite Eq, Ed. apply frac_le; [exact Pb|lra|].
    assert (Eh : two_to (-1) == 1 # 2) by reflexivity. rewrite Eh. nra.
Qed.

Lemma exponent_le q t :
  (-1074 <= t)%Z -> ~ q == 0 -> Qabs q < two_to (t + 53) -> (exponent q <= t)%Z.
Proof.
  intros Ht Hq Hlt. unfold exponent.
  assert (Hpos : 0 < Qabs q).
  { destruct (Qlt_le_dec 0 (Qabs q)) as [H|H]; [exact H|]. destruct Hq.
    apply Qabs_Qle_condition in H. lra. }
  destruct (ilog2_spec (Qabs q) Hpos) as [H1 _].
  assert (H : (ilog2 (Qabs q) < t + 53)%Z) by (apply two_to_lt_inv; lra).
  lia.
Qed.

Lemma rne_cases x :
  rne x = Qfloor x \/ rne x = (Qfloor x + 1)%Z.
Proof.
  unfold rne. destruct (x - inject_Z (Qfloor x) ?= 1 # 2); auto.
  destruct (Z.even (Qfloor x)); auto.
Qed.

Lemma inject_Z_pred (n : Z) : inject_Z (n - 1) == inject_Z n - 1.
Proof. unfold Z.sub. rewrite inject_Z_plus, inject_Z_opp. reflexivity. Qed.

Lemma inject_Z_succ (n : Z) : inject_Z (n + 1) == inject_Z n + 1.
Proof. rewrite inject_Z_plus. reflexivity. Qed.

Lemma rne_below_half x (n : Z) : x < inject_Z n + (1 # 2) -> (rne x <= n)%Z.
Proof.
  intros H. pose proof (Qfloor_le x) as Hf.
  assert (Hfn : (Qfloor x <= n)%Z).
  { destruct (Z_le_gt_dec (Qfloor x) n) as [L|G]; [exact L|].
    assert (inject_Z (n + 1) <= inject_Z (Qfloor x)) by (rewrite <- Zle_Qle; lia).
    rewrite inject_Z_plus in H0. change (inject_Z 1) with 1 in H0. exfalso. lra. }
  destruct (Z.eq_dec (Qfloor x) n) as [E|E].
  - unfold rne. rewrite E.
    assert (L : (x - inject_Z n ?= 1 # 2) = Lt) by (apply (proj1 (Qlt_alt _ _)); lra).
    now rewrite L.
  - destruct (rne_cases x) as [R|R]; rewrite R; lia.
Qed.

Lemma rne_above_half x (n : Z) : inject_Z n - (1 # 2) < x -> (n <= rne x)%Z.
Proof.
  intros H. pose proof (Qlt_floor x) as Hf. rewrite inject_Z_succ in Hf.
  assert (Hfn : (n - 1 <= Qfloor x)%Z).
  { destruct (Z_le_gt_dec (n - 1) (Qfloor x)) as [L|G]; [exact L|].
    assert (H0 : inject_Z (Qfloor x + 1) <= inject_Z (n - 1))
      by (rewrite <- Zle_Qle; lia).
    rewrite inject_Z_succ, inject_Z_pred in H0. exfalso. lra. }
  destruct (Z.eq_dec (Qfloor x) (n - 1)%Z) as [E|E].
  - unfold rne. rewrite E.
    assert (L : (x - inject_Z (n - 1) ?= 1 # 2) = Gt).
    { apply (proj1 (Qgt_alt _ _)). rewrite inject_Z_pred. lra. }
    rewrite L. lia.
  - destruct (rne_cases x) as [R|R]; rewrite R; lia.
Qed.

Lemma round_zero q : q == 0 -> round q = 0.
Proof. intros E. unfold round. apply Qeq_bool_iff in E. now rewrite E. Qed.

Lemma round_nonzero q :
  ~ q == 0 ->
  round q = inject_Z (rne (q / two_to (exponent q))) * two_to (exponent q).
Proof.
  intros E. unfold round. destruct (Qeq_bool q 0) eqn:B; [|reflexivity].
  apply Qeq_bool_iff in B. contradiction.
Qed.

Lemma scale_grid (g : Z) (t e : Z) :
  (e <= t)%Z -> inject_Z g * two_to t == inject_Z (g * 2 ^ (t - e)) * two_to e.
Proof.
  intros H. rewrite inject_Z_mult, <- two_to_Z by lia.
  replace t with ((t - e) + e)%Z at 1 by lia. rewrite two_to_plus. ring.
Qed.

(** Rounding does not cross a number of the grid at or above the exponent
    of the number rounded. *)
Lemma round_le q (g t : Z) :
  (q == 0 \/ (exponent q <= t)%Z) -> q <= inject_Z g * two_to t ->
  round q <= inject_Z g * two_to t.
Proof.
  intros He Hq. destruct (Qeq_dec q 0) as [E|E].
  - rewrite (round_zero q E). lra.
  - destruct He as [He|He]; [contradiction|].
    rewrite (round_nonzero q E). set (e := exponent q) in *.
    pose proof (two_to_pos e) as Pe.
    rewrite (scale_grid g t e He) in *.
    apply Qmult_le_compat_r; [|lra]. rewrite <- Zle_Qle.
    apply rne_below_half.
    assert (q / two_to e <= inject_Z (g * 2 ^ (t - e))) by (apply Qle_shift_div_r; lra).
    lra.
Qed.

Lemma round_ge q (g t : Z) :
  (q == 0 \/ (exponent q <= t)%Z) -> inject_Z g * two_to t <= q ->
  inject_Z g * two_to t <= round q.
Proof.
  intros He Hq. destruct (Qeq_dec q 0) as [E|E].
  - rewrite (round_zero q E). lra.
  - destruct He as [He|He]; [contradiction|].
    rewrite (round_nonzero q E). set (e := exponent q) in *.
    pose proof (two_to_pos e) as Pe.
    rewrite (scale_grid g t e He) in *.
    apply Qmult_le_compat_r; [|lra]. rewrite <- Zle_Qle.
    apply rne_above_half.
    assert (inject_Z (g * 2 ^ (t - e)) <= q / two_to e) by (apply Qle_shift_div_l; lra).
    lra.
Qed.

(** Numbers below [2^53] in size round on a grid that holds the
    integers. *)
Lemma small_exponent q : Qabs q < two_to 53 -> q == 0 \/ (exponent q <= 0)%Z.
Proof.
  intros H. destruct (Qeq_dec q 0) as [E|E]; [now left|right].
  apply exponent_le; [lia|exact E|exact H].
Qed.

Lemma round_le_Z q (g : Z) : Qabs q < two_to 53 -> q <= inject_Z g -> round q <= inject_Z g.
Proof.
  intros Hs H. pose proof (round_le q g 0 (small_exponent q Hs)) as R.
  change (two_to 0) with 1 in R. rewrite Qmult_1_r in R. auto.
Qed.

Lemma round_ge_Z q (g : Z) : Qabs q < two_to 53 -> inject_Z g <= q -> inject_Z g <= round q.
Proof.
  intros Hs H. pose proof (round_ge q g 0 (small_exponent q Hs)) as R.
  change (two_to 0) with 1 in R. rewrite Qmult_1_r in R. auto.
Qed.

Lemma round_Z q (z : Z) : Qabs q < two_to 53 -> q == inject_Z z -> round q == inject_Z z.
Proof.
  intros Hs E. apply Qle_antisym; [apply round_le_Z|apply round_ge_Z]; auto; lra.
Qed.

Lemma two_to_971 : 360 < two_to 971.
Proof.
  assert (H : two_to 9 <= two_to 971) by (apply two_to_le; lia).
  assert (E : two_to 9 == 512) by reflexivity. slra.
Qed.

Lemma two_to_53 : 360 < two_to 53.
Proof.
  assert (H : two_to 9 <= two_to 53) by (apply two_to_le; lia).
  assert (E : two_to 9 == 512) by reflexivity. slra.
Qed.

Lemma max_double_eq : max_double == two_to 1024 - two_to 971.
Proof.
  unfold max_double. unfold Z.sub. rewrite inject_Z_plus, <- two_to_Z by lia.
  change 1024%Z with (53 + 971)%Z. rewrite two_to_plus.
  change (inject_Z (- (1))) with (-1). ring.
Qed.

Lemma fl_finite q :
  - max_double <= round q <= max_double -> fl q = Finite (round q).
Proof.
  intros H. unfold fl. cbv zeta.
  destruct (Qle_bool (two_to 1024) (Qabs (round q))) eqn:E; [|reflexivity].
  apply Qle_bool_iff in E. exfalso.
  assert (Ha : Qabs (round q) <= max_double) by (apply Qabs_Qle_condition; slra).
  pose proof max_double_eq. pose proof two_to_971. slra.
Qed.

Lemma exponent_binade q e :
  two_to (e + 52) <= q -> q < two_to (e + 53) -> (-1074 <= e)%Z -> exponent q = e.
Proof.
  intros H1 H2 He. unfold exponent.
  assert (Hq : 0 < q) by (pose proof (two_to_pos (e + 52)); slra).
  assert (Ha : Qabs q == q) by (apply Qabs_pos; slra).
  assert (Hp : 0 < Qabs q) by slra.
  destruct (ilog2_spec (Qabs q) Hp) as [L U].
  assert (A : (ilog2 (Qabs q) < e + 53)%Z) by (apply two_to_lt_inv; slra).
  assert (B : (e + 52 < ilog2 (Qabs q) + 1)%Z) by (apply two_to_lt_inv; slra).
  lia.
Qed.

(** Adding 180 to a double does not overflow. *)
Lemma round_sum_bounded v :
  Qabs v <= max_double -> - max_double <= round (v + 180) <= max_double.
Proof.
  intros Hv. apply Qabs_Qle_condition in Hv.
  pose proof max_double_eq as Em. pose proof two_to_971 as H971.
  set (q := v + 180).
  assert (Hq : Qabs q < two_to 1024).
  { apply Qabs_case; intros; unfold q; slra. }
  assert (He : q == 0 \/ (exponent q <= 971)%Z).
  { destruct (Qeq_dec q 0) as [E|E]; [now left|right].
    apply exponent_le; [lia|exact E|exact Hq]. }
  split.
  - assert (G : inject_Z (- (2 ^ 53 - 1)) * two_to 971 == - max_double).
    { unfold max_double. rewrite inject_Z_opp. ring. }
    rewrite <- G. apply round_ge; [exact He|]. rewrite G. unfold q. slra.
  - destruct (Qlt_le_dec max_double q) as [Hbig|Hsmall].
    + assert (Ex : exponent q = 971%Z).
      { apply exponent_binade; [|exact (Qle_lt_trans _ _ _ (Qle_Qabs q) Hq)|lia].
        change (971 + 52)%Z with 1023%Z.
        assert (two_to 1024 == 2 * two_to 1023) by (apply (two_to_succ 1023)).
        assert (two_to 971 <= two_to 1023) by (apply two_to_le; lia). slra. }
      assert (Hne : ~ q == 0).
      { intros E. pose proof (two_to_pos 1024). slra. }
      rewrite (round_nonzero q Hne), Ex. unfold max_double.
      apply Qmult_le_compat_r; [|pose proof (two_to_pos 971); slra].
      rewrite <- Zle_Qle. apply rne_below_half.
      apply Qlt_shift_div_r; [apply two_to_pos|].
      fold max_double. unfold q.
      setoid_replace ((inject_Z (2 ^ 53 - 1) + (1 # 2)) * two_to 971)
        with (max_double + (1 # 2) * two_to 971) using relation Qeq
        by (unfold max_double; ring).
      slra.
    + apply round_le; [exact He|exact Hsmall].
Qed.

Lemma trunc_bounds x :
  (0 <= x -> 0 <= x - inject_Z (trunc x) < 1) /\
  (x < 0 -> -1 < x - inject_Z (trunc x) <= 0).
Proof.
  unfold trunc. split; intros H.
  - assert (E : Qle_bool 0 x = true) by (now apply Qle_bool_iff). rewrite E.
    pose proof (Qfloor_le x). pose proof (Qlt_floor x) as L.
    rewrite inject_Z_succ in L. slra.
  - assert (E : Qle_bool 0 x = false).
    { destruct (Qle_bool 0 x) eqn:E; [|reflexivity]. apply Qle_bool_iff in E. slra. }
    rewrite E. pose proof (Qle_ceiling x). pose proof (Qceiling_lt x) as L.
    rewrite inject_Z_pred in L. slra.
Qed.

(** The remainder of C's [fmod] by 360, and what Python's [%] makes of
    it before any rounding. *)
Lemma fmod_360 s :
  let r := s - 360 * inject_Z (trunc (s / 360)) in
  -360 < r < 360 /\ (r < 0 -> r + 360 == pymod s 360) /\ (0 <= r -> r == pymod s 360).
Proof.
  cbv zeta. set (x := s / 360).
  assert (Es : s == 360 * x) by (unfold x; field).
  destruct (trunc_bounds x) as [Hpos Hneg].
  destruct (pymod_bounds s 360) as [P0 P1]; [reflexivity|].
  assert (Ep : pymod s 360 == s - 360 * inject_Z (Qfloor x)) by reflexivity.
  clearbody x.
  set (r := s - 360 * inject_Z (trunc x)).
  assert (Hr : -360 < r < 360).
  { unfold r. destruct (Qlt_le_dec x 0) as [H|H];
      [destruct (Hneg H)|destruct (Hpos H)]; slra. }
  split; [exact Hr|]. split; intros H.
  - apply (remainder_unique 360 _ _ (Qfloor x - trunc x + 1)); [reflexivity|slra|slra|].
    unfold Z.sub. rewrite !inject_Z_plus, !inject_Z_opp. change (inject_Z 1) with 1.
    unfold r. slra.
  - apply (remainder_unique 360 _ _ (Qfloor x - trunc x)); [reflexivity|slra|slra|].
    unfold Z.sub. rewrite !inject_Z_plus, !inject_Z_opp. unfold r. slra.
Qed.

Lemma small_360 q : -360 <= q <= 360 -> Qabs q < two_to 53.
Proof.
  intros H. pose proof two_to_53. apply Qabs_case; intros; slra.
Qed.

Lemma fl_small q (lo hi : Z) :
  (-360 <= lo)%Z -> (hi <= 360)%Z -> inject_Z lo <= q <= inject_Z hi ->
  fl q = Finite (round q) /\ inject_Z lo <= round q <= inject_Z hi.
Proof.
  intros Hlo Hhi Hq.
  assert (L : inject_Z (-360) <= inject_Z lo) by (rewrite <- Zle_Qle; lia).
  assert (U : inject_Z hi <= inject_Z 360) by (rewrite <- Zle_Qle; lia).
  change (inject_Z (-360)) with (-360) in L. change (inject_Z 360) with 360 in U.
  assert (Hs : Qabs q < two_to 53) by (apply small_360; slra).
  assert (B : inject_Z lo <= round q <= inject_Z hi).
  { split; [apply round_ge_Z|apply round_le_Z]; auto; slra. }
  split; [|exact B]. apply fl_finite.
  pose proof max_double_eq. pose proof two_to_971.
  assert (two_to 971 <= two_to 1023) by (apply two_to_le; lia).
  assert (two_to 1024 == 2 * two_to 1023) by (apply (two_to_succ 1023)). slra.
Qed.

(** Python's [%] by 360 on a double. *)
Lemma float_rem_360 s :
  exists m p,
    float_rem (Finite s) (Finite 360) = Finite m /\ 0 <= m <= 360 /\
    p == pymod s 360 /\ (m == p \/ m = round p).
Proof.
  unfold float_rem, fmod. cbv zeta.
  change (Qeq_bool 360 0) with false. cbv iota.
  destruct (fmod_360 s) as (Hr & Hneg & Hpos). cbv zeta in Hr, Hneg, Hpos.
  set (r := s - 360 * inject_Z (trunc (s / 360))) in *.
  destruct (pymod_bounds s 360) as [P0 P1]; [reflexivity|].
  unfold nonzero, negative. change (Qle_bool 0 360) with true. cbn [negb].
  destruct (Qeq_bool r 0) eqn:Ez; cbn [negb].
  - apply Qeq_bool_iff in Ez. exists 0, r. split; [reflexivity|].
    split; [slra|]. split; [apply Hpos; slra|left; slra].
  - destruct (Qle_bool 0 r) eqn:En; cbn [negb Bool.eqb].
    + apply Qle_bool_iff in En. exists r, r. split; [reflexivity|].
      split; [slra|]. split; [now apply Hpos|left; reflexivity].
    + assert (Hn : r < 0).
      { apply Qnot_le_lt. intros H. apply Qle_bool_iff in H. congruence. }
      unfold fadd. destruct (fl_small (r + 360) 0 360) as [Ef B]; [lia|lia| |].
      { change (inject_Z 0) with 0. change (inject_Z 360) with 360. slra. }
      change (inject_Z 0) with 0 in B. change (inject_Z 360) with 360 in B.
      exists (round (r + 360)), (r + 360). split; [exact Ef|].
      split; [exact B|]. split; [now apply Hneg|right; reflexivity].
Qed.

(** The wrap on a double. *)
Lemma wrap_bounds v :
  Qabs v <= max_double ->
  exists lon, _add_gridline_label (Finite v) "x" = Finite lon /\ -180 <= lon <= 180.
Proof.
  intros Hv. unfold _add_gridline_label. cbn [String.eqb Ascii.eqb Bool.eqb].
  unfold fadd at 1. rewrite (fl_finite _ (round_sum_bounded v Hv)).
  destruct (float_rem_360 (round (v + 180))) as (m & p & Em & Bm & _). rewrite Em.
  unfold fsub, fneg, fadd.
  destruct (fl_small (m + - 180) (-180) 180) as [Ef B]; [lia|lia| |].
  { change (inject_Z (-180)) with (-180). change (inject_Z 180) with 180. slra. }
  change (inject_Z (-180)) with (-180) in B. change (inject_Z 180) with 180 in B.
  exists (round (m + - 180)). split; [exact Ef|exact B].
Qed.

(** On whole numbers the wrap is exact. *)
Lemma wrap_exact v (z : Z) :
  v == inject_Z z -> (Z.abs z <= 2 ^ 52)%Z ->
  exists lon, _add_gridline_label (Finite v) "x" = Finite lon /\
              lon == pymod (v + 180) 360 - 180 /\
              lon == inject_Z (z - 360 * Qfloor ((v + 180) / 360)).
Proof.
  intros Ev Hz.
  assert (Ew : pymod (v + 180) 360 - 180
               == inject_Z (z - 360 * Qfloor ((v + 180) / 360))).
  { unfold pymod, Z.sub. rewrite inject_Z_plus, inject_Z_opp, inject_Z_mult.
    change (inject_Z 360) with 360. slra. }
  cut (exists lon, _add_gridline_label (Finite v) "x" = Finite lon /\
                   lon == pymod (v + 180) 360 - 180).
  { intros (lon & E & H). exists lon. split; [exact E|]. split; [exact H|].
    now rewrite H. }
  assert (B52 : inject_Z (Z.abs z) <= inject_Z (2 ^ 52)) by (rewrite <- Zle_Qle; exact Hz).
  assert (E52 : inject_Z (2 ^ 52) == two_to 52) by (rewrite two_to_Z by lia; reflexivity).
  assert (E53 : two_to 53 == 2 * two_to 52) by (apply (two_to_succ 52)).
  assert (L52 : 360 < two_to 52).
  { assert (H : two_to 9 <= two_to 52) by (apply two_to_le; lia).
    assert (E : two_to 9 == 512) by reflexivity. slra. }
  assert (Habs : Qabs v <= two_to 52).
  { rewrite Ev. rewrite <- E52. unfold Qabs. cbn [inject_Z]. exact B52. }
  apply Qabs_Qle_condition in Habs.
  assert (Hmax : Qabs v <= max_double).
  { apply Qabs_Qle_condition. pose proof max_double_eq. pose proof two_to_971.
    assert (two_to 52 <= two_to 971) by (apply two_to_le; lia).
    assert (two_to 971 <= two_to 1023) by (apply two_to_le; lia).
    assert (two_to 1024 == 2 * two_to 1023) by (apply (two_to_succ 1023)). slra. }
  unfold _add_gridline_label. cbn [String.eqb Ascii.eqb Bool.eqb].
  unfold fadd at 1. rewrite (fl_finite _ (round_sum_bounded v Hmax)).
  assert (Es : round (v + 180) == v + 180).
  { rewrite (round_Z (v + 180) (z + 180)).
    - rewrite inject_Z_plus, Ev. reflexivity.
    - apply Qabs_case; intros; slra.
    - rewrite inject_Z_plus, Ev. reflexivity. }
  destruct (float_rem_360 (round (v + 180))) as (m & p & Em & Bm & Ep & Hm). rewrite Em.
  assert (Epy : pymod (round (v + 180)) 360 == pymod (v + 180) 360).
  { unfold pymod. assert (Ed : round (v + 180) / 360 == (v + 180) / 360) by (now rewrite Es).
    rewrite (Qfloor_comp _ _ Ed). slra. }
  assert (Ez : p == inject_Z (z + 180 - 360 * Qfloor ((v + 180) / 360))).
  { rewrite Ep, Epy. unfold pymod. unfold Z.sub.
    rewrite !inject_Z_plus, inject_Z_opp, inject_Z_mult.
    change (inject_Z 180) with 180. change (inject_Z 360) with 360. slra. }
  assert (Emp : m == p).
  { destruct Hm as [H|H]; [exact H|]. subst m.
    destruct (pymod_bounds (v + 180) 360) as [P0 P1]; [reflexivity|].
    rewrite (round_Z p _ (small_360 p ltac:(slra)) Ez). now rewrite Ez. }
  unfold fsub, fneg, fadd.
  destruct (pymod_bounds (v + 180) 360) as [P0 P1]; [reflexivity|].
  destruct (fl_small (m + - 180) (-180) 180) as [Ef _]; [lia|lia| |].
  { change (inject_Z (-180)) with (-180). change (inject_Z 180) with 180. slra. }
  exists (round (m + - 180)). split; [exact Ef|].
  rewrite (round_Z (m + - 180) (z + 180 - 360 * Qfloor ((v + 180) / 360) - 180)).
  - unfold Z.sub at 1. rewrite inject_Z_plus, <- Ez, <- Epy, <- Ep. reflexivity.
  - apply small_360. slra.
  - unfold Z.sub at 1. rewrite inject_Z_plus, <- Ez, Emp. reflexivity.
Qed.

End Doubles.

(** C9, as amended. Longitude label wrap on doubles: every finite value
    is handed on as a finite value of the closed interval from -180 to
    180. For a whole number of degrees (up to [2 ^ 52] in size) the
    arithmetic is exact: the result lies in the half-open interval from
    -180 (included) to 180 (excluded) and differs from the input by a
    whole number of turns. The upper end is met off the whole numbers: the
    double next below -180 is handed on as 180. *)
Theorem longitude_label_wraps_into_closed_interval (value : Q) :
  (Qabs value <= max_double)%Q ->
  (exists lon,
     Geo._add_gridline_label (Geo.Finite value) "x" = Geo.Finite lon /\
     (-180 <= lon <= 180)%Q) /\
  (forall z : Z,
     (value == inject_Z z)%Q -> (Z.abs z <= 2 ^ 52)%Z ->
     exists lon,
       Geo._add_gridline_label (Geo.Finite value) "x" = Geo.Finite lon /\
       (-180 <= lon < 180)%Q /\
       exists k : Z, (lon == value - 360 * inject_Z k)%Q) /\
  (exists lon,
     Geo._add_gridline_label (Geo.Finite (- 180 - (1 # 35184372088832))) "x"
     = Geo.Finite lon /\ (lon == 180)%Q).
Proof.
  intros Hv. split; [exact (wrap_bounds value Hv)|]. split.
  - intros z Ez Hz. destruct (wrap_exact value z Ez Hz) as (lon & E & Hl & _).
    exists lon. split; [exact E|].
    destruct (pymod_bounds (value + 180) 360) as [P0 P1]; [reflexivity|].
    split; [split; lra|].
    exists (Qfloor ((value + 180) / 360)). rewrite Hl. unfold Geo.pymod. lra.
  - eexists. split; [vm_compute; reflexivity|]. vm_compute. reflexivity.
Qed.

Lemma longitude_label_wraps_into_closed_interval_witness :
  (Qabs 190 <= max_double)%Q /\
  exists lon,
    Geo._add_gridline_label (Geo.Finite 190) "x" = Geo.Finite lon /\
    (-180 <= lon < 180)%Q /\ exists k : Z, (lon == 190 - 360 * inject_Z k)%Q.
Proof.
  assert (H1 : (Qabs 190 <= max_double)%Q) by (apply Qle_bool_iff; vm_compute; reflexivity).
  assert (H2 : (190 == inject_Z 190)%Q) by reflexivity.
  assert (H3 : (Z.abs 190 <= 2 ^ 52)%Z) by (vm_compute; discriminate).
  split; [exact H1|].
  exact (proj1 (proj2 (longitude_label_wraps_into_closed_interval 190 H1)) 190%Z H2 H3).
Defined.

(** The value 180 is handed on as -180, which the interval of the claim
    leaves out. *)
Lemma longitude_180_wraps_to_minus_180 :
  exists lon,
    Geo._add_gridline_label (Geo.Finite 180) "x" = Geo.Finite lon /\
    (lon == -180)%Q /\ ~ (-180 < lon /\ lon <= 180)%Q.
Proof.
  eexists. split; [vm_compute; reflexivity|]. split; [vm_compute; reflexivity|].
  intros [H _]. vm_compute in H. discriminate H.
Qed.

(** Three doubles off the whole numbers. The double nearest to 0.1 comes
    back changed in its last places; the double next below 180 is handed
    on as -180; and the double next below -180 is handed on as 180, which
    a second wrap turns into -180. *)
Example wrap_rounds_off_the_whole_numbers :
  (exists lon,
     Geo._add_gridline_label (Geo.Finite (3602879701896397 # 36028797018963968)) "x"
     = Geo.Finite lon /\ (lon == 3518437208883 # 35184372088832)%Q /\
     ~ (lon == 3602879701896397 # 36028797018963968)%Q) /\
  (exists lon,
     Geo._add_gridline_label (Geo.Finite (180 - (1 # 35184372088832))) "x"
     = Geo.Finite lon /\ (lon == -180)%Q) /\
  (exists lon again,
     Geo._add_gridline_label (Geo.Finite (- 180 - (1 # 35184372088832))) "x"
     = Geo.Finite lon /\ (lon == 180)%Q /\
     Geo._add_gridline_label (Geo.Finite lon) "x" = Geo.Finite again /\
     (again == -180)%Q).
Proof.
  split; [|split].
  - eexists. split; [vm_compute; reflexivity|]. split; [vm_compute; reflexivity|].
    intros H. vm_compute in H. discriminate H.
  - eexists. split; [vm_compute; reflexivity|]. vm_compute. reflexivity.
  - eexists. eexists. split; [vm_compute; reflexivity|].
    split; [vm_compute; reflexivity|].
    split; [vm_compute; reflexivity|vm_compute; reflexivity].
Qed.

(** X11. The longitude wrap on whole degrees: for a whole number of
    degrees (up to [2 ^ 52] in size) the wrap is a normal form. A value
    from -180 (included) to 180 (excluded) is handed on as it is; wrapping
    the result again gives the result; and a value a whole number of turns
    away gets the same result. The label of any other axis is not touched.
    Off the whole numbers this fails: the double next below -180 is
    wrapped to 180, and wrapping that again gives -180. *)
Theorem longitude_wrap_is_a_normal_form_on_whole_degrees
    (value : Q) (z k : Z) (other : Geo.float) (axis : string) :
  (value == inject_Z z)%Q -> (Z.abs z <= 2 ^ 52)%Z ->
  (exists lon,
     Geo._add_gridline_label (Geo.Finite value) "x" = Geo.Finite lon /\
     ((-180 <= value < 180)%Q -> (lon == value)%Q) /\
     (exists again,
        Geo._add_gridline_label (Geo.Finite lon) "x" = Geo.Finite again /\
        (again == lon)%Q) /\
     ((Z.abs (z + 360 * k) <= 2 ^ 52)%Z ->
      exists turned,
        Geo._add_gridline_label (Geo.Finite (value + 360 * inject_Z k)) "x"
        = Geo.Finite turned /\ (turned == lon)%Q)) /\
  (axis <> "x"%string -> Geo._add_gridline_label other axis = other) /\
  (exists lon again,
     Geo._add_gridline_label (Geo.Finite (- 180 - (1 # 35184372088832))) "x"
     = Geo.Finite lon /\ (lon == 180)%Q /\
     Geo._add_gridline_label (Geo.Finite lon) "x" = Geo.Finite again /\
     (again == -180)%Q).
Proof.
  intros Ez Hz. split; [|split].
  - destruct (wrap_exact value z Ez Hz) as (lon & E & Hl & Hw).
    destruct (pymod_bounds (value + 180) 360) as [P0 P1]; [reflexivity|].
    exists lon. split; [exact E|]. split; [|split].
    + intros Hr. rewrite Hl, pymod_small; lra.
    + assert (Hz' : (Z.abs (z - 360 * Qfloor ((value + 180) / 360)) <= 2 ^ 52)%Z).
      { assert (B : (-180 <= inject_Z (z - 360 * Qfloor ((value + 180) / 360)) < 180)%Q)
          by (rewrite <- Hw; lra).
        destruct B as [B1 B2]. set (F := Qfloor ((value + 180) / 360)) in *.
        change (-180)%Q with (inject_Z (-180)) in B1.
        change 180%Q with (inject_Z 180) in B2.
        rewrite <- Zle_Qle in B1. rewrite <- Zlt_Qlt in B2.
        assert (180 < 2 ^ 52)%Z by reflexivity. lia. }
      destruct (wrap_exact lon _ Hw Hz') as (again & E2 & Hl2 & _).
      exists again. split; [exact E2|]. rewrite Hl2, pymod_small; lra.
    + intros Hk.
      assert (Ek : (value + 360 * inject_Z k == inject_Z (z + 360 * k))%Q).
      { rewrite inject_Z_plus, inject_Z_mult. change (inject_Z 360) with 360%Q. lra. }
      destruct (wrap_exact _ _ Ek Hk) as (turned & E3 & Hl3 & _).
      exists turned. split; [exact E3|]. rewrite Hl3, Hl.
      assert (Ep : (Geo.pymod (value + 360 * inject_Z k + 180) 360
                    == Geo.pymod (value + 180) 360)%Q).
      { rewrite <- (pymod_periodic (value + 180) 360 k) by reflexivity.
        apply pymod_comp. ring. }
      lra.
  - intros Hne. unfold Geo._add_gridline_label.
    apply String.eqb_neq in Hne. now rewrite Hne.
  - eexists. eexists. split; [vm_compute; reflexivity|].
    split; [vm_compute; reflexivity|].
    split; [vm_compute; reflexivity|vm_compute; reflexivity].
Qed.

Lemma longitude_wrap_is_a_normal_form_on_whole_degrees_witness :
  (540 == inject_Z 540)%Q /\ (Z.abs 540 <= 2 ^ 52)%Z /\
  exists lon,
    Geo._add_gridline_label (Geo.Finite 540) "x" = Geo.Finite lon /\
    exists again,
      Geo._add_gridline_label (Geo.Finite lon) "x" = Geo.Finite again /\
      (again == lon)%Q.
Proof.
  assert (H1 : (540 == inject_Z 540)%Q) by reflexivity.
  assert (H2 : (Z.abs 540 <= 2 ^ 52)%Z) by (vm_compute; discriminate).
  split; [exact H1|]. split; [exact H2|].
  destruct (proj1 (longitude_wrap_is_a_normal_form_on_whole_degrees
                     540 540 0 (Geo.Finite 0) "y" H1 H2))
    as (lon & E & _ & Hagain & _).
  exists lon. split; [exact E|exact Hagain].
Defined.

(** ** What a share set-up leaves alone *)

Lemma below_panel n sl r ps p s :
  sl !! r = Some ps -> In (PAxes p) ps -> In s (below n sl p) -> In s (below (S n) sl r).
Proof.
  intros Hr Hp Hs. cbn [below]. right. rewrite Hr. apply in_flat_map.
  exists (PAxes p). split; [exact Hp|exact Hs].
Qed.

Lemma links_of_pair_source n sl (rec : ref -> ref -> list (ref * ref)) r ps p q s t :
  (forall a b s t, In (s, t) (rec a b) -> In s (below n sl a)) ->
  sl !! r = Some ps -> In p ps ->
  In (s, t) (links_of_pair rec p q) -> In s (below (S n) sl r).
Proof.
  intros IH Hr Hp H. destruct p as [| |p]; try destruct H. destruct q as [| |q]; try destruct H.
  cbn [links_of_pair] in H. eapply below_panel; eauto.
Qed.

Lemma links_of_single_source n sl (rec : ref -> ref -> list (ref * ref)) r ps p b s t :
  (forall a b s t, In (s, t) (rec a b) -> In s (below n sl a)) ->
  sl !! r = Some ps -> In p ps ->
  In (s, t) (links_of_single rec p b) -> In s (below (S n) sl r).
Proof.
  intros IH Hr Hp H. destruct p as [| |p]; try destruct H.
  cbn [links_of_single] in H. eapply below_panel; eauto.
Qed.

(** Every link of a share set-up starts at the axes it is called on or at
    a panel below it. *)
Lemma sharex_links_sources n sl : forall a b s t,
  In (s, t) (sharex_links_made n sl a b) -> In s (below n sl a).
Proof.
  induction n as [|n IH]; intros a b s t H.
  - cbn [sharex_links_made] in H. destruct (a =? b); destruct H.
  - cbn [sharex_links_made] in H. destruct (a =? b); [destruct H|].
    destruct (sl !! a) as [ps|] eqn:Ea; [|destruct H].
    destruct ps as [|l [|r [|bo [|to [|? ?]]]]]; try destruct H.
    destruct (sl !! b) as [qs|]; [|destruct H].
    destruct qs as [|l' [|r' [|bo' [|to' [|? ?]]]]]; try destruct H.
    rewrite !in_app_iff in H. destruct H as [H|[H|[H|[H|H]]]].
    + eapply (links_of_pair_source n sl _ a _ l); eauto. now left.
    + eapply (links_of_pair_source n sl _ a _ r); eauto. right. now left.
    + eapply (links_of_single_source n sl _ a _ bo); eauto. right. right. now left.
    + eapply (links_of_single_source n sl _ a _ to); eauto. right. right. right. now left.
    + destruct H as [H|[]]. injection H as <- <-. now left.
Qed.

Lemma sharey_links_sources n sl : forall a b s t,
  In (s, t) (sharey_links_made n sl a b) -> In s (below n sl a).
Proof.
  induction n as [|n IH]; intros a b s t H.
  - cbn [sharey_links_made] in H. destruct (a =? b); destruct H.
  - cbn [sharey_links_made] in H. destruct (a =? b); [destruct H|].
    destruct (sl !! a) as [ps|] eqn:Ea; [|destruct H].
    destruct ps as [|l [|r [|bo [|to [|? ?]]]]]; try destruct H.
    destruct (sl !! b) as [qs|]; [|destruct H].
    destruct qs as [|l' [|r' [|bo' [|to' [|? ?]]]]]; try destruct H.
    rewrite !in_app_iff in H. destruct H as [H|[H|[H|[H|H]]]].
    + eapply (links_of_pair_source n sl _ a _ bo); eauto. right. right. now left.
    + eapply (links_of_pair_source n sl _ a _ to); eauto. right. right. right. now left.
    + eapply (links_of_single_source n sl _ a _ l); eauto. now left.
    + eapply (links_of_single_source n sl _ a _ r); eauto. right. now left.
    + destruct H as [H|[]]. injection H as <- <-. now left.
Qed.

Lemma last_target_none L r : ~ In r (map fst L) -> last_target L r = None.
Proof.
  induction L as [|[a b] L IH] using rev_ind; intros H; [reflexivity|].
  rewrite last_target_snoc. rewrite List.map_app, in_app_iff in H. cbn [map fst In] in H.
  destruct (a =? r) eqn:E.
  - apply Nat.eqb_eq in E. tauto.
  - apply IH. tauto.
Qed.

Lemma links_leave_alone (made : list (ref * ref)) (srcs : list ref) r :
  (forall s t, In (s, t) made -> In s srcs) -> ~ In r srcs -> last_target made r = None.
Proof.
  intros Hs Hr. apply last_target_none. intros H. apply in_map_iff in H.
  destruct H as ([s t] & E & H). cbn [fst] in E. subst s. apply Hr. eauto.
Qed.

(** C3, as amended. Share propagation to panels: for axes [a] other than
    [b], on a heap whose panel attributes hold live axes and where the
    panels below [a] are nested less than [fuel] deep,
    [a._sharex_setup(b)] returns and puts [a], the bottom and the top
    panel of [a] into the x class of [b], and the left (right) panel of
    [a] into the x class of the left (right) panel of [b] when both have
    one; [a._sharey_setup(b)] does the same with the roles of left/right
    and bottom/top exchanged. The call changes attributes only on [a] and
    on the panels below [a]: every other object, a panel of [b] included
    unless it is [a] or one of the panels below [a], is as it was, and so
    is the figure. *)
Theorem share_propagates_to_own_panels fuel a b w :
  closed (slots w) = true -> b < length (heap w) ->
  panel_depth_le (slots w) fuel a = true -> a <> b ->
  (exists w',
     _sharex_setup fuel a (Some b) w = Ok w' /\ sharex_links w w' a b /\
     (forall r, ~ In r (below fuel (slots w) a) -> heap w' !! r = heap w !! r) /\
     fig w' = fig w) /\
  (exists w',
     _sharey_setup fuel a (Some b) w = Ok w' /\ sharey_links w w' a b /\
     (forall r, ~ In r (below fuel (slots w) a) -> heap w' !! r = heap w !! r) /\
     fig w' = fig w).
Proof.
  intros Hc Hb Hd Hne. split.
  - destruct (sharex_total fuel a b w Hc Hb Hd) as (w' & E & _ & L).
    exists w'. split; [exact E|]. split; [exact (L Hne)|].
    rewrite (sharex_trace fuel a b w Hc Hb Hd) in E. injection E as <-. split.
    + intros r Hr.
      rewrite (heap_fold_links link_x linked_x heap_link_x linked_x_absorbs).
      rewrite (links_leave_alone _ (below fuel (slots w) a) r); [reflexivity| |exact Hr].
      intros s t. apply sharex_links_sources.
    + apply (fig_fold_links link_x fig_link_x).
  - destruct (sharey_total fuel a b w Hc Hb Hd) as (w' & E & _ & L).
    exists w'. split; [exact E|]. split; [exact (L Hne)|].
    rewrite (sharey_trace fuel a b w Hc Hb Hd) in E. injection E as <-. split.
    + intros r Hr.
      rewrite (heap_fold_links link_y linked_y heap_link_y linked_y_absorbs).
      rewrite (links_leave_alone _ (below fuel (slots w) a) r); [reflexivity| |exact Hr].
      intros s t. apply sharey_links_sources.
    + apply (fig_fold_links link_y fig_link_y).
Qed.

Lemma share_propagates_to_own_panels_witness :
  closed (slots two_composites) = true /\ 3 < length (heap two_composites) /\
  panel_depth_le (slots two_composites) 2 0 = true /\ 0 <> 3 /\
  ((exists w', _sharex_setup 2 0 (Some 3) two_composites = Ok w'
               /\ sharex_links two_composites w' 0 3
               /\ (forall r, ~ In r (below 2 (slots two_composites) 0) ->
                              heap w' !! r = heap two_composites !! r)
               /\ fig w' = fig two_composites) /\
   (exists w', _sharey_setup 2 0 (Some 3) two_composites = Ok w'
               /\ sharey_links two_composites w' 0 3
               /\ (forall r, ~ In r (below 2 (slots two_composites) 0) ->
                              heap w' !! r = heap two_composites !! r)
               /\ fig w' = fig two_composites)).
Proof.
  assert (H1 : closed (slots two_composites) = true) by reflexivity.
  assert (H2 : 3 < length (heap two_composites)) by (simpl; lia).
  assert (H3 : panel_depth_le (slots two_composites) 2 0 = true) by reflexivity.
  assert (H4 : 0 <> 3) by lia.
  split; [exact H1|]. split; [exact H2|]. split; [exact H3|]. split; [exact H4|].
  exact (share_propagates_to_own_panels 2 0 3 two_composites H1 H2 H3 H4).
Defined.

(** Linking axes 0 to axes 1 leaves the bottom panel of axes 1 alone: it
    is in the class of neither and keeps its labels. *)
Lemma share_leaves_target_panels_alone :
  exists w' b,
    _sharex_setup 2 0 (Some 1) with_bottom_panel = Ok w' /\
    heap w' !! 1 = Some b /\ bottompanel b = PAxes 2 /\
    joined (_shared_x_axes w') 0 1 = true /\
    joined (_shared_x_axes w') 2 1 = false /\
    joined (_shared_x_axes w') 2 0 = false /\
    heap w' !! 2 = heap with_bottom_panel !! 2.
Proof.
  eexists. eexists. split; [vm_compute; reflexivity|]. split; [reflexivity|].
  repeat split; reflexivity.
Qed.
